(** * Sylverant PSO tools: archive containers and the PRS codec

    A shallow embedding of the archive code of the PSO tools (the AFS and GSL
    code of [pso_artool] and its newer form over libpsoarchive, the BML
    extraction of [bmltool], the key handling of the PRSD front end) and of
    the PRS codec interface, followed by the properties established for
    them.

    The C code works on stdio streams.  A stream is modelled by its contents
    and its position; every call whose result the C code checks may fail,
    driven by a list of injected faults that is part of the state.  The
    calls whose result the code does not look at ([fclose], [unlink],
    [close], [fchmod], and [ftell] everywhere but in [scan_gsl]) are taken
    to succeed, with the exception of the final [rename] of a writing
    operation, which may fail like a checked call.  A stream opened for
    writing holds its data until it is closed, at which point the data
    reaches the file system, a finite map from paths to contents; a stream
    opened for reading holds the contents the file had when it was opened.
    The two agree with the C library as long as no file is written while
    it is open for reading, which the properties of the extractions ask
    for.  [long] is taken to hold every file position (LP64); [uint32_t]
    arithmetic wraps. *)

From Stdlib Require Import ZArith List Lia Bool String Ascii.
From stdpp Require Import gmap strings list fin_maps.

Open Scope Z_scope.

(** ** Machine integers and byte buffers *)

Definition u8 (x : Z) : Z := x mod 256.
Definition u32 (x : Z) : Z := x mod 2 ^ 32.

(** Conversion of a [uint32_t] to [int]. *)
Definition to_int (x : Z) : Z := if x <? 2 ^ 31 then x else x - 2 ^ 32.

Definition byte_at (buf : list Z) (i : nat) : Z := nth i buf 0.

(** [buf[0] = (uint8_t)(x); buf[1] = (uint8_t)(x >> 8); ...] *)
Definition put_le32 (x : Z) : list Z :=
  [u8 x; u8 (Z.shiftr x 8); u8 (Z.shiftr x 16); u8 (Z.shiftr x 24)].

(** [buf[0] = (uint8_t)(x >> 24); ... buf[3] = (uint8_t)(x);] *)
Definition put_be32 (x : Z) : list Z :=
  [u8 (Z.shiftr x 24); u8 (Z.shiftr x 16); u8 (Z.shiftr x 8); u8 x].

(** [(buf[0]) | (buf[1] << 8) | (buf[2] << 16) | (buf[3] << 24)] *)
Definition get_le32 (buf : list Z) : Z :=
  u32 (Z.lor (Z.lor (Z.lor (byte_at buf 0) (Z.shiftl (byte_at buf 1) 8))
                    (Z.shiftl (byte_at buf 2) 16))
             (Z.shiftl (byte_at buf 3) 24)).

(** [(buf[3]) | (buf[2] << 8) | (buf[1] << 16) | (buf[0] << 24)] *)
Definition get_be32 (buf : list Z) : Z :=
  u32 (Z.lor (Z.lor (Z.lor (byte_at buf 3) (Z.shiftl (byte_at buf 2) 8))
                    (Z.shiftl (byte_at buf 1) 16))
             (Z.shiftl (byte_at buf 0) 24)).

Definition len {A} (l : list A) : Z := Z.of_nat (length l).

(** A C string held in a fixed buffer: the bytes before the first NUL. *)
Fixpoint cstr (buf : list Z) : list Z :=
  match buf with
  | [] => []
  | b :: r => if b =? 0 then [] else b :: cstr r
  end.

(** [strncpy(buf, s, n)]: at most [n] bytes of [s], zero filled up to [n]. *)
Definition strncpy (s : list Z) (n : nat) : list Z :=
  take n s ++ replicate (n - length (take n s)) 0.

Definition string_of_bytes (l : list Z) : string :=
  string_of_list_ascii (map (fun b => ascii_of_nat (Z.to_nat b)) l).

Definition bytes_of_string (s : string) : list Z :=
  map (fun a => Z.of_nat (nat_of_ascii a)) (list_ascii_of_string s).

(** ** The I/O monad *)

(** The state threaded through the code: the faults still to be injected
    (one entry is consumed by each fallible call, [true] makes it fail; an
    empty list injects nothing), the static [endianness] of gsl.c, and the
    six characters [mkstemp] will put in place of the [XXXXXX] of its
    template.  A computation yields [None] only when a loop runs out of
    fuel. *)
Record io_state : Type := mk_io {
  faults : list bool;
  endianness : Z;
  mkstemp_suffix : string
}.

Definition IO (A : Type) : Type := io_state -> option (A * io_state).

Definition ret {A} (a : A) : IO A := fun s => Some (a, s).

Definition bind {A B} (m : IO A) (k : A -> IO B) : IO B :=
  fun s => match m s with
           | Some (a, s') => k a s'
           | None => None
           end.

Definition diverge {A} : IO A := fun _ => None.

Notation "'let*' p ':=' m 'in' k" := (bind m (fun p => k))
  (at level 10, p pattern, m at level 100, k at level 200).

(** Total correctness: from every state the computation returns, and what it
    returns satisfies [Q]. *)
Definition post {A} (m : IO A) (Q : A -> Prop) : Prop :=
  forall st, exists a st', m st = Some (a, st') /\ Q a.

Abbreviation total m := (post m (fun _ => True)).

Definition fault : IO bool :=
  fun s => match faults s with
           | [] => Some (false, s)
           | b :: r => Some (b, mk_io r (endianness s) (mkstemp_suffix s))
           end.

Definition get_endianness : IO Z := fun s => Some (endianness s, s).

Definition set_endianness (e : Z) : IO unit :=
  fun s => Some (tt, mk_io (faults s) e (mkstemp_suffix s)).

(** ** stdio streams *)

Record FILE : Type := mk_file { f_data : list Z; f_pos : Z }.

Inductive whence : Type := SEEK_SET | SEEK_CUR | SEEK_END.

Definition ftell (f : FILE) : Z := f_pos f.

(** [fseek]: returns 0 and moves, or returns -1 and leaves the stream. *)
Definition fseek (f : FILE) (off : Z) (w : whence) : IO (Z * FILE) :=
  let* b := fault in
  let target := match w with
                | SEEK_SET => off
                | SEEK_CUR => f_pos f + off
                | SEEK_END => len (f_data f) + off
                end in
  if b || (target <? 0) then ret (-1, f)
  else ret (0, mk_file (f_data f) target).

(** [fread(buf, 1, n, f)]: the bytes read, fewer than [n] at the end of the
    file or on an error. *)
Definition fread (f : FILE) (n : Z) : IO (list Z * FILE) :=
  let* b := fault in
  if b then ret ([], f)
  else
    let bs := take (Z.to_nat n) (drop (Z.to_nat (f_pos f)) (f_data f)) in
    ret (bs, mk_file (f_data f) (f_pos f + len bs)).

(** The contents after writing [bs] at position [pos]; a gap between the
    end of the file and [pos] reads as zeros. *)
Definition write_at (data : list Z) (pos : nat) (bs : list Z) : list Z :=
  take pos data ++ replicate (pos - length data) 0 ++ bs
    ++ drop (pos + length bs) data.

(** [fwrite(bs, 1, n, f)]: the number of bytes written, 0 on an error. *)
Definition fwrite (f : FILE) (bs : list Z) : IO (Z * FILE) :=
  match bs with
  | [] => ret (0, f)
  | _ =>
    let* b := fault in
    if b then ret (0, f)
    else ret (len bs, mk_file (write_at (f_data f) (Z.to_nat (f_pos f)) bs)
                              (f_pos f + len bs))
  end.

(** ** The file system *)

Definition fopen_rb (fs : gmap string (list Z)) (fn : string)
  : IO (option FILE) :=
  let* b := fault in
  if b then ret None
  else ret (match fs !! fn with
            | Some d => Some (mk_file d 0)
            | None => None
            end).

(** [fopen(fn, "wb")]: creates or truncates the file. *)
Definition fopen_wb (fs : gmap string (list Z)) (fn : string)
  : IO (option FILE * gmap string (list Z)) :=
  let* b := fault in
  if b then ret (None, fs)
  else ret (Some (mk_file [] 0), <[fn := []]> fs).

(** [fclose] of a stream opened for writing on [fn]: its data reaches the
    file. *)
Definition fclose_w (fn : string) (f : FILE) (fs : gmap string (list Z))
  : gmap string (list Z) :=
  <[fn := f_data f]> fs.

Definition unlink (fn : string) (fs : gmap string (list Z))
  : gmap string (list Z) :=
  delete fn fs.

(** [mkstemp(template)]: the file descriptor (0, or -1 on failure), the name
    chosen and the file system with the new, empty file.  The name exists
    already only if the environment picked a suffix in use, which makes the
    call fail. *)
Definition mkstemp (fs : gmap string (list Z)) (template : string)
  : IO (Z * string * gmap string (list Z)) :=
  let* b := fault in
  fun s =>
    let name := (String.substring 0 (String.length template - 6) template
                 ++ mkstemp_suffix s)%string in
    if b then Some ((-1, template, fs), s)
    else match fs !! name with
         | Some _ => Some ((-1, template, fs), s)
         | None => Some ((0, name, <[name := []]> fs), s)
         end.

Definition fdopen_wb (fd : Z) : IO (option FILE) :=
  let* b := fault in
  if b then ret None else ret (Some (mk_file [] 0)).

(** [rename(old, new)]: 0 and the file moved over [new], or -1 and nothing
    changed. *)
Definition rename (old new : string) (fs : gmap string (list Z))
  : IO (Z * gmap string (list Z)) :=
  let* b := fault in
  if b then ret (-1, fs)
  else match fs !! old with
       | Some d => ret (0, <[new := d]> (delete old fs))
       | None => ret (-1, fs)
       end.

(** The way every writing operation of afs.c and gsl.c ends.  On a failure
    once the temporary stream is open: [fclose(ofp); unlink(tmpfn);]. *)
Definition abandon (tmpfn : string) (ofp : FILE) (fs : gmap string (list Z))
  : gmap string (list Z) :=
  unlink tmpfn (fclose_w tmpfn ofp fs).

(** When every file is copied: [fclose(ofp); rename(tmpfn, fn); return 0;].
    The result of [rename] is not looked at. *)
Definition commit (tmpfn fn : string) (ofp : FILE)
    (fs : gmap string (list Z)) : IO (Z * gmap string (list Z)) :=
  let fs := fclose_w tmpfn ofp fs in
  let* (_, fs) := rename tmpfn fn fs in
  ret (0, fs).

(** ** Helpers shared by afs.c, gsl.c and bmltool.c

    [copy_file] and [pad_file] are defined with the same text in the three
    files. *)

(** The [while(size > 512)] loop of [copy_file]; [size] bounds the number
    of its rounds. *)
Fixpoint copy_file_loop (fuel : nat) (dst src : FILE) (size : Z)
  : IO (Z * FILE * FILE * Z) :=
  if 512 <? size then
    match fuel with
    | O => diverge
    | S fuel =>
      let* (xbuf, src) := fread src 512 in
      if negb (len xbuf =? 512) then ret (-1, dst, src, size) else
      let* (n, dst) := fwrite dst xbuf in
      if negb (n =? 512) then ret (-2, dst, src, size) else
      copy_file_loop fuel dst src (size - 512)
    end
  else ret (0, dst, src, size).

Definition copy_file (dst src : FILE) (size : Z) : IO (Z * FILE * FILE) :=
  let* (rv, dst, src, size) := copy_file_loop (Z.to_nat size) dst src size in
  if negb (rv =? 0) then ret (rv, dst, src) else
  if negb (size =? 0) then
    let* (xbuf, src) := fread src size in
    if negb (len xbuf =? size) then ret (-3, dst, src) else
    let* (n, dst) := fwrite dst xbuf in
    if negb (n =? size) then ret (-4, dst, src) else
    ret (0, dst, src)
  else ret (0, dst, src).

Definition pad_file (fp : FILE) (boundary : Z) : IO (Z * FILE) :=
  let pos := ftell fp in
  if boundary <=? 0 then ret (pos, fp) else
  let pos := Z.land pos (Z.lnot (boundary - 1)) + boundary in
  let* (rc, fp) := fseek fp (pos - 1) SEEK_SET in
  if negb (rc =? 0) then ret (-1, fp) else
  let* (n, fp) := fwrite fp [0] in
  if negb (n =? 1) then ret (-1, fp) else
  ret (pos, fp).

(** ** printf conversions

    [%u] and [%0*u] of the C library for a [uint32_t], and the bounded
    [snprintf] that afs.c builds its output names with. *)

(** The decimal digits of [n], the last one first; a [uint32_t] has ten at
    most. *)
Fixpoint fmt_u_loop (fuel : nat) (n : Z) (acc : string) : string :=
  match fuel with
  | O => acc
  | S fuel =>
    let acc := String (ascii_of_nat (48 + Z.to_nat (n mod 10))) acc in
    if n / 10 =? 0 then acc else fmt_u_loop fuel (n / 10) acc
  end.

Definition fmt_u (n : Z) : string := fmt_u_loop 10 n "".

(** [%0*u] with the width [w]: zeros on the left up to the width. *)
Definition fmt_0u (w n : Z) : string :=
  let s := fmt_u n in
  (string_of_list_ascii
     (replicate (Z.to_nat w - String.length s) "0"%char) ++ s)%string.

(** [snprintf(buf, size, ...)] keeps [size - 1] characters of the text. *)
Definition snprintf (size : Z) (text : string) : string :=
  String.substring 0 (Z.to_nat (size - 1)) text.

(** ** afs.c: AFS archives (no file names) *)

Module Afs.

Record delete_cxt : Type := mk_delete_cxt {
  d_fp : FILE;
  d_items : list Z;
  d_fpos : Z;
  d_wpos : Z;
  d_copied_files : Z
}.

Record update_cxt : Type := mk_update_cxt {
  u_fp : FILE;
  u_item : Z;
  u_fn : string;
  u_fpos : Z;
  u_wpos : Z
}.

(** The eight bytes the archive starts with: the magic number and the entry
    count. *)
Definition afs_header (count : Z) : list Z :=
  [0x41; 0x46; 0x53; 0x00] ++ put_le32 count.

(** The streams opened for reading are handed back together with the entry
    count. *)
Definition open_afs (fs : gmap string (list Z)) (fn : string)
  : IO (option (FILE * Z)) :=
  let* o := fopen_rb fs fn in
  match o with
  | None => ret None
  | Some fp =>
    let* (buf, fp) := fread fp 4 in
    if negb (len buf =? 4) then ret None else
    if negb (byte_at buf 0 =? 0x41) || negb (byte_at buf 1 =? 0x46)
       || negb (byte_at buf 2 =? 0x53) || negb (byte_at buf 3 =? 0x00)
    then ret None else
    let* (buf, fp) := fread fp 4 in
    if negb (len buf =? 4) then ret None else
    ret (Some (fp, get_le32 buf))
  end.

Section Scan.
Context {D : Type}.
(** The callback [p(fp, i, cnt, sz, d)]; the user data [d] is handed back
    as the callback left it. *)
Variable p : FILE -> Z -> Z -> Z -> D -> IO (Z * FILE * D).

Fixpoint scan_afs_loop (n : nat) (i entries : Z) (fp : FILE) (rv : Z)
    (d : D) : IO (Z * D) :=
  match n with
  | O => ret (rv, d)
  | S n =>
    let* (buf, fp) := fread fp 4 in
    if negb (len buf =? 4) then ret (-2, d) else
    let offset := get_le32 buf in
    let* (buf, fp) := fread fp 4 in
    if negb (len buf =? 4) then ret (-3, d) else
    let size := get_le32 buf in
    let next := ftell fp in
    let* (rc, fp) := fseek fp offset SEEK_SET in
    if negb (rc =? 0) then ret (-4, d) else
    let* (r, fp, d) := p fp i entries size d in
    if negb (r =? 0) then ret (-5, d) else
    let* (rc, fp) := fseek fp next SEEK_SET in
    if negb (rc =? 0) then ret (-6, d) else
    scan_afs_loop n (i + 1) entries fp rv d
  end.

Definition scan_afs (fs : gmap string (list Z)) (fn : string) (d : D)
  : IO (Z * D) :=
  let* o := open_afs fs fn in
  match o with
  | None => ret (-1, d)
  | Some (fp, entries) =>
    scan_afs_loop (Z.to_nat entries) 0 entries fp (to_int entries) d
  end.
End Scan.

(** The result carries the stream and the positions the C code passes back
    through [rfpos] and [rwpos]. *)
Fixpoint add_files_to_afs (fs : gmap string (list Z)) (ofp : FILE)
    (fpos wpos : Z) (files : list string) : IO (Z * FILE * Z * Z) :=
  match files with
  | [] => ret (0, ofp, fpos, wpos)
  | file :: files =>
    let* o := fopen_rb fs file in
    match o with
    | None => ret (-1, ofp, fpos, wpos)
    | Some ifp =>
      let* (rc, ifp) := fseek ifp 0 SEEK_END in
      if negb (rc =? 0) then ret (-2, ofp, fpos, wpos) else
      let size := u32 (ftell ifp) in
      let* (rc, ifp) := fseek ifp 0 SEEK_SET in
      if negb (rc =? 0) then ret (-3, ofp, fpos, wpos) else
      let* (n, ofp) := fwrite ofp (put_le32 wpos ++ put_le32 size) in
      if negb (n =? 8) then ret (-4, ofp, fpos, wpos) else
      let fpos := ftell ofp in
      let* (rc, ofp) := fseek ofp wpos SEEK_SET in
      if negb (rc =? 0) then ret (-5, ofp, fpos, wpos) else
      let* (r, ofp, ifp) := copy_file ofp ifp size in
      if negb (r =? 0) then ret (-6, ofp, fpos, wpos) else
      let* (wpos, ofp) := pad_file ofp 2048 in
      if wpos =? -1 then ret (-7, ofp, fpos, wpos) else
      let* (rc, ofp) := fseek ofp fpos SEEK_SET in
      if negb (rc =? 0) then ret (-8, ofp, fpos, wpos) else
      add_files_to_afs fs ofp fpos wpos files
    end
  end.

Definition copy_file_cb (fp : FILE) (i cnt sz : Z) (ofp : FILE)
  : IO (Z * FILE * FILE) :=
  let fpos := u32 (Z.shiftl i 3) + 8 in
  let wpos := u32 (ftell ofp) in
  let wpos := if i =? 0 then 0x80000 else wpos in
  let buf := put_le32 wpos ++ put_le32 sz in
  let* (rc, ofp) := fseek ofp fpos SEEK_SET in
  if negb (rc =? 0) then ret (-1, fp, ofp) else
  let* (n, ofp) := fwrite ofp buf in
  if negb (n =? 8) then ret (-2, fp, ofp) else
  let* (rc, ofp) := fseek ofp wpos SEEK_SET in
  if negb (rc =? 0) then ret (-3, fp, ofp) else
  let* (r, ofp, fp) := copy_file ofp fp sz in
  if negb (r =? 0) then ret (-4, fp, ofp) else
  let* (r, ofp) := pad_file ofp 2048 in
  if r <? 0 then ret (-5, fp, ofp) else
  ret (0, fp, ofp).

Definition copy_filtered (fp : FILE) (i cnt sz : Z) (cxt : delete_cxt)
  : IO (Z * FILE * delete_cxt) :=
  if existsb (fun item => item =? i) (d_items cxt) then ret (0, fp, cxt) else
  let buf := put_le32 (d_wpos cxt) ++ put_le32 sz in
  let upd f fpos wpos copied :=
    mk_delete_cxt f (d_items cxt) fpos wpos copied in
  let* (rc, ofp) := fseek (d_fp cxt) (d_fpos cxt) SEEK_SET in
  let cxt := upd ofp (d_fpos cxt) (d_wpos cxt) (d_copied_files cxt) in
  if negb (rc =? 0) then ret (-1, fp, cxt) else
  let* (n, ofp) := fwrite (d_fp cxt) buf in
  let cxt := upd ofp (d_fpos cxt) (d_wpos cxt) (d_copied_files cxt) in
  if negb (n =? 8) then ret (-2, fp, cxt) else
  let cxt := upd ofp (d_fpos cxt + 8) (d_wpos cxt) (d_copied_files cxt) in
  let* (rc, ofp) := fseek (d_fp cxt) (d_wpos cxt) SEEK_SET in
  let cxt := upd ofp (d_fpos cxt) (d_wpos cxt) (d_copied_files cxt) in
  if negb (rc =? 0) then ret (-3, fp, cxt) else
  let* (r, ofp, fp) := copy_file (d_fp cxt) fp sz in
  let cxt := upd ofp (d_fpos cxt) (d_wpos cxt) (d_copied_files cxt) in
  if negb (r =? 0) then ret (-4, fp, cxt) else
  let* (wpos, ofp) := pad_file (d_fp cxt) 2048 in
  let cxt := upd ofp (d_fpos cxt) wpos (d_copied_files cxt) in
  if wpos <? 0 then ret (-5, fp, cxt) else
  ret (0, fp, upd ofp (d_fpos cxt) wpos (u32 (d_copied_files cxt + 1))).

Definition copy_update (fs : gmap string (list Z)) (fp : FILE)
    (i cnt sz : Z) (cxt : update_cxt) : IO (Z * FILE * update_cxt) :=
  let upd f fpos wpos := mk_update_cxt f (u_item cxt) (u_fn cxt) fpos wpos in
  if u_item cxt =? i then
    let* (rc, ofp) := fseek (u_fp cxt) (u_fpos cxt) SEEK_SET in
    let cxt := upd ofp (u_fpos cxt) (u_wpos cxt) in
    if negb (rc =? 0) then ret (-7, fp, cxt) else
    let* (r, ofp, fpos, wpos) :=
      add_files_to_afs fs (u_fp cxt) (u_fpos cxt) (u_wpos cxt) [u_fn cxt] in
    if negb (r =? 0) then ret (-6, fp, upd ofp (u_fpos cxt) (u_wpos cxt)) else
    ret (0, fp, upd ofp fpos wpos)
  else
  let buf := put_le32 (u_wpos cxt) ++ put_le32 sz in
  let* (rc, ofp) := fseek (u_fp cxt) (u_fpos cxt) SEEK_SET in
  let cxt := upd ofp (u_fpos cxt) (u_wpos cxt) in
  if negb (rc =? 0) then ret (-1, fp, cxt) else
  let* (n, ofp) := fwrite (u_fp cxt) buf in
  let cxt := upd ofp (u_fpos cxt) (u_wpos cxt) in
  if negb (n =? 8) then ret (-2, fp, cxt) else
  let cxt := upd ofp (u_fpos cxt + 8) (u_wpos cxt) in
  let* (rc, ofp) := fseek (u_fp cxt) (u_wpos cxt) SEEK_SET in
  let cxt := upd ofp (u_fpos cxt) (u_wpos cxt) in
  if negb (rc =? 0) then ret (-3, fp, cxt) else
  let* (r, ofp, fp) := copy_file (u_fp cxt) fp sz in
  let cxt := upd ofp (u_fpos cxt) (u_wpos cxt) in
  if negb (r =? 0) then ret (-4, fp, cxt) else
  let* (wpos, ofp) := pad_file (u_fp cxt) 2048 in
  let cxt := upd ofp (u_fpos cxt) wpos in
  if wpos <? 0 then ret (-5, fp, cxt) else
  ret (0, fp, cxt).

Definition create_afs (fs : gmap string (list Z)) (fn : string)
    (files : list string) : IO (Z * gmap string (list Z)) :=
  let count := len files in
  if 65535 <? count then ret (-14, fs) else
  let* (fd, tmpfn, fs) := mkstemp fs "afstoolXXXXXX" in
  if fd <? 0 then ret (-1, fs) else
  let* o := fdopen_wb fd in
  match o with
  | None => ret (-2, unlink tmpfn fs)
  | Some ofp =>
    let* (n, ofp) := fwrite ofp (afs_header count) in
    if negb (n =? 8) then ret (-3, abandon tmpfn ofp fs) else
    let fpos := ftell ofp in
    let* (rc, ofp) := fseek ofp 0x80000 SEEK_SET in
    if negb (rc =? 0) then ret (-4, abandon tmpfn ofp fs) else
    let wpos := ftell ofp in
    let* (rc, ofp) := fseek ofp fpos SEEK_SET in
    if negb (rc =? 0) then ret (-5, abandon tmpfn ofp fs) else
    let* (r, ofp, _, _) := add_files_to_afs fs ofp fpos wpos files in
    if negb (r =? 0) then ret (-6, abandon tmpfn ofp fs) else
    commit tmpfn fn ofp fs
  end.

Definition add_to_afs (fs : gmap string (list Z)) (fn : string)
    (files : list string) : IO (Z * gmap string (list Z)) :=
  let count := len files in
  let* (fd, tmpfn, fs) := mkstemp fs "afstoolXXXXXX" in
  if fd <? 0 then ret (-1, fs) else
  let* o := fdopen_wb fd in
  match o with
  | None => ret (-2, unlink tmpfn fs)
  | Some ofp =>
    let fpos := 8 in
    let* (rc, ofp) := fseek ofp 0x80000 SEEK_SET in
    if negb (rc =? 0) then ret (-3, abandon tmpfn ofp fs) else
    let wpos := ftell ofp in
    let* (rc, ofp) := fseek ofp fpos SEEK_SET in
    if negb (rc =? 0) then ret (-4, abandon tmpfn ofp fs) else
    let* (entries, ofp) := scan_afs copy_file_cb fs fn ofp in
    if entries <? 0 then ret (-5, abandon tmpfn ofp fs) else
    if 65535 <? u32 (entries + count) then ret (-6, abandon tmpfn ofp fs) else
    let wpos := ftell ofp in
    let fpos := Z.shiftl entries 3 + 8 in
    let* (rc, ofp) := fseek ofp 0 SEEK_SET in
    if negb (rc =? 0) then ret (-7, abandon tmpfn ofp fs) else
    let* (n, ofp) := fwrite ofp (afs_header (entries + count)) in
    if negb (n =? 8) then ret (-8, abandon tmpfn ofp fs) else
    let* (rc, ofp) := fseek ofp fpos SEEK_SET in
    if negb (rc =? 0) then ret (-9, abandon tmpfn ofp fs) else
    let* (r, ofp, _, _) := add_files_to_afs fs ofp fpos wpos files in
    if negb (r =? 0) then ret (-10, abandon tmpfn ofp fs) else
    commit tmpfn fn ofp fs
  end.

Section Libc.
(** [strtoul(s, NULL, 0)] of the C library: the value and whether it set
    [errno]. *)
Variable strtoul : string -> Z * bool.

Definition update_afs (fs : gmap string (list Z)) (fn fno file : string)
  : IO (Z * gmap string (list Z)) :=
  let item := u32 (fst (strtoul fno)) in
  if snd (strtoul fno) then ret (-2, fs) else
  let* (fd, tmpfn, fs) := mkstemp fs "afstoolXXXXXX" in
  if fd <? 0 then ret (-3, fs) else
  let* o := fdopen_wb fd in
  match o with
  | None => ret (-4, unlink tmpfn fs)
  | Some ofp =>
    let* (rc, ofp) := fseek ofp 0x80000 SEEK_SET in
    if negb (rc =? 0) then ret (-5, abandon tmpfn ofp fs) else
    let wpos := ftell ofp in
    let* (rc, ofp) := fseek ofp 8 SEEK_SET in
    if negb (rc =? 0) then ret (-6, abandon tmpfn ofp fs) else
    let* (entries, cxt) :=
      scan_afs (copy_update fs) fs fn (mk_update_cxt ofp item file 8 wpos) in
    if entries <? 0 then ret (-7, abandon tmpfn (u_fp cxt) fs) else
    if entries <=? u_item cxt then ret (-8, abandon tmpfn (u_fp cxt) fs) else
    let* (rc, ofp) := fseek (u_fp cxt) 0 SEEK_SET in
    if negb (rc =? 0) then ret (-7, abandon tmpfn ofp fs) else
    let* (n, ofp) := fwrite ofp (afs_header entries) in
    if negb (n =? 8) then ret (-8, abandon tmpfn ofp fs) else
    commit tmpfn fn ofp fs
  end.

(** The loop that parses the file numbers: [errno] is cleared once, before
    the loop, and looked at after each call. *)
Fixpoint parse_items (files : list string) (errno : bool)
  : option (list Z) :=
  match files with
  | [] => Some []
  | f :: files =>
    let errno := errno || snd (strtoul f) in
    if errno then None
    else option_map (cons (u32 (fst (strtoul f)))) (parse_items files errno)
  end.

(** [delete_from_afs]; the [malloc] of the array of file numbers may
    fail. *)
Definition delete_from_afs (fs : gmap string (list Z)) (fn : string)
    (files : list string) : IO (Z * gmap string (list Z)) :=
  let* b := fault in
  if b then ret (-1, fs) else
  match parse_items files false with
  | None => ret (-2, fs)
  | Some items =>
    let* (fd, tmpfn, fs) := mkstemp fs "afstoolXXXXXX" in
    if fd <? 0 then ret (-3, fs) else
    let* o := fdopen_wb fd in
    match o with
    | None => ret (-4, unlink tmpfn fs)
    | Some ofp =>
      let* (rc, ofp) := fseek ofp 0x80000 SEEK_SET in
      if negb (rc =? 0) then ret (-5, abandon tmpfn ofp fs) else
      let wpos := ftell ofp in
      let* (rc, ofp) := fseek ofp 8 SEEK_SET in
      if negb (rc =? 0) then ret (-6, abandon tmpfn ofp fs) else
      let* (entries, cxt) :=
        scan_afs copy_filtered fs fn (mk_delete_cxt ofp items 8 wpos 0) in
      if entries <? 0 then ret (-7, abandon tmpfn (d_fp cxt) fs) else
      if existsb (fun item => entries <=? item) items
      then ret (-8, abandon tmpfn (d_fp cxt) fs) else
      let* (rc, ofp) := fseek (d_fp cxt) 0 SEEK_SET in
      if negb (rc =? 0) then ret (-7, abandon tmpfn ofp fs) else
      let* (n, ofp) := fwrite ofp (afs_header (d_copied_files cxt)) in
      if negb (n =? 8) then ret (-8, abandon tmpfn ofp fs) else
      commit tmpfn fn ofp fs
    end
  end.
End Libc.

(** [while(n /= 10) ++r;]: a [uint32_t] is zero after ten divisions at
    most. *)
Fixpoint digits_loop (fuel : nat) (n r : Z) : Z :=
  match fuel with
  | O => r
  | S fuel => if n / 10 =? 0 then r else digits_loop fuel (n / 10) (r + 1)
  end.

Definition digits (n : Z) : Z := digits_loop 10 n 1.

(** The callback of the listing.  The standard output is the list of the
    arguments of the [printf] calls: the width, the index, the offset and
    the size. *)
Definition print_file_info (fp : FILE) (i cnt sz : Z)
    (out : list (Z * Z * Z * Z)) : IO (Z * FILE * list (Z * Z * Z * Z)) :=
  let dg := digits cnt in
  let offset := u32 (ftell fp) in
  ret (0, fp, out ++ [(dg, i, offset, sz)]).

(** The name [extract_file] gives to entry [i] of the archive [fn]. *)
Definition extract_name (fn : string) (cnt i : Z) : string :=
  snprintf (Z.of_nat (String.length fn) + 12)
           (fn ++ "." ++ fmt_0u (digits cnt) i)%string.

(** The callback of the extraction; [d] is the name of the archive, and
    the files are written to the file system [fs]. *)
Definition extract_file (d : string) (fp : FILE) (i cnt sz : Z)
    (fs : gmap string (list Z)) : IO (Z * FILE * gmap string (list Z)) :=
  let ofn := extract_name d cnt i in
  let* (o, fs) := fopen_wb fs ofn in
  match o with
  | None => ret (-1, fp, fs)
  | Some ofp =>
    let* (r, ofp, fp) := copy_file ofp fp sz in
    if negb (r =? 0) then ret (-2, fp, fclose_w ofn ofp fs) else
    ret (0, fp, fclose_w ofn ofp fs)
  end.

Definition print_afs_files (fs : gmap string (list Z)) (fn : string)
  : IO (Z * list (Z * Z * Z * Z)) :=
  scan_afs print_file_info fs fn [].

Definition extract_afs (fs : gmap string (list Z)) (fn : string)
  : IO (Z * gmap string (list Z)) :=
  scan_afs (extract_file fn) fs fn fs.

End Afs.

(** ** gsl.c: GSL archives (32-byte names, offsets in 2048-byte blocks) *)

Module Gsl.

Definition GSL_AUTO : Z := -1.
Definition GSL_BIG : Z := 0.
Definition GSL_LITTLE : Z := 1.

Record delete_cxt : Type := mk_delete_cxt {
  d_fp : FILE;
  d_items : list string;
  d_fpos : Z;
  d_wpos : Z;
  d_copied_files : Z
}.

Record update_cxt : Type := mk_update_cxt {
  u_fp : FILE;
  u_fn : string;
  u_path : string;
  u_fpos : Z;
  u_wpos : Z
}.

(** [!strcmp(s, fn)] for a command-line string and a name read from the
    archive. *)
Definition same_name (s : string) (fn : list Z) : bool :=
  bool_decide (cstr (bytes_of_string s) = fn).

(** [((n * 48) + 2048) & 0xFFFFF000], the expression every writing
    operation uses for the length of the file table. *)
Definition hdrlen (n : Z) : Z := Z.land (u32 (n * 48 + 2048)) 0xFFFFF000.

(** The offset field of the first entry under [GSL_AUTO]: the offset taken
    and the endianness settled on, or [None] when the archive is refused. *)
Definition guess_endianness (buf : list Z) (total : Z) : option (Z * Z) :=
  let offset := get_be32 buf in
  if (u32 total <? offset) || (u32 total <? u32 (offset * 2048)) then
    let offset := get_le32 buf in
    if u32 total <? u32 (offset * 2048) then None
    else Some (offset, GSL_LITTLE)
  else Some (offset, GSL_BIG).

Section Scan.
Context {D : Type}.
(** The callback [p(fp, i, sz, fn, d)], [None] for a NULL pointer. *)
Variable p : option (FILE -> Z -> Z -> list Z -> D -> IO (Z * FILE * D)).

Fixpoint scan_gsl_loop (fuel : nat) (i total : Z) (fp : FILE) (d : D)
  : IO (Z * D) :=
  match fuel with
  | O => diverge
  | S fuel =>
    let* (filename, fp) := fread fp 32 in
    if negb (len filename =? 32) then ret (-2, d) else
    if byte_at filename 0 =? 0 then ret (to_int i, d) else
    let* (buf, fp) := fread fp 4 in
    if negb (len buf =? 4) then ret (-3, d) else
    let* e := get_endianness in
    let* o :=
      (if e =? GSL_AUTO then
         match guess_endianness buf total with
         | Some (offset, e) =>
           let* _ := set_endianness e in ret (Some offset)
         | None => let* _ := set_endianness GSL_LITTLE in ret None
         end
       else if e =? GSL_BIG then ret (Some (get_be32 buf))
       else ret (Some (get_le32 buf))) in
    match o with
    | None => ret (-9, d)
    | Some offset =>
      let* (buf, fp) := fread fp 4 in
      if negb (len buf =? 4) then ret (-4, d) else
      let* e := get_endianness in
      let size := if e =? GSL_BIG then get_be32 buf else get_le32 buf in
      let* (rc, fp) := fseek fp 8 SEEK_CUR in
      if negb (rc =? 0) then ret (-5, d) else
      let next := ftell fp in
      let* (rc, fp) := fseek fp (offset * 2048) SEEK_SET in
      if negb (rc =? 0) then ret (-6, d) else
      let* (r, fp, d) :=
        match p with
        | Some p => p fp i size (cstr filename) d
        | None => ret (0, fp, d)
        end in
      if negb (r =? 0) then ret (-7, d) else
      let* (rc, fp) := fseek fp next SEEK_SET in
      if negb (rc =? 0) then ret (-8, d) else
      scan_gsl_loop fuel (u32 (i + 1)) total fp d
    end
  end.

(** The loop of [scan_gsl] has no bound of its own: it ends at an empty
    name or at a failed read.  Every round moves 48 bytes further into the
    table, so a file of [n] bytes allows fewer than [n + 1] rounds.  The
    result of the [ftell] that gives the length of the file is tested, and
    that call may fail. *)
Definition scan_gsl (fs : gmap string (list Z)) (fn : string) (d : D)
  : IO (Z * D) :=
  let* o := fopen_rb fs fn in
  match o with
  | None => ret (-1, d)
  | Some fp =>
    let* (rc, fp) := fseek fp 0 SEEK_END in
    if negb (rc =? 0) then ret (-1, d) else
    let* b := fault in
    let total := if b then -1 else ftell fp in
    if total <? 0 then ret (-1, d) else
    let* (rc, fp) := fseek fp 0 SEEK_SET in
    if negb (rc =? 0) then ret (-1, d) else
    scan_gsl_loop (S (length (f_data fp))) 0 total fp d
  end.
End Scan.

(** The sixteen bytes that follow the name in a table entry. *)
Definition entry_tail (e wposp size : Z) : list Z :=
  (if e =? GSL_BIG then put_be32 wposp ++ put_be32 size
   else put_le32 wposp ++ put_le32 size) ++ replicate 8 0.

Section Libc.
(** [basename] of the C library, which never returns a null pointer: the
    code tests its result, and the model has no path for the value -10. *)
Variable basename : string -> string.

(** The [strdup] of the path, for [basename] to work on, may fail. *)
Fixpoint add_files_to_gsl (fs : gmap string (list Z)) (ofp : FILE)
    (fpos wpos : Z) (files : list string) : IO (Z * FILE * Z * Z) :=
  match files with
  | [] => ret (0, ofp, fpos, wpos)
  | file :: files =>
    let* o := fopen_rb fs file in
    match o with
    | None => ret (-1, ofp, fpos, wpos)
    | Some ifp =>
      let* (rc, ifp) := fseek ifp 0 SEEK_END in
      if negb (rc =? 0) then ret (-2, ofp, fpos, wpos) else
      let size := u32 (ftell ifp) in
      let* (rc, ifp) := fseek ifp 0 SEEK_SET in
      if negb (rc =? 0) then ret (-3, ofp, fpos, wpos) else
      let* b := fault in
      if b then ret (-9, ofp, fpos, wpos) else
      let filename := cstr (bytes_of_string (basename file)) in
      let fnlen := len filename in
      if 32 <=? fnlen then ret (-11, ofp, fpos, wpos) else
      let* (n, ofp) := fwrite ofp filename in
      if negb (n =? fnlen) then ret (-11, ofp, fpos, wpos) else
      let* (n, ofp) := fwrite ofp (replicate (Z.to_nat (32 - fnlen)) 0) in
      if negb (n =? 32 - fnlen) then ret (-12, ofp, fpos, wpos) else
      let wposp := Z.shiftr wpos 11 in
      let* e := get_endianness in
      let* (n, ofp) := fwrite ofp (entry_tail e wposp size) in
      if negb (n =? 16) then ret (-4, ofp, fpos, wpos) else
      let fpos := ftell ofp in
      let* (rc, ofp) := fseek ofp wpos SEEK_SET in
      if negb (rc =? 0) then ret (-5, ofp, fpos, wpos) else
      let* (r, ofp, ifp) := copy_file ofp ifp size in
      if negb (r =? 0) then ret (-6, ofp, fpos, wpos) else
      let* (wpos, ofp) := pad_file ofp 2048 in
      if wpos =? -1 then ret (-7, ofp, fpos, wpos) else
      let* (rc, ofp) := fseek ofp fpos SEEK_SET in
      if negb (rc =? 0) then ret (-8, ofp, fpos, wpos) else
      add_files_to_gsl fs ofp fpos wpos files
    end
  end.

Definition copy_file_cb (fp : FILE) (i sz : Z) (fn : list Z) (ofp : FILE)
  : IO (Z * FILE * FILE) :=
  let fpos := u32 (i * 48) in
  let wpos := u32 (ftell ofp) in
  let wposp := Z.shiftr wpos 11 in
  let* e := get_endianness in
  let buf := strncpy fn 32 ++ entry_tail e wposp sz in
  let* (rc, ofp) := fseek ofp fpos SEEK_SET in
  if negb (rc =? 0) then ret (-1, fp, ofp) else
  let* (n, ofp) := fwrite ofp buf in
  if negb (n =? 48) then ret (-2, fp, ofp) else
  let* (rc, ofp) := fseek ofp wpos SEEK_SET in
  if negb (rc =? 0) then ret (-3, fp, ofp) else
  let* (r, ofp, fp) := copy_file ofp fp sz in
  if negb (r =? 0) then ret (-4, fp, ofp) else
  let* (r, ofp) := pad_file ofp 2048 in
  if r <? 0 then ret (-5, fp, ofp) else
  ret (0, fp, ofp).

Definition copy_filtered (fp : FILE) (i sz : Z) (fn : list Z)
    (cxt : delete_cxt) : IO (Z * FILE * delete_cxt) :=
  let wposp := u32 (Z.shiftr (d_wpos cxt) 11) in
  if existsb (fun item => same_name item fn) (d_items cxt)
  then ret (0, fp, cxt) else
  let upd f fpos wpos copied :=
    mk_delete_cxt f (d_items cxt) fpos wpos copied in
  let* e := get_endianness in
  let buf := strncpy fn 32 ++ entry_tail e wposp sz in
  let* (rc, ofp) := fseek (d_fp cxt) (d_fpos cxt) SEEK_SET in
  let cxt := upd ofp (d_fpos cxt) (d_wpos cxt) (d_copied_files cxt) in
  if negb (rc =? 0) then ret (-1, fp, cxt) else
  let* (n, ofp) := fwrite (d_fp cxt) buf in
  let cxt := upd ofp (d_fpos cxt) (d_wpos cxt) (d_copied_files cxt) in
  if negb (n =? 48) then ret (-2, fp, cxt) else
  let cxt := upd ofp (d_fpos cxt + 48) (d_wpos cxt) (d_copied_files cxt) in
  let* (rc, ofp) := fseek (d_fp cxt) (d_wpos cxt) SEEK_SET in
  let cxt := upd ofp (d_fpos cxt) (d_wpos cxt) (d_copied_files cxt) in
  if negb (rc =? 0) then ret (-3, fp, cxt) else
  let* (r, ofp, fp) := copy_file (d_fp cxt) fp sz in
  let cxt := upd ofp (d_fpos cxt) (d_wpos cxt) (d_copied_files cxt) in
  if negb (r =? 0) then ret (-4, fp, cxt) else
  let* (wpos, ofp) := pad_file (d_fp cxt) 2048 in
  let cxt := upd ofp (d_fpos cxt) wpos (d_copied_files cxt) in
  if wpos <? 0 then ret (-5, fp, cxt) else
  ret (0, fp, upd ofp (d_fpos cxt) wpos (u32 (d_copied_files cxt + 1))).

Definition copy_update (fs : gmap string (list Z)) (fp : FILE) (i sz : Z)
    (fn : list Z) (cxt : update_cxt) : IO (Z * FILE * update_cxt) :=
  let upd f fpos wpos :=
    mk_update_cxt f (u_fn cxt) (u_path cxt) fpos wpos in
  let wposp := u32 (Z.shiftr (u_wpos cxt) 11) in
  if same_name (u_fn cxt) fn then
    let* (rc, ofp) := fseek (u_fp cxt) (u_fpos cxt) SEEK_SET in
    let cxt := upd ofp (u_fpos cxt) (u_wpos cxt) in
    if negb (rc =? 0) then ret (-7, fp, cxt) else
    let* (r, ofp, fpos, wpos) :=
      add_files_to_gsl fs (u_fp cxt) (u_fpos cxt) (u_wpos cxt)
                       [u_path cxt] in
    if negb (r =? 0) then ret (-6, fp, upd ofp (u_fpos cxt) (u_wpos cxt))
    else ret (0, fp, upd ofp fpos wpos)
  else
  let* e := get_endianness in
  let buf := strncpy fn 32 ++ entry_tail e wposp sz in
  let* (rc, ofp) := fseek (u_fp cxt) (u_fpos cxt) SEEK_SET in
  let cxt := upd ofp (u_fpos cxt) (u_wpos cxt) in
  if negb (rc =? 0) then ret (-1, fp, cxt) else
  let* (n, ofp) := fwrite (u_fp cxt) buf in
  let cxt := upd ofp (u_fpos cxt) (u_wpos cxt) in
  if negb (n =? 48) then ret (-2, fp, cxt) else
  let cxt := upd ofp (u_fpos cxt + 48) (u_wpos cxt) in
  let* (rc, ofp) := fseek (u_fp cxt) (u_wpos cxt) SEEK_SET in
  let cxt := upd ofp (u_fpos cxt) (u_wpos cxt) in
  if negb (rc =? 0) then ret (-3, fp, cxt) else
  let* (r, ofp, fp) := copy_file (u_fp cxt) fp sz in
  let cxt := upd ofp (u_fpos cxt) (u_wpos cxt) in
  if negb (r =? 0) then ret (-4, fp, cxt) else
  let* (wpos, ofp) := pad_file (u_fp cxt) 2048 in
  let cxt := upd ofp (u_fpos cxt) wpos in
  if wpos <? 0 then ret (-5, fp, cxt) else
  ret (0, fp, cxt).

(** A scan with a NULL callback, which only counts the entries. *)
Definition count_gsl (fs : gmap string (list Z)) (fn : string) : IO Z :=
  let* (entries, _) := scan_gsl (D := unit) None fs fn tt in
  ret entries.

Definition create_gsl (fs : gmap string (list Z)) (fn : string)
    (files : list string) : IO (Z * gmap string (list Z)) :=
  let count := len files in
  let* e := get_endianness in
  let* _ := (if e =? GSL_AUTO then set_endianness GSL_BIG else ret tt) in
  let hdrlen := hdrlen count in
  let* (fd, tmpfn, fs) := mkstemp fs "gsltoolXXXXXX" in
  if fd <? 0 then ret (-1, fs) else
  let* o := fdopen_wb fd in
  match o with
  | None => ret (-2, unlink tmpfn fs)
  | Some ofp =>
    let fpos := 0 in
    let* (rc, ofp) := fseek ofp hdrlen SEEK_SET in
    if negb (rc =? 0) then ret (-4, abandon tmpfn ofp fs) else
    let wpos := ftell ofp in
    let* (rc, ofp) := fseek ofp fpos SEEK_SET in
    if negb (rc =? 0) then ret (-5, abandon tmpfn ofp fs) else
    let* (r, ofp, _, _) := add_files_to_gsl fs ofp fpos wpos files in
    if negb (r =? 0) then ret (-6, abandon tmpfn ofp fs) else
    commit tmpfn fn ofp fs
  end.

Definition add_to_gsl (fs : gmap string (list Z)) (fn : string)
    (files : list string) : IO (Z * gmap string (list Z)) :=
  let count := len files in
  let* entries := count_gsl fs fn in
  if entries <? 0 then ret (-11, fs) else
  let hdrlen := hdrlen (count + entries) in
  let* (fd, tmpfn, fs) := mkstemp fs "gsltoolXXXXXX" in
  if fd <? 0 then ret (-1, fs) else
  let* o := fdopen_wb fd in
  match o with
  | None => ret (-2, unlink tmpfn fs)
  | Some ofp =>
    let* (rc, ofp) := fseek ofp hdrlen SEEK_SET in
    if negb (rc =? 0) then ret (-3, abandon tmpfn ofp fs) else
    let* (r, ofp) := scan_gsl (Some copy_file_cb) fs fn ofp in
    if r <? 0 then ret (-5, abandon tmpfn ofp fs) else
    let wpos := ftell ofp in
    let fpos := entries * 48 in
    let* (rc, ofp) := fseek ofp fpos SEEK_SET in
    if negb (rc =? 0) then ret (-9, abandon tmpfn ofp fs) else
    let* (r, ofp, _, _) := add_files_to_gsl fs ofp fpos wpos files in
    if negb (r =? 0) then ret (-10, abandon tmpfn ofp fs) else
    commit tmpfn fn ofp fs
  end.

Definition update_gsl (fs : gmap string (list Z)) (fn file path : string)
  : IO (Z * gmap string (list Z)) :=
  let* entries := count_gsl fs fn in
  if entries <? 0 then ret (-11, fs) else
  let hdrlen := hdrlen entries in
  let* (fd, tmpfn, fs) := mkstemp fs "gsltoolXXXXXX" in
  if fd <? 0 then ret (-3, fs) else
  let* o := fdopen_wb fd in
  match o with
  | None => ret (-4, unlink tmpfn fs)
  | Some ofp =>
    let* (rc, ofp) := fseek ofp hdrlen SEEK_SET in
    if negb (rc =? 0) then ret (-5, abandon tmpfn ofp fs) else
    let wpos := ftell ofp in
    let* (rc, ofp) := fseek ofp 0 SEEK_SET in
    if negb (rc =? 0) then ret (-6, abandon tmpfn ofp fs) else
    let* (r, cxt) :=
      scan_gsl (Some (copy_update fs)) fs fn
               (mk_update_cxt ofp file path 0 wpos) in
    if r <? 0 then ret (-7, abandon tmpfn (u_fp cxt) fs) else
    commit tmpfn fn (u_fp cxt) fs
  end.

(** [delete_from_gsl]; the [malloc] of the array of names may fail. *)
Definition delete_from_gsl (fs : gmap string (list Z)) (fn : string)
    (files : list string) : IO (Z * gmap string (list Z)) :=
  let* b := fault in
  if b then ret (-1, fs) else
  let* entries := count_gsl fs fn in
  if entries <? 0 then ret (-11, fs) else
  let wpos := hdrlen entries in
  let* (fd, tmpfn, fs) := mkstemp fs "gsltoolXXXXXX" in
  if fd <? 0 then ret (-3, fs) else
  let* o := fdopen_wb fd in
  match o with
  | None => ret (-4, unlink tmpfn fs)
  | Some ofp =>
    let* (rc, ofp) := fseek ofp wpos SEEK_SET in
    if negb (rc =? 0) then ret (-5, abandon tmpfn ofp fs) else
    let* (rc, ofp) := fseek ofp 0 SEEK_SET in
    if negb (rc =? 0) then ret (-6, abandon tmpfn ofp fs) else
    let* (r, cxt) :=
      scan_gsl (Some copy_filtered) fs fn
               (mk_delete_cxt ofp files 0 wpos 0) in
    if r <? 0 then ret (-7, abandon tmpfn (d_fp cxt) fs) else
    commit tmpfn fn (d_fp cxt) fs
  end.
End Libc.

(** The callback of the listing; the standard output is the list of the
    arguments of the [printf] calls: the index, the name, the offset and the
    size. *)
Definition print_file_info (fp : FILE) (i sz : Z) (fn : list Z)
    (out : list (Z * list Z * Z * Z))
  : IO (Z * FILE * list (Z * list Z * Z * Z)) :=
  let offset := u32 (ftell fp) in
  ret (0, fp, out ++ [(i, fn, offset, sz)]).

(** The callback of the extraction: the file is written under the name it
    has in the archive. *)
Definition extract_file (fp : FILE) (i sz : Z) (fn : list Z)
    (fs : gmap string (list Z)) : IO (Z * FILE * gmap string (list Z)) :=
  let ofn := string_of_bytes fn in
  let* (o, fs) := fopen_wb fs ofn in
  match o with
  | None => ret (-1, fp, fs)
  | Some ofp =>
    let* (r, ofp, fp) := copy_file ofp fp sz in
    if negb (r =? 0) then ret (-2, fp, fclose_w ofn ofp fs) else
    ret (0, fp, fclose_w ofn ofp fs)
  end.

Definition print_gsl_files (fs : gmap string (list Z)) (fn : string)
  : IO (Z * list (Z * list Z * Z * Z)) :=
  scan_gsl (Some print_file_info) fs fn [].

Definition extract_gsl (fs : gmap string (list Z)) (fn : string)
  : IO (Z * gmap string (list Z)) :=
  scan_gsl (Some extract_file) fs fn fs.

Definition gsl_set_endianness (e : Z) : IO unit := set_endianness e.

End Gsl.

(** ** bmltool.c: listing and extracting BML archives *)

Module Bml.

(** [bml_entry_t], as [fread] fills it on a little-endian host ([LE32] is
    the identity there, and swaps to the same values on a big-endian one).
    The name is the C string held in [filename], for a field that holds a
    NUL: the code reads on past a field without one, which the properties
    of the extraction exclude. *)
Record bml_entry : Type := mk_bml_entry {
  filename : list Z;
  csize : Z;
  unk : Z;
  usize : Z;
  pvm_csize : Z;
  pvm_usize : Z
}.

Definition parse_entry (buf : list Z) : bml_entry :=
  mk_bml_entry (cstr (take 32 buf))
               (get_le32 (drop 32 buf)) (get_le32 (drop 36 buf))
               (get_le32 (drop 40 buf)) (get_le32 (drop 44 buf))
               (get_le32 (drop 48 buf)).

Definition open_bml (fs : gmap string (list Z)) (fn : string)
  : IO (option (FILE * Z)) :=
  let* o := fopen_rb fs fn in
  match o with
  | None => ret None
  | Some fp =>
    let* (buf, fp) := fread fp 12 in
    if negb (len buf =? 12) then ret None else
    if negb (byte_at buf 0 =? 0) || negb (byte_at buf 1 =? 0)
       || negb (byte_at buf 2 =? 0) || negb (byte_at buf 3 =? 0)
       || negb (byte_at buf 8 =? 0x50) || negb (byte_at buf 9 =? 0x01)
       || negb (byte_at buf 10 =? 0) || negb (byte_at buf 11 =? 0)
    then ret None else
    let entries := get_le32 (drop 4 buf) in
    let* (rc, fp) := fseek fp 64 SEEK_SET in
    if negb (rc =? 0) then ret None else
    ret (Some (fp, entries))
  end.

(** [if((x & 0x7FF)) x = (x + 0x800) & 0xFFFFF800;] *)
Definition round_2048 (x : Z) : Z :=
  if negb (Z.land x 0x7FF =? 0) then Z.land (u32 (x + 0x800)) 0xFFFFF800
  else x.

(** [if((x & 0x1F)) x = (x + 0x20) & 0xFFFFFFE0;] *)
Definition round_32 (x : Z) : Z :=
  if negb (Z.land x 0x1F =? 0) then Z.land (u32 (x + 0x20)) 0xFFFFFFE0
  else x.

Section Scan.
Context {D : Type}.
(** The callback [p(fp, ent, i, offset, poffset, d)]; [D] is what the
    callback changes. *)
Variable p : FILE -> bml_entry -> Z -> Z -> Z -> D -> IO (Z * FILE * D).

Fixpoint scan_bml_loop (n : nat) (i offset : Z) (fp : FILE) (rv : Z)
    (d : D) : IO (Z * D) :=
  match n with
  | O => ret (rv, d)
  | S n =>
    let* (buf, fp) := fread fp 64 in
    if negb (len buf =? 64) then ret (-2, d) else
    let ent := parse_entry buf in
    let poffset := round_32 (u32 (offset + csize ent)) in
    let next := ftell fp in
    let eoffset :=
      if negb (pvm_csize ent =? 0)
      then round_32 (u32 (poffset + pvm_csize ent)) else poffset in
    let* (rv, fp, d) := p fp ent i offset poffset d in
    if negb (rv =? 0) then ret (rv, d) else
    let* (rc, fp) := fseek fp next SEEK_SET in
    if rc <? 0 then ret (-3, d) else
    scan_bml_loop n (i + 1) eoffset fp rv d
  end.

Definition scan_bml (fs : gmap string (list Z)) (fn : string) (d : D)
  : IO (Z * D) :=
  let* o := open_bml fs fn in
  match o with
  | None => ret (-1, d)
  | Some (fp, entries) =>
    let offset := round_2048 (u32 ((entries + 1) * 64)) in
    scan_bml_loop (Z.to_nat entries) 0 offset fp (to_int entries) d
  end.
End Scan.

(** The callback of the extraction; [d] is the name asked for, [None] for
    a NULL pointer, and the files are written to the file system [fs]. *)
Definition extract_file (d : option string) (fp : FILE) (ent : bml_entry)
    (i offset poffset : Z) (fs : gmap string (list Z))
  : IO (Z * FILE * gmap string (list Z)) :=
  let skip := match d with
              | Some name =>
                negb (bool_decide (cstr (bytes_of_string name) = filename ent))
              | None => false
              end in
  if skip then ret (0, fp, fs) else
  let fn := (string_of_bytes (filename ent) ++ ".prs")%string in
  let* (o, fs) := fopen_wb fs fn in
  match o with
  | None => ret (-1, fp, fs)
  | Some ofp =>
    let* (rc, fp) := fseek fp offset SEEK_SET in
    if rc <? 0 then ret (-2, fp, fclose_w fn ofp fs) else
    let* (r, ofp, fp) := copy_file ofp fp (csize ent) in
    if negb (r =? 0) then ret (-3, fp, fclose_w fn ofp fs) else
    let fs := fclose_w fn ofp fs in
    if negb (pvm_csize ent =? 0) then
      let fn := (string_of_bytes (filename ent) ++ ".pvm.prs")%string in
      let* (o, fs) := fopen_wb fs fn in
      match o with
      | None => ret (-4, fp, fs)
      | Some ofp =>
        let* (rc, fp) := fseek fp poffset SEEK_SET in
        if rc <? 0 then ret (-5, fp, fclose_w fn ofp fs) else
        let* (r, ofp, fp) := copy_file ofp fp (csize ent) in
        if negb (r =? 0) then ret (-6, fp, fclose_w fn ofp fs) else
        ret (0, fp, fclose_w fn ofp fs)
      end
    else ret (0, fp, fs)
  end.

(** [scan_bml(argv[2], &extract_file, NULL)], the [-x] operation. *)
Definition extract_bml (fs : gmap string (list Z)) (fn : string)
  : IO (Z * gmap string (list Z)) :=
  scan_bml (extract_file None) fs fn fs.

(** The callback of the listing.  The standard output is the list of the
    arguments of the [printf] calls: index, name, compressed size,
    uncompressed size, unknown word and offset for the file, then sizes and
    offset of the PVM when there is one. *)
Definition print_file_info (fp : FILE) (ent : bml_entry)
    (i offset poffset : Z) (out : list (list Z * list Z))
  : IO (Z * FILE * list (list Z * list Z)) :=
  let line := (filename ent, [i; csize ent; usize ent; unk ent; offset]) in
  let pvm := if negb (pvm_csize ent =? 0)
             then [(filename ent, [pvm_csize ent; pvm_usize ent; poffset])]
             else [] in
  ret (0, fp, out ++ [line] ++ pvm).

Section Library.
(** [prs_decompress_buf2(src, dst, src_len, dst_len)] of the PRS code: the
    value returned and what it wrote to the destination buffer, which
    [read_and_dec] allocates with [dst_len] bytes. *)
Variable prs_decompress_buf2 : list Z -> Z -> Z -> Z * list Z.

(** [read_and_dec]; the two [malloc] calls may fail. *)
Definition read_and_dec (fp : FILE) (offset cs ds : Z) (fn : string)
    (fs : gmap string (list Z)) : IO (Z * FILE * gmap string (list Z)) :=
  let* (rc, fp) := fseek fp offset SEEK_SET in
  if rc <? 0 then ret (-1, fp, fs) else
  let* b := fault in
  if b then ret (-2, fp, fs) else
  let* b := fault in
  if b then ret (-3, fp, fs) else
  let* (comp, fp) := fread fp cs in
  if negb (len comp =? cs) then ret (-4, fp, fs) else
  let (rv, decomp) := prs_decompress_buf2 comp cs ds in
  let decomp := take (Z.to_nat ds) (decomp ++ replicate (Z.to_nat ds) 0) in
  if negb (u32 rv =? ds) then ret (-5, fp, fs) else
  let* (o, fs) := fopen_wb fs fn in
  match o with
  | None => ret (-6, fp, fs)
  | Some ofp =>
    let* (n, ofp) := fwrite ofp decomp in
    if negb (n =? ds) then ret (-7, fp, fclose_w fn ofp fs) else
    ret (0, fp, fclose_w fn ofp fs)
  end.

(** The callback of the decompressing extraction; [d] as for
    [extract_file]. *)
Definition decompress_file (d : option string) (fp : FILE) (ent : bml_entry)
    (i offset poffset : Z) (fs : gmap string (list Z))
  : IO (Z * FILE * gmap string (list Z)) :=
  let skip := match d with
              | Some name =>
                negb (bool_decide (cstr (bytes_of_string name) = filename ent))
              | None => false
              end in
  if skip then ret (0, fp, fs) else
  let* (r, fp, fs) :=
    read_and_dec fp offset (csize ent) (usize ent)
                 (string_of_bytes (filename ent)) fs in
  if negb (r =? 0) then ret (-1, fp, fs) else
  if negb (pvm_csize ent =? 0) then
    let fn := (string_of_bytes (filename ent) ++ ".pvm")%string in
    let* (r, fp, fs) :=
      read_and_dec fp poffset (pvm_csize ent) (pvm_usize ent) fn fs in
    if negb (r =? 0) then ret (-2, fp, fs) else ret (0, fp, fs)
  else ret (0, fp, fs).
End Library.

End Bml.

(** ** prsd.c: the PRSD/PRC front end of the archive tool *)

Module Prsd.

Definition PSO_PRSD_BIG_ENDIAN : Z := 0.
Definition PSO_PRSD_LITTLE_ENDIAN : Z := 1.
Definition PSO_PRSD_AUTO_ENDIAN : Z := 2.

Definition EXIT_FAILURE : Z := 1.

(** [write_file] and [read_file] of the tool ([perror] is not modelled). *)
Definition write_file (fs : gmap string (list Z)) (fn : string)
    (buf : list Z) : IO (Z * gmap string (list Z)) :=
  let* (o, fs) := fopen_wb fs fn in
  match o with
  | None => ret (EXIT_FAILURE, fs)
  | Some fp =>
    let* (n, fp) := fwrite fp buf in
    if negb (n =? len buf) then ret (EXIT_FAILURE, fclose_w fn fp fs) else
    ret (0, fclose_w fn fp fs)
  end.

Definition read_file (fs : gmap string (list Z)) (fn : string)
  : IO (Z * list Z) :=
  let* o := fopen_rb fs fn in
  match o with
  | None => ret (-1, [])
  | Some fp =>
    let* (rc, fp) := fseek fp 0 SEEK_END in
    if negb (rc =? 0) then ret (-1, []) else
    let n := ftell fp in
    let* (rc, fp) := fseek fp 0 SEEK_SET in
    if negb (rc =? 0) then ret (-1, []) else
    let* (out, fp) := fread fp n in
    if negb (len out =? n) then ret (-1, []) else
    ret (to_int (u32 n), out)
  end.

Section Library.
(** The functions of libpsoarchive and of the C library that [prsd] calls:
    [pso_prsd_compress(src, &dst, sz, key, endian)] and
    [pso_prsd_decompress_file(fn, &dst, endian)] give the size (negative
    on an error) and the buffer; [strtoul] gives the value and whether it
    set [errno]; [rand_value] is what [rand()] returns after
    [srand(time(NULL))]. *)
Variable pso_prsd_compress : list Z -> Z -> Z -> Z * list Z.
Variable pso_prsd_decompress_file :
  gmap string (list Z) -> string -> Z -> Z * list Z.
Variable strtoul : string -> Z * bool.
Variable rand_value : Z.
Variable basename : string -> string.

Definition arg (argv : list string) (i : nat) : string :=
  nth i argv ""%string.

Definition streq (a b : string) : bool := bool_decide (a = b).

(** The result carries, besides the return value and the file system, the
    key held in the variable [key] when the compression is called (0 when
    the code never assigns it) and the key handed to
    [pso_prsd_compress]. *)
Record prsd_result : Type := mk_prsd_result {
  r_rv : Z;
  r_fs : gmap string (list Z);
  r_key_variable : option Z;
  r_key_passed : option Z
}.

Definition prsd (fs : gmap string (list Z)) (argv : list string)
  : IO prsd_result :=
  let argc := len argv in
  let fail rv := ret (mk_prsd_result rv fs None None) in
  if (argc <? 4) || (6 <? argc) then fail (-1) else
  let endian :=
    if streq (arg argv 1) "--prsd-little" || streq (arg argv 1) "--prc-little"
    then PSO_PRSD_LITTLE_ENDIAN
    else if streq (arg argv 1) "--prsd-big" || streq (arg argv 1) "--prc-big"
    then PSO_PRSD_BIG_ENDIAN
    else PSO_PRSD_AUTO_ENDIAN in
  if streq (arg argv 2) "-x" then
    if argc =? 6 then fail (-1) else
    let (sz, dst) := pso_prsd_decompress_file fs (arg argv 3) endian in
    if sz <? 0 then fail EXIT_FAILURE else
    let out := if argc =? 5 then arg argv 4
               else (basename (arg argv 3) ++ ".bin")%string in
    let* (rv, fs) := write_file fs out (take (Z.to_nat sz) dst) in
    ret (mk_prsd_result rv fs None None)
  else if streq (arg argv 2) "-c" then
    if argc <? 5 then fail (-1) else
    let endian := if endian =? PSO_PRSD_AUTO_ENDIAN
                  then PSO_PRSD_LITTLE_ENDIAN else endian in
    if (argc =? 6) && snd (strtoul (arg argv 5)) then fail EXIT_FAILURE else
    let key := if argc =? 6 then u32 (fst (strtoul (arg argv 5)))
               else u32 rand_value in
    let* (sz, src) := read_file fs (arg argv 4) in
    if sz <? 0 then ret (mk_prsd_result EXIT_FAILURE fs (Some key) None) else
    let (sz, dst) := pso_prsd_compress src 0xfeedface endian in
    if sz <? 0
    then ret (mk_prsd_result EXIT_FAILURE fs (Some key) (Some 0xfeedface))
    else
    let* (rv, fs) := write_file fs (arg argv 3) (take (Z.to_nat sz) dst) in
    ret (mk_prsd_result rv fs (Some key) (Some 0xfeedface))
  else fail (-1).
End Library.

End Prsd.

(** ** The GSL operations of the newer archive tool

    The newer tool reads and writes the archive through libpsoarchive and
    keeps the loops over the entries to itself. *)

Module NewGsl.

Definition EXIT_FAILURE : Z := 1.

Section Library.
(** The contexts of libpsoarchive and the functions the tool calls.  A
    result below zero is an error; [pso_gsl_file_name] gives the result and
    the name, [pso_gsl_file_read] the result and the buffer, the writing
    functions the result and the context as they leave it.
    [pso_gsl_write_close] stands for what the closed context has written to
    its file descriptor. *)
Variables pso_gsl_read_t pso_gsl_write_t : Type.
Variable pso_gsl_read_open :
  gmap string (list Z) -> string -> Z -> option pso_gsl_read_t.
Variable pso_gsl_file_count : pso_gsl_read_t -> Z.
Variable pso_gsl_file_name : pso_gsl_read_t -> Z -> Z * string.
Variable pso_gsl_file_size : pso_gsl_read_t -> Z -> Z.
Variable pso_gsl_file_read : pso_gsl_read_t -> Z -> Z -> Z * list Z.
Variable pso_gsl_new_fd : Z -> Z -> option pso_gsl_write_t.
Variable pso_gsl_write_set_ftab_size :
  pso_gsl_write_t -> Z -> Z * pso_gsl_write_t.
Variable pso_gsl_write_add :
  pso_gsl_write_t -> string -> list Z -> Z -> Z * pso_gsl_write_t.
Variable pso_gsl_write_add_file :
  pso_gsl_write_t -> string -> string -> gmap string (list Z)
  -> Z * pso_gsl_write_t.
Variable pso_gsl_write_close : pso_gsl_write_t -> list Z.
(** The static variable [endian]. *)
Variable endian : Z.
(** [basename] of the C library. *)
Variable basename : string -> string.

(** The end of the body of the loops: the entry [i] is read from the old
    archive and added to the new one.  The result is [false] on the way to
    [err_out], and carries the writing context as the calls left it. *)
Definition copy_entry (rcxt : pso_gsl_read_t) (wcxt : pso_gsl_write_t)
    (i : Z) (afn : string) : IO (bool * pso_gsl_write_t) :=
  let sz := pso_gsl_file_size rcxt i in
  if sz <? 0 then ret (false, wcxt) else
  let* b := fault in
  if b then ret (false, wcxt) else
  let (err, buf) := pso_gsl_file_read rcxt i sz in
  if err <? 0 then ret (false, wcxt) else
  let (err, wcxt) := pso_gsl_write_add wcxt afn buf sz in
  if err <? 0 then ret (false, wcxt) else
  ret (true, wcxt).

(** The loop of [gsl_update] from entry [i] on, [n] entries to go. *)
Fixpoint gsl_update_loop (fs : gmap string (list Z))
    (rcxt : pso_gsl_read_t) (oldfn newfn : string) (n : nat) (i : Z)
    (replace : Z) (wcxt : pso_gsl_write_t)
  : IO (bool * pso_gsl_write_t) :=
  match n with
  | O => ret (true, wcxt)
  | S n =>
    let (rc, afn) := pso_gsl_file_name rcxt i in
    if rc <? 0 then ret (false, wcxt) else
    let replace :=
      if replace =? 0
      then (if bool_decide (afn = oldfn) then 1 else replace)
      else replace in
    if replace =? 1 then
      let (err, wcxt) := pso_gsl_write_add_file wcxt afn newfn fs in
      if negb (err =? 0) then ret (false, wcxt) else
      gsl_update_loop fs rcxt oldfn newfn n (i + 1) 2 wcxt
    else
      let* (ok, wcxt) := copy_entry rcxt wcxt i afn in
      if negb ok then ret (false, wcxt) else
      gsl_update_loop fs rcxt oldfn newfn n (i + 1) replace wcxt
  end.

(** The loop of [gsl_delete]; [skip] is set by the inner loop over the
    names to delete. *)
Fixpoint gsl_delete_loop (rcxt : pso_gsl_read_t) (files : list string)
    (n : nat) (i : Z) (skip : bool) (wcxt : pso_gsl_write_t)
  : IO (bool * pso_gsl_write_t) :=
  match n with
  | O => ret (true, wcxt)
  | S n =>
    let (rc, afn) := pso_gsl_file_name rcxt i in
    if rc <? 0 then ret (false, wcxt) else
    let skip :=
      if existsb (fun f => bool_decide (afn = f)) files then true else skip in
    if skip then gsl_delete_loop rcxt files n (i + 1) skip wcxt else
    let* (ok, wcxt) := copy_entry rcxt wcxt i afn in
    if negb ok then ret (false, wcxt) else
    gsl_delete_loop rcxt files n (i + 1) skip wcxt
  end.

(** What [gsl_update] and [gsl_delete] share: the temporary file, the two
    contexts, the loop, and the rename or the clean-up. *)
Definition rewrite_archive (fs : gmap string (list Z)) (fn : string)
    (loop : gmap string (list Z) -> pso_gsl_read_t -> nat
            -> pso_gsl_write_t -> IO (bool * pso_gsl_write_t))
  : IO (Z * gmap string (list Z)) :=
  let* (fd, tmpfn, fs) := mkstemp fs "artoolXXXXXX" in
  if fd <? 0 then ret (EXIT_FAILURE, fs) else
  match pso_gsl_read_open fs fn endian with
  | None => ret (EXIT_FAILURE, unlink tmpfn fs)
  | Some rcxt =>
    match pso_gsl_new_fd fd endian with
    | None => ret (EXIT_FAILURE, unlink tmpfn fs)
    | Some wcxt =>
      let cnt := u32 (pso_gsl_file_count rcxt) in
      let (err, wcxt) := pso_gsl_write_set_ftab_size wcxt cnt in
      let err_out (wcxt : pso_gsl_write_t) :=
        ret (EXIT_FAILURE,
             unlink tmpfn (<[tmpfn := pso_gsl_write_close wcxt]> fs)) in
      if err <? 0 then err_out wcxt else
      let* (ok, wcxt) := loop fs rcxt (Z.to_nat cnt) wcxt in
      if negb ok then err_out wcxt else
      let fs := <[tmpfn := pso_gsl_write_close wcxt]> fs in
      let* (_, fs) := rename tmpfn fn fs in
      ret (0, fs)
    end
  end.

Definition gsl_update (fs : gmap string (list Z)) (fn oldfn newfn : string)
  : IO (Z * gmap string (list Z)) :=
  rewrite_archive fs fn
    (fun fs rcxt n wcxt => gsl_update_loop fs rcxt oldfn newfn n 0 0 wcxt).

Definition gsl_delete (fs : gmap string (list Z)) (fn : string)
    (files : list string) : IO (Z * gmap string (list Z)) :=
  rewrite_archive fs fn
    (fun _ rcxt n wcxt => gsl_delete_loop rcxt files n 0 false wcxt).

(** The first loop of [gsl_append], which copies the entries of the old
    archive: the size is asked for before the name. *)
Fixpoint gsl_append_loop (rcxt : pso_gsl_read_t) (n : nat) (i : Z)
    (wcxt : pso_gsl_write_t) : IO (bool * pso_gsl_write_t) :=
  match n with
  | O => ret (true, wcxt)
  | S n =>
    let sz := pso_gsl_file_size rcxt i in
    if sz <? 0 then ret (false, wcxt) else
    let (rc, afn) := pso_gsl_file_name rcxt i in
    if rc <? 0 then ret (false, wcxt) else
    let* b := fault in
    if b then ret (false, wcxt) else
    let (err, buf) := pso_gsl_file_read rcxt i sz in
    if err <? 0 then ret (false, wcxt) else
    let (err, wcxt) := pso_gsl_write_add wcxt afn buf sz in
    if err <? 0 then ret (false, wcxt) else
    gsl_append_loop rcxt n (i + 1) wcxt
  end.

(** The second loop, over the new files: [strdup] may fail, and the file is
    added under its base name. *)
Fixpoint add_new_files (fs : gmap string (list Z)) (files : list string)
    (wcxt : pso_gsl_write_t) : IO (bool * pso_gsl_write_t) :=
  match files with
  | [] => ret (true, wcxt)
  | file :: files =>
    let* b := fault in
    if b then ret (false, wcxt) else
    let (err, wcxt) := pso_gsl_write_add_file wcxt (basename file) file fs in
    if negb (err =? 0) then ret (false, wcxt) else
    add_new_files fs files wcxt
  end.

(** [gsl_append]: the table is sized for the old and the new entries. *)
Definition gsl_append (fs : gmap string (list Z)) (fn : string)
    (files : list string) : IO (Z * gmap string (list Z)) :=
  let* (fd, tmpfn, fs) := mkstemp fs "artoolXXXXXX" in
  if fd <? 0 then ret (EXIT_FAILURE, fs) else
  match pso_gsl_read_open fs fn endian with
  | None => ret (EXIT_FAILURE, unlink tmpfn fs)
  | Some rcxt =>
    match pso_gsl_new_fd fd endian with
    | None => ret (EXIT_FAILURE, unlink tmpfn fs)
    | Some wcxt =>
      let cnt := u32 (pso_gsl_file_count rcxt) in
      let (err, wcxt) :=
        pso_gsl_write_set_ftab_size wcxt (u32 (len files + cnt)) in
      let err_out (wcxt : pso_gsl_write_t) :=
        ret (EXIT_FAILURE,
             unlink tmpfn (<[tmpfn := pso_gsl_write_close wcxt]> fs)) in
      if err <? 0 then err_out wcxt else
      let* (ok, wcxt) := gsl_append_loop rcxt (Z.to_nat cnt) 0 wcxt in
      if negb ok then err_out wcxt else
      let* (ok, wcxt) := add_new_files fs files wcxt in
      if negb ok then err_out wcxt else
      let fs := <[tmpfn := pso_gsl_write_close wcxt]> fs in
      let* (_, fs) := rename tmpfn fn fs in
      ret (0, fs)
    end
  end.
End Library.

End NewGsl.

(** ** The AFS operations of the newer archive tool

    The same scheme over the AFS functions of libpsoarchive.  The static
    variable [make_fntab] tells whether the archive has a table of file
    names; without one the entries are named by their index. *)

Module NewAfs.

Definition EXIT_FAILURE : Z := 1.

Section Library.
(** The contexts of libpsoarchive and the functions the tool calls, as for
    the GSL code; [pso_afs_file_stat] gives the result and the [st_mtime]
    of the entry, and [pso_afs_write_add_ex] takes the time stamp after the
    size. *)
Variables pso_afs_read_t pso_afs_write_t : Type.
Variable pso_afs_read_open :
  gmap string (list Z) -> string -> Z -> option pso_afs_read_t.
Variable pso_afs_file_count : pso_afs_read_t -> Z.
Variable pso_afs_file_name : pso_afs_read_t -> Z -> Z * string.
Variable pso_afs_file_size : pso_afs_read_t -> Z -> Z.
Variable pso_afs_file_read : pso_afs_read_t -> Z -> Z -> Z * list Z.
Variable pso_afs_file_stat : pso_afs_read_t -> Z -> Z * Z.
Variable pso_afs_new_fd : Z -> Z -> option pso_afs_write_t.
Variable pso_afs_write_add :
  pso_afs_write_t -> string -> list Z -> Z -> Z * pso_afs_write_t.
Variable pso_afs_write_add_ex :
  pso_afs_write_t -> string -> list Z -> Z -> Z -> Z * pso_afs_write_t.
Variable pso_afs_write_add_file :
  pso_afs_write_t -> string -> string -> gmap string (list Z)
  -> Z * pso_afs_write_t.
Variable pso_afs_write_close : pso_afs_write_t -> list Z.
Variable PSOARCHIVE_OK : Z.
(** The static variable [make_fntab]. *)
Variable make_fntab : Z.
(** [strtoul(s, NULL, 0)]: the value and whether it set [errno];
    [basename]; and what [time(NULL)] returns. *)
Variable strtoul : string -> Z * bool.
Variable basename : string -> string.
Variable time_now : Z.

(** The end of the body of the loops of [afs_update] and [afs_delete]: the
    entry [i] is read from the old archive and added to the new one with
    its time stamp.  [ts] keeps its value when the archive has no table of
    names or the entry cannot be examined. *)
Definition copy_entry (rcxt : pso_afs_read_t) (wcxt : pso_afs_write_t)
    (i : Z) (afn : string) (ts : Z) : IO (bool * pso_afs_write_t * Z) :=
  let sz := pso_afs_file_size rcxt i in
  if sz <? 0 then ret (false, wcxt, ts) else
  let* b := fault in
  if b then ret (false, wcxt, ts) else
  let (err, buf) := pso_afs_file_read rcxt i sz in
  if err <? 0 then ret (false, wcxt, ts) else
  let ts :=
    if negb (make_fntab =? 0) then
      let (err, mtime) := pso_afs_file_stat rcxt i in
      if err =? PSOARCHIVE_OK then mtime else ts
    else ts in
  let (err, wcxt) := pso_afs_write_add_ex wcxt afn buf sz ts in
  if err <? 0 then ret (false, wcxt, ts) else
  ret (true, wcxt, ts).

(** The loop of [afs_update] from entry [i] on, [n] entries to go.  The
    index is compared only while nothing is replaced yet and the archive
    has no table of names; otherwise the names are compared. *)
Fixpoint afs_update_loop (fs : gmap string (list Z))
    (rcxt : pso_afs_read_t) (fnum : Z) (oldfn newfn : string) (n : nat)
    (i : Z) (replace : Z) (ts : Z) (wcxt : pso_afs_write_t)
  : IO (bool * pso_afs_write_t) :=
  match n with
  | O => ret (true, wcxt)
  | S n =>
    let (rc, afn) := pso_afs_file_name rcxt i in
    if rc <? 0 then ret (false, wcxt) else
    let replace :=
      if (replace =? 0) && (make_fntab =? 0)
      then (if fnum =? i then 1 else replace)
      else (if bool_decide (afn = oldfn) then 1 else replace) in
    if replace =? 1 then
      let (err, wcxt) := pso_afs_write_add_file wcxt afn newfn fs in
      if negb (err =? 0) then ret (false, wcxt) else
      afs_update_loop fs rcxt fnum oldfn newfn n (i + 1) 2 ts wcxt
    else
      let* (ok, wcxt, ts) := copy_entry rcxt wcxt i afn ts in
      if negb ok then ret (false, wcxt) else
      afs_update_loop fs rcxt fnum oldfn newfn n (i + 1) replace ts wcxt
  end.

(** The loop of [afs_delete]; [skip] is set by the inner loop over the
    arguments, which are numbers when the archive has no table of names. *)
Fixpoint afs_delete_loop (rcxt : pso_afs_read_t) (files : list string)
    (n : nat) (i : Z) (skip : bool) (ts : Z) (wcxt : pso_afs_write_t)
  : IO (bool * pso_afs_write_t) :=
  match n with
  | O => ret (true, wcxt)
  | S n =>
    let (rc, afn) := pso_afs_file_name rcxt i in
    if rc <? 0 then ret (false, wcxt) else
    let skip :=
      if make_fntab =? 0
      then (if existsb (fun f => fst (strtoul f) =? i) files
            then true else skip)
      else (if existsb (fun f => bool_decide (afn = f)) files
            then true else skip) in
    if skip then afs_delete_loop rcxt files n (i + 1) skip ts wcxt else
    let* (ok, wcxt, ts) := copy_entry rcxt wcxt i afn ts in
    if negb ok then ret (false, wcxt) else
    afs_delete_loop rcxt files n (i + 1) skip ts wcxt
  end.

(** The first loop of [afs_append], which copies the entries of the old
    archive. *)
Fixpoint afs_append_loop (rcxt : pso_afs_read_t) (n : nat) (i : Z)
    (wcxt : pso_afs_write_t) : IO (bool * pso_afs_write_t) :=
  match n with
  | O => ret (true, wcxt)
  | S n =>
    let sz := pso_afs_file_size rcxt i in
    if sz <? 0 then ret (false, wcxt) else
    let (rc, afn) := pso_afs_file_name rcxt i in
    if rc <? 0 then ret (false, wcxt) else
    let* b := fault in
    if b then ret (false, wcxt) else
    let (err, buf) := pso_afs_file_read rcxt i sz in
    if err <? 0 then ret (false, wcxt) else
    let (err, wcxt) := pso_afs_write_add wcxt afn buf sz in
    if err <? 0 then ret (false, wcxt) else
    afs_append_loop rcxt n (i + 1) wcxt
  end.

(** The second loop, over the new files: [strdup] may fail, and the file is
    added under its base name. *)
Fixpoint add_new_files (fs : gmap string (list Z)) (files : list string)
    (wcxt : pso_afs_write_t) : IO (bool * pso_afs_write_t) :=
  match files with
  | [] => ret (true, wcxt)
  | file :: files =>
    let* b := fault in
    if b then ret (false, wcxt) else
    let (err, wcxt) := pso_afs_write_add_file wcxt (basename file) file fs in
    if negb (err =? 0) then ret (false, wcxt) else
    add_new_files fs files wcxt
  end.

(** What [afs_append], [afs_update] and [afs_delete] share: the temporary
    file, the two contexts, the loops, and the rename or the clean-up. *)
Definition rewrite_archive (fs : gmap string (list Z)) (fn : string)
    (loop : gmap string (list Z) -> pso_afs_read_t -> nat
            -> pso_afs_write_t -> IO (bool * pso_afs_write_t))
  : IO (Z * gmap string (list Z)) :=
  let* (fd, tmpfn, fs) := mkstemp fs "artoolXXXXXX" in
  if fd <? 0 then ret (EXIT_FAILURE, fs) else
  match pso_afs_read_open fs fn make_fntab with
  | None => ret (EXIT_FAILURE, unlink tmpfn fs)
  | Some rcxt =>
    match pso_afs_new_fd fd make_fntab with
    | None => ret (EXIT_FAILURE, unlink tmpfn fs)
    | Some wcxt =>
      let cnt := u32 (pso_afs_file_count rcxt) in
      let* (ok, wcxt) := loop fs rcxt (Z.to_nat cnt) wcxt in
      if negb ok
      then ret (EXIT_FAILURE,
                unlink tmpfn (<[tmpfn := pso_afs_write_close wcxt]> fs))
      else
      let fs := <[tmpfn := pso_afs_write_close wcxt]> fs in
      let* (_, fs) := rename tmpfn fn fs in
      ret (0, fs)
    end
  end.

Definition afs_append (fs : gmap string (list Z)) (fn : string)
    (files : list string) : IO (Z * gmap string (list Z)) :=
  rewrite_archive fs fn
    (fun fs rcxt n wcxt =>
       let* (ok, wcxt) := afs_append_loop rcxt n 0 wcxt in
       if negb ok then ret (false, wcxt) else
       add_new_files fs files wcxt).

(** [afs_update]: the number of the entry is parsed only when the archive
    has no table of names. *)
Definition afs_update (fs : gmap string (list Z)) (fn oldfn newfn : string)
  : IO (Z * gmap string (list Z)) :=
  let fnum := if make_fntab =? 0 then u32 (fst (strtoul oldfn)) else 0 in
  if (make_fntab =? 0) && snd (strtoul oldfn) then ret (EXIT_FAILURE, fs)
  else
  rewrite_archive fs fn
    (fun fs rcxt n wcxt =>
       afs_update_loop fs rcxt fnum oldfn newfn n 0 0 time_now wcxt).

Definition afs_delete (fs : gmap string (list Z)) (fn : string)
    (files : list string) : IO (Z * gmap string (list Z)) :=
  rewrite_archive fs fn
    (fun _ rcxt n wcxt =>
       afs_delete_loop rcxt files n 0 false time_now wcxt).
End Library.

End NewAfs.

(** ** The PRS codec *)

Module Prs.

(** The compressed stream is a sequence of tokens, a literal byte or a
    back-reference into the window of bytes already produced ([dist] bytes
    back, [n] bytes long, the copy running byte by byte so that it may
    overlap its own output). *)
Inductive token : Type :=
| Lit (b : Z)
| Copy (dist n : nat).

(** What a token puts in the stream: control bits and data bytes, in the
    order in which the decoder asks for them. *)
Inductive item : Type :=
| Bit (b : bool)
| Byte (v : Z).

(** The window is kept most recent byte first. *)
Fixpoint copy (out : list Z) (dist n : nat) : option (list Z) :=
  match n with
  | O => Some out
  | S n =>
    match dist with
    | O => None
    | S d =>
      match out !! d with
      | Some c => copy (c :: out) dist n
      | None => None
      end
    end
  end.

Fixpoint expand (toks : list token) (out : list Z) : option (list Z) :=
  match toks with
  | [] => Some out
  | Lit b :: toks => expand toks (b :: out)
  | Copy dist n :: toks =>
    match copy out dist n with
    | Some out => expand toks out
    | None => None
    end
  end.

(** *** The packed stream *)

(** Control bits: 1 announces a literal byte; 0 0 a short copy, with two
    more bits for the length (2 to 5) and one byte for the distance (1 to
    256); 0 1 a long copy, with two bytes holding the distance (1 to 8191)
    and a three-bit length (3 to 9), a length field of zero sending the
    length (1 to 256) in a third byte; 0 1 followed by two zero bytes ends
    the stream. *)
Definition encode_token (t : token) : list item :=
  match t with
  | Lit b => [Bit true; Byte b]
  | Copy dist n =>
    if (dist <=? 256)%nat && (2 <=? n)%nat && (n <=? 5)%nat then
      [Bit false; Bit false; Bit (4 <=? n)%nat; Bit (Nat.odd n);
       Byte (256 - Z.of_nat dist)]
    else
      let field := if (3 <=? n)%nat && (n <=? 9)%nat
                   then Z.of_nat n - 2 else 0 in
      let v := (8192 - Z.of_nat dist) * 8 + field in
      [Bit false; Bit true; Byte (v mod 256); Byte (v / 256)]
        ++ (if field =? 0 then [Byte (Z.of_nat n - 1)] else [])
  end.

Definition end_items : list item := [Bit false; Bit true; Byte 0; Byte 0].

Definition items_of (toks : list token) : list item :=
  concat (map encode_token toks) ++ end_items.

(** The next [n] control bits of a stream, padded with zeros. *)
Fixpoint take_bits (n : nat) (its : list item) : list bool :=
  match its with
  | [] => replicate n false
  | Byte _ :: its => take_bits n its
  | Bit b :: its =>
    match n with
    | O => []
    | S n => b :: take_bits n its
    end
  end.

(** A control byte holds eight control bits, the first in its lowest bit. *)
Fixpoint pack (bits : list bool) : Z :=
  match bits with
  | [] => 0
  | b :: bits => Z.b2z b + 2 * pack bits
  end.

Definition unpack (c : Z) : list bool :=
  map (Z.testbit c) [0; 1; 2; 3; 4; 5; 6; 7].

(** The bytes of a stream: control bits are packed eight to a control
    byte, which is placed where its first bit is needed; [n] is the number
    of bits the current control byte still has room for. *)
Fixpoint layout (n : nat) (its : list item) : list Z :=
  match its with
  | [] => []
  | Byte v :: its => v :: layout n its
  | Bit b :: its =>
    match n with
    | S n => layout n its
    | O => pack (b :: take_bits 7 its) :: layout 7 its
    end
  end.

(** *** Compression *)

(** How far the window, read [dist] bytes back, agrees with the input. *)
Fixpoint match_len (out rest : list Z) (dist max : nat) {struct max}
  : nat :=
  match max, rest, dist with
  | S max, b :: rest, S d =>
    match out !! d with
    | Some c => if c =? b then S (match_len (b :: out) rest dist max) else O
    | None => O
    end
  | _, _, _ => O
  end.

(** The longest match over the distances [dist], [dist - 1], ..., 1, the
    nearest one among the longest. *)
Fixpoint best_match (out rest : list Z) (dist : nat) (best : nat * nat)
  : nat * nat :=
  match dist with
  | O => best
  | S d =>
    let n := match_len out rest dist 256 in
    best_match out rest d (if (snd best <=? n)%nat then (dist, n) else best)
  end.

(** A match is worth a back-reference when it is no longer to write than
    the literals it replaces. *)
Definition usable (m : nat * nat) : bool :=
  (3 <=? snd m)%nat || ((2 <=? snd m)%nat && (fst m <=? 256)%nat).

(** [skip] counts the bytes the last back-reference still covers. *)
Fixpoint tokenize (rest out : list Z) (skip : nat) : list token :=
  match rest with
  | [] => []
  | b :: rest' =>
    match skip with
    | S skip => tokenize rest' (b :: out) skip
    | O =>
      let m := best_match out rest
                 (Nat.min (length out) (Z.to_nat 8191)) (O, O) in
      if usable m
      then Copy (fst m) (snd m) :: tokenize rest' (b :: out) (snd m - 1)
      else Lit b :: tokenize rest' (b :: out) O
    end
  end.

(** Modelled from the spec: [prs_compress], of which the repository has the
    declaration (prs.h) and the callers only.  The spec asks for a
    deterministic sliding-window LZ-style compression with a packed
    control-bit-plus-literal/backreference-token stream whose output is
    self-describing; the model searches the window greedily and writes the
    packed stream described above. *)
Definition prs_compress (src : list Z) : list Z :=
  layout 0 (items_of (tokenize src [] 0)).

(** *** Decompression *)

Definition read_bit (bits : list bool) (src : list Z)
  : option (bool * list bool * list Z) :=
  match bits with
  | b :: bits => Some (b, bits, src)
  | [] =>
    match src with
    | c :: src => Some (Z.testbit c 0, tl (unpack c), src)
    | [] => None
    end
  end.

Definition copy_then {A} (out : list Z) (dist n : Z)
    (k : list Z -> option A) : option A :=
  match copy out (Z.to_nat dist) (Z.to_nat n) with
  | Some out => k out
  | None => None
  end.

(** Every read is checked against the end of the input and every
    back-reference against the start of the output; [None] is the error
    result. *)
Fixpoint decode_loop (fuel : nat) (bits : list bool) (src out : list Z)
  : option (list Z) :=
  match fuel with
  | O => None
  | S fuel =>
    match read_bit bits src with
    | None => None
    | Some (true, bits, src) =>
      match src with
      | b :: src => decode_loop fuel bits src (b :: out)
      | [] => None
      end
    | Some (false, bits, src) =>
      match read_bit bits src with
      | None => None
      | Some (true, bits, src) =>
        match src with
        | lo :: hi :: src =>
          let v := lo + 256 * hi in
          if v =? 0 then Some (rev out) else
          if v mod 8 =? 0 then
            match src with
            | e :: src =>
              copy_then out (8192 - v / 8) (e + 1) (decode_loop fuel bits src)
            | [] => None
            end
          else
            copy_then out (8192 - v / 8) (v mod 8 + 2)
                      (decode_loop fuel bits src)
        | _ => None
        end
      | Some (false, bits, src) =>
        match read_bit bits src with
        | None => None
        | Some (b1, bits, src) =>
          match read_bit bits src with
          | None => None
          | Some (b0, bits, src) =>
            match src with
            | o :: src =>
              copy_then out (256 - o) (2 + 2 * Z.b2z b1 + Z.b2z b0)
                        (decode_loop fuel bits src)
            | [] => None
            end
          end
        end
      end
    end
  end.

(** Modelled from the spec: [prs_decompress_buf], of which the repository
    has the declaration (prs.h) and the callers only.  It must invert
    [prs_compress] and fail cleanly, here with [None], on input that does
    not conform.  Every token takes at least one byte of the input, which
    bounds the number of rounds. *)
Definition prs_decompress_buf (src : list Z) : option (list Z) :=
  decode_loop (S (length src)) [] src [].

(** *** The keyed variant *)

Section Keyed.
(** The key schedule: byte [i] of the stream derived from a key. *)
Variable key_schedule : Z -> nat -> Z.

Definition xor_stream (key : Z) (l : list Z) : list Z :=
  imap (fun i b => Z.lxor b (key_schedule key i)) l.

(** Modelled from the spec: the keyed codec behind [pso_prsd_compress],
    which belongs to a library outside the repository.  The spec has it
    XOR the compressed stream with a stream derived from a numeric key,
    the same key being needed to decompress. *)
Definition prsd_compress (key : Z) (src : list Z) : list Z :=
  xor_stream key (prs_compress src).

(** Modelled from the spec: the keyed decompression, the inverse of
    [prsd_compress] under the same key. *)
Definition prsd_decompress (key : Z) (src : list Z) : option (list Z) :=
  prs_decompress_buf (xor_stream key src).
End Keyed.

End Prs.

(** ** artool.c: the table of archive operations *)

Module Artool.

Inductive archive_type : Type := ARCHIVE_TYPE_AFS | ARCHIVE_TYPE_GSLBE.

(** The four operations of [archive_funcs] that write an archive, with the
    arguments the command line hands them after the archive name. *)
Inductive mutation : Type :=
| Create (files : list string)
| Add (files : list string)
| Update (file path : string)
| Delete (files : list string).

Section Libc.
Variable strtoul : string -> Z * bool.
Variable basename : string -> string.

Definition archive_funcs (t : archive_type) (op : mutation)
    (fs : gmap string (list Z)) (fn : string)
  : IO (Z * gmap string (list Z)) :=
  match t, op with
  | ARCHIVE_TYPE_AFS, Create files => Afs.create_afs fs fn files
  | ARCHIVE_TYPE_AFS, Add files => Afs.add_to_afs fs fn files
  | ARCHIVE_TYPE_AFS, Update file path => Afs.update_afs strtoul fs fn file path
  | ARCHIVE_TYPE_AFS, Delete files => Afs.delete_from_afs strtoul fs fn files
  | ARCHIVE_TYPE_GSLBE, Create files => Gsl.create_gsl basename fs fn files
  | ARCHIVE_TYPE_GSLBE, Add files => Gsl.add_to_gsl basename fs fn files
  | ARCHIVE_TYPE_GSLBE, Update file path =>
      Gsl.update_gsl basename fs fn file path
  | ARCHIVE_TYPE_GSLBE, Delete files => Gsl.delete_from_gsl fs fn files
  end.
End Libc.

End Artool.

(** ** Notions used to state the properties *)

(** The value a computation returns from a given state. *)
Definition run {A} (m : IO A) (st : io_state) : option A := fst <$> m st.

(** A state that injects no fault, with the endianness of gsl.c not yet
    chosen. *)
Definition no_faults : io_state := mk_io [] Gsl.GSL_AUTO "ABCDEF".

(** What a writing operation may leave behind: after a failure the file
    system it started from; after a return of zero the archive replaced by
    the temporary file or, the rename having failed, the file system it
    started from with the temporary file added. *)
Definition outcome (fs : gmap string (list Z)) (fn : string)
    (r : Z * gmap string (list Z)) : Prop :=
  (fst r <> 0 -> snd r = fs) /\
  (fst r = 0 ->
   (exists d, snd r = <[fn := d]> fs) \/
   (exists tmp d, fs !! tmp = None /\ snd r = <[tmp := d]> fs)).

(** A callback of [scan_gsl] leaves the contents of the archive it reads
    from alone. *)
Definition keeps_archive {D}
    (p : FILE -> Z -> Z -> list Z -> D -> IO (Z * FILE * D)) : Prop :=
  forall fp i sz fn d,
    post (p fp i sz fn d) (fun r => f_data (snd (fst r)) = f_data fp).

(** The tokens the packed stream can hold. *)
Definition wf_token (t : Prs.token) : Prop :=
  match t with
  | Prs.Lit _ => True
  | Prs.Copy dist n =>
    (1 <= dist <= Z.to_nat 8191)%nat /\ (1 <= n <= 256)%nat
  end.

(** What the search of the window returns: nothing, or a distance in range
    with the length of the match at that distance. *)
Definition good_match (out rest : list Z) (m : nat * nat) : Prop :=
  m = (O, O) \/
  ((1 <= fst m <= Z.to_nat 8191)%nat /\
   snd m = Prs.match_len out rest (fst m) 256).

(** The room left in the control byte once a bit has been taken. *)
Definition after_bit (n : nat) : nat :=
  match n with O => 7%nat | S n => n end.

(** *** Contents of streams and the layout of AFS archives *)

(** What [fwrite] leaves of the contents [d] once [bs] is written at
    [pos]: nothing changes for an empty buffer. *)
Definition store (d : list Z) (pos : Z) (bs : list Z) : list Z :=
  match bs with [] => d | _ => write_at d (Z.to_nat pos) bs end.

(** The bytes [bs] are in [d] at position [q]. *)
Definition region (d : list Z) (q : Z) (bs : list Z) : Prop :=
  take (length bs) (drop (Z.to_nat q) d) = bs.

(** The name [mkstemp] picks for a template in the state [st]. *)
Definition temp_name (template : string) (st : io_state) : string :=
  (String.substring 0 (String.length template - 6) template
   ++ mkstemp_suffix st)%string.

(** No fault is injected while the list of faults goes from [l] to [l']:
    what the calls in between consumed is a run of [false]. *)
Definition quiet (l l' : list bool) : Prop :=
  exists n : nat, l = replicate n false ++ l'.

(** The state [st1] is reached from [st] by calls into none of which a
    fault was injected. *)
Definition calm (st st1 : io_state) : Prop :=
  quiet (faults st) (faults st1) /\ mkstemp_suffix st1 = mkstemp_suffix st.

(** What a writing operation that started in the state [st] on the file
    system [fs] leaves when it returns zero: the name [mkstemp] picks for
    [template] was free; no fault was injected into any of the calls made
    up to the state [st1], in which [rename] is called; and the file system
    [fs'] and the state [st'] are what [rename] makes, whatever it returns,
    of [fs] with the temporary file, of some contents [d], added: the
    archive [fn] replaced by [d] when [rename] succeeds, the temporary file
    left beside the old archive when it fails. *)
Definition renamed (template : string) (fs : gmap string (list Z))
    (fn : string) (st : io_state) (fs' : gmap string (list Z))
    (st' : io_state) : Prop :=
  exists d st1 rc,
    fs !! temp_name template st = None /\
    quiet (faults st) (faults st1) /\
    rename (temp_name template st) fn
           (<[temp_name template st := d]> fs) st1
    = Some (rc, fs', st') /\
    (rc = 0 -> fs' = <[fn := d]> fs) /\
    (rc <> 0 -> fs' = <[temp_name template st := d]> fs).

(** An operation that rebuilds the archive [fn] through a temporary file
    named after [template].  From every state it returns.  A result other
    than zero comes with the file system it started from: the temporary
    file is gone and the archive untouched.  A result of zero comes only
    from the end of the operation, after the [rename]. *)
Definition rebuilds (template : string) (fs : gmap string (list Z))
    (fn : string) (m : IO (Z * gmap string (list Z))) : Prop :=
  forall st, exists rv fs' st',
    m st = Some (rv, fs', st') /\
    (rv <> 0 -> fs' = fs) /\
    (rv = 0 -> renamed template fs fn st fs' st').

(** The least multiple of 2048 strictly above [pos]. *)
Definition next_block (pos : Z) : Z := 2048 * (pos / 2048 + 1).

(** The contents once an entry is written the way afs.c writes it: the row
    of the table at [fpos], the data at [wpos], a zero byte in front of the
    next block. *)
Definition put_afs (d : list Z) (fpos wpos : Z) (c : list Z) : list Z :=
  store (store (store d fpos (put_le32 wpos ++ put_le32 (len c))) wpos c)
        (next_block (wpos + len c) - 1) [0].

Fixpoint put_all (d : list Z) (fpos wpos : Z) (contents : list (list Z))
  : list Z :=
  match contents with
  | [] => d
  | c :: cs =>
    put_all (put_afs d fpos wpos c) (fpos + 8) (next_block (wpos + len c)) cs
  end.

(** Where the data of the next entry goes once [contents] are stored from
    [wpos] on, each entry starting a block of its own. *)
Fixpoint afs_end (wpos : Z) (contents : list (list Z)) : Z :=
  match contents with
  | [] => wpos
  | c :: cs => afs_end (next_block (wpos + len c)) cs
  end.

(** The entries, offset and data, of an archive that stores [contents] from
    [wpos] on. *)
Fixpoint afs_items (wpos : Z) (contents : list (list Z))
  : list (Z * list Z) :=
  match contents with
  | [] => []
  | c :: cs => (wpos, c) :: afs_items (next_block (wpos + len c)) cs
  end.

(** The rows of the table at [fpos] describe [items], and the data of each
    item is in [d] at its offset. *)
Fixpoint afs_rows (d : list Z) (fpos : Z) (items : list (Z * list Z))
  : Prop :=
  match items with
  | [] => True
  | (off, c) :: items =>
    0 <= off < 2 ^ 32 /\ len c < 2 ^ 32 /\
    region d fpos (put_le32 off ++ put_le32 (len c)) /\
    region d off c /\ afs_rows d (fpos + 8) items
  end.

(** A well-formed AFS archive holding [items]: the magic number, the
    count, the table from offset 8 on and the data of every entry. *)
Definition afs_archive (d : list Z) (items : list (Z * list Z)) : Prop :=
  len items < 2 ^ 32 /\ region d 0 (Afs.afs_header (len items)) /\
  afs_rows d 8 items.

(** The file system once [contents] are written under the names of the
    entries [i], [i + 1], ... of the archive [fn]. *)
Fixpoint extracted (fn : string) (cnt i : Z) (fs : gmap string (list Z))
    (contents : list (list Z)) : gmap string (list Z) :=
  match contents with
  | [] => fs
  | c :: cs =>
    extracted fn cnt (i + 1) (<[Afs.extract_name fn cnt i := c]> fs) cs
  end.

(** The lines of the listing of an archive holding [items]. *)
Definition listing (items : list (Z * list Z)) : list (Z * Z * Z * Z) :=
  imap (fun i it => (Afs.digits (len items), Z.of_nat i, fst it, len (snd it)))
       items.

(** The entries [copy_filtered] copies: those whose index, counted from
    [i], is not in [items]. *)
Fixpoint kept (items : list Z) (i : Z) (cs : list (list Z))
  : list (list Z) :=
  match cs with
  | [] => []
  | c :: cs =>
    if existsb (fun item => item =? i) items then kept items (i + 1) cs
    else c :: kept items (i + 1) cs
  end.

(** The number a string of decimal digits stands for. *)
Fixpoint parse_dec (s : string) (acc : Z) : Z :=
  match s with
  | EmptyString => acc
  | String ch s => parse_dec s (10 * acc + (Z.of_nat (nat_of_ascii ch) - 48))
  end.

(** *** Archives that are refused, and what an operation leaves alone *)

(** The count in the header of an AFS archive, as [open_afs] reads it, and
    the signature it asks for. *)
Definition afs_count (d : list Z) : Z := get_le32 (take 4 (drop 4 d)).

Definition is_afs (d : list Z) : Prop := take 4 d = [0x41; 0x46; 0x53; 0x00].

(** The file [fn] is missing or does not start with the signature. *)
Definition not_afs (fs : gmap string (list Z)) (fn : string) : Prop :=
  match fs !! fn with
  | Some d => ~ is_afs d
  | None => True
  end.

(** The paths other than [n1] and [n2] hold what they hold in [fs]. *)
Definition only_changed (fs : gmap string (list Z)) (n1 n2 : string)
    (fs' : gmap string (list Z)) : Prop :=
  forall k, k <> n1 -> k <> n2 -> fs' !! k = fs !! k.

(** Every name in the table of the BML archive [fn] ends within its 32
    bytes: the 32 bytes of each of the entries the header counts hold a
    NUL, so that the C string the code takes from [filename] stops inside
    the field. *)
Definition bml_names_terminated (fs : gmap string (list Z)) (fn : string)
  : bool :=
  match fs !! fn with
  | Some data =>
    forallb (fun i => existsb (Z.eqb 0)
                              (take 32 (drop (64 + 64 * i) data)))
            (seq 0 (Z.to_nat (get_le32 (drop 4 data))))
  | None => true
  end.

(** *** The loops of the newer archive tool *)

(** The indices [i], [i + 1], ..., [n] of them. *)
Fixpoint range (i : Z) (n : nat) : list Z :=
  match n with
  | O => []
  | S n => i :: range (i + 1) n
  end.

(** The elements in front of the first one that satisfies [P], and the
    first one that satisfies [P] with those behind it. *)
Fixpoint until_match (P : Z -> bool) (l : list Z) : list Z :=
  match l with
  | [] => []
  | i :: l => if P i then [] else i :: until_match P l
  end.

Fixpoint from_match (P : Z -> bool) (l : list Z) : list Z :=
  match l with
  | [] => []
  | i :: l' => if P i then l else from_match P l'
  end.

Section NewGslNotions.
Variables R W : Type.
Variable file_name : R -> Z -> Z * string.
Variable file_size : R -> Z -> Z.
Variable file_read : R -> Z -> Z -> Z * list Z.
Variable write_add : W -> string -> list Z -> Z -> Z * W.
Variable r : R.

(** The entry [i] of [r] added to the writing context. *)
Definition gsl_copied (w : W) (i : Z) : W :=
  snd (write_add w (snd (file_name r i))
                 (snd (file_read r i (file_size r i))) (file_size r i)).

(** The library gives the name, the size and the contents of entry [i]. *)
Definition gsl_readable (i : Z) : Prop :=
  0 <= fst (file_name r i) /\ 0 <= file_size r i /\
  0 <= fst (file_read r i (file_size r i)).
End NewGslNotions.

(** *** The layout of GSL archives *)

(** A name a table entry can hold and the scan can read back: not empty,
    shorter than 32 bytes, without a NUL. *)
Definition gsl_name (nm : list Z) : Prop :=
  nm <> [] /\ len nm < 32 /\ cstr nm = nm.

(** The row of the table for an entry stored at [wpos]. *)
Definition gsl_row (e : Z) (nm : list Z) (wpos size : Z) : list Z :=
  strncpy nm 32 ++ Gsl.entry_tail e (Z.shiftr wpos 11) size.

(** The contents once an entry is written the way gsl.c writes it: the row
    at [fpos], the data at [wpos], a zero byte in front of the next
    block. *)
Definition put_gsl (e : Z) (d : list Z) (fpos wpos : Z) (nm c : list Z)
  : list Z :=
  store (store (store d fpos (gsl_row e nm wpos (len c))) wpos c)
        (next_block (wpos + len c) - 1) [0].

Fixpoint put_all_gsl (e : Z) (d : list Z) (fpos wpos : Z)
    (entries : list (list Z * list Z)) : list Z :=
  match entries with
  | [] => d
  | (nm, c) :: es =>
    put_all_gsl e (put_gsl e d fpos wpos nm c) (fpos + 48)
                (next_block (wpos + len c)) es
  end.

(** The entries, name, offset and data, of an archive that stores
    [entries] from [wpos] on. *)
Fixpoint gsl_items (wpos : Z) (entries : list (list Z * list Z))
  : list (list Z * Z * list Z) :=
  match entries with
  | [] => []
  | (nm, c) :: es => (nm, wpos, c) :: gsl_items (next_block (wpos + len c)) es
  end.

(** The rows of the table at [fpos] describe [items], and the data of each
    item is in [d] at its offset, the start of a block. *)
Fixpoint gsl_rows (e : Z) (d : list Z) (fpos : Z)
    (items : list (list Z * Z * list Z)) : Prop :=
  match items with
  | [] => True
  | (nm, off, c) :: items =>
    gsl_name nm /\ 0 <= off /\ off mod 2048 = 0 /\ off / 2048 < 2 ^ 32 /\
    len c < 2 ^ 32 /\
    region d fpos (gsl_row e nm off (len c)) /\
    region d off c /\ gsl_rows e d (fpos + 48) items
  end.

(** A well-formed GSL archive holding [items]: the table from offset 0 on,
    closed by a zero byte where the next name would start, with 32 bytes to
    read there. *)
Definition gsl_archive (e : Z) (d : list Z)
    (items : list (list Z * Z * list Z)) : Prop :=
  gsl_rows e d 0 items /\ region d (48 * len items) [0] /\
  48 * len items + 32 <= len d.

(** The names and the contents [create_gsl] stores for the input files. *)
Definition gsl_entries (basename : string -> string) (files : list string)
    (contents : list (list Z)) : list (list Z * list Z) :=
  zip (map (fun f => bytes_of_string (basename f)) files) contents.

(** The state once the endianness is chosen: [create_gsl] takes big endian
    when none was asked for. *)
Definition settle (st : io_state) : io_state :=
  if endianness st =? Gsl.GSL_AUTO
  then mk_io (faults st) Gsl.GSL_BIG (mkstemp_suffix st)
  else st.

(** The file system once the entries are written under their names. *)
Fixpoint gsl_extracted (fs : gmap string (list Z))
    (items : list (list Z * Z * list Z)) : gmap string (list Z) :=
  match items with
  | [] => fs
  | (nm, _, c) :: items => gsl_extracted (<[string_of_bytes nm := c]> fs) items
  end.

(** The lines of the listing of a GSL archive holding [items]. *)
Definition gsl_listing (items : list (list Z * Z * list Z))
  : list (Z * list Z * Z * Z) :=
  imap (fun i it => (Z.of_nat i, fst (fst it), u32 (snd (fst it)),
                     len (snd it)))
       items.

(** *** Sample archives *)

(** A GSL archive with the single entry ["a"], one byte long, stored in
    block 1; the table takes the first 2048 bytes. *)
Definition one_entry_gsl : list Z :=
  strncpy (bytes_of_string "a") 32 ++ put_be32 1 ++ put_be32 1
    ++ replicate 8 0 ++ replicate (2048 - 48) 0 ++ [88] ++ replicate 2047 0.

(** A GSL archive of [n] one-byte entries named f00, f01, ...: a table of
    two blocks, then one block for each entry. *)
Definition gsl_of_entries (n : nat) : list Z :=
  let row i :=
    strncpy [102; 48 + Z.of_nat (i / 10); 48 + Z.of_nat (i mod 10)] 32
      ++ put_be32 (2 + Z.of_nat i) ++ put_be32 1 ++ replicate 8 0 in
  let table := flat_map row (seq 0 n) in
  table ++ replicate (4096 - length table) 0
    ++ flat_map (fun i => Z.of_nat i :: replicate 2047 0) (seq 0 n).

(** A file of 96 bytes whose first entry has the offset bytes 00 00 20 00:
    block 8192 when read big-endian, block 2097152 when read little-endian,
    both far beyond the end of the file. *)
Definition wrapping_gsl : list Z :=
  strncpy (bytes_of_string "a") 32 ++ [0; 0; 0x20; 0] ++ [0; 0; 0; 0]
    ++ replicate 8 0 ++ replicate 48 0.

(** An AFS archive without entries, as [delete_from_afs] leaves it when
    every entry is deleted. *)
Definition empty_afs : list Z := Afs.afs_header 0.

(** A BML archive with the single entry ["a"]: four bytes of data at offset
    2048 and a PVM of two bytes at offset 2080, the file padded to 2112
    bytes. *)
Definition one_entry_bml : list Z :=
  ([0; 0; 0; 0] ++ put_le32 1 ++ [0x50; 0x01; 0; 0] ++ replicate 52 0)
    ++ (strncpy (bytes_of_string "a") 32 ++ put_le32 4 ++ put_le32 0
          ++ put_le32 16 ++ put_le32 2 ++ put_le32 8 ++ replicate 12 0)
    ++ replicate (2048 - 128) 0
    ++ [1; 2; 3; 4] ++ replicate 28 0
    ++ [9; 8] ++ replicate 30 0.

(** That archive next to an unrelated file. *)
Definition bml_and_file : gmap string (list Z) :=
  <["m.bml"%string := one_entry_bml]> (<["b"%string := [1; 2; 3]]> ∅).

(** A stand-in for [pso_prsd_compress] whose output is the key it was
    given. *)
Definition key_probe (src : list Z) (key endian : Z) : Z * list Z :=
  (4, put_le32 key).

(** An AFS archive of two entries, stored back to back right after the
    table: [1; 2; 3] at offset 24 and [4; 5] at offset 27. *)
Definition two_entry_afs : list Z :=
  Afs.afs_header 2 ++ put_le32 24 ++ put_le32 3 ++ put_le32 27 ++ put_le32 2
    ++ [1; 2; 3] ++ [4; 5].

Definition two_entry_items : list (Z * list Z) :=
  [(24, [1; 2; 3]); (27, [4; 5])].

(** File systems for the operations: two input files; the archive above
    with one input file. *)
Definition two_files : gmap string (list Z) :=
  <["a"%string := [1; 2; 3]]> (<["b"%string := [4; 5]]> ∅).

Definition afs_and_file : gmap string (list Z) :=
  <["x.afs"%string := two_entry_afs]> (<["n"%string := [7; 8; 9; 10]]> ∅).

(** A stand-in for [strtoul] that reads decimal digits and never sets
    [errno]. *)
Definition decimal_strtoul (s : string) : Z * bool := (parse_dec s 0, false).

(** A name of 35 characters, too long for a GSL table entry, and a file
    system in which a file of that name exists, beside the two input files
    and a GSL archive. *)
Definition long_name : string := "a_name_of_35_characters_is_long.bin".

Definition long_name_fs : gmap string (list Z) :=
  <[long_name := [7]]> (<["x.gsl"%string := one_entry_gsl]> two_files).

(** A library of lists, for the examples: an archive is the list of its
    entries, a writing context the entries added so far, last one first. *)
Definition list_gsl : list (string * list Z) :=
  [("a.bin", [1; 2]); ("b.bin", [3]); ("c.bin", [4; 5; 6]); ("b.bin", [7])].

Definition list_entry (r : list (string * list Z)) (i : Z)
  : string * list Z :=
  nth (Z.to_nat i) r (EmptyString, []).

Definition list_read_open (fs : gmap string (list Z)) (fn : string) (e : Z)
  : option (list (string * list Z)) :=
  if bool_decide (fn = "x.gsl") then Some list_gsl else None.

Definition list_file_count (r : list (string * list Z)) : Z := len r.

Definition list_file_name (r : list (string * list Z)) (i : Z) : Z * string :=
  (0, fst (list_entry r i)).

Definition list_file_size (r : list (string * list Z)) (i : Z) : Z :=
  len (snd (list_entry r i)).

Definition list_file_read (r : list (string * list Z)) (i sz : Z)
  : Z * list Z :=
  (0, snd (list_entry r i)).

Definition list_new_fd (fd e : Z) : option (list (string * list Z)) :=
  Some [].

Definition list_set_ftab_size (w : list (string * list Z)) (n : Z)
  : Z * list (string * list Z) :=
  (0, w).

Definition list_write_add (w : list (string * list Z)) (name : string)
    (buf : list Z) (sz : Z) : Z * list (string * list Z) :=
  (0, (name, buf) :: w).

Definition list_write_add_file (w : list (string * list Z))
    (name fn : string) (fs : gmap string (list Z))
  : Z * list (string * list Z) :=
  match fs !! fn with
  | Some d => (0, (name, d) :: w)
  | None => (-1, w)
  end.

Definition list_write_close (w : list (string * list Z)) : list Z :=
  flat_map snd (rev w).

(** A state without faults in which big endian has been asked for. *)
Definition big_endian : io_state := mk_io [] Gsl.GSL_BIG "ABCDEF".

(** The same with little endian. *)
Definition little_endian : io_state := mk_io [] Gsl.GSL_LITTLE "ABCDEF".

(** A file system that holds the one-entry archive. *)
Definition one_gsl : gmap string (list Z) :=
  <["x.gsl"%string := one_entry_gsl]> ∅.

(** Input files f00, f01, ...: file [i] holds the single byte [i]. *)
Definition numbered_name (i : nat) : string :=
  String "f" (String (ascii_of_nat (48 + i / 10))
                     (String (ascii_of_nat (48 + i mod 10)) EmptyString)).

Definition numbered_files (n : nat) : list string :=
  map numbered_name (seq 0 n).

Definition numbered_contents (n : nat) : list (list Z) :=
  map (fun i => [Z.of_nat i]) (seq 0 n).

Definition numbered_fs (n : nat) : gmap string (list Z) :=
  list_to_map (zip (numbered_files n) (numbered_contents n)).

(** * Properties *)

(** ** Total correctness of the I/O layer *)

Lemma post_ret {A} (a : A) (Q : A -> Prop) : Q a -> post (ret a) Q.
Proof. intros H st. exists a, st. split; [reflexivity | exact H]. Qed.

Lemma post_bind {A B} (m : IO A) (k : A -> IO B) (P : A -> Prop)
    (Q : B -> Prop) :
  post m P -> (forall a, P a -> post (k a) Q) -> post (bind m k) Q.
Proof.
  intros Hm Hk st. destruct (Hm st) as (a & st1 & E & Ha).
  destruct (Hk a Ha st1) as (b & st2 & E2 & Hb).
  exists b, st2. unfold bind. rewrite E. split; assumption.
Qed.

Lemma post_mono {A} (m : IO A) (P Q : A -> Prop) :
  post m P -> (forall a, P a -> Q a) -> post m Q.
Proof.
  intros Hm H st. destruct (Hm st) as (a & st1 & E & Ha).
  exists a, st1. split; [exact E | apply H, Ha].
Qed.

Lemma total_of_post {A} (m : IO A) (P : A -> Prop) : post m P -> total m.
Proof. intros H. eapply post_mono; [exact H | trivial]. Qed.

Lemma ret_total {A} (a : A) : total (ret a).
Proof. apply post_ret. trivial. Qed.

Lemma fault_total : total fault.
Proof.
  intros st. unfold fault. destruct (faults st); eauto.
Qed.

Lemma get_endianness_total : total get_endianness.
Proof. intros st. unfold get_endianness. eauto. Qed.

Lemma set_endianness_total e : total (set_endianness e).
Proof. intros st. unfold set_endianness. eauto. Qed.

Create HintDb iospec.
#[local] Hint Resolve ret_total fault_total get_endianness_total
  set_endianness_total : iospec.

(** One step of a total-correctness argument over a computation. *)
Ltac io_step :=
  lazymatch goal with
  | |- post (ret _) _ => apply post_ret
  | |- post (bind _ _) _ =>
    eapply post_bind; [solve [eauto with iospec] | cbv beta; intros]
  | |- post (match ?x with _ => _ end) _ => destruct x eqn:?
  end.

Ltac io_total := repeat io_step; trivial; try solve [eauto with iospec].

Lemma fseek_spec f off w :
  post (fseek f off w)
       (fun r => f_data (snd r) = f_data f /\
                 (fst r = 0 -> 0 <= f_pos (snd r) /\
                   match w with
                   | SEEK_SET => f_pos (snd r) = off
                   | SEEK_CUR => f_pos (snd r) = f_pos f + off
                   | SEEK_END => f_pos (snd r) = len (f_data f) + off
                   end) /\
                 (fst r <> 0 -> snd r = f)).
Proof.
  unfold fseek. eapply post_bind; [apply fault_total | intros b _].
  destruct b; simpl.
  - apply post_ret. simpl. repeat split; intros; try lia; congruence.
  - destruct (_ <? 0) eqn:E; apply post_ret; simpl.
    + repeat split; intros; try lia; congruence.
    + apply Z.ltb_ge in E. repeat split; try lia; try congruence;
        destruct w; reflexivity.
Qed.

Lemma fseek_total f off w : total (fseek f off w).
Proof. eapply total_of_post, fseek_spec. Qed.

Lemma fread_spec f n :
  post (fread f n)
       (fun r => f_data (snd r) = f_data f /\
                 f_pos (snd r) = f_pos f + len (fst r) /\
                 (0 <= f_pos f -> 0 < n -> len (fst r) = n ->
                  f_pos f + n <= len (f_data f))).
Proof.
  unfold fread. eapply post_bind; [apply fault_total | intros b _].
  destruct b; apply post_ret; simpl.
  - repeat split; unfold len; simpl; lia.
  - repeat split. intros Hp Hn. unfold len.
    rewrite length_take, length_drop. lia.
Qed.

Lemma fread_total f n : total (fread f n).
Proof. eapply total_of_post, fread_spec. Qed.

Lemma fwrite_total f bs : total (fwrite f bs).
Proof. unfold fwrite. destruct bs; io_total. Qed.

Lemma fopen_rb_total fs fn : total (fopen_rb fs fn).
Proof. unfold fopen_rb. io_total. Qed.

Lemma fopen_wb_total fs fn : total (fopen_wb fs fn).
Proof. unfold fopen_wb. io_total. Qed.

Lemma fdopen_wb_total fd : total (fdopen_wb fd).
Proof. unfold fdopen_wb. io_total. Qed.

#[local] Hint Resolve fseek_total fread_total fwrite_total fopen_rb_total
  fopen_wb_total fdopen_wb_total : iospec.

Lemma copy_file_loop_spec fuel : forall dst src size,
  size <= Z.of_nat fuel ->
  post (copy_file_loop fuel dst src size)
       (fun r => f_data (snd (fst r)) = f_data src).
Proof.
  induction fuel as [|fuel IH]; intros dst src size Hs; simpl.
  - destruct (512 <? size) eqn:E; [apply Z.ltb_lt in E; lia|].
    apply post_ret. reflexivity.
  - destruct (512 <? size) eqn:E; [|apply post_ret; reflexivity].
    apply Z.ltb_lt in E.
    eapply post_bind; [apply fread_spec | intros [xbuf src1] (Hd & _)].
    simpl in Hd. cbv beta iota.
    destruct (negb _); [apply post_ret; simpl; exact Hd|].
    eapply post_bind; [apply fwrite_total | intros [n dst1] _].
    cbv beta iota.
    destruct (negb _); [apply post_ret; simpl; exact Hd|].
    eapply post_mono; [apply IH; lia|].
    intros r Hr. congruence.
Qed.

Lemma copy_file_spec dst src size :
  post (copy_file dst src size) (fun r => f_data (snd r) = f_data src).
Proof.
  unfold copy_file.
  eapply post_bind; [apply (copy_file_loop_spec (Z.to_nat size)); lia|].
  intros [[[rv dst1] src1] size1] Hd. simpl in Hd. cbv beta iota.
  destruct (negb (rv =? 0)); [apply post_ret; exact Hd|].
  destruct (negb (size1 =? 0)); [|apply post_ret; exact Hd].
  eapply post_bind; [apply fread_spec | intros [xbuf src2] (Hd2 & _)].
  simpl in Hd2. cbv beta iota.
  destruct (negb _); [apply post_ret; simpl; congruence|].
  eapply post_bind; [apply fwrite_total | intros [n dst2] _].
  cbv beta iota.
  destruct (negb _); apply post_ret; simpl; congruence.
Qed.

Lemma copy_file_total dst src size : total (copy_file dst src size).
Proof. eapply total_of_post, copy_file_spec. Qed.

Lemma pad_file_total fp b : total (pad_file fp b).
Proof. unfold pad_file. io_total. Qed.

#[local] Hint Resolve copy_file_total pad_file_total : iospec.

(** The file system around a failed or a completed operation. *)

Lemma unlink_fresh (fs : gmap string (list Z)) tmp d :
  fs !! tmp = None -> unlink tmp (<[tmp := d]> fs) = fs.
Proof.
  intros H. unfold unlink. rewrite delete_insert_eq. apply delete_id, H.
Qed.

Lemma abandon_fresh (fs : gmap string (list Z)) tmp ofp d :
  fs !! tmp = None ->
  unlink tmp (fclose_w tmp ofp (<[tmp := d]> fs)) = fs.
Proof.
  intros H. unfold fclose_w. rewrite insert_insert_eq.
  apply unlink_fresh, H.
Qed.

Lemma mkstemp_spec (fs : gmap string (list Z)) template :
  post (mkstemp fs template)
       (fun r => (fst (fst r) < 0 /\ snd r = fs) \/
                 (fst (fst r) = 0 /\ fs !! snd (fst r) = None /\
                  snd r = <[snd (fst r) := []]> fs)).
Proof.
  unfold mkstemp. eapply post_bind; [apply fault_total | intros b _].
  intros st. destruct b.
  - eexists _, _. split; [reflexivity|]. left. simpl.
    split; [lia | reflexivity].
  - destruct (fs !! _) eqn:E; eexists _, _; (split; [reflexivity|]); simpl.
    + left. split; [lia | reflexivity].
    + right. auto.
Qed.

Lemma outcome_failed fs fn rv : rv <> 0 -> outcome fs fn (rv, fs).
Proof. intros H. split; simpl; [reflexivity | tauto]. Qed.

Lemma rename_spec (fs : gmap string (list Z)) old new d :
  fs !! old = Some d ->
  post (rename old new fs)
       (fun r => (fst r <> 0 /\ snd r = fs) \/
                 (fst r = 0 /\ snd r = <[new := d]> (delete old fs))).
Proof.
  intros H. unfold rename.
  eapply post_bind; [apply fault_total | intros b _].
  destruct b.
  - apply post_ret. left. simpl. split; [lia | reflexivity].
  - rewrite H. apply post_ret. right. simpl. auto.
Qed.

Lemma commit_outcome (fs : gmap string (list Z)) tmp fn ofp :
  fs !! tmp = None ->
  post (commit tmp fn ofp (<[tmp := []]> fs)) (outcome fs fn).
Proof.
  intros H. unfold commit, fclose_w. rewrite insert_insert_eq.
  eapply post_bind; [apply rename_spec, lookup_insert_eq|].
  intros [rc fs'] [[_ E] | [_ E]]; simpl in E; subst fs'; apply post_ret;
    split; simpl; try tauto; intros _.
  - right. exists tmp, (f_data ofp). auto.
  - left. exists (f_data ofp). rewrite delete_insert_eq, delete_id by exact H.
    reflexivity.
Qed.

(** *** afs.c *)

Lemma open_afs_total fs fn : total (Afs.open_afs fs fn).
Proof. unfold Afs.open_afs. io_total. Qed.

#[local] Hint Resolve open_afs_total : iospec.

Lemma scan_afs_loop_total {D}
    (p : FILE -> Z -> Z -> Z -> D -> IO (Z * FILE * D)) :
  (forall fp i cnt sz d, total (p fp i cnt sz d)) ->
  forall n i entries fp rv d, total (Afs.scan_afs_loop p n i entries fp rv d).
Proof.
  intros Hp. induction n as [|n IH]; intros; cbn [Afs.scan_afs_loop]; io_total.
Qed.

Lemma scan_afs_total {D}
    (p : FILE -> Z -> Z -> Z -> D -> IO (Z * FILE * D)) :
  (forall fp i cnt sz d, total (p fp i cnt sz d)) ->
  forall fs fn d, total (Afs.scan_afs p fs fn d).
Proof.
  intros Hp fs fn d. unfold Afs.scan_afs.
  pose proof (scan_afs_loop_total p Hp). io_total.
Qed.

Lemma add_files_to_afs_total fs files : forall ofp fpos wpos,
  total (Afs.add_files_to_afs fs ofp fpos wpos files).
Proof.
  induction files as [|f files IH]; intros; cbn [Afs.add_files_to_afs];
    io_total.
Qed.

#[local] Hint Resolve add_files_to_afs_total : iospec.

Lemma afs_copy_file_cb_total fp i cnt sz ofp :
  total (Afs.copy_file_cb fp i cnt sz ofp).
Proof. unfold Afs.copy_file_cb. io_total. Qed.

Lemma afs_copy_filtered_total fp i cnt sz cxt :
  total (Afs.copy_filtered fp i cnt sz cxt).
Proof. unfold Afs.copy_filtered. io_total. Qed.

Lemma afs_copy_update_total fs fp i cnt sz cxt :
  total (Afs.copy_update fs fp i cnt sz cxt).
Proof. unfold Afs.copy_update. io_total. Qed.

#[local] Hint Resolve afs_copy_file_cb_total afs_copy_filtered_total
  afs_copy_update_total : iospec.
#[local] Hint Resolve scan_afs_total : iospec.

(** One step through a writing operation: a checked call, the failure
    return that follows it, or the final commit. *)
Ltac op_step :=
  lazymatch goal with
  | |- post (ret (_, abandon _ _ _)) _ =>
    apply post_ret; unfold abandon; rewrite abandon_fresh by assumption;
    apply outcome_failed; lia
  | |- post (ret (_, unlink _ _)) _ =>
    apply post_ret; rewrite unlink_fresh by assumption;
    apply outcome_failed; lia
  | |- post (ret (_, _)) _ => apply post_ret, outcome_failed; lia
  | |- post (commit _ _ _ _) _ => apply commit_outcome; assumption
  | |- post (bind (mkstemp _ _) _) _ =>
    eapply post_bind; [apply mkstemp_spec|];
    let fd := fresh "fd" in let tmp := fresh "tmp" in
    let fs1 := fresh "fs1" in let Hfd := fresh "Hfd" in
    let Hfresh := fresh "Hfresh" in let E := fresh "E" in
    intros [[fd tmp] fs1] [[Hfd E] | (Hfd & Hfresh & E)];
    simpl in Hfd, E; try (simpl in Hfresh); subst fs1;
    [ replace (fd <? 0) with true by (symmetry; apply Z.ltb_lt; lia)
    | replace (fd <? 0) with false by (symmetry; apply Z.ltb_ge; lia) ]
  | |- post (bind (match ?x with _ => _ end) _) _ => destruct x eqn:?
  | |- post (bind _ _) _ =>
    eapply post_bind; [solve [eauto with iospec] | cbv beta; intros]
  | |- post (match ?x with _ => _ end) _ => destruct x eqn:?
  end.

Ltac op_outcome := repeat op_step.

Lemma create_afs_outcome fs fn files :
  post (Afs.create_afs fs fn files) (outcome fs fn).
Proof. unfold Afs.create_afs. op_outcome. Qed.

Lemma add_to_afs_outcome fs fn files :
  post (Afs.add_to_afs fs fn files) (outcome fs fn).
Proof. unfold Afs.add_to_afs. op_outcome. Qed.

Lemma update_afs_outcome strtoul fs fn fno file :
  post (Afs.update_afs strtoul fs fn fno file) (outcome fs fn).
Proof. unfold Afs.update_afs. op_outcome. Qed.

Lemma delete_from_afs_outcome strtoul fs fn files :
  post (Afs.delete_from_afs strtoul fs fn files) (outcome fs fn).
Proof. unfold Afs.delete_from_afs. op_outcome. Qed.

(** *** gsl.c *)

Lemma add_files_to_gsl_total basename fs files : forall ofp fpos wpos,
  total (Gsl.add_files_to_gsl basename fs ofp fpos wpos files).
Proof.
  induction files as [|f files IH]; intros; cbn [Gsl.add_files_to_gsl];
    io_total.
Qed.

#[local] Hint Resolve add_files_to_gsl_total : iospec.

Ltac keep_step :=
  lazymatch goal with
  | |- post (ret _) _ => apply post_ret; cbn [fst snd] in *; congruence
  | |- post (bind (copy_file _ _ _) _) _ =>
    eapply post_bind; [apply copy_file_spec | cbv beta; intros]
  | |- post (bind _ _) _ =>
    eapply post_bind; [solve [eauto with iospec] | cbv beta; intros]
  | |- post (match ?x with _ => _ end) _ =>
    destruct x eqn:?; cbn [fst snd] in *
  end.

Lemma gsl_copy_file_cb_keeps : keeps_archive Gsl.copy_file_cb.
Proof. intros fp i sz fn ofp. unfold Gsl.copy_file_cb. repeat keep_step. Qed.

Lemma gsl_copy_filtered_keeps : keeps_archive Gsl.copy_filtered.
Proof. intros fp i sz fn cxt. unfold Gsl.copy_filtered. repeat keep_step. Qed.

Lemma gsl_copy_update_keeps basename fs :
  keeps_archive (Gsl.copy_update basename fs).
Proof. intros fp i sz fn cxt. unfold Gsl.copy_update. repeat keep_step. Qed.

Lemma scan_gsl_loop_total {D}
    (p : option (FILE -> Z -> Z -> list Z -> D -> IO (Z * FILE * D))) :
  (forall q, p = Some q -> keeps_archive q) ->
  forall fuel i tot fp d,
    0 <= f_pos fp ->
    len (f_data fp) < f_pos fp + 32 + 48 * Z.of_nat fuel ->
    total (Gsl.scan_gsl_loop p (S fuel) i tot fp d).
Proof.
  intros Hp. induction fuel as [|fuel IH]; intros i tot fp d Hpos Hlen.
  - cbn [Gsl.scan_gsl_loop].
    eapply post_bind; [apply fread_spec|].
    intros [filename fp1] (_ & _ & H). simpl in H.
    destruct (len filename =? 32) eqn:E; simpl.
    + apply Z.eqb_eq in E. specialize (H Hpos ltac:(lia) E). lia.
    + apply post_ret. trivial.
  - remember (S fuel) as fuel1. cbn [Gsl.scan_gsl_loop].
    eapply post_bind; [apply fread_spec|].
    intros [filename fp1] (D1 & P1 & _). simpl in D1, P1.
    destruct (len filename =? 32) eqn:E1; simpl; [|apply post_ret; trivial].
    apply Z.eqb_eq in E1.
    destruct (byte_at filename 0 =? 0); [apply post_ret; trivial|].
    eapply post_bind; [apply fread_spec|].
    intros [buf fp2] (D2 & P2 & _). simpl in D2, P2.
    destruct (len buf =? 4) eqn:E2; simpl; [|apply post_ret; trivial].
    apply Z.eqb_eq in E2.
    eapply post_bind; [apply get_endianness_total | intros e _].
    eapply post_bind with (P := fun _ => True).
    { destruct (e =? Gsl.GSL_AUTO); [|destruct (e =? Gsl.GSL_BIG)];
        [destruct (Gsl.guess_endianness buf tot) as [[? ?]|]|..];
        io_total. }
    intros [offset|] _; [|apply post_ret; trivial].
    eapply post_bind; [apply fread_spec|].
    intros [buf3 fp3] (D3 & P3 & _). simpl in D3, P3.
    destruct (len buf3 =? 4) eqn:E3; simpl; [|apply post_ret; trivial].
    apply Z.eqb_eq in E3.
    eapply post_bind; [apply get_endianness_total | intros e' _].
    eapply post_bind; [apply fseek_spec|].
    intros [rc4 fp4] (D4 & P4 & _). simpl in D4, P4.
    destruct (rc4 =? 0) eqn:E4; simpl; [|apply post_ret; trivial].
    apply Z.eqb_eq in E4. destruct (P4 E4) as [_ P4'].
    eapply post_bind; [apply fseek_spec|].
    intros [rc5 fp5] (D5 & _ & _). simpl in D5.
    destruct (rc5 =? 0) eqn:E5; simpl; [|apply post_ret; trivial].
    eapply post_bind with (P := fun r => f_data (snd (fst r)) = f_data fp5).
    { destruct p as [q|]; [apply (Hp q eq_refl)|].
      apply post_ret; reflexivity. }
    intros [[r fp6] d6] D6. simpl in D6.
    destruct (r =? 0); simpl; [|apply post_ret; trivial].
    eapply post_bind; [apply fseek_spec|].
    intros [rc7 fp7] (D7 & P7 & _). simpl in D7, P7.
    destruct (rc7 =? 0) eqn:E7; simpl; [|apply post_ret; trivial].
    apply Z.eqb_eq in E7. destruct (P7 E7) as [P7a P7b].
    subst fuel1. apply IH; [exact P7a|].
    unfold ftell in P7b. rewrite D7, D6, D5, D4, D3, D2, D1. lia.
Qed.

Lemma scan_gsl_total {D}
    (p : option (FILE -> Z -> Z -> list Z -> D -> IO (Z * FILE * D))) :
  (forall q, p = Some q -> keeps_archive q) ->
  forall fs fn d, total (Gsl.scan_gsl p fs fn d).
Proof.
  intros Hp fs fn d. unfold Gsl.scan_gsl.
  eapply post_bind; [apply fopen_rb_total | intros [fp|] _];
    [|apply post_ret; trivial].
  eapply post_bind; [apply fseek_spec|].
  intros [rc fp1] (D1 & P1 & _). simpl in D1, P1.
  destruct (rc =? 0) eqn:E; simpl; [|apply post_ret; trivial].
  eapply post_bind; [apply fault_total | intros b _]. cbv zeta.
  destruct (_ <? 0); [apply post_ret; trivial|].
  eapply post_bind; [apply fseek_spec|].
  intros [rc2 fp2] (D2 & P2 & _). simpl in D2, P2.
  destruct (rc2 =? 0) eqn:E2; simpl; [|apply post_ret; trivial].
  apply Z.eqb_eq in E2. destruct (P2 E2) as [P2a P2b].
  apply scan_gsl_loop_total; [exact Hp | lia |].
  rewrite P2b. unfold len. lia.
Qed.

Lemma count_gsl_total fs fn : total (Gsl.count_gsl fs fn).
Proof.
  unfold Gsl.count_gsl.
  eapply post_bind; [apply scan_gsl_total; discriminate|].
  intros [? ?] _. apply post_ret. trivial.
Qed.

Lemma scan_gsl_cb_total {D}
    (q : FILE -> Z -> Z -> list Z -> D -> IO (Z * FILE * D)) fs fn d :
  keeps_archive q -> total (Gsl.scan_gsl (Some q) fs fn d).
Proof.
  intros H. apply scan_gsl_total. intros q' E. injection E as <-. exact H.
Qed.

#[local] Hint Resolve count_gsl_total scan_gsl_cb_total
  gsl_copy_file_cb_keeps gsl_copy_filtered_keeps gsl_copy_update_keeps
  : iospec.

Lemma create_gsl_outcome basename fs fn files :
  post (Gsl.create_gsl basename fs fn files) (outcome fs fn).
Proof. unfold Gsl.create_gsl. op_outcome. Qed.

Lemma add_to_gsl_outcome basename fs fn files :
  post (Gsl.add_to_gsl basename fs fn files) (outcome fs fn).
Proof. unfold Gsl.add_to_gsl. op_outcome. Qed.

Lemma update_gsl_outcome basename fs fn file path :
  post (Gsl.update_gsl basename fs fn file path) (outcome fs fn).
Proof. unfold Gsl.update_gsl. op_outcome. Qed.

Lemma delete_from_gsl_outcome fs fn files :
  post (Gsl.delete_from_gsl fs fn files) (outcome fs fn).
Proof. unfold Gsl.delete_from_gsl. op_outcome. Qed.

(** ** The writing operations of the archive tool *)


(** C8.  [create_afs] with more than 65535 input files returns -14 and
    leaves the file system as it was: no file appears at the destination
    path. *)
Theorem create_afs_capacity :
  forall (fs : gmap string (list Z)) fn files st,
    65535 < len files ->
    Afs.create_afs fs fn files st = Some (-14, fs, st).
Proof.
  intros fs fn files st H. unfold Afs.create_afs.
  apply Z.ltb_lt in H. rewrite H. reflexivity.
Qed.

(** C8, witness: 65536 input files. *)
Lemma create_afs_capacity_witness :
  Afs.create_afs ∅ "big.afs" (replicate (Z.to_nat 65536) "f"%string) no_faults
  = Some (-14, ∅, no_faults).
Proof. apply create_afs_capacity. vm_compute. reflexivity. Defined.

(** C10, at the failing input.  Appending the three-byte file ["b"] to an
    AFS archive without entries returns zero and leaves an archive of 2048
    bytes whose payload starts at offset 8, inside the region the other
    operations keep for the table: [add_to_afs] takes the write position
    from [ftell] after the scan, which is 8 when no entry was copied. *)
Theorem append_to_empty_afs :
  let fs : gmap string (list Z) :=
    <["e.afs"%string := empty_afs]> (<["b"%string := [1; 2; 3]]> ∅) in
  (fun r => (fst r,
             (fun d => (len d, take 3 (drop 8 d)))
               <$> (snd r !! "e.afs"%string)))
    <$> run (Afs.add_to_afs fs "e.afs" ["b"%string]) no_faults
  = Some (0, Some (2048, [1; 2; 3])).
Proof. vm_compute. reflexivity. Qed.

(** [create_afs] with one file: the entry records the offset 0x80000 and
    the archive is 0x80000 + 2048 bytes long. *)
Lemma create_afs_first_payload :
  (fun r => (fst r,
             (fun d => (len d, get_le32 (drop 8 d),
                        take 3 (drop (Z.to_nat 0x80000) d)))
               <$> (snd r !! "n.afs"%string)))
    <$> run (Afs.create_afs (<["b"%string := [1; 2; 3]]> ∅) "n.afs"
                            ["b"%string]) no_faults
  = Some (0, Some (0x80000 + 2048, 0x80000, [1; 2; 3])).
Proof. vm_compute. reflexivity. Qed.

(** Clearing the low [k] bits rounds down to a multiple of [2 ^ k]. *)
Lemma land_lnot_pow2 pos k :
  0 <= k -> Z.land pos (Z.lnot (2 ^ k - 1)) = 2 ^ k * (pos / 2 ^ k).
Proof.
  intros Hk. rewrite <- Z.ldiff_land.
  replace (2 ^ k - 1) with (Z.ones k) by (rewrite Z.ones_equiv; lia).
  rewrite Z.ldiff_ones_r by exact Hk.
  rewrite Z.shiftl_mul_pow2, Z.shiftr_div_pow2 by exact Hk. lia.
Qed.

(** C3, at the failing input.  For one entry the table length computed by
    the writing operations is 0, not 2048: the mask 0xFFFFF000 clears
    twelve bits.  [create_gsl] then writes the payload of its single file at
    offset 0, over the table entry, so the archive starts with the payload
    byte 88 and not with the name. *)
Theorem gsl_table_region_of_one_entry :
  Gsl.hdrlen 1 = 0 /\
  (fun r => (fst r, take 1 <$> (snd r !! "x.gsl"%string)))
    <$> run (Gsl.create_gsl id (<["a"%string := [88]]> ∅) "x.gsl"
                            ["a"%string]) no_faults
  = Some (0, Some [88]).
Proof. split; vm_compute; reflexivity. Qed.

(** The table length is 0 up to 42 entries, the first value that leaves
    room for the table being reached at 43. *)
Lemma gsl_hdrlen_values :
  forallb (fun n => Gsl.hdrlen (Z.of_nat n) =? 0) (seq 0 43) = true /\
  Gsl.hdrlen 43 = 4096 /\ Gsl.hdrlen 128 = 8192.
Proof. repeat split; vm_compute; reflexivity. Qed.

(** The table length the writing operations compute: the sum rounded down
    to a multiple of 4096. *)
Lemma gsl_hdrlen_formula n :
  0 <= n -> n * 48 + 2048 < 2 ^ 32 ->
  Gsl.hdrlen n = 4096 * ((n * 48 + 2048) / 4096).
Proof.
  intros Hn Hlt. unfold Gsl.hdrlen, u32.
  rewrite Z.mod_small by lia.
  set (x := n * 48 + 2048).
  change 0xFFFFF000 with (Z.land (Z.lnot (2 ^ 12 - 1)) (Z.ones 32)).
  rewrite (Z.land_comm (Z.lnot _)), Z.land_assoc, Z.land_ones by lia.
  rewrite Z.mod_small by (subst x; lia).
  rewrite land_lnot_pow2 by lia. reflexivity.
Qed.

(** C7, at the failing input.  [update_gsl] with a name that matches no
    entry of a one-entry archive returns zero, but the archive that
    replaces the original does not hold the original entry: the table
    length is computed as 0 (the defect of C3), the payload is written over
    the table entry, and the name of the first entry, ["a"] before, is the
    payload byte 88 after. *)
Theorem update_gsl_unmatched_one_entry :
  let fs : gmap string (list Z) :=
    <["x.gsl"%string := one_entry_gsl]> (<["b"%string := [1; 2; 3]]> ∅) in
  cstr (take 32 one_entry_gsl) = [97] /\
  (fun r => (fst r, (fun d => cstr (take 32 d)) <$> (snd r !! "x.gsl"%string)))
    <$> run (Gsl.update_gsl id fs "x.gsl" "zzz" "b") no_faults
  = Some (0, Some [88]).
Proof. split; vm_compute; reflexivity. Qed.

(** With 43 entries the computed table length, 4096, holds the table, and
    the same operation rebuilds the archive byte for byte. *)
Lemma update_gsl_unmatched_43_entries :
  let fs : gmap string (list Z) :=
    <["x.gsl"%string := gsl_of_entries 43]> (<["b"%string := [1; 2; 3]]> ∅) in
  (fun r => (fst r, bool_decide (snd r !! "x.gsl"%string
                                 = Some (gsl_of_entries 43))))
    <$> run (Gsl.update_gsl id fs "x.gsl" "zzz" "b") no_faults
  = Some (0, true).
Proof. vm_compute. reflexivity. Qed.

(** C4, at the failing input.  The first offset of the 96-byte file is out
    of range under both byte orders, yet the scan with endianness [auto]
    does not refuse the file: the little-endian block number times 2048 is
    2^32, which the 32-bit product turns into 0.  The scan settles on
    little-endian and returns the entry count 1 instead of -9. *)
Theorem gsl_auto_endian_wraps :
  len wrapping_gsl < get_be32 [0; 0; 0x20; 0] * 2048 /\
  len wrapping_gsl < get_le32 [0; 0; 0x20; 0] * 2048 /\
  Gsl.count_gsl (<["bad.gsl"%string := wrapping_gsl]> ∅) "bad.gsl" no_faults
  = Some (1, mk_io [] Gsl.GSL_LITTLE "ABCDEF").
Proof. repeat split; vm_compute; reflexivity. Qed.

(** As long as no product leaves 32 bits, the guess is the one described:
    big-endian if its offset lies in the file, else little-endian if its
    offset does, else a refusal. *)
Lemma guess_endianness_no_wrap buf tot :
  0 <= tot < 2 ^ 32 ->
  get_be32 buf * 2048 < 2 ^ 32 -> get_le32 buf * 2048 < 2 ^ 32 ->
  Gsl.guess_endianness buf tot
  = if get_be32 buf * 2048 <=? tot then Some (get_be32 buf, Gsl.GSL_BIG)
    else if get_le32 buf * 2048 <=? tot then Some (get_le32 buf, Gsl.GSL_LITTLE)
    else None.
Proof.
  intros Ht Hb Hl. unfold Gsl.guess_endianness.
  assert (0 <= get_be32 buf) as Hb0
    by (unfold get_be32, u32; apply Z.mod_pos_bound; lia).
  assert (0 <= get_le32 buf) as Hl0
    by (unfold get_le32, u32; apply Z.mod_pos_bound; lia).
  set (be := get_be32 buf) in *. set (le := get_le32 buf) in *.
  unfold u32. rewrite !Z.mod_small by lia.
  destruct (be * 2048 <=? tot) eqn:E1.
  - apply Z.leb_le in E1.
    replace (tot <? be) with false by (symmetry; apply Z.ltb_ge; lia).
    replace (tot <? be * 2048) with false by (symmetry; apply Z.ltb_ge; lia).
    reflexivity.
  - apply Z.leb_gt in E1.
    replace (tot <? be * 2048) with true by (symmetry; apply Z.ltb_lt; lia).
    rewrite orb_true_r.
    destruct (le * 2048 <=? tot) eqn:E2.
    + apply Z.leb_le in E2.
      replace (tot <? le * 2048) with false by (symmetry; apply Z.ltb_ge; lia).
      reflexivity.
    + apply Z.leb_gt in E2.
      replace (tot <? le * 2048) with true by (symmetry; apply Z.ltb_lt; lia).
      reflexivity.
Qed.

(** ** Padding *)

Lemma length_write_at data pos bs :
  length (write_at data pos bs)
  = Nat.max (length data) (pos + length bs)%nat.
Proof.
  unfold write_at.
  rewrite !length_app, length_take, length_replicate, length_drop. lia.
Qed.

(** The position [pad_file] returns for a boundary that is a power of two:
    the least multiple of the boundary strictly above the position. *)
Lemma next_multiple_strict pos k :
  0 <= k ->
  let b := 2 ^ k in
  let r := b * (pos / b + 1) in
  pos < r /\ r mod b = 0 /\ (forall m, m mod b = 0 -> pos < m -> r <= m).
Proof.
  intros Hk b r. assert (0 < b) as Hb by (apply Z.pow_pos_nonneg; lia).
  pose proof (Z.div_mod pos b ltac:(lia)) as E.
  pose proof (Z.mod_pos_bound pos b Hb) as Hm.
  subst r. repeat split.
  - nia.
  - rewrite Z.mul_comm. apply Z.mod_mul. lia.
  - intros m Hm0 Hlt. apply Z.mod_divide in Hm0; [|lia].
    destruct Hm0 as [q ->].
    assert (pos / b < q) by nia. nia.
Qed.

Lemma fault_none st : faults st = [] -> fault st = Some (false, st).
Proof. intros H. unfold fault. rewrite H. reflexivity. Qed.

Lemma fseek_set_ok f off st :
  faults st = [] -> 0 <= off ->
  fseek f off SEEK_SET st = Some (0, mk_file (f_data f) off, st).
Proof.
  intros H Hoff. unfold fseek, bind. rewrite (fault_none st H).
  replace (off <? 0) with false by (symmetry; apply Z.ltb_ge; exact Hoff).
  reflexivity.
Qed.

Lemma fwrite_ok f b bs st :
  faults st = [] ->
  fwrite f (b :: bs) st
  = Some (len (b :: bs),
          mk_file (write_at (f_data f) (Z.to_nat (f_pos f)) (b :: bs))
                  (f_pos f + len (b :: bs)), st).
Proof.
  intros H. unfold fwrite, bind. rewrite (fault_none st H). reflexivity.
Qed.

(** Without a fault, and for a boundary that is a power of two, [pad_file]
    returns the least multiple of the boundary strictly above the position
    of the stream, leaves the stream there and extends the file up to it. *)
Lemma pad_file_returns fp k st :
  0 <= k -> 0 <= f_pos fp -> faults st = [] ->
  let r := 2 ^ k * (f_pos fp / 2 ^ k + 1) in
  exists fp',
    pad_file fp (2 ^ k) st = Some (r, fp', st) /\
    f_pos fp' = r /\
    len (f_data fp') = Z.max (len (f_data fp)) r.
Proof.
  intros Hk Hpos Hf r.
  assert (0 < 2 ^ k) as Hb by (apply Z.pow_pos_nonneg; lia).
  destruct (next_multiple_strict (f_pos fp) k Hk) as (Hlt & _ & _).
  fold r in Hlt.
  unfold pad_file, ftell.
  replace (2 ^ k <=? 0) with false by (symmetry; apply Z.leb_gt; exact Hb).
  rewrite land_lnot_pow2 by exact Hk.
  replace (2 ^ k * (f_pos fp / 2 ^ k) + 2 ^ k) with r by (subst r; lia).
  unfold bind. rewrite fseek_set_ok by (assumption || lia).
  cbn [Z.eqb negb]. rewrite fwrite_ok by assumption.
  replace (len [0]) with 1 by reflexivity. cbn [Z.eqb Pos.eqb negb].
  unfold ret. eexists. split; [reflexivity|].
  cbn [f_pos f_data]. split; [lia|].
  unfold len. rewrite length_write_at. cbn [length]. lia.
Qed.

(** C5, at the failing input.  At position 2048, a multiple of the boundary
    2048, [pad_file] returns 4096 and leaves the stream 4096 bytes long; at
    position 32 with the boundary 32 it returns 64, where the reader of
    bmltool.c rounds 32 to 32. *)
Theorem pad_file_on_boundary :
  (fun r => (fst r, f_pos (snd r), len (f_data (snd r))))
    <$> run (pad_file (mk_file (replicate 2048 7) 2048) 2048) no_faults
  = Some (4096, 4096, 4096) /\
  fst <$> run (pad_file (mk_file (replicate 32 7) 32) 32) no_faults = Some 64 /\
  Bml.round_32 32 = 32.
Proof. repeat split; vm_compute; reflexivity. Qed.

(** ** Extraction from BML archives *)

(** C9, at the failing input.  The entry has four bytes of data and a PVM of
    two bytes, [9; 8]; the file written for the PVM holds four bytes, the
    size of the parent entry. *)
Theorem extract_pvm_uses_parent_size :
  let fs : gmap string (list Z) := <["m.bml"%string := one_entry_bml]> ∅ in
  Bml.pvm_csize (Bml.parse_entry (take 64 (drop 64 one_entry_bml))) = 2 /\
  (fun r => (fst r, snd r !! "a.prs"%string, snd r !! "a.pvm.prs"%string))
    <$> run (Bml.extract_bml fs "m.bml") no_faults
  = Some (0, Some [1; 2; 3; 4], Some [9; 8; 0; 0]).
Proof. split; vm_compute; reflexivity. Qed.

(** ** The key of the PRSD front end *)

(** C6, at the failing input.  With the key 12345 on the command line the
    variable [key] holds 12345, but the key handed to the compression is
    0xfeedface = 4277009102, as the output of the probe shows. *)
Theorem prsd_explicit_key_not_used :
  let fs : gmap string (list Z) := <["in.bin"%string := [1; 2; 3]]> ∅ in
  let argv :=
    ["artool"; "--prsd"; "-c"; "out.prsd"; "in.bin"; "12345"]%string in
  (fun r => (Prsd.r_rv r, Prsd.r_key_variable r, Prsd.r_key_passed r,
             Prsd.r_fs r !! "out.prsd"%string))
    <$> run (Prsd.prsd key_probe (fun _ _ _ => (-1, []))
                       (fun _ => (12345, false)) 777 id fs argv) no_faults
  = Some (0, Some 12345, Some 4277009102, Some (put_le32 0xfeedface)).
Proof. vm_compute. reflexivity. Qed.

(** Without a key on the command line the variable holds the random value,
    here 777, and the key handed to the compression is again 0xfeedface. *)
Lemma prsd_random_key_not_used :
  let fs : gmap string (list Z) := <["in.bin"%string := [1; 2; 3]]> ∅ in
  let argv := ["artool"; "--prsd"; "-c"; "out.prsd"; "in.bin"]%string in
  (fun r => (Prsd.r_rv r, Prsd.r_key_variable r, Prsd.r_key_passed r,
             Prsd.r_fs r !! "out.prsd"%string))
    <$> run (Prsd.prsd key_probe (fun _ _ _ => (-1, []))
                       (fun _ => (0, false)) 777 id fs argv) no_faults
  = Some (0, Some 777, Some 4277009102, Some (put_le32 0xfeedface)).
Proof. vm_compute. reflexivity. Qed.

Lemma write_file_total fs fn buf : total (Prsd.write_file fs fn buf).
Proof. unfold Prsd.write_file. io_total. Qed.

Lemma read_file_total fs fn : total (Prsd.read_file fs fn).
Proof. unfold Prsd.read_file. io_total. Qed.

#[local] Hint Resolve write_file_total read_file_total : iospec.

(** Whatever the arguments and the library, the key handed to the
    compression is 0xfeedface whenever the compression is called. *)
Lemma prsd_key_passed compress decompress strtoul rand basename fs argv :
  post (Prsd.prsd compress decompress strtoul rand basename fs argv)
       (fun r => Prsd.r_key_passed r = None \/
                 Prsd.r_key_passed r = Some 0xfeedface).
Proof.
  unfold Prsd.prsd.
  repeat lazymatch goal with
  | |- post (ret _) _ => apply post_ret; cbn; auto
  | |- post (bind _ _) _ =>
    eapply post_bind; [solve [eauto with iospec] | cbv beta; intros]
  | |- post (match ?x with _ => _ end) _ => destruct x eqn:?
  | |- post (let (_, _) := ?x in _) _ => destruct x eqn:?
  end.
Qed.

(** ** The PRS codec *)

Section PrsFacts.
Import Prs.

Lemma take_bits_zero its : take_bits 0 its = [].
Proof. induction its as [|[b|v] its IH]; simpl; auto. Qed.

Lemma length_take_bits n its : length (take_bits n its) = n.
Proof.
revert n. induction its as [|[b|v] its IH]; intros n; simpl.
- apply length_replicate.
- destruct n; simpl; [reflexivity | rewrite IH; reflexivity].
- apply IH.
Qed.

Lemma unpack_pack b0 b1 b2 b3 b4 b5 b6 b7 :
unpack (pack [b0; b1; b2; b3; b4; b5; b6; b7])
= [b0; b1; b2; b3; b4; b5; b6; b7].
Proof.
destruct b0, b1, b2, b3, b4, b5, b6, b7; reflexivity.
Qed.

Lemma unpack_pack_8 bits :
length bits = 8%nat -> unpack (pack bits) = bits.
Proof.
intros H.
do 8 (destruct bits as [|? bits]; [discriminate|]).
destruct bits; [|discriminate]. apply unpack_pack.
Qed.

(** Reading a control bit from a laid-out stream. *)
Lemma testbit_pack_0 b bits : Z.testbit (pack (b :: bits)) 0 = b.
Proof.
cbn [pack]. rewrite Z.bit0_odd, Z.odd_add_mul_2. destruct b; reflexivity.
Qed.

Lemma read_bit_layout n b its :
read_bit (take_bits n (Bit b :: its)) (layout n (Bit b :: its))
= Some (b, take_bits (after_bit n) its, layout (after_bit n) its).
Proof.
destruct n as [|n]; cbn [take_bits layout read_bit after_bit];
  [|reflexivity].
rewrite testbit_pack_0, unpack_pack_8; [reflexivity|].
cbn [length]. rewrite length_take_bits. reflexivity.
Qed.

Lemma copy_app out dist n m out1 :
copy out dist n = Some out1 -> copy out dist (n + m) = copy out1 dist m.
Proof.
revert out. induction n as [|n IH]; intros out H; simpl in *.
- congruence.
- destruct dist as [|d]; [discriminate|].
  destruct (out !! d); [|discriminate]. apply IH, H.
Qed.

(** What agrees with the window can be copied from it. *)
Lemma match_len_copy max : forall out rest dist,
(match_len out rest dist max <= max)%nat /\
(match_len out rest dist max <= length rest)%nat /\
copy out dist (match_len out rest dist max)
= Some (rev (take (match_len out rest dist max) rest) ++ out).
Proof.
assert (forall out rest dist k,
  (O <= k)%nat /\ (O <= length rest)%nat /\
  copy out dist O = Some (rev (take O rest) ++ out)) as base.
{ intros. repeat split; try lia. }
induction max as [|max IH]; intros out rest dist; cbn [match_len].
- apply base.
- destruct rest as [|b rest]; [apply (base out [] dist)|].
  destruct dist as [|d]; [apply base|].
  destruct (out !! d) as [c|] eqn:E; [|apply base].
  destruct (c =? b) eqn:Ec; [|apply base].
  apply Z.eqb_eq in Ec. subst c.
  destruct (IH (b :: out) rest (S d)) as (H1 & H2 & H3).
  cbn [length copy take rev]. rewrite E, H3.
  repeat split; try lia.
  rewrite <- app_assoc. reflexivity.
Qed.

Lemma best_match_good out rest : forall dist best,
(dist <= Z.to_nat 8191)%nat -> good_match out rest best ->
good_match out rest (best_match out rest dist best).
Proof.
induction dist as [|d IH]; intros best Hd Hb; simpl; [exact Hb|].
apply IH; [lia|].
destruct (snd best <=? _)%nat; [|exact Hb].
right. simpl. split; [lia | reflexivity].
Qed.

Lemma tokenize_expand rest : forall out skip,
(skip <= length rest)%nat ->
expand (tokenize rest out skip) (rev (take skip rest) ++ out)
= Some (rev rest ++ out) /\
Forall wf_token (tokenize rest out skip).
Proof.
induction rest as [|b rest IH]; intros out skip Hs.
- simpl in *. replace skip with O by lia. simpl. auto.
- cbn [tokenize]. destruct skip as [|skip].
  + set (m := best_match _ _ _ _).
    assert (good_match out (b :: rest) m) as Hm.
    { apply best_match_good; [lia | left; reflexivity]. }
    destruct (usable m) eqn:Eu.
    * destruct Hm as [-> | [Hd Hn]]; [discriminate|].
      destruct (match_len_copy 256 out (b :: rest) (fst m)) as (H1 & H2 & H3).
      rewrite <- Hn in *.
      assert (2 <= snd m)%nat as H4.
      { unfold usable in Eu. apply orb_true_iff in Eu as [Eu | Eu].
        - apply Nat.leb_le in Eu. lia.
        - apply andb_true_iff in Eu as [Eu _]. apply Nat.leb_le in Eu. lia. }
      destruct (IH (b :: out) (snd m - 1)%nat) as [IH1 IH2];
        [simpl in H2; lia|].
      split.
      -- cbn [expand take rev app]. rewrite H3.
         assert (take (snd m) (b :: rest) = b :: take (snd m - 1) rest)
           as -> by (destruct (snd m); [lia | simpl; rewrite Nat.sub_0_r;
                                              reflexivity]).
         cbn [rev]. rewrite <- app_assoc. cbn [app].
         rewrite IH1. rewrite <- app_assoc. reflexivity.
      -- constructor; [|exact IH2]. simpl. split; [exact Hd | lia].
    * destruct (IH (b :: out) O) as [IH1 IH2]; [lia|].
      split.
      -- cbn [expand take rev app]. simpl in IH1. rewrite IH1.
         rewrite <- app_assoc. reflexivity.
      -- constructor; [exact I | exact IH2].
  + destruct (IH (b :: out) skip) as [IH1 IH2]; [simpl in Hs; lia|].
    split; [|exact IH2].
    cbn [take rev]. rewrite <- app_assoc. cbn [app]. rewrite IH1.
    rewrite <- app_assoc. reflexivity.
Qed.


Lemma items_of_cons t toks :
items_of (t :: toks) = encode_token t ++ items_of toks.
Proof. unfold items_of. cbn [map concat]. apply eq_sym, app_assoc. Qed.

Lemma long_field d s :
1 <= d <= 8191 -> 0 <= s < 8 ->
let v := (8192 - d) * 8 + s in
v mod 256 + 256 * (v / 256) = v /\ v <> 0 /\ v mod 8 = s /\
v / 8 = 8192 - d.
Proof.
intros Hd Hs v. subst v. repeat split.
- pose proof (Z.div_mod ((8192 - d) * 8 + s) 256). lia.
- lia.
- symmetry. apply Z.mod_unique with (q := 8192 - d); lia.
- symmetry. apply Z.div_unique with (r := s); lia.
Qed.

Ltac rb := rewrite read_bit_layout; cbv beta iota.

Lemma decode_items toks : forall n out out' fuel,
Forall wf_token toks -> expand toks out = Some out' ->
(length toks < fuel)%nat ->
decode_loop fuel (take_bits n (items_of toks)) (layout n (items_of toks)) out
= Some (rev out').
Proof.
induction toks as [|t toks IH]; intros n out out' fuel Hwf He Hf;
  (destruct fuel as [|fuel]; [simpl in Hf; lia|]).
- cbn [expand] in He. injection He as <-.
  unfold items_of, end_items. cbn [map concat app decode_loop].
  rb. rb. cbn [take_bits layout]. reflexivity.
- rewrite items_of_cons. apply Forall_cons in Hwf as [Ht Hwf].
  cbn [length] in Hf. apply Nat.succ_lt_mono in Hf.
  destruct t as [b | dist k]; cbn [expand] in He.
  + cbn [encode_token app decode_loop]. rb. cbn [take_bits layout].
    apply IH; assumption.
  + destruct (copy out dist k) as [out1|] eqn:Ec; [|discriminate].
    destruct Ht as [Hd Hk]. cbn [encode_token].
    destruct ((dist <=? 256)%nat && (2 <=? k)%nat && (k <=? 5)%nat) eqn:Es.
    * apply andb_true_iff in Es as [Es E3].
      apply andb_true_iff in Es as [E1 E2].
      apply Nat.leb_le in E1, E2, E3.
      cbn [app decode_loop]. rb. rb. rb. rb. cbn [take_bits layout].
      unfold copy_then.
      replace (Z.to_nat (256 - (256 - Z.of_nat dist))) with dist by lia.
      replace (Z.to_nat (2 + 2 * Z.b2z (4 <=? k)%nat + Z.b2z (Nat.odd k)))
        with k.
      2:{ assert (k = 2 \/ k = 3 \/ k = 4 \/ k = 5)%nat as Hc by lia.
          destruct Hc as [-> | [-> | [-> | ->]]]; reflexivity. }
      rewrite Ec. apply IH; assumption.
    * clear Es.
      set (field := if (3 <=? k)%nat && (k <=? 9)%nat
                    then Z.of_nat k - 2 else 0).
      assert (0 <= field < 8) as Hfield.
      { subst field. destruct ((3 <=? k)%nat && (k <=? 9)%nat) eqn:E;
          [|lia].
        apply andb_true_iff in E as [E1 E2]. apply Nat.leb_le in E1, E2.
        lia. }
      destruct (long_field (Z.of_nat dist) field) as (V1 & V2 & V3 & V4);
        [lia | exact Hfield |].
      cbn zeta in V1, V2, V3, V4.
      set (v := (8192 - Z.of_nat dist) * 8 + field) in *.
      cbn [app decode_loop]. rb. rb.
      destruct (field =? 0) eqn:E0.
      -- cbn [app take_bits layout]. cbv zeta. rewrite V1, V3, V4.
         apply Z.eqb_neq in V2. rewrite V2, E0. unfold copy_then.
         replace (Z.to_nat (8192 - (8192 - Z.of_nat dist))) with dist by lia.
         replace (Z.to_nat (Z.of_nat k - 1 + 1)) with k by lia.
         rewrite Ec. apply IH; assumption.
      -- cbn [app take_bits layout]. cbv zeta. rewrite V1, V3, V4.
         apply Z.eqb_neq in V2. rewrite V2, E0. unfold copy_then.
         replace (Z.to_nat (8192 - (8192 - Z.of_nat dist))) with dist by lia.
         replace (Z.to_nat (field + 2)) with k.
         2:{ subst field. apply Z.eqb_neq in E0.
             destruct ((3 <=? k)%nat && (k <=? 9)%nat); lia. }
         rewrite Ec. apply IH; assumption.
Qed.

Lemma layout_bit_length n b its :
(length (layout (after_bit n) its) <= length (layout n (Bit b :: its)))%nat.
Proof. destruct n; cbn [layout after_bit length]; lia. Qed.

Lemma layout_length toks : forall n,
(length toks <= length (layout n (items_of toks)))%nat.
Proof.
induction toks as [|t toks IH]; intros n; [cbn [length]; lia|].
rewrite items_of_cons.
destruct t as [b | dist k]; cbn [encode_token].
- cbn [app]. etransitivity; [|apply layout_bit_length].
  cbn [layout length]. specialize (IH (after_bit n)). lia.
- destruct (_ && _ && _).
  + cbn [app]. do 4 (etransitivity; [|apply layout_bit_length]).
    cbn [layout length].
    specialize (IH (after_bit (after_bit (after_bit (after_bit n))))). lia.
  + cbn [app]. do 2 (etransitivity; [|apply layout_bit_length]).
    cbn [layout length]. destruct (_ =? 0); cbn [app layout length];
    specialize (IH (after_bit (after_bit n))); lia.
Qed.

Lemma xor_stream_involutive key_schedule key l :
xor_stream key_schedule key (xor_stream key_schedule key l) = l.
Proof.
unfold xor_stream. apply list_eq. intros i.
rewrite !list_lookup_imap. destruct (l !! i) as [b|]; cbn; [|reflexivity].
rewrite Z.lxor_assoc, Z.lxor_nilpotent, Z.lxor_0_r. reflexivity.
Qed.

(** C2.  For every byte sequence [x], the empty one included, decompressing
  the compression of [x] gives [x] back, for the PRS codec and for the
  keyed variant under any key schedule when the same key is used on both
  sides. *)
Theorem prs_round_trip :
(forall x, prs_decompress_buf (prs_compress x) = Some x) /\
(forall key_schedule key x,
   prsd_decompress key_schedule key (prsd_compress key_schedule key x)
   = Some x).
Proof.
assert (forall x, prs_decompress_buf (prs_compress x) = Some x) as H.
{ intros x. unfold prs_decompress_buf, prs_compress.
  destruct (tokenize_expand x [] O) as [He Hwf]; [lia|].
  rewrite !app_nil_r in He. change (rev (take 0 x)) with (@nil Z) in He.
  rewrite <- (take_bits_zero (items_of (tokenize x [] 0))) at 1.
  rewrite (decode_items _ 0 [] (rev x)); [rewrite rev_involutive; reflexivity
                                         | exact Hwf | exact He |].
  pose proof (layout_length (tokenize x [] 0) 0). lia. }
split; [exact H|].
intros ks key x. unfold prsd_decompress, prsd_compress.
rewrite xor_stream_involutive. apply H.
Qed.

End PrsFacts.

(** * Functional correctness of the AFS operations *)

Lemma region_lookup d q bs :
  region d q bs <->
  forall j, (j < length bs)%nat -> d !! (Z.to_nat q + j)%nat = bs !! j.
Proof.
  unfold region. split.
  - intros H j Hj.
    transitivity (take (length bs) (drop (Z.to_nat q) d) !! j);
      [|rewrite H; reflexivity].
    rewrite lookup_take_lt by lia. rewrite lookup_drop. reflexivity.
  - intros H. apply list_eq. intros j.
    destruct (decide (j < length bs)%nat) as [Hj|Hj].
    + rewrite lookup_take_lt by lia. rewrite lookup_drop. auto.
    + rewrite lookup_take_ge by lia. symmetry. apply lookup_ge_None. lia.
Qed.

Lemma lookup_write_at d p bs i :
  write_at d p bs !! i =
  if decide (i < p)%nat then
    (if decide (i < length d)%nat then d !! i else Some 0)
  else if decide (i < p + length bs)%nat then bs !! (i - p)%nat
  else d !! i.
Proof.
  unfold write_at.
  destruct (decide (i < p)%nat) as [H1|H1].
  - destruct (decide (i < length d)%nat) as [H2|H2].
    + rewrite lookup_app_l by (rewrite length_take; lia).
      rewrite lookup_take_lt by lia. reflexivity.
    + rewrite lookup_app_r by (rewrite length_take; lia).
      rewrite length_take.
      rewrite lookup_app_l by (rewrite length_replicate; lia).
      apply lookup_replicate_2. lia.
  - rewrite lookup_app_r by (rewrite length_take; lia).
    rewrite length_take.
    rewrite lookup_app_r by (rewrite length_replicate; lia).
    rewrite length_replicate.
    destruct (decide (i < p + length bs)%nat) as [H2|H2].
    + rewrite lookup_app_l by lia. f_equal. lia.
    + rewrite lookup_app_r by lia. rewrite lookup_drop. f_equal. lia.
Qed.

Lemma write_at_app d p a b :
  write_at (write_at d p a) (p + length a) b = write_at d p (a ++ b).
Proof.
  apply list_eq. intros i. rewrite !lookup_write_at, !length_write_at.
  rewrite length_app.
  repeat case_decide; try lia; try reflexivity.
  - rewrite lookup_app_l by lia. reflexivity.
  - rewrite lookup_app_r by lia. f_equal. lia.
Qed.

Lemma store_app d p a b :
  0 <= p -> a <> [] ->
  store (store d p a) (p + len a) b = store d p (a ++ b).
Proof.
  intros Hp Ha. destruct a as [|x a]; [congruence|].
  destruct b as [|y b].
  - rewrite app_nil_r. reflexivity.
  - unfold store. cbn [app].
    change (x :: a ++ y :: b) with ((x :: a) ++ y :: b).
    rewrite <- write_at_app. f_equal. unfold len. lia.
Qed.

Lemma region_nil d q : region d q [].
Proof. reflexivity. Qed.

Lemma region_app d q a b :
  0 <= q ->
  region d q (a ++ b) <-> region d q a /\ region d (q + len a) b.
Proof.
  intros Hq. rewrite !region_lookup. unfold len. split.
  - intros H. split.
    + intros j Hj. rewrite H by (rewrite length_app; lia).
      apply lookup_app_l. lia.
    + intros j Hj.
      replace (Z.to_nat (q + Z.of_nat (length a)) + j)%nat
        with (Z.to_nat q + (length a + j))%nat by lia.
      rewrite H by (rewrite length_app; lia).
      rewrite lookup_app_r by lia. f_equal. lia.
  - intros [Ha Hb] j Hj. rewrite length_app in Hj.
    destruct (decide (j < length a)%nat).
    + rewrite lookup_app_l by lia. auto.
    + rewrite lookup_app_r by lia. rewrite <- Hb by lia. f_equal. lia.
Qed.

Lemma region_store_same d q bs : 0 <= q -> region (store d q bs) q bs.
Proof.
  intros Hq. destruct bs as [|b bs]; [apply region_nil|].
  apply region_lookup. intros j Hj. unfold store.
  rewrite lookup_write_at. repeat case_decide; try lia. f_equal. lia.
Qed.

Lemma region_store_other d p bs' q bs :
  0 <= q -> 0 <= p ->
  q + len bs <= p \/ p + len bs' <= q ->
  region d q bs -> region (store d p bs') q bs.
Proof.
  intros Hq Hp Hd H. destruct bs' as [|b' bs']; [exact H|].
  unfold store. rewrite region_lookup in *. intros j Hj.
  specialize (H j Hj). rewrite lookup_write_at. unfold len in Hd.
  assert (Z.to_nat q + j < length d)%nat.
  { apply lookup_lt_is_Some. rewrite H. apply lookup_lt_is_Some. lia. }
  repeat case_decide; try lia; assumption.
Qed.

Lemma region_length d q bs :
  0 <= q -> bs <> [] -> region d q bs -> q + len bs <= len d.
Proof.
  intros Hq Hbs H. unfold region in H.
  apply (f_equal length) in H. rewrite length_take, length_drop in H.
  destruct bs; [congruence|]. cbn [length] in *. unfold len. cbn [length]. lia.
Qed.

(** exact runs *)
Section Quiet.
Variable st : io_state.
Hypothesis Hq : faults st = [].

Lemma bind_run {A B} (m : IO A) (k : A -> IO B) a st1 :
  m st = Some (a, st1) -> bind m k st = k a st1.
Proof. intros H. unfold bind. rewrite H. reflexivity. Qed.

Lemma fseek_end_ok f :
  fseek f 0 SEEK_END st = Some (0, mk_file (f_data f) (len (f_data f)), st).
Proof.
  unfold fseek, bind. rewrite (fault_none st Hq).
  replace (len (f_data f) + 0 <? 0) with false
    by (symmetry; apply Z.ltb_ge; unfold len; lia).
  cbn [orb]. rewrite Z.add_0_r. reflexivity.
Qed.

Lemma fread_ok f n :
  fread f n st
  = Some (take (Z.to_nat n) (drop (Z.to_nat (f_pos f)) (f_data f)),
          mk_file (f_data f)
            (f_pos f + len (take (Z.to_nat n)
                                 (drop (Z.to_nat (f_pos f)) (f_data f)))), st).
Proof. unfold fread, bind. rewrite (fault_none st Hq). reflexivity. Qed.

Lemma fread_region f bs :
  region (f_data f) (f_pos f) bs ->
  fread f (len bs) st = Some (bs, mk_file (f_data f) (f_pos f + len bs), st).
Proof.
  intros H. rewrite fread_ok.
  replace (Z.to_nat (len bs)) with (length bs) by (unfold len; lia).
  unfold region in H. rewrite H. reflexivity.
Qed.

Lemma fwrite_store f bs :
  fwrite f bs st
  = Some (len bs, mk_file (store (f_data f) (f_pos f) bs) (f_pos f + len bs),
          st).
Proof.
  destruct bs as [|b bs].
  - unfold fwrite, ret, store. rewrite Z.add_0_r. destruct f; reflexivity.
  - rewrite fwrite_ok by exact Hq. reflexivity.
Qed.

Lemma fopen_rb_ok (fs : gmap string (list Z)) fn :
  fopen_rb fs fn st
  = Some (match fs !! fn with Some d => Some (mk_file d 0) | None => None end,
          st).
Proof. unfold fopen_rb, bind. rewrite (fault_none st Hq). reflexivity. Qed.

Lemma fopen_wb_ok (fs : gmap string (list Z)) fn :
  fopen_wb fs fn st = Some (Some (mk_file [] 0), <[fn := []]> fs, st).
Proof. unfold fopen_wb, bind. rewrite (fault_none st Hq). reflexivity. Qed.

Lemma fdopen_wb_ok fd : fdopen_wb fd st = Some (Some (mk_file [] 0), st).
Proof. unfold fdopen_wb, bind. rewrite (fault_none st Hq). reflexivity. Qed.

Lemma copy_file_loop_exact fuel : forall dst src size,
  0 <= size <= Z.of_nat fuel -> 0 <= f_pos src -> 0 <= f_pos dst ->
  f_pos src + size <= len (f_data src) ->
  exists n,
    0 <= n <= size /\ size - n <= 512 /\ (size = 0 \/ 0 < size - n) /\
    copy_file_loop fuel dst src size st
    = Some (0,
            mk_file (store (f_data dst) (f_pos dst)
                       (take (Z.to_nat n)
                             (drop (Z.to_nat (f_pos src)) (f_data src))))
                    (f_pos dst + n),
            mk_file (f_data src) (f_pos src + n), size - n, st).
Proof.
  induction fuel as [|fuel IH]; intros dst src size Hs Hsp Hdp Hlen.
  - exists 0. assert (size = 0) as -> by lia.
    split; [lia|]. split; [lia|]. split; [lia|].
    cbn. unfold ret. rewrite !Z.add_0_r. destruct dst, src. reflexivity.
  - cbn [copy_file_loop]. destruct (512 <? size) eqn:E.
    + apply Z.ltb_lt in E.
      set (chunk := take (Z.to_nat 512) (drop (Z.to_nat (f_pos src)) (f_data src))).
      assert (len chunk = 512) as Hc.
      { unfold chunk, len. rewrite length_take, length_drop.
        unfold len in Hlen. lia. }
      rewrite (bind_run _ _ _ _ (fread_ok src 512)).
      fold chunk. rewrite Hc. cbn [Z.eqb Pos.eqb negb].
      rewrite (bind_run _ _ _ _ (fwrite_store dst chunk)).
      rewrite Hc. cbn [Z.eqb Pos.eqb negb].
      destruct (IH (mk_file (store (f_data dst) (f_pos dst) chunk) (f_pos dst + 512))
                   (mk_file (f_data src) (f_pos src + 512)) (size - 512))
        as (n & Hn & Hn2 & Hn3 & Hrun); cbn [f_pos f_data]; try lia.
      exists (512 + n). split; [lia|]. split; [lia|]. split; [lia|].
      rewrite Hrun. cbn [f_pos f_data].
      assert (store (store (f_data dst) (f_pos dst) chunk) (f_pos dst + 512)
                (take (Z.to_nat n)
                      (drop (Z.to_nat (f_pos src + 512)) (f_data src)))
              = store (f_data dst) (f_pos dst)
                  (take (Z.to_nat (512 + n))
                        (drop (Z.to_nat (f_pos src)) (f_data src)))) as ->.
      { rewrite <- Hc at 1. rewrite store_app; try lia.
        - f_equal. unfold chunk.
          replace (Z.to_nat (512 + n))
            with (Z.to_nat 512 + Z.to_nat n)%nat by lia.
          rewrite <- take_take_drop. f_equal. f_equal. rewrite drop_drop.
          f_equal. lia.
        - intros Hnil. rewrite Hnil in Hc. discriminate. }
      rewrite !Z.add_assoc, Z.sub_add_distr. reflexivity.
    + apply Z.ltb_ge in E. exists 0.
      split; [lia|]. split; [lia|]. split; [lia|].
      unfold ret. rewrite !Z.add_0_r, Z.sub_0_r. destruct dst, src.
      reflexivity.
Qed.

Lemma copy_file_exact dst src size :
  0 <= size -> 0 <= f_pos src -> 0 <= f_pos dst ->
  f_pos src + size <= len (f_data src) ->
  copy_file dst src size st
  = Some (0,
          mk_file (store (f_data dst) (f_pos dst)
                     (take (Z.to_nat size)
                           (drop (Z.to_nat (f_pos src)) (f_data src))))
                  (f_pos dst + size),
          mk_file (f_data src) (f_pos src + size), st).
Proof.
  intros Hs Hsp Hdp Hlen. unfold copy_file.
  destruct (copy_file_loop_exact (Z.to_nat size) dst src size)
    as (n & Hn & Hn2 & Hn3 & Hrun); try lia.
  rewrite (bind_run _ _ _ _ Hrun). cbn [Z.eqb negb].
  destruct (size - n =? 0) eqn:E.
  - apply Z.eqb_eq in E. assert (n = size) as -> by lia.
    cbn [negb]. reflexivity.
  - apply Z.eqb_neq in E. cbn [negb].
    set (src1 := mk_file (f_data src) (f_pos src + n)).
    set (rest := take (Z.to_nat (size - n))
                      (drop (Z.to_nat (f_pos src1)) (f_data src1))).
    assert (len rest = size - n) as Hr.
    { unfold rest, len, src1. cbn [f_pos f_data].
      rewrite length_take, length_drop. unfold len in Hlen. lia. }
    rewrite (bind_run _ _ _ _ (fread_ok src1 (size - n))).
    fold rest. rewrite Hr, Z.eqb_refl. cbn [negb].
    rewrite (bind_run _ _ _ _ (fwrite_store _ rest)).
    rewrite Hr, Z.eqb_refl. cbn [negb f_pos f_data]. unfold ret.
    assert (store
              (store (f_data dst) (f_pos dst)
                 (take (Z.to_nat n) (drop (Z.to_nat (f_pos src)) (f_data src))))
              (f_pos dst + n) rest
            = store (f_data dst) (f_pos dst)
                (take (Z.to_nat size)
                      (drop (Z.to_nat (f_pos src)) (f_data src)))) as ->.
    { destruct (decide (n = 0)) as [->|Hn0].
      - cbn [Z.to_nat take store]. rewrite Z.add_0_r. unfold rest, src1.
        cbn [f_pos f_data]. rewrite Z.add_0_r, Z.sub_0_r. reflexivity.
      - assert (len (take (Z.to_nat n)
                       (drop (Z.to_nat (f_pos src)) (f_data src))) = n) as Hl.
        { unfold len. rewrite length_take, length_drop.
          unfold len in Hlen. lia. }
        rewrite <- Hl at 2. rewrite store_app; try lia.
        + f_equal. unfold rest, src1. cbn [f_pos f_data].
          replace (Z.to_nat size)
            with (Z.to_nat n + Z.to_nat (size - n))%nat by lia.
          rewrite <- take_take_drop. f_equal. f_equal. rewrite drop_drop.
          f_equal. lia.
        + intros Hnil. rewrite Hnil in Hl. unfold len in Hl.
          cbn [length] in Hl. lia. }
    replace (f_pos dst + n + (size - n)) with (f_pos dst + size) by lia.
    unfold src1. cbn [f_pos f_data].
    replace (f_pos src + n + (size - n)) with (f_pos src + size) by lia.
    reflexivity.
Qed.
End Quiet.

(** short source: for every faults *)
Lemma copy_file_loop_short fuel : forall dst src size,
  size <= Z.of_nat fuel -> 0 < size -> 0 <= f_pos src ->
  len (f_data src) < f_pos src + size ->
  post (copy_file_loop fuel dst src size)
       (fun r => fst (fst (fst r)) < 0 \/
                 (fst (fst (fst r)) = 0 /\ 0 < snd r /\
                  0 <= f_pos (snd (fst r)) /\
                  len (f_data (snd (fst r))) < f_pos (snd (fst r)) + snd r)).
Proof.
  induction fuel as [|fuel IH]; intros dst src size Hf Hs Hp Hl.
  - lia.
  - cbn [copy_file_loop]. destruct (512 <? size) eqn:E.
    + apply Z.ltb_lt in E.
      eapply post_bind; [apply fread_spec|]. intros [xbuf src1] (Hd & Hp1 & Hf1).
      cbn [fst snd] in *.
      destruct (len xbuf =? 512) eqn:E1; cbn [negb].
      * apply Z.eqb_eq in E1.
        eapply post_bind; [apply fwrite_total|]. intros [n dst1] _.
        destruct (negb (n =? 512)).
        -- apply post_ret. left. cbn. lia.
        -- apply IH; try lia. rewrite Hd. lia.
      * apply post_ret. left. cbn. lia.
    + apply post_ret. right. cbn [fst snd]. auto.
Qed.

Lemma copy_file_short dst src size :
  0 < size -> 0 <= f_pos src -> len (f_data src) < f_pos src + size ->
  post (copy_file dst src size) (fun r => fst (fst r) < 0).
Proof.
  intros Hs Hp Hl. unfold copy_file.
  eapply post_bind; [apply (copy_file_loop_short (Z.to_nat size)); lia|].
  intros [[[rv dst1] src1] size1] H. cbn [fst snd] in H.
  destruct H as [H|(-> & H1 & H2 & H3)].
  - replace (rv =? 0) with false by (symmetry; apply Z.eqb_neq; lia).
    cbn [negb]. apply post_ret. exact H.
  - cbn [Z.eqb negb].
    replace (size1 =? 0) with false by (symmetry; apply Z.eqb_neq; lia).
    cbn [negb].
    eapply post_bind; [apply fread_spec|].
    intros [xbuf src2] (Hd & Hp2 & Hf2). cbn [fst snd] in *.
    destruct (len xbuf =? size1) eqn:E; cbn [negb].
    + apply Z.eqb_eq in E. specialize (Hf2 H2 H1 E). lia.
    + apply post_ret. cbn. lia.
Qed.

Lemma testbit_u8 x n : 0 <= n -> Z.testbit (u8 x) n = (n <? 8) && Z.testbit x n.
Proof.
  intros Hn. unfold u8. change 256 with (2 ^ 8).
  rewrite Z.testbit_mod_pow2 by lia. reflexivity.
Qed.

Lemma testbit_u8_shift x k n :
  0 <= k ->
  Z.testbit (Z.shiftl (u8 (Z.shiftr x k)) k) n
  = (k <=? n) && (n <? k + 8) && Z.testbit x n.
Proof.
  intros Hk. destruct (Z.leb_spec k n).
  - rewrite Z.shiftl_spec by lia. rewrite testbit_u8 by lia.
    rewrite Z.shiftr_spec by lia. replace (n - k + k) with n by lia.
    cbn [andb]. f_equal. destruct (Z.ltb_spec (n - k) 8), (Z.ltb_spec n (k + 8));
      (reflexivity || lia).
  - destruct (Z.ltb_spec n 0).
    + rewrite Z.testbit_neg_r by lia. reflexivity.
    + rewrite Z.shiftl_spec by lia. rewrite Z.testbit_neg_r by lia.
      reflexivity.
Qed.

Lemma bytes_le32 x :
  Z.lor (Z.lor (Z.lor (u8 x) (Z.shiftl (u8 (Z.shiftr x 8)) 8))
               (Z.shiftl (u8 (Z.shiftr x 16)) 16))
        (Z.shiftl (u8 (Z.shiftr x 24)) 24) = x mod 2 ^ 32.
Proof.
  apply Z.bits_inj'. intros n Hn.
  rewrite !Z.lor_spec, !testbit_u8_shift, testbit_u8 by lia.
  rewrite Z.testbit_mod_pow2 by lia.
  destruct (Z.ltb_spec n 8), (Z.leb_spec 8 n), (Z.ltb_spec n (8 + 8)),
    (Z.leb_spec 16 n), (Z.ltb_spec n (16 + 8)), (Z.leb_spec 24 n),
    (Z.ltb_spec n (24 + 8)), (Z.ltb_spec n 32); try lia;
    cbn [andb orb]; rewrite ?orb_false_r; reflexivity.
Qed.

Lemma get_put_le32 x : get_le32 (put_le32 x) = u32 x.
Proof.
  unfold get_le32, put_le32, byte_at. cbn [nth].
  rewrite bytes_le32. unfold u32. apply Z.mod_mod. lia.
Qed.

Lemma get_put_be32 x : get_be32 (put_be32 x) = u32 x.
Proof.
  unfold get_be32, put_be32, byte_at. cbn [nth].
  rewrite bytes_le32. unfold u32. apply Z.mod_mod. lia.
Qed.

Lemma u32_small x : 0 <= x < 2 ^ 32 -> u32 x = x.
Proof. intros H. unfold u32. apply Z.mod_small. exact H. Qed.

Lemma next_block_gt pos : pos < next_block pos.
Proof.
  unfold next_block.
  pose proof (Z.div_mod pos 2048 ltac:(lia)).
  pose proof (Z.mod_pos_bound pos 2048 ltac:(lia)). lia.
Qed.

Lemma len_nonneg {A} (l : list A) : 0 <= len l.
Proof. unfold len. lia. Qed.

Lemma afs_end_ge cs : forall wpos, wpos <= afs_end wpos cs.
Proof.
  induction cs as [|c cs IH]; intros wpos; cbn [afs_end]; [lia|].
  specialize (IH (next_block (wpos + len c))).
  pose proof (next_block_gt (wpos + len c)). pose proof (len_nonneg c). lia.
Qed.

Lemma land_next_block pos :
  Z.land pos (Z.lnot (2048 - 1)) + 2048 = next_block pos.
Proof.
  change 2048 with (2 ^ 11) at 1. rewrite land_lnot_pow2 by lia.
  change (2 ^ 11) with 2048. unfold next_block. lia.
Qed.

Section Quiet.
Variable st : io_state.
Hypothesis Hq : faults st = [].

Lemma pad_file_exact fp :
  0 <= f_pos fp ->
  pad_file fp 2048 st
  = Some (next_block (f_pos fp),
          mk_file (store (f_data fp) (next_block (f_pos fp) - 1) [0])
                  (next_block (f_pos fp)), st).
Proof.
  intros Hpos. pose proof (next_block_gt (f_pos fp)) as Hlt.
  unfold pad_file, ftell. cbn [Z.leb Z.compare]. cbv zeta.
  rewrite !land_next_block.
  rewrite (bind_run st _ _ _ _ (fseek_set_ok fp (next_block (f_pos fp) - 1) st Hq ltac:(lia))).
  cbn [Z.eqb negb].
  rewrite (bind_run st _ _ _ _ (fwrite_store st Hq _ [0])).
  cbn [f_pos f_data]. replace (len [0]) with 1 by reflexivity.
  cbn [Z.eqb Pos.eqb negb]. unfold ret.
  replace (next_block (f_pos fp) - 1 + 1) with (next_block (f_pos fp)) by lia.
  reflexivity.
Qed.
End Quiet.

Lemma put_afs_row d fpos wpos c :
  0 <= fpos -> fpos + 8 <= wpos ->
  region (put_afs d fpos wpos c) fpos (put_le32 wpos ++ put_le32 (len c)).
Proof.
  intros Hf Hw. unfold put_afs.
  pose proof (next_block_gt (wpos + len c)). pose proof (len_nonneg c).
  apply region_store_other; try lia.
  { left. change (len (put_le32 wpos ++ put_le32 (len c))) with 8. lia. }
  apply region_store_other; try lia.
  { left. change (len (put_le32 wpos ++ put_le32 (len c))) with 8. lia. }
  apply region_store_same. lia.
Qed.

Lemma put_afs_data d fpos wpos c :
  0 <= fpos -> fpos + 8 <= wpos ->
  region (put_afs d fpos wpos c) wpos c.
Proof.
  intros Hf Hw. unfold put_afs.
  pose proof (next_block_gt (wpos + len c)). pose proof (len_nonneg c).
  apply region_store_other; try lia.
  apply region_store_same. lia.
Qed.

Lemma put_afs_other d fpos wpos c q bs :
  0 <= q -> 0 <= fpos -> fpos + 8 <= wpos ->
  q + len bs <= fpos \/ (fpos + 8 <= q /\ q + len bs <= wpos) ->
  region d q bs -> region (put_afs d fpos wpos c) q bs.
Proof.
  intros Hq Hf Hw Hd H. unfold put_afs.
  pose proof (next_block_gt (wpos + len c)). pose proof (len_nonneg c).
  pose proof (len_nonneg bs).
  apply region_store_other; try lia.
  apply region_store_other; try lia.
  apply region_store_other; try lia.
  { change (len (put_le32 wpos ++ put_le32 (len c))) with 8. lia. }
  exact H.
Qed.

Lemma store_nil bs : store [] 0 bs = bs.
Proof.
  destruct bs as [|b bs]; [reflexivity|]. unfold store, write_at.
  cbn [Z.to_nat take length Nat.sub replicate app]. 
  rewrite drop_nil, app_nil_r. reflexivity.
Qed.

Lemma region_self c : region c 0 c.
Proof. unfold region. cbn [Z.to_nat drop]. apply firstn_all. Qed.

Section Quiet.
Variable st : io_state.
Hypothesis Hq : faults st = [].

Lemma copy_file_region dst src c :
  0 <= f_pos src -> 0 <= f_pos dst ->
  region (f_data src) (f_pos src) c ->
  copy_file dst src (len c) st
  = Some (0, mk_file (store (f_data dst) (f_pos dst) c) (f_pos dst + len c),
          mk_file (f_data src) (f_pos src + len c), st).
Proof.
  intros Hs Hd H. destruct c as [|b c].
  - unfold copy_file. cbn. unfold ret. rewrite !Z.add_0_r.
    destruct dst, src. reflexivity.
  - rewrite (copy_file_exact st Hq); try lia.
    + unfold region in H.
      replace (Z.to_nat (len (b :: c))) with (length (b :: c))
        by (unfold len; lia).
      rewrite H. reflexivity.
    + apply len_nonneg.
    + apply region_length; [lia|discriminate|exact H].
Qed.

Lemma add_files_to_afs_exact (fs : gmap string (list Z)) :
  forall files contents, Forall2 (fun f c => fs !! f = Some c) files contents ->
  forall ofp fpos wpos,
  0 <= fpos -> f_pos ofp = fpos -> 0 <= wpos ->
  afs_end wpos contents < 2 ^ 32 ->
  Afs.add_files_to_afs fs ofp fpos wpos files st
  = Some (0, mk_file (put_all (f_data ofp) fpos wpos contents)
                     (fpos + 8 * len files),
          fpos + 8 * len files, afs_end wpos contents, st).
Proof.
  induction 1 as [|file c files contents Hf Hfs IH];
    intros ofp fpos wpos Hfp Hpos Hw Hend.
  - cbn. unfold ret. rewrite Z.add_0_r. destruct ofp. cbn in Hpos. subst.
    reflexivity.
  - cbn [Afs.add_files_to_afs afs_end put_all] in *.
    pose proof (afs_end_ge contents (next_block (wpos + len c))) as He.
    pose proof (next_block_gt (wpos + len c)) as Hn.
    pose proof (len_nonneg c) as Hc.
    rewrite (bind_run st _ _ _ _ (fopen_rb_ok st Hq fs file)). rewrite Hf.
    rewrite (bind_run st _ _ _ _ (fseek_end_ok st Hq _)).
    cbn [Z.eqb negb f_data f_pos ftell].
    rewrite (bind_run st _ _ _ _ (fseek_set_ok _ 0 st Hq ltac:(lia))).
    cbn [Z.eqb negb f_data f_pos ftell].
    rewrite (u32_small (len c)) by lia.
    rewrite (bind_run st _ _ _ _ (fwrite_store st Hq _ _)).
    change (len (put_le32 wpos ++ put_le32 (len c))) with 8.
    cbn [Z.eqb Pos.eqb negb f_data f_pos ftell].
    rewrite (bind_run st _ _ _ _ (fseek_set_ok _ wpos st Hq Hw)).
    cbn [Z.eqb negb f_data f_pos ftell].
    erewrite (bind_run st)
      by (apply copy_file_region; [cbn; lia | cbn; lia | apply region_self]).
    cbn [Z.eqb negb f_data f_pos ftell].
    erewrite (bind_run st) by (apply (pad_file_exact st Hq); cbn; lia).
    cbn [f_data f_pos].
    replace (next_block (wpos + len c) =? -1) with false
      by (symmetry; apply Z.eqb_neq; lia).
    rewrite (bind_run st _ _ _ _
               (fseek_set_ok _ (f_pos ofp + 8) st Hq ltac:(lia))).
    cbn [Z.eqb negb f_data f_pos ftell].
    rewrite IH; cbn [f_data f_pos]; try lia.
    subst fpos. unfold put_afs.
    replace (len (file :: files)) with (1 + len files)
      by (unfold len; cbn [length]; lia).
    replace (f_pos ofp + 8 + 8 * len files)
      with (f_pos ofp + 8 * (1 + len files)) by lia.
    reflexivity.
Qed.
End Quiet.

Lemma len_cons {A} (x : A) l : len (x :: l) = 1 + len l.
Proof. unfold len. cbn [length]. lia. Qed.

Lemma len_app {A} (l k : list A) : len (l ++ k) = len l + len k.
Proof. unfold len. rewrite length_app. lia. Qed.

(** rows written by put_all, and what it leaves alone *)
Lemma put_all_rows cs : forall d fpos wpos,
  0 <= fpos -> fpos + 8 * len cs <= wpos -> afs_end wpos cs < 2 ^ 32 ->
  afs_rows (put_all d fpos wpos cs) fpos (afs_items wpos cs) /\
  (forall q bs, 0 <= q ->
     q + len bs <= fpos \/ (fpos + 8 * len cs <= q /\ q + len bs <= wpos) ->
     region d q bs -> region (put_all d fpos wpos cs) q bs).
Proof.
  induction cs as [|c cs IH]; intros d fpos wpos Hf Hw Hend.
  - cbn. split; [exact I|]. auto.
  - cbn [put_all afs_items afs_rows afs_end] in *.
    rewrite len_cons in Hw.
    pose proof (afs_end_ge cs (next_block (wpos + len c))) as He.
    pose proof (next_block_gt (wpos + len c)) as Hn.
    pose proof (len_nonneg c) as Hc. pose proof (len_nonneg cs) as Hcs.
    destruct (IH (put_afs d fpos wpos c) (fpos + 8)
                 (next_block (wpos + len c))) as [Hrows Hkeep]; try lia.
    split.
    + split; [lia|]. split; [lia|]. split; [|split].
      * apply Hkeep; [lia| |apply put_afs_row; lia].
        left. change (len (put_le32 wpos ++ put_le32 (len c))) with 8. lia.
      * apply Hkeep; [lia| |apply put_afs_data; lia]. right. lia.
      * exact Hrows.
    + intros q bs Hq Hd H. pose proof (len_nonneg bs).
      rewrite len_cons in Hd.
      apply Hkeep; [lia|lia|]. apply put_afs_other; try lia. exact H.
Qed.

Lemma afs_items_length cs : forall wpos, length (afs_items wpos cs) = length cs.
Proof. induction cs; intros; cbn; [reflexivity|]. f_equal. auto. Qed.

Lemma delete_tmp (fs : gmap string (list Z)) tmp d :
  fs !! tmp = None ->
  delete tmp (<[tmp := d]> (<[tmp := []]> fs)) = fs.
Proof.
  intros H. rewrite insert_insert_eq. apply delete_insert_id. exact H.
Qed.

Section Quiet.
Variable st : io_state.
Hypothesis Hq : faults st = [].

Lemma mkstemp_ok (fs : gmap string (list Z)) template :
  fs !! temp_name template st = None ->
  mkstemp fs template st
  = Some (0, temp_name template st, <[temp_name template st := []]> fs, st).
Proof.
  intros H. unfold mkstemp, bind. rewrite (fault_none st Hq).
  fold (temp_name template st). rewrite H. reflexivity.
Qed.

Lemma commit_ok (fs : gmap string (list Z)) tmp fn ofp :
  fs !! tmp = None ->
  commit tmp fn ofp (<[tmp := []]> fs) st
  = Some (0, <[fn := f_data ofp]> fs, st).
Proof.
  intros H. unfold commit, rename, fclose_w, bind.
  rewrite (fault_none st Hq). rewrite lookup_insert_eq.
  unfold ret. rewrite delete_tmp by exact H. reflexivity.
Qed.

Lemma create_afs_exact (fs : gmap string (list Z)) fn files contents :
  fs !! temp_name "afstoolXXXXXX" st = None ->
  Forall2 (fun f c => fs !! f = Some c) files contents ->
  len files <= 65535 ->
  afs_end 0x80000 contents < 2 ^ 32 ->
  Afs.create_afs fs fn files st
  = Some (0, <[fn := put_all (store [] 0 (Afs.afs_header (len files))) 8
                             0x80000 contents]> fs, st).
Proof.
  intros Htmp Hfiles Hcount Hend. unfold Afs.create_afs.
  replace (65535 <? len files) with false by (symmetry; apply Z.ltb_ge; lia).
  rewrite (bind_run st _ _ _ _ (mkstemp_ok fs _ Htmp)).
  cbn [Z.ltb Z.compare].
  rewrite (bind_run st _ _ _ _ (fdopen_wb_ok st Hq 0)).
  rewrite (bind_run st _ _ _ _ (fwrite_store st Hq _ _)).
  change (len (Afs.afs_header (len files))) with 8.
  cbn [Z.eqb Pos.eqb negb f_data f_pos ftell Z.add].
  rewrite (bind_run st _ _ _ _ (fseek_set_ok _ 0x80000 st Hq ltac:(lia))).
  cbn [Z.eqb negb f_data f_pos ftell].
  rewrite (bind_run st _ _ _ _ (fseek_set_ok _ 8 st Hq ltac:(lia))).
  cbn [Z.eqb negb f_data f_pos ftell].
  erewrite (bind_run st).
  2:{ apply (add_files_to_afs_exact st Hq) with (contents := contents);
      cbn [f_pos]; try lia.
      eapply Forall2_impl; [exact Hfiles|]. intros f c Hf. cbn beta.
      rewrite lookup_insert_ne; [exact Hf|]. intros <-. congruence. }
  cbn [Z.eqb negb f_data f_pos].
  apply commit_ok. exact Htmp.
Qed.
End Quiet.

Lemma store_header_region n : region (store [] 0 (Afs.afs_header n)) 0 (Afs.afs_header n).
Proof. apply region_store_same. lia. Qed.

Lemma create_afs_data_archive contents n :
  n = len contents -> n <= 65535 -> afs_end 0x80000 contents < 2 ^ 32 ->
  afs_archive (put_all (store [] 0 (Afs.afs_header n)) 8 0x80000 contents)
              (afs_items 0x80000 contents).
Proof.
  intros -> Hn Hend.
  destruct (put_all_rows contents (store [] 0 (Afs.afs_header (len contents)))
              8 0x80000) as [Hrows Hkeep]; try lia.
  unfold afs_archive.
  assert (len (afs_items 524288 contents) = len contents) as ->.
  { unfold len. rewrite afs_items_length. reflexivity. }
  split; [lia|]. split; [|exact Hrows].
  apply Hkeep; [lia| |apply store_header_region].
  left. change (len (Afs.afs_header (len contents))) with 8. lia.
Qed.

Section ScanRows.
Context {D : Type}.
Variable p : FILE -> Z -> Z -> Z -> D -> IO (Z * FILE * D).
Variable st : io_state.
Hypothesis Hq : faults st = [].
Variable Inv : Z -> D -> Prop.
Variable data : list Z.
Variables entries rv : Z.

Lemma fread_region_n f bs n :
  len bs = n -> region (f_data f) (f_pos f) bs ->
  fread f n st = Some (bs, mk_file (f_data f) (f_pos f + n), st).
Proof. intros <- H. apply fread_region; assumption. Qed.

Lemma scan_afs_loop_rows : forall items i fp d,
  0 <= i -> afs_rows data (8 + 8 * i) items ->
  f_data fp = data -> f_pos fp = 8 + 8 * i ->
  (forall j off c fp d,
     items !! j = Some (off, c) -> f_data fp = data -> f_pos fp = off ->
     Inv (i + Z.of_nat j) d ->
     exists fp' d',
       p fp (i + Z.of_nat j) entries (len c) d st = Some (0, fp', d', st) /\
       f_data fp' = data /\ Inv (i + Z.of_nat j + 1) d') ->
  Inv i d ->
  exists d',
    Afs.scan_afs_loop p (length items) i entries fp rv d st
    = Some (rv, d', st) /\
    Inv (i + len items) d'.
Proof.
  induction items as [|[off c] items IH]; intros i fp d Hi Hrows Hd Hp Hcb HI.
  - exists d. cbn. rewrite Z.add_0_r. auto.
  - cbn [afs_rows] in Hrows.
    destruct Hrows as (Hoff & Hc & Hrow & Hdat & Hrows).
    apply region_app in Hrow; [|lia]. destruct Hrow as [Hr1 Hr2].
    change (len (put_le32 off)) with 4 in Hr2.
    cbn [length Afs.scan_afs_loop].
    rewrite (bind_run st _ _ _ _
               (fread_region_n fp (put_le32 off) 4 eq_refl
                  ltac:(rewrite Hd, Hp; exact Hr1))).
    change (len (put_le32 off)) with 4. cbn [Z.eqb Pos.eqb negb].
    rewrite (bind_run st _ _ _ _
               (fread_region_n (mk_file (f_data fp) (f_pos fp + 4))
                  (put_le32 (len c)) 4 eq_refl
                  ltac:(cbn [f_data f_pos]; rewrite Hd, Hp; exact Hr2))).
    change (len (put_le32 (len c))) with 4.
    cbn [Z.eqb Pos.eqb negb f_data f_pos ftell].
    rewrite !get_put_le32.
    rewrite (u32_small off) by lia.
    rewrite (u32_small (len c)) by (pose proof (len_nonneg c); lia).
    rewrite (bind_run st _ _ _ _ (fseek_set_ok _ off st Hq ltac:(lia))).
    cbn [Z.eqb negb f_data f_pos].
    destruct (Hcb O off c (mk_file (f_data fp) off) d eq_refl Hd eq_refl)
      as (fp' & d' & Hrun & Hd' & HI').
    { rewrite Z.add_0_r. exact HI. }
    rewrite Z.add_0_r in Hrun, HI'.
    rewrite (bind_run st _ _ _ _ Hrun). cbn [Z.eqb negb].
    rewrite (bind_run st _ _ _ _
               (fseek_set_ok fp' (f_pos fp + 4 + 4) st Hq ltac:(lia))).
    cbn [Z.eqb negb].
    destruct (IH (i + 1) (mk_file (f_data fp') (f_pos fp + 4 + 4)) d')
      as (d'' & Hrun' & HI''); cbn [f_data f_pos]; try lia; try assumption.
    + replace (8 + 8 * (i + 1)) with (8 + 8 * i + 8) by lia. exact Hrows.
    + intros j o c0 fp0 d0 Hj Hd0 Hp0 HI0.
      replace (i + 1 + Z.of_nat j) with (i + Z.of_nat (S j)) in * by lia.
      apply (Hcb (S j) o c0 fp0 d0 Hj Hd0 Hp0 HI0).
    + exists d''. rewrite Hrun'. split; [reflexivity|].
      rewrite len_cons. replace (i + (1 + len items)) with (i + 1 + len items)
        by lia. exact HI''.
Qed.
End ScanRows.

Section ScanArchive.
Context {D : Type}.
Variable p : FILE -> Z -> Z -> Z -> D -> IO (Z * FILE * D).
Variable st : io_state.
Hypothesis Hq : faults st = [].
Variable Inv : Z -> D -> Prop.

Lemma open_afs_archive (fs : gmap string (list Z)) fn data items :
  fs !! fn = Some data -> afs_archive data items ->
  Afs.open_afs fs fn st = Some (Some (mk_file data 8, len items), st).
Proof.
  intros Hfn (Hn & Hhdr & _). unfold Afs.open_afs.
  rewrite (bind_run st _ _ _ _ (fopen_rb_ok st Hq fs fn)). rewrite Hfn.
  unfold Afs.afs_header in Hhdr. apply region_app in Hhdr; [|lia].
  destruct Hhdr as [H1 H2]. change (0 + len [65; 70; 83; 0]) with 4 in H2.
  rewrite (bind_run st _ _ _ _
             (fread_region_n st Hq (mk_file data 0) [65; 70; 83; 0] 4
                eq_refl H1)).
  cbn [Z.eqb Pos.eqb negb byte_at nth orb f_pos f_data].
  change (len [65; 70; 83; 0]) with 4. change (0 + 4) with 4.
  cbn [Z.eqb Pos.eqb negb].
  rewrite (bind_run st _ _ _ _
             (fread_region_n st Hq (mk_file data 4) (put_le32 (len items))
                4 eq_refl H2)).
  change (len (put_le32 (len items))) with 4.
  cbn [Z.eqb Pos.eqb negb f_pos f_data]. change (4 + 4) with 8.
  rewrite get_put_le32, u32_small by (pose proof (len_nonneg items); lia).
  reflexivity.
Qed.

Lemma scan_afs_archive (fs : gmap string (list Z)) fn data items d :
  fs !! fn = Some data -> afs_archive data items ->
  (forall j off c fp d,
     items !! j = Some (off, c) -> f_data fp = data -> f_pos fp = off ->
     Inv (Z.of_nat j) d ->
     exists fp' d',
       p fp (Z.of_nat j) (len items) (len c) d st = Some (0, fp', d', st) /\
       f_data fp' = data /\ Inv (Z.of_nat j + 1) d') ->
  Inv 0 d ->
  exists d',
    Afs.scan_afs p fs fn d st = Some (to_int (len items), d', st) /\
    Inv (len items) d'.
Proof.
  intros Hfn Har Hcb HI. unfold Afs.scan_afs.
  rewrite (bind_run st _ _ _ _ (open_afs_archive fs fn data items Hfn Har)).
  replace (Z.to_nat (len items)) with (length items) by (unfold len; lia).
  destruct Har as (Hn & _ & Hrows).
  destruct (scan_afs_loop_rows p st Hq Inv data (len items)
              (to_int (len items)) items 0 (mk_file data 8) d)
    as (d' & Hrun & HI'); cbn [f_data f_pos]; try lia; try assumption;
    try reflexivity.
  rewrite Z.add_0_l in HI'. exists d'. split; assumption.
Qed.
End ScanArchive.

Lemma afs_rows_lookup d items : forall fpos j off c,
  afs_rows d fpos items -> items !! j = Some (off, c) ->
  0 <= off < 2 ^ 32 /\ len c < 2 ^ 32 /\ region d off c /\
  region d (fpos + 8 * Z.of_nat j) (put_le32 off ++ put_le32 (len c)).
Proof.
  induction items as [|[o c0] items IH]; intros fpos j off c Hrows Hj.
  - discriminate.
  - cbn [afs_rows] in Hrows. destruct Hrows as (H1 & H2 & H3 & H4 & H5).
    destruct j as [|j].
    + injection Hj as -> ->. rewrite Z.add_0_r. auto.
    + cbn in Hj. destruct (IH _ _ _ _ H5 Hj) as (? & ? & ? & ?).
      replace (fpos + 8 * Z.of_nat (S j)) with (fpos + 8 + 8 * Z.of_nat j)
        by lia. auto.
Qed.

Section Quiet.
Variable st : io_state.
Hypothesis Hq : faults st = [].

Lemma extract_file_exact fn fp i cnt c (fs : gmap string (list Z)) :
  0 <= f_pos fp -> region (f_data fp) (f_pos fp) c ->
  Afs.extract_file fn fp i cnt (len c) fs st
  = Some (0, mk_file (f_data fp) (f_pos fp + len c),
          <[Afs.extract_name fn cnt i := c]> fs, st).
Proof.
  intros Hp Hr. unfold Afs.extract_file.
  rewrite (bind_run st _ _ _ _ (fopen_wb_ok st Hq fs _)).
  erewrite (bind_run st)
    by (apply (copy_file_region st Hq); [exact Hp|cbn; lia|exact Hr]).
  cbn [Z.eqb negb f_data f_pos]. unfold ret, fclose_w. cbn [f_data].
  rewrite store_nil, insert_insert_eq. reflexivity.
Qed.

Theorem extract_afs_archive (fs : gmap string (list Z)) fn data items :
  fs !! fn = Some data -> afs_archive data items ->
  Afs.extract_afs fs fn st
  = Some (to_int (len items),
          extracted fn (len items) 0 fs (map snd items), st).
Proof.
  intros Hfn Har. unfold Afs.extract_afs.
  set (cs := map snd items).
  destruct (scan_afs_archive (Afs.extract_file fn) st Hq
              (fun k fs' => 0 <= k /\
                 extracted fn (len items) k fs' (drop (Z.to_nat k) cs)
                 = extracted fn (len items) 0 fs cs)
              fs fn data items fs Hfn Har) as (fs' & Hrun & Hk & HI).
  - intros j off c fp fs' Hj Hd Hp [_ HI].
    destruct Har as (_ & _ & Hrows).
    destruct (afs_rows_lookup _ _ _ _ _ _ Hrows Hj) as (Ho & Hc & Hr & _).
    exists (mk_file (f_data fp) (f_pos fp + len c)),
           (<[Afs.extract_name fn (len items) (Z.of_nat j) := c]> fs').
    split; [|split; [exact Hd|split; [lia|]]].
    + apply extract_file_exact; [lia|]. rewrite Hd, Hp. exact Hr.
    + rewrite <- HI. rewrite Nat2Z.id.
      assert (cs !! j = Some c) as Hcs.
      { unfold cs. rewrite list_lookup_fmap, Hj. reflexivity. }
      rewrite (drop_S _ _ _ Hcs). cbn [extracted].
      replace (Z.to_nat (Z.of_nat j + 1)) with (S j) by lia. reflexivity.
  - split; [lia|]. reflexivity.
  - rewrite Hrun. repeat f_equal. rewrite <- HI.
    rewrite drop_ge; [reflexivity|]. unfold cs, len.
    rewrite length_map. lia.
Qed.
End Quiet.

Lemma afs_items_contents cs : forall w, map snd (afs_items w cs) = cs.
Proof. induction cs as [|c cs IH]; intros w; cbn; [reflexivity|]. f_equal. apply IH. Qed.

Lemma to_int_small x : 0 <= x < 2 ^ 31 -> to_int x = x.
Proof.
  intros H. unfold to_int.
  replace (x <? 2 ^ 31) with true by (symmetry; apply Z.ltb_lt; lia).
  reflexivity.
Qed.

Theorem afs_create_extract (fs : gmap string (list Z)) fn files contents st :
  faults st = [] ->
  fs !! temp_name "afstoolXXXXXX" st = None ->
  Forall2 (fun f c => fs !! f = Some c) files contents ->
  len files <= 65535 ->
  afs_end 0x80000 contents < 2 ^ 32 ->
  exists fs1,
    Afs.create_afs fs fn files st = Some (0, fs1, st) /\
    Afs.extract_afs fs1 fn st
    = Some (len files, extracted fn (len files) 0 fs1 contents, st).
Proof.
  intros Hq Htmp Hfiles Hcount Hend.
  assert (len contents = len files) as Hlen.
  { unfold len. f_equal. symmetry. eapply Forall2_length. exact Hfiles. }
  eexists. split.
  - apply (create_afs_exact st Hq fs fn files contents); assumption.
  - erewrite extract_afs_archive; [|exact Hq|apply lookup_insert_eq|].
    2:{ apply create_afs_data_archive; [symmetry; exact Hlen|lia|exact Hend]. }
    rewrite afs_items_contents.
    assert (len (afs_items 524288 contents) = len files) as ->.
    { unfold len. rewrite afs_items_length. exact Hlen. }
    rewrite to_int_small by (pose proof (len_nonneg files); lia).
    reflexivity.
Qed.

Theorem print_afs_archive (fs : gmap string (list Z)) fn data items st :
  faults st = [] ->
  fs !! fn = Some data -> afs_archive data items ->
  Afs.print_afs_files fs fn st
  = Some (to_int (len items), listing items, st).
Proof.
  intros Hq Hfn Har. unfold Afs.print_afs_files.
  destruct (scan_afs_archive Afs.print_file_info st Hq
              (fun k out => 0 <= k /\ out = take (Z.to_nat k) (listing items))
              fs fn data items [] Hfn Har) as (out & Hrun & Hk & HI).
  - intros j off c fp out Hj Hd Hp [_ HI].
    destruct Har as (_ & _ & Hrows).
    destruct (afs_rows_lookup _ _ _ _ _ _ Hrows Hj) as (Ho & Hc & Hr & _).
    exists fp, (out ++ [(Afs.digits (len items), Z.of_nat j, off, len c)]).
    split; [|split; [exact Hd|split; [lia|]]].
    + unfold Afs.print_file_info, ret, ftell. rewrite Hp.
      rewrite u32_small by lia. reflexivity.
    + subst out. rewrite Nat2Z.id.
      replace (Z.to_nat (Z.of_nat j + 1)) with (S j) by lia.
      assert (listing items !! j
              = Some (Afs.digits (len items), Z.of_nat j, off, len c)) as Hl.
      { unfold listing. rewrite list_lookup_imap, Hj. reflexivity. }
      erewrite take_S_r by exact Hl. reflexivity.
  - split; [lia|reflexivity].
  - rewrite Hrun, HI. repeat f_equal. apply take_ge.
    unfold listing, len. rewrite length_imap. lia.
Qed.

(** digits *)
Lemma digits_loop_shift fuel : forall n r,
  Afs.digits_loop fuel n (r + 1) = Afs.digits_loop fuel n r + 1.
Proof.
  induction fuel as [|fuel IH]; intros n r; cbn [Afs.digits_loop]; [reflexivity|].
  destruct (n / 10 =? 0); [reflexivity|]. apply IH.
Qed.

Lemma digits_loop_bounds fuel : forall n r,
  0 <= n < 10 ^ Z.of_nat fuel ->
  r <= Afs.digits_loop fuel n r <= r + Z.of_nat (Nat.pred fuel).
Proof.
  induction fuel as [|fuel IH]; intros n r Hn; cbn [Afs.digits_loop Nat.pred].
  - lia.
  - destruct (n / 10 =? 0) eqn:E; [lia|]. apply Z.eqb_neq in E.
    pose proof (Z.div_mod n 10 ltac:(lia)) as Hdm.
    pose proof (Z.mod_pos_bound n 10 ltac:(lia)) as Hm.
    assert (0 <= n / 10 < 10 ^ Z.of_nat fuel) as Hq.
    { split; [apply Z.div_pos; lia|].
      apply Z.div_lt_upper_bound; [lia|].
      rewrite Nat2Z.inj_succ, Z.pow_succ_r in Hn by lia. lia. }
    specialize (IH (n / 10) (r + 1) Hq).
    destruct fuel as [|fuel]; [cbn in Hq; lia|].
    cbn [Nat.pred] in IH. lia.
Qed.

Lemma digits_loop_spec fuel : forall n r,
  0 <= n < 10 ^ Z.of_nat fuel ->
  let d := Afs.digits_loop fuel n r in
  n < 10 ^ (d - r + 1) /\ (0 < n -> 10 ^ (d - r) <= n).
Proof.
  induction fuel as [|fuel IH]; intros n r Hn; cbn [Afs.digits_loop].
  - cbn in Hn. replace (r - r) with 0 by lia. cbn. lia.
  - destruct (n / 10 =? 0) eqn:E.
    + apply Z.eqb_eq in E. replace (r - r) with 0 by lia. cbn.
      pose proof (Z.div_mod n 10 ltac:(lia)).
      pose proof (Z.mod_pos_bound n 10 ltac:(lia)). lia.
    + apply Z.eqb_neq in E.
      pose proof (Z.div_mod n 10 ltac:(lia)) as Hdm.
      pose proof (Z.mod_pos_bound n 10 ltac:(lia)) as Hm.
      assert (0 <= n / 10 < 10 ^ Z.of_nat fuel) as Hq.
      { split; [apply Z.div_pos; lia|].
        apply Z.div_lt_upper_bound; [lia|].
        rewrite Nat2Z.inj_succ, Z.pow_succ_r in Hn by lia. lia. }
      specialize (IH (n / 10) (r + 1) Hq). cbv zeta in IH.
      pose proof (digits_loop_bounds fuel (n / 10) (r + 1) Hq) as Hb.
      set (d := Afs.digits_loop fuel (n / 10) (r + 1)) in *.
      destruct IH as [IH1 IH2].
      replace (d - (r + 1) + 1) with (d - r) in IH1 by lia.
      replace (d - r + 1) with (Z.succ (d - r)) by lia.
      rewrite Z.pow_succ_r by lia.
      split; [lia|]. intros _.
      replace (d - r) with (Z.succ (d - (r + 1))) by lia.
      rewrite Z.pow_succ_r by lia.
      assert (0 < n / 10) by lia. specialize (IH2 H). lia.
Qed.

Theorem digits_spec n :
  0 <= n < 2 ^ 32 ->
  1 <= Afs.digits n <= 10 /\
  n < 10 ^ Afs.digits n /\ (0 < n -> 10 ^ (Afs.digits n - 1) <= n).
Proof.
  intros Hn. unfold Afs.digits.
  assert (0 <= n < 10 ^ Z.of_nat 10) as Hn'.
  { change (10 ^ Z.of_nat 10) with 10000000000. lia. }
  pose proof (digits_loop_bounds 10 n 1 Hn') as Hb.
  destruct (digits_loop_spec 10 n 1 Hn') as [H1 H2].
  cbn [Nat.pred] in Hb.
  replace (Afs.digits_loop 10 n 1 - 1 + 1) with (Afs.digits_loop 10 n 1) in H1
    by lia.
  split; [lia|]. split; assumption.
Qed.

Lemma digit_value d :
  0 <= d < 10 ->
  Z.of_nat (nat_of_ascii (ascii_of_nat (48 + Z.to_nat d))) - 48 = d.
Proof. intros H. rewrite nat_ascii_embedding by lia. lia. Qed.

Lemma parse_fmt_u_loop fuel : forall n acc,
  0 <= n < 10 ^ Z.of_nat fuel ->
  parse_dec (fmt_u_loop fuel n acc) 0 = parse_dec acc n.
Proof.
  induction fuel as [|fuel IH]; intros n acc Hn; cbn [fmt_u_loop].
  - cbn in Hn. replace n with 0 by lia. reflexivity.
  - pose proof (Z.div_mod n 10 ltac:(lia)) as Hdm.
    pose proof (Z.mod_pos_bound n 10 ltac:(lia)) as Hm.
    destruct (n / 10 =? 0) eqn:E.
    + apply Z.eqb_eq in E. cbn [parse_dec]. rewrite digit_value by lia.
      f_equal. lia.
    + rewrite IH.
      * cbn [parse_dec]. rewrite digit_value by lia. f_equal. lia.
      * split; [apply Z.div_pos; lia|].
        apply Z.div_lt_upper_bound; [lia|].
        rewrite Nat2Z.inj_succ, Z.pow_succ_r in Hn by lia. lia.
Qed.

Lemma parse_zeros k s :
  parse_dec (string_of_list_ascii (replicate k "0"%char) ++ s) 0
  = parse_dec s 0.
Proof. induction k as [|k IH]; [reflexivity|]. cbn. exact IH. Qed.

Lemma parse_fmt_0u w n : 0 <= n < 2 ^ 32 -> parse_dec (fmt_0u w n) 0 = n.
Proof.
  intros Hn. unfold fmt_0u. rewrite parse_zeros. unfold fmt_u.
  rewrite parse_fmt_u_loop; [reflexivity|].
  change (10 ^ Z.of_nat 10) with 10000000000. lia.
Qed.

Lemma length_fmt_u_loop fuel : forall n acc,
  (String.length (fmt_u_loop fuel n acc) <= fuel + String.length acc)%nat.
Proof.
  induction fuel as [|fuel IH]; intros n acc; cbn [fmt_u_loop]; [lia|].
  destruct (n / 10 =? 0).
  - cbn [String.length]. lia.
  - etransitivity; [apply IH|]. cbn [String.length]. lia.
Qed.

Lemma length_string_of_list l : String.length (string_of_list_ascii l) = length l.
Proof. induction l; cbn; [reflexivity|]. f_equal. assumption. Qed.

Lemma string_length_app (s t : string) :
  String.length (s ++ t) = (String.length s + String.length t)%nat.
Proof.
  induction s as [|a s IH]; [reflexivity|].
  simpl. rewrite IH. reflexivity.
Qed.

Lemma length_fmt_0u w n :
  0 <= w <= 10 -> (String.length (fmt_0u w n) <= 10)%nat.
Proof.
  intros Hw. unfold fmt_0u. rewrite string_length_app, length_string_of_list,
    length_replicate.
  pose proof (length_fmt_u_loop 10 n ""). unfold fmt_u.
  cbn [String.length] in H. lia.
Qed.

Lemma substring_all s : forall n,
  (String.length s <= n)%nat -> String.substring 0 n s = s.
Proof.
  induction s as [|a s IH]; intros n Hn.
  - destruct n; reflexivity.
  - destruct n; cbn in *; [lia|]. f_equal. apply IH. lia.
Qed.

Theorem extract_name_full fn cnt i :
  0 <= cnt < 2 ^ 32 ->
  Afs.extract_name fn cnt i
  = (fn ++ "." ++ fmt_0u (Afs.digits cnt) i)%string.
Proof.
  intros Hc. unfold Afs.extract_name, snprintf. apply substring_all.
  rewrite !string_length_app. cbn [String.length].
  destruct (digits_spec cnt Hc) as (Hb & _).
  pose proof (length_fmt_0u (Afs.digits cnt) i ltac:(lia)) as Hl. lia.
Qed.

Lemma extract_name_inj fn cnt i j :
  0 <= cnt < 2 ^ 32 -> 0 <= i < 2 ^ 32 -> 0 <= j < 2 ^ 32 ->
  Afs.extract_name fn cnt i = Afs.extract_name fn cnt j -> i = j.
Proof.
  intros Hc Hi Hj H. rewrite !extract_name_full in H by exact Hc.
  apply (inj (String.append fn)) in H.
  apply (inj (String.append ".")) in H.
  rewrite <- (parse_fmt_0u (Afs.digits cnt) i Hi),
          <- (parse_fmt_0u (Afs.digits cnt) j Hj).
  rewrite H. reflexivity.
Qed.

Lemma extracted_other fn cnt cs : forall i (fs : gmap string (list Z)) name,
  (forall k, i <= k < i + len cs -> Afs.extract_name fn cnt k <> name) ->
  extracted fn cnt i fs cs !! name = fs !! name.
Proof.
  induction cs as [|c cs IH]; intros i fs name Hne; [reflexivity|].
  cbn [extracted]. rewrite len_cons in Hne. pose proof (len_nonneg cs).
  rewrite IH by (intros k Hk; apply Hne; lia).
  apply lookup_insert_ne. apply Hne. lia.
Qed.

Lemma extracted_lookup fn cnt cs : forall i (fs : gmap string (list Z)) j c,
  0 <= cnt < 2 ^ 32 -> 0 <= i -> i + len cs <= 2 ^ 32 ->
  cs !! j = Some c ->
  extracted fn cnt i fs cs !! Afs.extract_name fn cnt (i + Z.of_nat j) = Some c.
Proof.
  induction cs as [|c0 cs IH]; intros i fs j c Hc Hi Hn Hj; [discriminate|].
  cbn [extracted]. rewrite len_cons in Hn. pose proof (len_nonneg cs).
  destruct j as [|j].
  - injection Hj as ->. rewrite Z.add_0_r.
    rewrite extracted_other; [apply lookup_insert_eq|].
    intros k Hk E. apply extract_name_inj in E; lia.
  - cbn in Hj.
    replace (i + Z.of_nat (S j)) with (i + 1 + Z.of_nat j) by lia.
    apply IH; try lia. exact Hj.
Qed.

Theorem extract_afs_files (fs : gmap string (list Z)) fn data items st :
  faults st = [] ->
  fs !! fn = Some data -> afs_archive data items ->
  exists fs',
    Afs.extract_afs fs fn st = Some (to_int (len items), fs', st) /\
    (forall j off c, items !! j = Some (off, c) ->
       fs' !! (fn ++ "." ++ fmt_0u (Afs.digits (len items)) (Z.of_nat j))%string
       = Some c) /\
    (forall name,
       (forall j, (j < length items)%nat ->
          name <> (fn ++ "." ++ fmt_0u (Afs.digits (len items))
                                       (Z.of_nat j))%string) ->
       fs' !! name = fs !! name).
Proof.
  intros Hq Hfn Har. eexists. split; [|split].
  - eapply extract_afs_archive; eassumption.
  - intros j off c Hj. destruct Har as (Hn & _).
    pose proof (len_nonneg items) as H0.
    rewrite <- extract_name_full by lia.
    apply (extracted_lookup fn (len items) (map snd items) 0 fs j c);
      try lia.
    + unfold len. rewrite length_map. unfold len in Hn. lia.
    + rewrite list_lookup_fmap, Hj. reflexivity.
  - intros name Hne. destruct Har as (Hn & _).
    pose proof (len_nonneg items) as H0.
    apply extracted_other. intros k Hk E.
    rewrite extract_name_full in E by lia.
    apply (Hne (Z.to_nat k)).
    + unfold len in Hk. rewrite length_map in Hk. lia.
    + rewrite Z2Nat.id by lia. symmetry. exact E.
Qed.

Theorem afs_round_trip (fs : gmap string (list Z)) fn files contents st :
  faults st = [] ->
  fs !! temp_name "afstoolXXXXXX" st = None ->
  Forall2 (fun f c => fs !! f = Some c) files contents ->
  len files <= 65535 ->
  afs_end 0x80000 contents < 2 ^ 32 ->
  exists fs1 fs2,
    Afs.create_afs fs fn files st = Some (0, fs1, st) /\
    Afs.extract_afs fs1 fn st = Some (len files, fs2, st) /\
    forall j c, contents !! j = Some c ->
      fs2 !! (fn ++ "." ++ fmt_0u (Afs.digits (len files)) (Z.of_nat j))%string
      = Some c.
Proof.
  intros Hq Htmp Hfiles Hcount Hend.
  assert (len contents = len files) as Hlen.
  { unfold len. f_equal. symmetry. eapply Forall2_length. exact Hfiles. }
  pose proof (len_nonneg files) as H0.
  set (data := put_all (store [] 0 (Afs.afs_header (len files))) 8 0x80000
                       contents).
  assert (afs_archive data (afs_items 0x80000 contents)) as Har.
  { apply create_afs_data_archive; [symmetry; exact Hlen|lia|exact Hend]. }
  assert (len (afs_items 0x80000 contents) = len files) as Hli.
  { unfold len. rewrite afs_items_length. exact Hlen. }
  destruct (extract_afs_files (<[fn := data]> fs) fn data
              (afs_items 0x80000 contents) st Hq (lookup_insert_eq _ _ _) Har)
    as (fs2 & Hrun & Hget & _).
  exists (<[fn := data]> fs), fs2. split; [|split].
  - apply (create_afs_exact st Hq fs fn files contents); assumption.
  - rewrite Hrun, Hli, to_int_small by lia. reflexivity.
  - intros j c Hj. rewrite <- Hli.
    assert (exists off, afs_items 0x80000 contents !! j = Some (off, c))
      as [off Hoff].
    { pose proof (afs_items_contents contents 0x80000) as Hm.
      apply (f_equal (fun l => l !! j)) in Hm.
      rewrite list_lookup_fmap, Hj in Hm.
      destruct (afs_items 0x80000 contents !! j) as [[o c']|]; [|discriminate].
      injection Hm as ->. eauto. }
    eapply Hget. exact Hoff.
Qed.

Lemma afs_end_app a : forall w b, afs_end w (a ++ b) = afs_end (afs_end w a) b.
Proof. induction a as [|c a IH]; intros w b; cbn; [reflexivity|]. apply IH. Qed.

Lemma afs_items_app a : forall w b,
  afs_items w (a ++ b) = afs_items w a ++ afs_items (afs_end w a) b.
Proof.
  induction a as [|c a IH]; intros w b; cbn; [reflexivity|]. f_equal. apply IH.
Qed.

Lemma put_all_app a : forall d fpos w b,
  put_all d fpos w (a ++ b)
  = put_all (put_all d fpos w a) (fpos + 8 * len a) (afs_end w a) b.
Proof.
  induction a as [|c a IH]; intros d fpos w b.
  - cbn. rewrite Z.add_0_r. reflexivity.
  - cbn [app put_all afs_end]. rewrite IH, len_cons. f_equal. lia.
Qed.

Lemma afs_rows_app d a : forall fpos b,
  afs_rows d fpos (a ++ b)
  <-> afs_rows d fpos a /\ afs_rows d (fpos + 8 * len a) b.
Proof.
  induction a as [|[o c] a IH]; intros fpos b.
  - cbn. rewrite Z.add_0_r. tauto.
  - cbn [app afs_rows]. rewrite IH, len_cons.
    replace (fpos + 8 + 8 * len a) with (fpos + 8 * (1 + len a)) by lia.
    tauto.
Qed.

Lemma afs_rows_keep cs : forall d d' fpos w,
  0 <= fpos -> 0 <= w ->
  afs_rows d fpos (afs_items w cs) ->
  (forall q bs, 0 <= q ->
     (fpos <= q /\ q + len bs <= fpos + 8 * len cs) \/
     (w <= q /\ q + len bs <= afs_end w cs) ->
     region d q bs -> region d' q bs) ->
  afs_rows d' fpos (afs_items w cs).
Proof.
  induction cs as [|c cs IH]; intros d d' fpos w Hf Hw Hrows Hkeep.
  - exact I.
  - cbn [afs_items afs_rows afs_end] in *. rewrite len_cons in Hkeep.
    destruct Hrows as (H1 & H2 & H3 & H4 & H5).
    pose proof (afs_end_ge cs (next_block (w + len c))) as He.
    pose proof (next_block_gt (w + len c)) as Hn.
    pose proof (len_nonneg c) as Hc. pose proof (len_nonneg cs) as Hcs.
    split; [exact H1|]. split; [exact H2|]. split; [|split].
    + apply Hkeep; [lia| |exact H3]. left.
      change (len (put_le32 w ++ put_le32 (len c))) with 8. lia.
    + apply Hkeep; [lia| |exact H4]. right. lia.
    + apply (IH d d' (fpos + 8) (next_block (w + len c))); try lia.
      * exact H5.
      * intros q bs Hq Hr. apply Hkeep; [exact Hq|]. lia.
Qed.

(** the archive an operation leaves: table and data written from an empty
    file, then the header *)
Lemma canonical_archive cs :
  len cs <= 65535 -> afs_end 0x80000 cs < 2 ^ 32 ->
  afs_archive (store (put_all [] 8 0x80000 cs) 0 (Afs.afs_header (len cs)))
              (afs_items 0x80000 cs).
Proof.
  intros Hn Hend. pose proof (len_nonneg cs) as H0.
  destruct (put_all_rows cs [] 8 0x80000) as [Hrows _]; try lia.
  unfold afs_archive.
  assert (len (afs_items 0x80000 cs) = len cs) as ->.
  { unfold len. rewrite afs_items_length. reflexivity. }
  split; [lia|]. split; [apply region_store_same; lia|].
  eapply afs_rows_keep; [lia|lia|exact Hrows|].
  intros q bs Hq Hr H. apply region_store_other; try lia; [|exact H].
  right. change (len (Afs.afs_header (len cs))) with 8. lia.
Qed.

Lemma shiftl3 i : Z.shiftl i 3 = 8 * i.
Proof. rewrite Z.shiftl_mul_pow2 by lia. change (2 ^ 3) with 8. lia. Qed.

Section Quiet.
Variable st : io_state.
Hypothesis Hq : faults st = [].

Lemma copy_file_cb_exact fp i cnt c ofp :
  0 <= f_pos fp -> region (f_data fp) (f_pos fp) c ->
  0 <= i -> 8 * i < 2 ^ 32 -> 0 <= f_pos ofp < 2 ^ 32 ->
  let wpos := if i =? 0 then 0x80000 else f_pos ofp in
  Afs.copy_file_cb fp i cnt (len c) ofp st
  = Some (0, mk_file (f_data fp) (f_pos fp + len c),
          mk_file (put_afs (f_data ofp) (8 + 8 * i) wpos c)
                  (next_block (wpos + len c)), st).
Proof.
  intros Hp Hr Hi Hi8 Ho wpos. unfold Afs.copy_file_cb, ftell.
  rewrite shiftl3, (u32_small (8 * i)), (u32_small (f_pos ofp)) by lia.
  fold wpos.
  assert (0 <= wpos) as Hw by (unfold wpos; destruct (i =? 0); lia).
  pose proof (len_nonneg c) as Hc.
  rewrite (bind_run st _ _ _ _
             (fseek_set_ok ofp (8 * i + 8) st Hq ltac:(lia))).
  cbn [Z.eqb negb].
  rewrite (bind_run st _ _ _ _ (fwrite_store st Hq _ _)).
  change (len (put_le32 wpos ++ put_le32 (len c))) with 8.
  cbn [Z.eqb Pos.eqb negb f_data f_pos].
  rewrite (bind_run st _ _ _ _ (fseek_set_ok _ wpos st Hq Hw)).
  cbn [Z.eqb negb f_data f_pos].
  erewrite (bind_run st)
    by (apply (copy_file_region st Hq); [exact Hp|cbn; lia|exact Hr]).
  cbn [Z.eqb negb f_data f_pos].
  erewrite (bind_run st) by (apply (pad_file_exact st Hq); cbn; lia).
  cbn [f_data f_pos].
  pose proof (next_block_gt (wpos + len c)).
  replace (next_block (wpos + len c) <? 0) with false
    by (symmetry; apply Z.ltb_ge; lia).
  unfold ret, put_afs. replace (8 * i + 8) with (8 + 8 * i) by lia.
  reflexivity.
Qed.
End Quiet.

Lemma afs_end_take_le cs w k : afs_end w (take k cs) <= afs_end w cs.
Proof.
  rewrite <- (take_drop k cs) at 2. rewrite afs_end_app. apply afs_end_ge.
Qed.

Lemma len_take_lookup {A} (l : list A) j x :
  l !! j = Some x -> len (take j l) = Z.of_nat j.
Proof.
  intros H. apply lookup_lt_Some in H. unfold len. rewrite length_take. lia.
Qed.

Section Quiet.
Variable st : io_state.
Hypothesis Hq : faults st = [].

Lemma add_to_afs_exact (fs : gmap string (list Z)) fn data items files
    contents :
  fs !! temp_name "afstoolXXXXXX" st = None ->
  fs !! fn = Some data -> afs_archive data items -> items <> [] ->
  Forall2 (fun f c => fs !! f = Some c) files contents ->
  len items + len files <= 65535 ->
  afs_end 0x80000 (map snd items ++ contents) < 2 ^ 32 ->
  Afs.add_to_afs fs fn files st
  = Some (0,
          <[fn := put_all
                    (store (put_all [] 8 0x80000 (map snd items)) 0
                           (Afs.afs_header (len items + len files)))
                    (8 + 8 * len items) (afs_end 0x80000 (map snd items))
                    contents]> fs, st).
Proof.
  intros Htmp Hfn Har Hne Hfiles Hcount Hend.
  set (cs := map snd items) in *.
  assert (len cs = len items) as Hlcs.
  { unfold cs, len. rewrite length_map. reflexivity. }
  pose proof (len_nonneg items) as Hn0. pose proof (len_nonneg files) as Hm0.
  assert (0 < len items) as Hpos.
  { destruct items; [congruence|]. rewrite len_cons.
    pose proof (len_nonneg items). lia. }
  rewrite afs_end_app in Hend.
  pose proof (afs_end_ge contents (afs_end 0x80000 cs)) as Hge.
  pose proof (afs_end_ge cs 0x80000) as Hge0.
  unfold Afs.add_to_afs.
  rewrite (bind_run st _ _ _ _ (mkstemp_ok st Hq fs _ Htmp)).
  cbn [Z.ltb Z.compare].
  rewrite (bind_run st _ _ _ _ (fdopen_wb_ok st Hq 0)).
  rewrite (bind_run st _ _ _ _ (fseek_set_ok _ 0x80000 st Hq ltac:(lia))).
  cbn [Z.eqb negb f_data f_pos ftell].
  rewrite (bind_run st _ _ _ _ (fseek_set_ok _ 8 st Hq ltac:(lia))).
  cbn [Z.eqb negb f_data f_pos ftell].
  set (fs1 := <[temp_name "afstoolXXXXXX" st := []]> fs).
  assert (fs1 !! fn = Some data) as Hfn1.
  { unfold fs1. rewrite lookup_insert_ne; [exact Hfn|]. intros <-. congruence. }
  destruct (scan_afs_archive Afs.copy_file_cb st Hq
              (fun k ofp =>
                 0 <= k /\
                 f_data ofp = put_all [] 8 0x80000 (take (Z.to_nat k) cs) /\
                 (k = 0 -> f_pos ofp = 8) /\
                 (0 < k -> f_pos ofp
                           = afs_end 0x80000 (take (Z.to_nat k) cs)))
              fs1 fn data items (mk_file [] 8) Hfn1 Har)
    as (ofp & Hrun & Hk & Hdata & _ & Hend').
  - intros j off c fp ofp Hj Hd Hp (_ & Hdat & Hp0 & Hpk).
    destruct Har as (_ & _ & Hrows).
    destruct (afs_rows_lookup _ _ _ _ _ _ Hrows Hj) as (Ho & Hc & Hr & _).
    assert (cs !! j = Some c) as Hcs.
    { unfold cs. rewrite list_lookup_fmap, Hj. reflexivity. }
    pose proof (lookup_lt_Some _ _ _ Hj) as Hjn.
    pose proof (afs_end_take_le cs 0x80000 j) as Hle.
    pose proof (afs_end_ge (take j cs) 0x80000) as Hge1.
    rewrite Nat2Z.id in *.
    assert (0 <= f_pos ofp < 2 ^ 32) as Hop.
    { destruct j; [rewrite Hp0 by reflexivity; lia|].
      rewrite Hpk by lia. lia. }
    assert ((if Z.of_nat j =? 0 then 0x80000 else f_pos ofp)
            = afs_end 0x80000 (take j cs)) as Hw.
    { destruct j; [reflexivity|].
      replace (Z.of_nat (S j) =? 0) with false
        by (symmetry; apply Z.eqb_neq; lia).
      apply Hpk. lia. }
    eexists _, _. split.
    { apply (copy_file_cb_exact st Hq); try lia.
      - rewrite Hd, Hp. exact Hr.
      - unfold len in Hcount. lia. }
    split; [exact Hd|].
    + cbn [f_data f_pos]. rewrite Hw, Hdat.
      replace (Z.to_nat (Z.of_nat j + 1)) with (S j) by lia.
      rewrite (take_S_r _ _ _ Hcs).
      split; [lia|]. split; [|split; [lia|]].
      * rewrite put_all_app. cbn [put_all].
        rewrite (len_take_lookup _ _ _ Hcs). reflexivity.
      * intros _. rewrite afs_end_app. reflexivity.
  - split; [lia|]. split; [reflexivity|]. split; [reflexivity|lia].
  - rewrite (bind_run st _ _ _ _ Hrun).
    rewrite take_ge in Hdata, Hend' by (unfold len in *; lia).
    specialize (Hend' Hpos). destruct ofp as [od op].
    cbn [f_data f_pos] in Hdata, Hend'. subst od op.
    rewrite to_int_small by lia.
    replace (len items <? 0) with false by (symmetry; apply Z.ltb_ge; lia).
    rewrite (u32_small (len items + len files)) by lia.
    replace (65535 <? len items + len files) with false
      by (symmetry; apply Z.ltb_ge; lia).
    unfold ftell. rewrite shiftl3.
    rewrite (bind_run st _ _ _ _ (fseek_set_ok _ 0 st Hq ltac:(lia))).
    cbn [Z.eqb negb f_data f_pos].
    rewrite (bind_run st _ _ _ _ (fwrite_store st Hq _ _)).
    change (len (Afs.afs_header (len items + len files))) with 8.
    cbn [Z.eqb Pos.eqb negb f_data f_pos].
    rewrite (bind_run st _ _ _ _
               (fseek_set_ok _ (8 * len items + 8) st Hq ltac:(lia))).
    cbn [Z.eqb negb].
    erewrite (bind_run st).
    2:{ apply (add_files_to_afs_exact st Hq) with (contents := contents);
        cbn [f_pos]; try lia.
        eapply Forall2_impl; [exact Hfiles|]. intros f c Hf. cbn beta.
        unfold fs1. rewrite lookup_insert_ne; [exact Hf|].
        intros <-. congruence. }
    cbn [Z.eqb negb f_data f_pos].
    replace (8 * len items + 8) with (8 + 8 * len items) by lia.
    apply (commit_ok st Hq). exact Htmp.
Qed.
End Quiet.

Lemma add_to_afs_data_archive cs contents n m :
  n = len cs -> m = len contents -> n + m <= 65535 ->
  afs_end 0x80000 (cs ++ contents) < 2 ^ 32 ->
  afs_archive
    (put_all (store (put_all [] 8 0x80000 cs) 0 (Afs.afs_header (n + m)))
             (8 + 8 * n) (afs_end 0x80000 cs) contents)
    (afs_items 0x80000 (cs ++ contents)).
Proof.
  intros -> -> Hcount Hend.
  pose proof (len_nonneg cs) as Hn0. pose proof (len_nonneg contents) as Hm0.
  rewrite afs_end_app in Hend.
  pose proof (afs_end_ge contents (afs_end 0x80000 cs)) as Hge.
  pose proof (afs_end_ge cs 0x80000) as Hge0.
  set (d1 := put_all [] 8 0x80000 cs).
  set (d2 := store d1 0 (Afs.afs_header (len cs + len contents))).
  destruct (put_all_rows cs [] 8 0x80000) as [Hrows1 _]; try lia.
  destruct (put_all_rows contents d2 (8 + 8 * len cs) (afs_end 0x80000 cs))
    as [Hrows2 Hkeep2]; try lia.
  unfold afs_archive.
  assert (len (afs_items 0x80000 (cs ++ contents)) = len cs + len contents)
    as ->.
  { unfold len. rewrite afs_items_length, length_app. lia. }
  split; [lia|]. split.
  - apply Hkeep2; [lia| |apply region_store_same; lia].
    left. change (len (Afs.afs_header (len cs + len contents))) with 8. lia.
  - rewrite afs_items_app. apply afs_rows_app. split.
    + eapply afs_rows_keep; [lia|lia|exact Hrows1|].
      intros q bs Hq Hr H. pose proof (len_nonneg bs).
      apply Hkeep2; [lia|lia|].
      apply region_store_other; try lia; [|exact H].
      right. change (len (Afs.afs_header (len cs + len contents))) with 8.
      lia.
    + assert (len (afs_items 0x80000 cs) = len cs) as ->.
      { unfold len. rewrite afs_items_length. reflexivity. }
      exact Hrows2.
Qed.

Lemma kept_app items a : forall i b,
  kept items i (a ++ b) = kept items i a ++ kept items (i + len a) b.
Proof.
  induction a as [|c a IH]; intros i b.
  - cbn. rewrite Z.add_0_r. reflexivity.
  - cbn [app kept]. rewrite IH, len_cons.
    replace (i + 1 + len a) with (i + (1 + len a)) by lia.
    destruct (existsb _ items); reflexivity.
Qed.

Lemma kept_length items cs : forall i, len (kept items i cs) <= len cs.
Proof.
  induction cs as [|c cs IH]; intros i; cbn [kept]; [lia|].
  specialize (IH (i + 1)). rewrite len_cons.
  destruct (existsb _ items); rewrite ?len_cons; lia.
Qed.

Section Quiet.
Variable st : io_state.
Hypothesis Hq : faults st = [].

Lemma copy_filtered_exact fp i cnt c cxt :
  0 <= f_pos fp -> region (f_data fp) (f_pos fp) c ->
  0 <= Afs.d_fpos cxt -> 0 <= Afs.d_wpos cxt ->
  Afs.copy_filtered fp i cnt (len c) cxt st
  = if existsb (fun item => item =? i) (Afs.d_items cxt)
    then Some (0, fp, cxt, st)
    else
      Some (0, mk_file (f_data fp) (f_pos fp + len c),
            Afs.mk_delete_cxt
              (mk_file (put_afs (f_data (Afs.d_fp cxt)) (Afs.d_fpos cxt)
                                (Afs.d_wpos cxt) c)
                       (next_block (Afs.d_wpos cxt + len c)))
              (Afs.d_items cxt) (Afs.d_fpos cxt + 8)
              (next_block (Afs.d_wpos cxt + len c))
              (u32 (Afs.d_copied_files cxt + 1)), st).
Proof.
  intros Hp Hr Hf Hw. unfold Afs.copy_filtered.
  destruct (existsb _ (Afs.d_items cxt)); [reflexivity|].
  pose proof (len_nonneg c) as Hc.
  rewrite (bind_run st _ _ _ _ (fseek_set_ok _ _ st Hq Hf)).
  cbn [Z.eqb negb Afs.d_fp Afs.d_fpos Afs.d_wpos Afs.d_items
       Afs.d_copied_files].
  rewrite (bind_run st _ _ _ _ (fwrite_store st Hq _ _)).
  change (len (put_le32 (Afs.d_wpos cxt) ++ put_le32 (len c))) with 8.
  cbn [Z.eqb Pos.eqb negb f_data f_pos Afs.d_fp Afs.d_fpos Afs.d_wpos
       Afs.d_items Afs.d_copied_files].
  rewrite (bind_run st _ _ _ _ (fseek_set_ok _ _ st Hq Hw)).
  cbn [Z.eqb negb f_data f_pos Afs.d_fp Afs.d_fpos Afs.d_wpos Afs.d_items
       Afs.d_copied_files].
  erewrite (bind_run st)
    by (apply (copy_file_region st Hq); [exact Hp|cbn; lia|exact Hr]).
  cbn [Z.eqb negb f_data f_pos Afs.d_fp Afs.d_fpos Afs.d_wpos Afs.d_items
       Afs.d_copied_files].
  erewrite (bind_run st) by (apply (pad_file_exact st Hq); cbn; lia).
  cbn [f_data f_pos Afs.d_fp Afs.d_fpos Afs.d_wpos Afs.d_items
       Afs.d_copied_files].
  pose proof (next_block_gt (Afs.d_wpos cxt + len c)).
  replace (next_block (Afs.d_wpos cxt + len c) <? 0) with false
    by (symmetry; apply Z.ltb_ge; lia).
  reflexivity.
Qed.

Lemma delete_from_afs_exact strtoul (fs : gmap string (list Z)) fn data items
    files dl :
  fs !! temp_name "afstoolXXXXXX" st = None ->
  fs !! fn = Some data -> afs_archive data items ->
  Afs.parse_items strtoul files false = Some dl ->
  Forall (fun item => item < len items) dl ->
  len items <= 65535 ->
  afs_end 0x80000 (kept dl 0 (map snd items)) < 2 ^ 32 ->
  Afs.delete_from_afs strtoul fs fn files st
  = Some (0,
          <[fn := store (put_all [] 8 0x80000 (kept dl 0 (map snd items))) 0
                        (Afs.afs_header (len (kept dl 0 (map snd items))))]>
            fs, st).
Proof.
  intros Htmp Hfn Har Hparse Hrange Hcount Hend.
  set (cs := map snd items) in *. set (K := kept dl 0 cs) in *.
  assert (len cs = len items) as Hlcs.
  { unfold cs, len. rewrite length_map. reflexivity. }
  pose proof (len_nonneg items) as Hn0.
  unfold Afs.delete_from_afs.
  rewrite (bind_run st _ _ _ _ (fault_none st Hq)). rewrite Hparse.
  rewrite (bind_run st _ _ _ _ (mkstemp_ok st Hq fs _ Htmp)).
  cbn [Z.ltb Z.compare].
  rewrite (bind_run st _ _ _ _ (fdopen_wb_ok st Hq 0)).
  rewrite (bind_run st _ _ _ _ (fseek_set_ok _ 0x80000 st Hq ltac:(lia))).
  cbn [Z.eqb negb f_data f_pos ftell].
  rewrite (bind_run st _ _ _ _ (fseek_set_ok _ 8 st Hq ltac:(lia))).
  cbn [Z.eqb negb f_data f_pos ftell].
  set (fs1 := <[temp_name "afstoolXXXXXX" st := []]> fs).
  assert (fs1 !! fn = Some data) as Hfn1.
  { unfold fs1. rewrite lookup_insert_ne; [exact Hfn|]. intros <-. congruence. }
  destruct (scan_afs_archive Afs.copy_filtered st Hq
              (fun k cxt =>
                 0 <= k /\
                 f_data (Afs.d_fp cxt)
                 = put_all [] 8 0x80000 (kept dl 0 (take (Z.to_nat k) cs)) /\
                 Afs.d_items cxt = dl /\
                 Afs.d_fpos cxt
                 = 8 + 8 * len (kept dl 0 (take (Z.to_nat k) cs)) /\
                 Afs.d_wpos cxt
                 = afs_end 0x80000 (kept dl 0 (take (Z.to_nat k) cs)) /\
                 Afs.d_copied_files cxt
                 = len (kept dl 0 (take (Z.to_nat k) cs)))
              fs1 fn data items
              (Afs.mk_delete_cxt (mk_file [] 8) dl 8 0x80000 0) Hfn1 Har)
    as (cxt & Hrun & Hk & Hdata & Hitems & Hfpos & Hwpos & Hcopied).
  - intros j off c fp cxt Hj Hd Hp (_ & Hdat & Hit & Hfp & Hwp & Hcp).
    destruct Har as (_ & _ & Hrows).
    destruct (afs_rows_lookup _ _ _ _ _ _ Hrows Hj) as (Ho & Hc & Hr & _).
    assert (cs !! j = Some c) as Hcs.
    { unfold cs. rewrite list_lookup_fmap, Hj. reflexivity. }
    rewrite Nat2Z.id in *.
    replace (Z.to_nat (Z.of_nat j + 1)) with (S j) by lia.
    rewrite (take_S_r _ _ _ Hcs), kept_app, Z.add_0_l.
    rewrite (len_take_lookup _ _ _ Hcs). cbn [kept].
    set (Kj := kept dl 0 (take j cs)) in *.
    pose proof (len_nonneg Kj) as HK0.
    pose proof (afs_end_ge Kj 0x80000) as HKe.
    pose proof (kept_length dl (take j cs) 0) as HKl. fold Kj in HKl.
    rewrite (len_take_lookup _ _ _ Hcs) in HKl.
    pose proof (lookup_lt_Some _ _ _ Hj) as Hjn.
    pose proof (copy_filtered_exact fp (Z.of_nat j) (len items) c cxt) as Hx.
    rewrite Hit in Hx.
    destruct (existsb (fun item => item =? Z.of_nat j) dl).
    + exists fp, cxt. split; [apply Hx; try lia; rewrite Hd, Hp; exact Hr|].
      rewrite app_nil_r. repeat split; try assumption; lia.
    + eexists _, _. split; [apply Hx; try lia; rewrite Hd, Hp; exact Hr|].
      cbn [f_data f_pos Afs.d_fp Afs.d_fpos Afs.d_wpos Afs.d_items
           Afs.d_copied_files].
      split; [exact Hd|]. split; [lia|].
      rewrite put_all_app, afs_end_app, len_app. cbn [put_all afs_end].
      rewrite Hdat, Hfp, Hwp, Hcp, len_cons.
      change (len (@nil (list Z))) with 0.
      unfold len in Hcount.
      rewrite u32_small by lia.
      repeat split; try reflexivity; lia.
  - cbn. repeat split; reflexivity || lia.
  - rewrite (bind_run st _ _ _ _ Hrun).
    rewrite take_ge in Hdata, Hfpos, Hwpos, Hcopied by (unfold len in *; lia).
    fold K in Hdata, Hfpos, Hwpos, Hcopied.
    rewrite to_int_small by lia.
    replace (len items <? 0) with false by (symmetry; apply Z.ltb_ge; lia).
    replace (existsb (fun item => len items <=? item) dl) with false.
    2:{ symmetry. apply not_true_is_false. intros E.
        apply existsb_exists in E. destruct E as (x & Hx & E).
        rewrite List.Forall_forall in Hrange. apply Z.leb_le in E.
        specialize (Hrange x Hx). lia. }
    rewrite (bind_run st _ _ _ _ (fseek_set_ok _ 0 st Hq ltac:(lia))).
    cbn [Z.eqb negb f_data f_pos].
    rewrite (bind_run st _ _ _ _ (fwrite_store st Hq _ _)).
    change (len (Afs.afs_header (Afs.d_copied_files cxt))) with 8.
    cbn [Z.eqb Pos.eqb negb f_data f_pos].
    rewrite Hdata, Hcopied.
    apply (commit_ok st Hq). exact Htmp.
Qed.
End Quiet.

Section Quiet.
Variable st : io_state.
Hypothesis Hq : faults st = [].

Lemma copy_update_exact (fs : gmap string (list Z)) fp i cnt c cxt new :
  0 <= f_pos fp -> region (f_data fp) (f_pos fp) c ->
  0 <= Afs.u_fpos cxt -> 0 <= Afs.u_wpos cxt ->
  fs !! Afs.u_fn cxt = Some new ->
  (Afs.u_item cxt = i -> next_block (Afs.u_wpos cxt + len new) < 2 ^ 32) ->
  exists fp',
  Afs.copy_update fs fp i cnt (len c) cxt st
  = Some (0, fp',
          let c' := if Afs.u_item cxt =? i then new else c in
          Afs.mk_update_cxt
            (mk_file (put_afs (f_data (Afs.u_fp cxt)) (Afs.u_fpos cxt)
                              (Afs.u_wpos cxt) c')
                     (if Afs.u_item cxt =? i then Afs.u_fpos cxt + 8
                      else next_block (Afs.u_wpos cxt + len c')))
            (Afs.u_item cxt) (Afs.u_fn cxt) (Afs.u_fpos cxt + 8)
            (next_block (Afs.u_wpos cxt + len c')), st) /\
  f_data fp' = f_data fp.
Proof.
  intros Hp Hr Hf Hw Hnew Hend. unfold Afs.copy_update.
  pose proof (len_nonneg c) as Hc.
  destruct (Z.eqb_spec (Afs.u_item cxt) i) as [E|E].
  - specialize (Hend E). exists fp. split; [|reflexivity].
    rewrite (bind_run st _ _ _ _ (fseek_set_ok _ _ st Hq Hf)).
    cbn [Z.eqb negb Afs.u_fp Afs.u_fpos Afs.u_wpos Afs.u_item Afs.u_fn].
    erewrite (bind_run st).
    2:{ apply (add_files_to_afs_exact st Hq) with (contents := [new]);
        cbn [f_pos afs_end]; try lia.
        repeat constructor. exact Hnew. }
    cbn [Z.eqb negb f_data f_pos put_all afs_end].
    unfold ret. change (len [Afs.u_fn cxt]) with 1.
    replace (Afs.u_fpos cxt + 8 * 1) with (Afs.u_fpos cxt + 8) by lia.
    reflexivity.
  - exists (mk_file (f_data fp) (f_pos fp + len c)). split; [|reflexivity].
    rewrite (bind_run st _ _ _ _ (fseek_set_ok _ _ st Hq Hf)).
    cbn [Z.eqb negb Afs.u_fp Afs.u_fpos Afs.u_wpos Afs.u_item Afs.u_fn].
    rewrite (bind_run st _ _ _ _ (fwrite_store st Hq _ _)).
    change (len (put_le32 (Afs.u_wpos cxt) ++ put_le32 (len c))) with 8.
    cbn [Z.eqb Pos.eqb negb f_data f_pos Afs.u_fp Afs.u_fpos Afs.u_wpos
         Afs.u_item Afs.u_fn].
    rewrite (bind_run st _ _ _ _ (fseek_set_ok _ _ st Hq Hw)).
    cbn [Z.eqb negb f_data f_pos Afs.u_fp Afs.u_fpos Afs.u_wpos
         Afs.u_item Afs.u_fn].
    erewrite (bind_run st)
      by (apply (copy_file_region st Hq); [exact Hp|cbn; lia|exact Hr]).
    cbn [Z.eqb negb f_data f_pos Afs.u_fp Afs.u_fpos Afs.u_wpos
         Afs.u_item Afs.u_fn].
    erewrite (bind_run st) by (apply (pad_file_exact st Hq); cbn; lia).
    cbn [f_data f_pos Afs.u_fp Afs.u_fpos Afs.u_wpos Afs.u_item Afs.u_fn].
    pose proof (next_block_gt (Afs.u_wpos cxt + len c)).
    replace (next_block (Afs.u_wpos cxt + len c) <? 0) with false
      by (symmetry; apply Z.ltb_ge; lia).
    reflexivity.
Qed.

Lemma update_afs_exact strtoul (fs : gmap string (list Z)) fn fno file data
    items new :
  fs !! temp_name "afstoolXXXXXX" st = None ->
  fs !! fn = Some data -> afs_archive data items ->
  snd (strtoul fno) = false ->
  u32 (fst (strtoul fno)) < len items ->
  fs !! file = Some new ->
  len items <= 65535 ->
  let cs' := <[Z.to_nat (u32 (fst (strtoul fno))) := new]> (map snd items) in
  afs_end 0x80000 cs' < 2 ^ 32 ->
  Afs.update_afs strtoul fs fn fno file st
  = Some (0,
          <[fn := store (put_all [] 8 0x80000 cs') 0
                        (Afs.afs_header (len items))]> fs, st).
Proof.
  intros Htmp Hfn Har Herr Hitem Hfile Hcount cs' Hend.
  set (item := u32 (fst (strtoul fno))) in *.
  assert (0 <= item) as Hi0 by (apply Z.mod_pos_bound; lia).
  set (cs := map snd items) in *.
  assert (len cs = len items) as Hlcs.
  { unfold cs, len. rewrite length_map. reflexivity. }
  assert (len cs' = len items) as Hlcs'.
  { unfold cs', len. rewrite length_insert. exact Hlcs. }
  pose proof (len_nonneg items) as Hn0.
  unfold Afs.update_afs. rewrite Herr. fold item.
  rewrite (bind_run st _ _ _ _ (mkstemp_ok st Hq fs _ Htmp)).
  cbn [Z.ltb Z.compare].
  rewrite (bind_run st _ _ _ _ (fdopen_wb_ok st Hq 0)).
  rewrite (bind_run st _ _ _ _ (fseek_set_ok _ 0x80000 st Hq ltac:(lia))).
  cbn [Z.eqb negb f_data f_pos ftell].
  rewrite (bind_run st _ _ _ _ (fseek_set_ok _ 8 st Hq ltac:(lia))).
  cbn [Z.eqb negb f_data f_pos ftell].
  set (fs1 := <[temp_name "afstoolXXXXXX" st := []]> fs).
  assert (fs1 !! fn = Some data) as Hfn1.
  { unfold fs1. rewrite lookup_insert_ne; [exact Hfn|]. intros <-. congruence. }
  assert (fs1 !! file = Some new) as Hfile1.
  { unfold fs1. rewrite lookup_insert_ne; [exact Hfile|]. intros <-.
    congruence. }
  destruct (scan_afs_archive (Afs.copy_update fs1) st Hq
              (fun k cxt =>
                 0 <= k /\
                 f_data (Afs.u_fp cxt)
                 = put_all [] 8 0x80000 (take (Z.to_nat k) cs') /\
                 Afs.u_item cxt = item /\ Afs.u_fn cxt = file /\
                 Afs.u_fpos cxt = 8 + 8 * k /\
                 Afs.u_wpos cxt = afs_end 0x80000 (take (Z.to_nat k) cs'))
              fs1 fn data items
              (Afs.mk_update_cxt (mk_file [] 8) item file 8 0x80000) Hfn1 Har)
    as (cxt & Hrun & Hk & Hdata & Hitems & Hufn & Hfpos & Hwpos).
  - intros j off c fp cxt Hj Hd Hp (_ & Hdat & Hit & Hfn' & Hfp & Hwp).
    destruct Har as (_ & _ & Hrows).
    destruct (afs_rows_lookup _ _ _ _ _ _ Hrows Hj) as (Ho & Hc & Hr & _).
    assert (cs !! j = Some c) as Hcs.
    { unfold cs. rewrite list_lookup_fmap, Hj. reflexivity. }
    pose proof (lookup_lt_Some _ _ _ Hcs) as Hjn.
    rewrite Nat2Z.id in *.
    set (c' := if item =? Z.of_nat j then new else c).
    assert (cs' !! j = Some c') as Hcs'.
    { unfold cs', c'. destruct (Z.eqb_spec item (Z.of_nat j)) as [E|E].
      - rewrite E, Nat2Z.id. apply list_lookup_insert_eq. exact Hjn.
      - rewrite list_lookup_insert_ne by lia. exact Hcs. }
    pose proof (afs_end_take_le cs' 0x80000 (S j)) as Hle.
    rewrite (take_S_r _ _ _ Hcs'), afs_end_app in Hle. cbn [afs_end] in Hle.
    pose proof (afs_end_ge (take j cs') 0x80000) as Hge.
    pose proof (len_nonneg c') as Hc'. pose proof (len_nonneg new) as Hnw.
    pose proof (next_block_gt (afs_end 0x80000 (take j cs') + len c')) as Hnb.
    destruct (copy_update_exact fs1 fp (Z.of_nat j) (len items) c cxt new)
      as (fp' & Hx & Hd'); try lia.
    { rewrite Hd, Hp. exact Hr. }
    { rewrite Hfn'. exact Hfile1. }
    { intros E. rewrite Hwp. unfold c' in Hle, Hnb. rewrite Hit in E.
      rewrite E, Z.eqb_refl in Hle, Hnb. lia. }
    rewrite Hit in Hx. fold c' in Hx. cbv zeta in Hx.
    eexists _, _. split; [exact Hx|].
    cbn [f_data f_pos Afs.u_fp Afs.u_fpos Afs.u_wpos Afs.u_item Afs.u_fn].
    split; [congruence|]. split; [lia|].
    replace (Z.to_nat (Z.of_nat j + 1)) with (S j) by lia.
    rewrite (take_S_r _ _ _ Hcs'), put_all_app, afs_end_app.
    cbn [put_all afs_end].
    rewrite (len_take_lookup _ _ _ Hcs'), Hdat, Hfp, Hwp.
    repeat split; try reflexivity; try assumption; lia.
  - cbn. repeat split; reflexivity || lia.
  - rewrite (bind_run st _ _ _ _ Hrun).
    rewrite take_ge in Hdata, Hwpos by (unfold len in *; lia).
    rewrite to_int_small by lia.
    replace (len items <? 0) with false by (symmetry; apply Z.ltb_ge; lia).
    rewrite Hitems.
    replace (len items <=? item) with false by (symmetry; apply Z.leb_gt; lia).
    rewrite (bind_run st _ _ _ _ (fseek_set_ok _ 0 st Hq ltac:(lia))).
    cbn [Z.eqb negb f_data f_pos].
    rewrite (bind_run st _ _ _ _ (fwrite_store st Hq _ _)).
    change (len (Afs.afs_header (len items))) with 8.
    cbn [Z.eqb Pos.eqb negb f_data f_pos].
    rewrite Hdata.
    apply (commit_ok st Hq). exact Htmp.
Qed.
End Quiet.

(** ** What the AFS operations do *)

(** X1.  [copy_file] (afs.c, gsl.c, bmltool.c): without a fault, and when
    the source holds [size] bytes from its position on, [copy_file] returns
    0, has written exactly these bytes at the position of the destination
    (whatever the number of 512-byte rounds), and has moved both streams by
    [size]. *)
Theorem copy_file_copies dst src size st :
  faults st = [] -> 0 <= size -> 0 <= f_pos src -> 0 <= f_pos dst ->
  f_pos src + size <= len (f_data src) ->
  copy_file dst src size st
  = Some (0,
          mk_file (store (f_data dst) (f_pos dst)
                     (take (Z.to_nat size)
                           (drop (Z.to_nat (f_pos src)) (f_data src))))
                  (f_pos dst + size),
          mk_file (f_data src) (f_pos src + size), st).
Proof. intros Hq. apply (copy_file_exact st Hq). Qed.

Lemma copy_file_copies_witness :
  copy_file (mk_file [9; 9; 9] 1) (mk_file (replicate 600 7) 20) 570 no_faults
  = Some (0,
          mk_file (store [9; 9; 9] 1
                     (take (Z.to_nat 570)
                           (drop (Z.to_nat 20) (replicate 600 7))))
                  (1 + 570),
          mk_file (replicate 600 7) (20 + 570), no_faults).
Proof.
  apply (copy_file_copies (mk_file [9; 9; 9] 1) (mk_file (replicate 600 7) 20)
           570 no_faults);
    [reflexivity | lia | simpl; lia | simpl; lia | vm_compute; congruence].
Defined.

(** X2.  [copy_file]: when the source holds fewer than [size] bytes from
    its position on ([size] not zero), the copy fails with a negative
    result, whatever faults occur. *)
Theorem copy_file_short_source dst src size :
  0 < size -> 0 <= f_pos src -> len (f_data src) < f_pos src + size ->
  post (copy_file dst src size) (fun r => fst (fst r) < 0).
Proof. apply copy_file_short. Qed.

Lemma copy_file_short_source_witness :
  post (copy_file (mk_file [] 0) (mk_file [1; 2; 3] 1) 5)
       (fun r => fst (fst r) < 0).
Proof.
  apply (copy_file_short_source (mk_file [] 0) (mk_file [1; 2; 3] 1) 5);
    [lia | simpl; lia | vm_compute; reflexivity].
Defined.

Lemma pad_file_pow2_exact fp k st :
  faults st = [] -> 0 <= k -> 0 <= f_pos fp ->
  let r := 2 ^ k * (f_pos fp / 2 ^ k + 1) in
  pad_file fp (2 ^ k) st
  = Some (r, mk_file (store (f_data fp) (r - 1) [0]) r, st).
Proof.
  intros Hq Hk Hpos r.
  assert (0 < 2 ^ k) as Hb by (apply Z.pow_pos_nonneg; lia).
  destruct (next_multiple_strict (f_pos fp) k Hk) as (Hlt & _ & _).
  fold r in Hlt.
  unfold pad_file, ftell.
  replace (2 ^ k <=? 0) with false by (symmetry; apply Z.leb_gt; exact Hb).
  cbv zeta. rewrite !land_lnot_pow2 by exact Hk.
  replace (2 ^ k * (f_pos fp / 2 ^ k) + 2 ^ k) with r by (subst r; lia).
  rewrite (bind_run st _ _ _ _ (fseek_set_ok fp (r - 1) st Hq ltac:(lia))).
  cbn [Z.eqb negb].
  rewrite (bind_run st _ _ _ _ (fwrite_store st Hq _ [0])).
  cbn [f_pos f_data]. replace (len [0]) with 1 by reflexivity.
  cbn [Z.eqb Pos.eqb negb]. unfold ret.
  replace (r - 1 + 1) with r by lia. reflexivity.
Qed.

(** X3.  [pad_file]: without a fault, for a boundary [2 ^ k] and a stream
    at a position that is not negative, [pad_file] returns the least
    multiple of the boundary strictly above the position, writes one zero
    byte just below it (the gap reads as zeros) and leaves the stream
    there. *)
Theorem pad_file_next_multiple fp k st :
  faults st = [] -> 0 <= k -> 0 <= f_pos fp ->
  exists r,
    pad_file fp (2 ^ k) st
    = Some (r, mk_file (store (f_data fp) (r - 1) [0]) r, st) /\
    f_pos fp < r /\ r mod 2 ^ k = 0 /\
    (forall m, m mod 2 ^ k = 0 -> f_pos fp < m -> r <= m).
Proof.
  intros Hq Hk Hpos. exists (2 ^ k * (f_pos fp / 2 ^ k + 1)).
  split; [apply pad_file_pow2_exact; assumption|].
  apply next_multiple_strict. exact Hk.
Qed.

Lemma pad_file_next_multiple_witness :
  exists r,
    pad_file (mk_file [1; 2; 3] 3) (2 ^ 5) no_faults
    = Some (r, mk_file (store [1; 2; 3] (r - 1) [0]) r, no_faults) /\
    3 < r /\ r mod 2 ^ 5 = 0 /\
    (forall m, m mod 2 ^ 5 = 0 -> 3 < m -> r <= m).
Proof.
  apply (pad_file_next_multiple (mk_file [1; 2; 3] 3) 5 no_faults);
    [reflexivity | lia | simpl; lia].
Defined.

(** X4.  [digits] (afs.c): for a [uint32_t], the result is the number of
    decimal digits: between 1 and 10, with [10 ^ (d - 1) <= n < 10 ^ d] for
    [n] above zero. *)
Theorem digits_counts_decimal_digits n :
  0 <= n < 2 ^ 32 ->
  1 <= Afs.digits n <= 10 /\
  n < 10 ^ Afs.digits n /\ (0 < n -> 10 ^ (Afs.digits n - 1) <= n).
Proof. apply digits_spec. Qed.

Lemma digits_counts_decimal_digits_witness :
  1 <= Afs.digits 65535 <= 10 /\
  65535 < 10 ^ Afs.digits 65535 /\
  (0 < 65535 -> 10 ^ (Afs.digits 65535 - 1) <= 65535).
Proof. apply (digits_counts_decimal_digits 65535); lia. Defined.

(** X5.  [extract_file] of afs.c: the buffer of [len + 12] characters
    always holds the whole name, which is the name of the archive, a dot
    and the index in decimal, filled with zeros to the width of the count;
    the index can be read back from it, so two entries never share a
    name. *)
Theorem extract_name_never_truncated fn cnt i j :
  0 <= cnt < 2 ^ 32 -> 0 <= i < 2 ^ 32 -> 0 <= j < 2 ^ 32 ->
  Afs.extract_name fn cnt i
  = (fn ++ "." ++ fmt_0u (Afs.digits cnt) i)%string /\
  parse_dec (fmt_0u (Afs.digits cnt) i) 0 = i /\
  (Afs.extract_name fn cnt i = Afs.extract_name fn cnt j -> i = j).
Proof.
  intros Hc Hi Hj. split; [apply extract_name_full; exact Hc|].
  split; [apply parse_fmt_0u; exact Hi|].
  apply extract_name_inj; assumption.
Qed.

Lemma extract_name_never_truncated_witness :
  Afs.extract_name "x.afs" 120 7
  = ("x.afs" ++ "." ++ fmt_0u (Afs.digits 120) 7)%string /\
  parse_dec (fmt_0u (Afs.digits 120) 7) 0 = 7 /\
  (Afs.extract_name "x.afs" 120 7 = Afs.extract_name "x.afs" 120 30 -> 7 = 30).
Proof. apply (extract_name_never_truncated "x.afs" 120 7 30); lia. Defined.

(** X6.  [extract_afs]: without a fault, on a well-formed archive, the
    extraction returns the count, writes the data of every entry [j] to the
    file named after [j], and leaves every other path of the file system as
    it was. *)
Theorem extract_afs_writes_every_entry (fs : gmap string (list Z)) fn data
    items st :
  faults st = [] ->
  fs !! fn = Some data -> afs_archive data items ->
  exists fs',
    Afs.extract_afs fs fn st = Some (to_int (len items), fs', st) /\
    (forall j off c, items !! j = Some (off, c) ->
       fs' !! (fn ++ "." ++ fmt_0u (Afs.digits (len items)) (Z.of_nat j))%string
       = Some c) /\
    (forall name,
       (forall j, (j < length items)%nat ->
          name <> (fn ++ "." ++ fmt_0u (Afs.digits (len items))
                                       (Z.of_nat j))%string) ->
       fs' !! name = fs !! name).
Proof. apply extract_afs_files. Qed.

Lemma extract_afs_writes_every_entry_witness :
  exists fs',
    Afs.extract_afs afs_and_file "x.afs" no_faults
    = Some (to_int (len two_entry_items), fs', no_faults) /\
    (forall j off c, two_entry_items !! j = Some (off, c) ->
       fs' !! ("x.afs" ++ "."
               ++ fmt_0u (Afs.digits (len two_entry_items)) (Z.of_nat j))%string
       = Some c) /\
    (forall name,
       (forall j, (j < length two_entry_items)%nat ->
          name <> ("x.afs" ++ "."
                   ++ fmt_0u (Afs.digits (len two_entry_items))
                             (Z.of_nat j))%string) ->
       fs' !! name = afs_and_file !! name).
Proof.
  apply (extract_afs_writes_every_entry afs_and_file "x.afs" two_entry_afs
           two_entry_items no_faults);
    [reflexivity | vm_compute; reflexivity |].
  unfold afs_archive, two_entry_items. simpl.
  repeat split; try lia; vm_compute; reflexivity.
Defined.

(** X7.  [print_afs_files]: without a fault, on a well-formed archive, the
    listing prints one line per entry, in the order of the table, with the
    index, the offset and the size recorded in the table, and returns the
    count. *)
Theorem print_afs_files_lists_the_table (fs : gmap string (list Z)) fn data
    items st :
  faults st = [] ->
  fs !! fn = Some data -> afs_archive data items ->
  Afs.print_afs_files fs fn st
  = Some (to_int (len items),
          imap (fun i it => (Afs.digits (len items), Z.of_nat i, fst it,
                             len (snd it))) items, st).
Proof. apply print_afs_archive. Qed.

Lemma print_afs_files_lists_the_table_witness :
  Afs.print_afs_files afs_and_file "x.afs" no_faults
  = Some (to_int (len two_entry_items),
          imap (fun i it => (Afs.digits (len two_entry_items), Z.of_nat i,
                             fst it, len (snd it))) two_entry_items,
          no_faults).
Proof.
  apply (print_afs_files_lists_the_table afs_and_file "x.afs" two_entry_afs
           two_entry_items no_faults);
    [reflexivity | vm_compute; reflexivity |].
  unfold afs_archive, two_entry_items. simpl.
  repeat split; try lia; vm_compute; reflexivity.
Defined.

(** X8.  [create_afs]: without a fault, for at most 65535 input files that
    exist and fit below 4 GiB, the operation returns 0 and puts at [fn] a
    well-formed archive that holds the contents of the files in order, the
    first at offset 0x80000 and each one at the start of a 2048-byte block
    of its own. *)
Theorem create_afs_builds_archive (fs : gmap string (list Z)) fn files
    contents st :
  faults st = [] ->
  fs !! temp_name "afstoolXXXXXX" st = None ->
  Forall2 (fun f c => fs !! f = Some c) files contents ->
  len files <= 65535 ->
  afs_end 0x80000 contents < 2 ^ 32 ->
  exists d,
    Afs.create_afs fs fn files st = Some (0, <[fn := d]> fs, st) /\
    afs_archive d (afs_items 0x80000 contents).
Proof.
  intros Hq Htmp Hfiles Hcount Hend.
  assert (len contents = len files) as Hlen.
  { unfold len. f_equal. symmetry. eapply Forall2_length. exact Hfiles. }
  eexists. split.
  - apply (create_afs_exact st Hq fs fn files contents); assumption.
  - apply create_afs_data_archive; [symmetry; exact Hlen|lia|exact Hend].
Qed.

Lemma create_afs_builds_archive_witness :
  exists d,
    Afs.create_afs two_files "n.afs" ["a"; "b"]%string no_faults
    = Some (0, <["n.afs"%string := d]> two_files, no_faults) /\
    afs_archive d (afs_items 0x80000 [[1; 2; 3]; [4; 5]]).
Proof.
  apply (create_afs_builds_archive two_files "n.afs" ["a"; "b"]%string
           [[1; 2; 3]; [4; 5]] no_faults);
    [reflexivity | vm_compute; reflexivity | | vm_compute; congruence
    | vm_compute; reflexivity].
  repeat constructor.
Defined.

(** X9.  [create_afs] followed by [extract_afs]: the archive created from
    the files is extracted to files holding the same contents, entry [j]
    under the name of the archive followed by a dot and [j] in decimal. *)
Theorem afs_create_extract_round_trip (fs : gmap string (list Z)) fn files
    contents st :
  faults st = [] ->
  fs !! temp_name "afstoolXXXXXX" st = None ->
  Forall2 (fun f c => fs !! f = Some c) files contents ->
  len files <= 65535 ->
  afs_end 0x80000 contents < 2 ^ 32 ->
  exists fs1 fs2,
    Afs.create_afs fs fn files st = Some (0, fs1, st) /\
    Afs.extract_afs fs1 fn st = Some (len files, fs2, st) /\
    forall j c, contents !! j = Some c ->
      fs2 !! (fn ++ "." ++ fmt_0u (Afs.digits (len files)) (Z.of_nat j))%string
      = Some c.
Proof. apply afs_round_trip. Qed.

Lemma afs_create_extract_round_trip_witness :
  exists fs1 fs2,
    Afs.create_afs two_files "n.afs" ["a"; "b"]%string no_faults
    = Some (0, fs1, no_faults) /\
    Afs.extract_afs fs1 "n.afs" no_faults
    = Some (len ["a"; "b"]%string, fs2, no_faults) /\
    forall j c, [[1; 2; 3]; [4; 5]] !! j = Some c ->
      fs2 !! ("n.afs" ++ "."
              ++ fmt_0u (Afs.digits (len ["a"; "b"]%string)) (Z.of_nat j))%string
      = Some c.
Proof.
  apply (afs_create_extract_round_trip two_files "n.afs" ["a"; "b"]%string
           [[1; 2; 3]; [4; 5]] no_faults);
    [reflexivity | vm_compute; reflexivity | | vm_compute; congruence
    | vm_compute; reflexivity].
  repeat constructor.
Defined.

(** X10.  [add_to_afs]: without a fault, appending to a well-formed archive
    that is not empty returns 0 and puts at [fn] a well-formed archive that
    holds the old entries followed by the new files, laid out from 0x80000
    on (whatever the offsets of the old archive were). *)
Theorem add_to_afs_appends (fs : gmap string (list Z)) fn data items files
    contents st :
  faults st = [] ->
  fs !! temp_name "afstoolXXXXXX" st = None ->
  fs !! fn = Some data -> afs_archive data items -> items <> [] ->
  Forall2 (fun f c => fs !! f = Some c) files contents ->
  len items + len files <= 65535 ->
  afs_end 0x80000 (map snd items ++ contents) < 2 ^ 32 ->
  exists d,
    Afs.add_to_afs fs fn files st = Some (0, <[fn := d]> fs, st) /\
    afs_archive d (afs_items 0x80000 (map snd items ++ contents)).
Proof.
  intros Hq Htmp Hfn Har Hne Hfiles Hcount Hend.
  assert (len contents = len files) as Hlen.
  { unfold len. f_equal. symmetry. eapply Forall2_length. exact Hfiles. }
  eexists. split.
  - apply (add_to_afs_exact st Hq fs fn data items files contents);
      assumption.
  - apply add_to_afs_data_archive; try assumption.
    + unfold len. rewrite length_map. reflexivity.
    + symmetry. exact Hlen.
Qed.

Lemma add_to_afs_appends_witness :
  exists d,
    Afs.add_to_afs afs_and_file "x.afs" ["n"%string] no_faults
    = Some (0, <["x.afs"%string := d]> afs_and_file, no_faults) /\
    afs_archive d
      (afs_items 0x80000 (map snd two_entry_items ++ [[7; 8; 9; 10]])).
Proof.
  apply (add_to_afs_appends afs_and_file "x.afs" two_entry_afs two_entry_items
           ["n"%string] [[7; 8; 9; 10]] no_faults);
    [reflexivity | vm_compute; reflexivity | vm_compute; reflexivity | |
     discriminate | repeat constructor | vm_compute; congruence
    | vm_compute; reflexivity].
  unfold afs_archive, two_entry_items. simpl.
  repeat split; try lia; vm_compute; reflexivity.
Defined.

(** X11.  [delete_from_afs]: without a fault, with every index in range,
    the operation returns 0 and puts at [fn] a well-formed archive holding
    exactly the entries whose index is not listed, in their order. *)
Theorem delete_from_afs_keeps_the_rest strtoul (fs : gmap string (list Z)) fn
    data items files dl st :
  faults st = [] ->
  fs !! temp_name "afstoolXXXXXX" st = None ->
  fs !! fn = Some data -> afs_archive data items ->
  Afs.parse_items strtoul files false = Some dl ->
  Forall (fun item => item < len items) dl ->
  len items <= 65535 ->
  afs_end 0x80000 (kept dl 0 (map snd items)) < 2 ^ 32 ->
  exists d,
    Afs.delete_from_afs strtoul fs fn files st
    = Some (0, <[fn := d]> fs, st) /\
    afs_archive d (afs_items 0x80000 (kept dl 0 (map snd items))).
Proof.
  intros Hq Htmp Hfn Har Hparse Hrange Hcount Hend.
  eexists. split.
  - apply (delete_from_afs_exact st Hq strtoul fs fn data items files dl);
      assumption.
  - apply canonical_archive; [|exact Hend].
    pose proof (kept_length dl (map snd items) 0) as Hk.
    unfold len in Hk at 2. rewrite length_map in Hk. unfold len in Hcount.
    lia.
Qed.

(** X12.  [update_afs]: without a fault, with the index in range, the
    operation returns 0 and puts at [fn] a well-formed archive in which the
    entry of that index holds the contents of the new file and every other
    entry is as before. *)
Theorem update_afs_replaces_one_entry strtoul (fs : gmap string (list Z)) fn
    fno file data items new st :
  faults st = [] ->
  fs !! temp_name "afstoolXXXXXX" st = None ->
  fs !! fn = Some data -> afs_archive data items ->
  snd (strtoul fno) = false ->
  u32 (fst (strtoul fno)) < len items ->
  fs !! file = Some new ->
  len items <= 65535 ->
  afs_end 0x80000
    (<[Z.to_nat (u32 (fst (strtoul fno))) := new]> (map snd items)) < 2 ^ 32 ->
  exists d,
    Afs.update_afs strtoul fs fn fno file st = Some (0, <[fn := d]> fs, st) /\
    afs_archive d
      (afs_items 0x80000
         (<[Z.to_nat (u32 (fst (strtoul fno))) := new]> (map snd items))).
Proof.
  intros Hq Htmp Hfn Har Herr Hitem Hfile Hcount Hend.
  eexists. split.
  - apply (update_afs_exact st Hq strtoul fs fn fno file data items new);
      assumption.
  - assert (len (<[Z.to_nat (u32 (fst (strtoul fno))) := new]> (map snd items))
            = len items) as Hl.
    { unfold len. rewrite length_insert, length_map. reflexivity. }
    rewrite <- Hl. apply canonical_archive; [lia|exact Hend].
Qed.

Lemma delete_from_afs_keeps_the_rest_witness :
  exists d,
    Afs.delete_from_afs decimal_strtoul afs_and_file "x.afs" ["0"%string]
                        no_faults
    = Some (0, <["x.afs"%string := d]> afs_and_file, no_faults) /\
    afs_archive d (afs_items 0x80000 (kept [0] 0 (map snd two_entry_items))).
Proof.
  apply (delete_from_afs_keeps_the_rest decimal_strtoul afs_and_file "x.afs"
           two_entry_afs two_entry_items ["0"%string] [0] no_faults);
    [reflexivity | vm_compute; reflexivity | vm_compute; reflexivity | |
     vm_compute; reflexivity | repeat constructor | vm_compute; congruence
    | vm_compute; reflexivity].
  unfold afs_archive, two_entry_items. simpl.
  repeat split; try lia; vm_compute; reflexivity.
Defined.

Lemma update_afs_replaces_one_entry_witness :
  exists d,
    Afs.update_afs decimal_strtoul afs_and_file "x.afs" "1" "n" no_faults
    = Some (0, <["x.afs"%string := d]> afs_and_file, no_faults) /\
    afs_archive d
      (afs_items 0x80000
         (<[Z.to_nat (u32 (fst (decimal_strtoul "1"))) := [7; 8; 9; 10]]>
            (map snd two_entry_items))).
Proof.
  apply (update_afs_replaces_one_entry decimal_strtoul afs_and_file "x.afs"
           "1" "n" two_entry_afs two_entry_items [7; 8; 9; 10] no_faults);
    [reflexivity | vm_compute; reflexivity | vm_compute; reflexivity | |
     reflexivity | vm_compute; reflexivity | vm_compute; reflexivity
    | vm_compute; congruence | vm_compute; reflexivity].
  unfold afs_archive, two_entry_items. simpl.
  repeat split; try lia; vm_compute; reflexivity.
Defined.

(** * Failures and limits of the archive operations *)

(** ** What a scan of an AFS archive knows about the file *)

Lemma post_conj {A} (m : IO A) (P Q : A -> Prop) :
  post m P -> post m Q -> post m (fun a => P a /\ Q a).
Proof.
  intros HP HQ st. destruct (HP st) as (a & st1 & E & Ha).
  destruct (HQ st) as (a' & st1' & E' & Ha').
  rewrite E in E'. injection E' as <- <-. eauto.
Qed.

Lemma fread_data f n :
  post (fread f n)
       (fun r => f_data (snd r) = f_data f /\
                 f_pos (snd r) = f_pos f + len (fst r) /\
                 (fst r = [] \/
                  fst r = take (Z.to_nat n)
                               (drop (Z.to_nat (f_pos f)) (f_data f)))).
Proof.
  unfold fread. eapply post_bind; [apply fault_total|]. intros b _.
  destruct b; apply post_ret; cbn [fst snd f_data f_pos].
  - split; [reflexivity|]. split; [unfold len; cbn [length]; lia|]. left.
    reflexivity.
  - split; [reflexivity|]. split; [reflexivity|]. right. reflexivity.
Qed.

Lemma fopen_rb_spec (fs : gmap string (list Z)) fn :
  post (fopen_rb fs fn)
       (fun o => match o with
                 | None => True
                 | Some fp => fs !! fn = Some (f_data fp) /\ f_pos fp = 0
                 end).
Proof.
  unfold fopen_rb. eapply post_bind; [apply fault_total|]. intros b _.
  destruct b; apply post_ret; [exact I|].
  destruct (fs !! fn); [split; reflexivity|exact I].
Qed.

Lemma len_4_bytes (l : list Z) :
  len l = 4 -> exists a b c d, l = [a; b; c; d].
Proof.
  unfold len. intros H.
  destruct l as [|a [|b [|c [|d [|e l]]]]]; cbn in H; try lia. eauto.
Qed.

Lemma open_afs_spec (fs : gmap string (list Z)) fn :
  post (Afs.open_afs fs fn)
       (fun o => match o with
                 | None => True
                 | Some (fp, n) =>
                   exists d, fs !! fn = Some d /\ is_afs d /\ n = afs_count d /\
                             f_data fp = d
                 end).
Proof.
  unfold Afs.open_afs.
  eapply post_bind; [apply fopen_rb_spec|]. intros [fp|] Ho;
    [|apply post_ret; exact I].
  destruct Ho as [Hd Hp0].
  eapply post_bind; [apply fread_data|].
  intros [buf fp1] (Hd1 & Hp1 & Hb1). cbn [fst snd] in *.
  destruct (len buf =? 4) eqn:E1; cbn [negb]; [|apply post_ret; exact I].
  apply Z.eqb_eq in E1.
  destruct Hb1 as [->|Hb1]; [discriminate|].
  rewrite Hp0 in Hb1. change (Z.to_nat 0) with 0%nat in Hb1.
  change (Z.to_nat 4) with 4%nat in Hb1. rewrite drop_0 in Hb1.
  destruct (len_4_bytes _ E1) as (a & b & c & d & Eb).
  destruct (negb (byte_at buf 0 =? 65) || negb (byte_at buf 1 =? 70)
            || negb (byte_at buf 2 =? 83) || negb (byte_at buf 3 =? 0)) eqn:Em;
    [apply post_ret; exact I|].
  eapply post_bind; [apply fread_data|].
  intros [buf2 fp2] (Hd2 & Hp2 & Hb2). cbn [fst snd] in *.
  destruct (len buf2 =? 4) eqn:E2; cbn [negb]; [|apply post_ret; exact I].
  apply Z.eqb_eq in E2.
  destruct Hb2 as [->|Hb2]; [discriminate|].
  apply post_ret. exists (f_data fp). split; [exact Hd|].
  split; [|split].
  - unfold is_afs. rewrite <- Hb1, Eb. rewrite Eb in Em.
    unfold byte_at in Em. cbn [nth] in Em.
    apply orb_false_elim in Em. destruct Em as [Em E4].
    apply orb_false_elim in Em. destruct Em as [Em E3].
    apply orb_false_elim in Em. destruct Em as [Em E2'].
    apply negb_false_iff, Z.eqb_eq in Em, E2', E3, E4. subst. reflexivity.
  - unfold afs_count. rewrite Hb2, Hd1, Hp1, Hp0, E1. reflexivity.
  - congruence.
Qed.

Lemma scan_afs_loop_result {D}
    (p : FILE -> Z -> Z -> Z -> D -> IO (Z * FILE * D)) (I : D -> Prop) :
  (forall fp i cnt sz d, I d -> post (p fp i cnt sz d) (fun r => I (snd r))) ->
  forall n i entries fp rv d, I d ->
    post (Afs.scan_afs_loop p n i entries fp rv d)
         (fun r => (fst r = rv \/ fst r < 0) /\ I (snd r)).
Proof.
  intros Hp. induction n as [|n IH]; intros i entries fp rv d Hd;
    cbn [Afs.scan_afs_loop].
  - apply post_ret. auto.
  - eapply post_bind; [apply fread_total|]. intros [buf fp1] _.
    destruct (negb (len buf =? 4)); [apply post_ret; cbn; split; [lia|auto]|].
    eapply post_bind; [apply fread_total|]. intros [buf2 fp2] _.
    destruct (negb (len buf2 =? 4)); [apply post_ret; cbn; split; [lia|auto]|].
    eapply post_bind; [apply fseek_total|]. intros [rc fp3] _.
    destruct (negb (rc =? 0)); [apply post_ret; cbn; split; [lia|auto]|].
    eapply post_bind; [apply Hp; exact Hd|]. intros [[r fp4] d1] Hd1.
    cbn [snd] in Hd1.
    destruct (negb (r =? 0)); [apply post_ret; cbn; split; [lia|auto]|].
    eapply post_bind; [apply fseek_total|]. intros [rc2 fp5] _.
    destruct (negb (rc2 =? 0)); [apply post_ret; cbn; split; [lia|auto]|].
    apply IH. exact Hd1.
Qed.

Lemma scan_afs_result {D}
    (p : FILE -> Z -> Z -> Z -> D -> IO (Z * FILE * D)) (I : D -> Prop)
    (fs : gmap string (list Z)) fn d :
  (forall fp i cnt sz d, I d -> post (p fp i cnt sz d) (fun r => I (snd r))) ->
  I d ->
  post (Afs.scan_afs p fs fn d)
       (fun r => (fst r < 0 \/
                  exists data, fs !! fn = Some data /\ is_afs data /\
                               fst r = to_int (afs_count data)) /\
                 I (snd r)).
Proof.
  intros Hp Hd. unfold Afs.scan_afs.
  eapply post_bind; [apply open_afs_spec|]. intros [[fp n]|] Ho.
  - destruct Ho as (data & Hfn & Hafs & -> & Hdata).
    eapply post_mono; [apply scan_afs_loop_result; eassumption|].
    intros [r d'] [[Hr|Hr] Hd']; cbn [fst snd] in *; (split; [|exact Hd']).
    + right. eauto.
    + left. exact Hr.
  - apply post_ret. cbn. split; [lia|exact Hd].
Qed.

(** ** Indices beyond the end of an AFS archive *)

Lemma afs_copy_update_item fs fp i cnt sz cxt :
  post (Afs.copy_update fs fp i cnt sz cxt)
       (fun r => Afs.u_item (snd r) = Afs.u_item cxt).
Proof.
  unfold Afs.copy_update. cbv zeta.
  repeat lazymatch goal with
  | |- post (ret _) _ => apply post_ret; reflexivity
  | |- post (bind _ _) _ =>
    eapply post_bind; [solve [eauto with iospec] | cbv beta zeta; intros]
  | |- post (match ?x with _ => _ end) _ => destruct x eqn:?
  end.
Qed.

Lemma afs_copy_filtered_items fp i cnt sz cxt :
  post (Afs.copy_filtered fp i cnt sz cxt)
       (fun r => Afs.d_items (snd r) = Afs.d_items cxt).
Proof.
  unfold Afs.copy_filtered. cbv zeta.
  repeat lazymatch goal with
  | |- post (ret _) _ => apply post_ret; reflexivity
  | |- post (bind _ _) _ =>
    eapply post_bind; [solve [eauto with iospec] | cbv beta zeta; intros]
  | |- post (match ?x with _ => _ end) _ => destruct x eqn:?
  end.
Qed.

Ltac fail_step :=
  lazymatch goal with
  | |- post (ret (_, _)) _ => apply post_ret; cbn [fst]; lia
  | |- post (bind (mkstemp _ _) _) _ =>
    eapply post_bind; [apply mkstemp_spec|];
    let fd := fresh "fd" in let tmp := fresh "tmp" in
    let fs1 := fresh "fs1" in let Hfd := fresh "Hfd" in
    let Hfresh := fresh "Hfresh" in let E := fresh "E" in
    intros [[fd tmp] fs1] [[Hfd E] | (Hfd & Hfresh & E)];
    simpl in Hfd, E; try (simpl in Hfresh); subst fs1;
    [ replace (fd <? 0) with true by (symmetry; apply Z.ltb_lt; lia)
    | replace (fd <? 0) with false by (symmetry; apply Z.ltb_ge; lia) ]
  | |- post (bind (fdopen_wb _) _) _ =>
    eapply post_bind; [apply fdopen_wb_total|]; intros [?|] _
  | |- post (bind (fseek _ _ _) _) _ =>
    eapply post_bind; [apply fseek_total|]; intros [? ?] _
  | |- post (if negb (?rc =? 0) then _ else _) _ => destruct (negb (rc =? 0))
  end.

(** X13.  [update_afs] with an index that is not below the count in the
    header of the archive fails, whatever else goes wrong on the way, and
    leaves the file system as it was: the archive is not replaced and the
    temporary file is gone. *)
Theorem update_afs_index_out_of_range strtoul (fs : gmap string (list Z)) fn
    fno file data :
  fs !! fn = Some data ->
  to_int (afs_count data) <= u32 (fst (strtoul fno)) ->
  post (Afs.update_afs strtoul fs fn fno file)
       (fun r => fst r <> 0 /\ snd r = fs).
Proof.
  intros Hfn Hrange.
  eapply post_mono;
    [apply post_conj; [apply update_afs_outcome|]
    |intros r [[Hfail _] Hne]; split; [exact Hne|apply Hfail; exact Hne]].
  unfold Afs.update_afs. set (item := u32 (fst (strtoul fno))) in *.
  destruct (snd (strtoul fno)); [fail_step|].
  repeat fail_step.
  eapply post_bind.
  { apply (scan_afs_result _ (fun cxt => Afs.u_item cxt = item)).
    - intros fp i cnt sz d Hd. eapply post_mono; [apply afs_copy_update_item|].
      intros r Hr. congruence.
    - reflexivity. }
  intros [entries cxt] [Hres Hitem]. cbn [fst snd] in *.
  destruct (entries <? 0) eqn:E; [fail_step|]. apply Z.ltb_ge in E.
  destruct Hres as [Hres|(d' & Hfn' & _ & Hres)]; [lia|].
  rewrite lookup_insert_ne in Hfn' by congruence.
  rewrite Hfn in Hfn'. injection Hfn' as <-.
  rewrite Hitem. replace (entries <=? item) with true
    by (symmetry; apply Z.leb_le; lia).
  fail_step.
Qed.

Lemma update_afs_index_out_of_range_witness :
  post (Afs.update_afs decimal_strtoul afs_and_file "x.afs" "5" "n")
       (fun r => fst r <> 0 /\ snd r = afs_and_file).
Proof.
  apply (update_afs_index_out_of_range decimal_strtoul afs_and_file "x.afs"
           "5" "n" two_entry_afs);
    [vm_compute; reflexivity | vm_compute; congruence].
Defined.

(** X14.  [delete_from_afs] with one index that is not below the count
    in the header fails and leaves the file system as it was, also when
    the other indices are in range. *)
Theorem delete_from_afs_index_out_of_range strtoul (fs : gmap string (list Z))
    fn files dl data :
  fs !! fn = Some data ->
  Afs.parse_items strtoul files false = Some dl ->
  Exists (fun item => to_int (afs_count data) <= item) dl ->
  post (Afs.delete_from_afs strtoul fs fn files)
       (fun r => fst r <> 0 /\ snd r = fs).
Proof.
  intros Hfn Hparse Hrange.
  eapply post_mono;
    [apply post_conj; [apply delete_from_afs_outcome|]
    |intros r [[Hfail _] Hne]; split; [exact Hne|apply Hfail; exact Hne]].
  unfold Afs.delete_from_afs.
  eapply post_bind; [apply fault_total|]. intros b _.
  destruct b; [fail_step|]. rewrite Hparse.
  repeat fail_step.
  eapply post_bind.
  { apply (scan_afs_result _ (fun cxt => Afs.d_items cxt = dl)).
    - intros fp i cnt sz d Hd.
      eapply post_mono; [apply afs_copy_filtered_items|].
      intros r Hr. congruence.
    - reflexivity. }
  intros [entries cxt] [Hres Hitem]. cbn [fst snd] in *.
  destruct (entries <? 0) eqn:E; [fail_step|]. apply Z.ltb_ge in E.
  destruct Hres as [Hres|(d' & Hfn' & _ & Hres)]; [lia|].
  rewrite lookup_insert_ne in Hfn' by congruence.
  rewrite Hfn in Hfn'. injection Hfn' as <-.
  replace (existsb (fun item => entries <=? item) dl) with true; [fail_step|].
  symmetry. apply existsb_exists. apply List.Exists_exists in Hrange.
  destruct Hrange as (x & Hx & Hle). exists x. split; [exact Hx|].
  apply Z.leb_le. lia.
Qed.

Lemma delete_from_afs_index_out_of_range_witness :
  post (Afs.delete_from_afs decimal_strtoul afs_and_file "x.afs" ["0"; "7"])
       (fun r => fst r <> 0 /\ snd r = afs_and_file).
Proof.
  apply (delete_from_afs_index_out_of_range decimal_strtoul afs_and_file
           "x.afs" ["0"; "7"]%string [0; 7] two_entry_afs);
    [vm_compute; reflexivity | vm_compute; reflexivity |].
  apply Exists_cons_tl, Exists_cons_hd. vm_compute; congruence.
Defined.

(** ** Files that are not archives; input files that are missing *)

Lemma scan_afs_not_archive {D}
    (p : FILE -> Z -> Z -> Z -> D -> IO (Z * FILE * D))
    (fs : gmap string (list Z)) fn d :
  not_afs fs fn -> post (Afs.scan_afs p fs fn d) (fun r => r = (-1, d)).
Proof.
  intros Hn. unfold Afs.scan_afs.
  eapply post_bind; [apply open_afs_spec|]. intros [[fp n]|] Ho.
  - destruct Ho as (data & Hfn & Hafs & _). unfold not_afs in Hn.
    rewrite Hfn in Hn. contradiction.
  - apply post_ret. reflexivity.
Qed.

Lemma not_afs_temp (fs : gmap string (list Z)) fn tmp :
  not_afs fs fn -> not_afs (<[tmp := []]> fs) fn.
Proof.
  unfold not_afs. intros H. destruct (decide (tmp = fn)) as [->|Hne].
  - rewrite lookup_insert_eq. unfold is_afs. cbn. discriminate.
  - rewrite lookup_insert_ne by exact Hne. exact H.
Qed.

(** X15.  A file that is missing or does not start with the bytes
    41 46 53 00 is refused by every operation that reads an archive:
    the extraction and the listing return -1 and produce nothing, the
    writing operations fail and leave the file system as it was. *)
Theorem afs_rejects_non_archive strtoul (fs : gmap string (list Z)) fn :
  not_afs fs fn ->
  post (Afs.extract_afs fs fn) (fun r => r = (-1, fs)) /\
  post (Afs.print_afs_files fs fn) (fun r => r = (-1, [])) /\
  (forall files,
     post (Afs.add_to_afs fs fn files) (fun r => fst r <> 0 /\ snd r = fs)) /\
  (forall fno file,
     post (Afs.update_afs strtoul fs fn fno file)
          (fun r => fst r <> 0 /\ snd r = fs)) /\
  (forall files,
     post (Afs.delete_from_afs strtoul fs fn files)
          (fun r => fst r <> 0 /\ snd r = fs)).
Proof.
  intros Hn. split; [apply scan_afs_not_archive; exact Hn|].
  split; [apply scan_afs_not_archive; exact Hn|].
  split; [|split].
  - intros files.
    eapply post_mono;
      [apply post_conj; [apply add_to_afs_outcome|]
      |intros r [[Hfail _] Hne]; split; [exact Hne|apply Hfail; exact Hne]].
    unfold Afs.add_to_afs. repeat fail_step.
    eapply post_bind; [apply scan_afs_not_archive, not_afs_temp, Hn|].
    intros [entries ofp] [= -> ->]. cbn [Z.ltb Z.compare]. fail_step.
  - intros fno file.
    eapply post_mono;
      [apply post_conj; [apply update_afs_outcome|]
      |intros r [[Hfail _] Hne]; split; [exact Hne|apply Hfail; exact Hne]].
    unfold Afs.update_afs. destruct (snd (strtoul fno)); [fail_step|].
    repeat fail_step.
    eapply post_bind; [apply scan_afs_not_archive, not_afs_temp, Hn|].
    intros [entries ofp] [= -> ->]. cbn [Z.ltb Z.compare]. fail_step.
  - intros files.
    eapply post_mono;
      [apply post_conj; [apply delete_from_afs_outcome|]
      |intros r [[Hfail _] Hne]; split; [exact Hne|apply Hfail; exact Hne]].
    unfold Afs.delete_from_afs.
    eapply post_bind; [apply fault_total|]. intros b _.
    destruct b; [fail_step|].
    destruct (Afs.parse_items strtoul files false); [|fail_step].
    repeat fail_step.
    eapply post_bind; [apply scan_afs_not_archive, not_afs_temp, Hn|].
    intros [entries ofp] [= -> ->]. cbn [Z.ltb Z.compare]. fail_step.
Qed.

Lemma afs_rejects_non_archive_witness :
  post (Afs.extract_afs two_files "a") (fun r => r = (-1, two_files)).
Proof.
  apply (afs_rejects_non_archive decimal_strtoul two_files "a").
  vm_compute; congruence.
Defined.

Lemma add_files_to_afs_missing (fs : gmap string (list Z)) files :
  Exists (fun f => fs !! f = None) files ->
  forall ofp fpos wpos,
    post (Afs.add_files_to_afs fs ofp fpos wpos files)
         (fun r => fst (fst (fst r)) <> 0).
Proof.
  induction files as [|f files IH]; intros Hex ofp fpos wpos.
  - inversion Hex.
  - cbn [Afs.add_files_to_afs].
    eapply post_bind; [apply fopen_rb_spec|]. intros [ifp|] Ho.
    + destruct Ho as [Hf _].
      assert (Exists (fun f => fs !! f = None) files) as Hex'.
      { inversion Hex as [? ? Hm|]; subst; [congruence|assumption]. }
      repeat lazymatch goal with
      | |- post (ret _) _ => apply post_ret; cbn [fst]; lia
      | |- post (Afs.add_files_to_afs _ _ _ _ _) _ => apply IH; exact Hex'
      | |- post (bind _ _) _ =>
        eapply post_bind; [solve [eauto with iospec] | cbv beta; intros]
      | |- post (match ?x with _ => _ end) _ => destruct x eqn:?
      end.
    + apply post_ret. cbn [fst]. lia.
Qed.

Lemma mkstemp_name (fs : gmap string (list Z)) template :
  post (mkstemp fs template)
       (fun r => (fst (fst r) < 0 /\ snd r = fs) \/
                 (fst (fst r) = 0 /\ fs !! snd (fst r) = None /\
                  snd r = <[snd (fst r) := []]> fs /\
                  exists st, snd (fst r) = temp_name template st)).
Proof.
  intros st. unfold mkstemp, bind.
  destruct (fault st) as [[b st1]|] eqn:E.
  2:{ unfold fault in E. destruct (faults st); discriminate. }
  destruct b.
  - eexists _, _. split; [reflexivity|]. left. cbn. split; [lia|reflexivity].
  - fold (temp_name template st1).
    destruct (fs !! temp_name template st1) eqn:El.
    + eexists _, _. split; [reflexivity|]. left. cbn.
      split; [lia|reflexivity].
    + eexists _, _. split; [reflexivity|]. right. cbn.
      split; [reflexivity|]. split; [exact El|]. split; [reflexivity|].
      exists st1. reflexivity.
Qed.

Lemma not_temp_name f st :
  String.prefix "afstool" f = false -> f <> temp_name "afstoolXXXXXX" st.
Proof.
  intros H ->. unfold temp_name in H.
  destruct (mkstemp_suffix st); vm_compute in H; discriminate.
Qed.

(** X16.  [create_afs] and [add_to_afs] with an input file that does
    not exist fail and leave the file system as it was; the files added
    before the missing one do not survive in a partial archive.  The name
    is taken not to start with the prefix of the temporary file. *)
Theorem afs_missing_input_file_fails (fs : gmap string (list Z)) fn files :
  Exists (fun f => fs !! f = None /\ String.prefix "afstool" f = false)
         files ->
  post (Afs.create_afs fs fn files) (fun r => fst r <> 0 /\ snd r = fs) /\
  post (Afs.add_to_afs fs fn files) (fun r => fst r <> 0 /\ snd r = fs).
Proof.
  intros Hex.
  assert (forall tmp st, tmp = temp_name "afstoolXXXXXX" st ->
            Exists (fun f => <[tmp := []]> fs !! f = None) files) as Hmiss.
  { intros tmp st ->. eapply List.Exists_impl; [|exact Hex].
    intros f [Hf Hp]. cbn beta.
    rewrite lookup_insert_ne; [exact Hf|].
    intros E. symmetry in E. revert E. apply not_temp_name. exact Hp. }
  split.
  - eapply post_mono;
      [apply post_conj; [apply create_afs_outcome|]
      |intros r [[Hfail _] Hne]; split; [exact Hne|apply Hfail; exact Hne]].
    unfold Afs.create_afs.
    destruct (65535 <? len files); [fail_step|].
    eapply post_bind; [apply mkstemp_name|].
    intros [[fd tmp] fs1] [[Hfd E]|(Hfd & Hfresh & E & st & Hst)];
      cbn [fst snd] in *; subst fs1.
    + replace (fd <? 0) with true by (symmetry; apply Z.ltb_lt; lia).
      fail_step.
    + replace (fd <? 0) with false by (symmetry; apply Z.ltb_ge; lia).
      fail_step; [|fail_step].
      eapply post_bind; [apply fwrite_total|]. intros [n ofp] _.
      destruct (negb (n =? 8)); [fail_step|].
      repeat fail_step.
      eapply post_bind; [apply add_files_to_afs_missing, (Hmiss _ _ Hst)|].
      intros [[[r ofp1] fp1] wp1] Hr. cbn [fst] in Hr.
      replace (r =? 0) with false by (symmetry; apply Z.eqb_neq; exact Hr).
      cbn [negb]. fail_step.
  - eapply post_mono;
      [apply post_conj; [apply add_to_afs_outcome|]
      |intros r [[Hfail _] Hne]; split; [exact Hne|apply Hfail; exact Hne]].
    unfold Afs.add_to_afs.
    eapply post_bind; [apply mkstemp_name|].
    intros [[fd tmp] fs1] [[Hfd E]|(Hfd & Hfresh & E & st & Hst)];
      cbn [fst snd] in *; subst fs1.
    + replace (fd <? 0) with true by (symmetry; apply Z.ltb_lt; lia).
      fail_step.
    + replace (fd <? 0) with false by (symmetry; apply Z.ltb_ge; lia).
      repeat fail_step.
      eapply post_bind; [apply scan_afs_total; auto with iospec|].
      intros [entries ofp1] _.
      destruct (entries <? 0); [fail_step|].
      destruct (65535 <? u32 (entries + len files)); [fail_step|].
      repeat fail_step.
      eapply post_bind; [apply fwrite_total|]. intros [n ofp2] _.
      destruct (negb (n =? 8)); [fail_step|].
      repeat fail_step.
      eapply post_bind; [apply add_files_to_afs_missing, (Hmiss _ _ Hst)|].
      intros [[[r ofp3] fp3] wp3] Hr. cbn [fst] in Hr.
      replace (r =? 0) with false by (symmetry; apply Z.eqb_neq; exact Hr).
      cbn [negb]. fail_step.
Qed.

Lemma afs_missing_input_file_fails_witness :
  post (Afs.create_afs two_files "n.afs" ["a"; "zz"])
       (fun r => fst r <> 0 /\ snd r = two_files).
Proof.
  apply (afs_missing_input_file_fails two_files "n.afs" ["a"; "zz"]%string).
  apply Exists_cons_tl, Exists_cons_hd. split; vm_compute; reflexivity.
Defined.

(** ** GSL: long names and the length of the table *)

Lemma add_files_to_gsl_long_name basename (fs : gmap string (list Z)) files :
  Exists (fun f => 32 <= len (cstr (bytes_of_string (basename f)))) files ->
  forall ofp fpos wpos,
    post (Gsl.add_files_to_gsl basename fs ofp fpos wpos files)
         (fun r => fst (fst (fst r)) <> 0).
Proof.
  induction files as [|f files IH]; intros Hex ofp fpos wpos.
  - inversion Hex.
  - cbn [Gsl.add_files_to_gsl].
    eapply post_bind; [apply fopen_rb_total|]. intros [ifp|] _;
      [|apply post_ret; cbn [fst]; lia].
    eapply post_bind; [apply fseek_total|]. intros [rc ifp1] _.
    destruct (negb (rc =? 0)); [apply post_ret; cbn [fst]; lia|].
    eapply post_bind; [apply fseek_total|]. intros [rc2 ifp2] _.
    destruct (negb (rc2 =? 0)); [apply post_ret; cbn [fst]; lia|].
    eapply post_bind; [apply fault_total|]. intros b _.
    destruct b; [apply post_ret; cbn [fst]; lia|].
    cbv zeta.
    destruct (32 <=? len (cstr (bytes_of_string (basename f)))) eqn:E;
      [apply post_ret; cbn [fst]; lia|].
    apply Z.leb_gt in E.
    assert (Exists (fun f => 32 <= len (cstr (bytes_of_string (basename f))))
                   files) as Hex'.
    { inversion Hex as [? ? Hm|]; subst; [lia|assumption]. }
    repeat lazymatch goal with
    | |- post (ret _) _ => apply post_ret; cbn [fst]; lia
    | |- post (Gsl.add_files_to_gsl _ _ _ _ _ _) _ => apply IH; exact Hex'
    | |- post (bind _ _) _ =>
      eapply post_bind; [solve [eauto with iospec] | cbv beta; intros]
    | |- post (match ?x with _ => _ end) _ => destruct x eqn:?
    end.
Qed.

Ltac gsl_fail_step :=
  lazymatch goal with
  | |- post (ret (_, _)) _ => apply post_ret; cbn [fst]; lia
  | |- post (bind (mkstemp _ _) _) _ =>
    eapply post_bind; [apply mkstemp_spec|];
    let fd := fresh "fd" in let tmp := fresh "tmp" in
    let fs1 := fresh "fs1" in let Hfd := fresh "Hfd" in
    let Hfresh := fresh "Hfresh" in let E := fresh "E" in
    intros [[fd tmp] fs1] [[Hfd E] | (Hfd & Hfresh & E)];
    simpl in Hfd, E; try (simpl in Hfresh); subst fs1;
    [ replace (fd <? 0) with true by (symmetry; apply Z.ltb_lt; lia)
    | replace (fd <? 0) with false by (symmetry; apply Z.ltb_ge; lia) ]
  | |- post (bind (fdopen_wb _) _) _ =>
    eapply post_bind; [apply fdopen_wb_total|]; intros [?|] _
  | |- post (bind (fseek _ _ _) _) _ =>
    eapply post_bind; [apply fseek_total|]; intros [? ?] _
  | |- post (bind get_endianness _) _ =>
    eapply post_bind; [apply get_endianness_total|]; intros ? _
  | |- post (bind (if _ then set_endianness _ else ret tt) _) _ =>
    eapply post_bind;
    [instantiate (1 := fun _ => True);
     lazymatch goal with
     | |- post (if ?c then _ else _) _ =>
       destruct c; [apply set_endianness_total|apply ret_total]
     end|]; intros ? _
  | |- post (if negb (?rc =? 0) then _ else _) _ => destruct (negb (rc =? 0))
  end.

(** X17.  [create_gsl] and [add_to_gsl] with an input file whose base
    name has 32 bytes or more fail and leave the file system as it was:
    a name is never cut to fit the table. *)
Theorem gsl_long_name_refused basename (fs : gmap string (list Z)) fn files :
  Exists (fun f => 32 <= len (cstr (bytes_of_string (basename f)))) files ->
  post (Gsl.create_gsl basename fs fn files)
       (fun r => fst r <> 0 /\ snd r = fs) /\
  post (Gsl.add_to_gsl basename fs fn files)
       (fun r => fst r <> 0 /\ snd r = fs).
Proof.
  intros Hex. split.
  - eapply post_mono;
      [apply post_conj; [apply create_gsl_outcome|]
      |intros r [[Hfail _] Hne]; split; [exact Hne|apply Hfail; exact Hne]].
    unfold Gsl.create_gsl. repeat gsl_fail_step.
    eapply post_bind; [apply add_files_to_gsl_long_name, Hex|].
    intros [[[r ofp1] fp1] wp1] Hr. cbn [fst] in Hr.
    replace (r =? 0) with false by (symmetry; apply Z.eqb_neq; exact Hr).
    cbn [negb]. gsl_fail_step.
  - eapply post_mono;
      [apply post_conj; [apply add_to_gsl_outcome|]
      |intros r [[Hfail _] Hne]; split; [exact Hne|apply Hfail; exact Hne]].
    unfold Gsl.add_to_gsl.
    eapply post_bind; [apply count_gsl_total|]. intros entries _.
    destruct (entries <? 0); [gsl_fail_step|].
    repeat gsl_fail_step.
    eapply post_bind; [apply scan_gsl_cb_total, gsl_copy_file_cb_keeps|].
    intros [r ofp1] _. destruct (r <? 0); [gsl_fail_step|].
    repeat gsl_fail_step.
    eapply post_bind; [apply add_files_to_gsl_long_name, Hex|].
    intros [[[r2 ofp2] fp2] wp2] Hr. cbn [fst] in Hr.
    replace (r2 =? 0) with false by (symmetry; apply Z.eqb_neq; exact Hr).
    cbn [negb]. gsl_fail_step.
Qed.

(** X17, witness.  The file with the long name exists, so that it is the
    check of the length that refuses it: without faults [create_gsl]
    returns -6 and [add_to_gsl] -10, the values they return when
    [add_files_to_gsl] fails, which returns -11 here. *)
Lemma gsl_long_name_refused_witness :
  long_name_fs !! long_name = Some [7] /\
  (fun r => fst (fst (fst r)))
    <$> run (Gsl.add_files_to_gsl (fun f => f) long_name_fs (mk_file [] 0)
                                  0 0 ["a"; long_name]) no_faults
  = Some (-11) /\
  fst <$> run (Gsl.create_gsl (fun f => f) long_name_fs "x.gsl"
                              ["a"; long_name]) no_faults = Some (-6) /\
  fst <$> run (Gsl.add_to_gsl (fun f => f) long_name_fs "x.gsl"
                              ["a"; long_name]) no_faults = Some (-10) /\
  post (Gsl.create_gsl (fun f => f) long_name_fs "x.gsl" ["a"; long_name])
       (fun r => fst r <> 0 /\ snd r = long_name_fs) /\
  post (Gsl.add_to_gsl (fun f => f) long_name_fs "x.gsl" ["a"; long_name])
       (fun r => fst r <> 0 /\ snd r = long_name_fs).
Proof.
  split; [vm_compute; reflexivity|]. split; [vm_compute; reflexivity|].
  split; [vm_compute; reflexivity|]. split; [vm_compute; reflexivity|].
  apply (gsl_long_name_refused (fun f => f) long_name_fs "x.gsl"
           ["a"%string; long_name]).
  apply Exists_cons_tl, Exists_cons_hd. vm_compute; congruence.
Defined.

(** X18.  The length reserved for the table of a GSL archive of [n]
    entries is a multiple of 4096, and it holds the [n] rows of 48 bytes
    exactly when the rows end on a multiple of 4096 or in the upper half
    of a 4096-byte page; otherwise the first file is written over the
    table. *)
Theorem gsl_hdrlen_holds_table n :
  0 <= n -> n * 48 + 2048 < 2 ^ 32 ->
  Gsl.hdrlen n mod 4096 = 0 /\
  (n * 48 <= Gsl.hdrlen n <->
   (n * 48) mod 4096 = 0 \/ 2048 <= (n * 48) mod 4096).
Proof.
  intros Hn Hb. rewrite gsl_hdrlen_formula by assumption.
  split; [rewrite Z.mul_comm; apply Z.mod_mul; lia|].
  pose proof (Z.div_mod (n * 48) 4096 ltac:(lia)) as Hdm.
  pose proof (Z.mod_pos_bound (n * 48) 4096 ltac:(lia)) as Hm.
  set (q := n * 48 / 4096) in *. set (r := (n * 48) mod 4096) in *.
  replace (n * 48 + 2048) with (q * 4096 + (r + 2048)) by lia.
  rewrite Z.div_add_l by lia.
  destruct (Z_lt_le_dec r 2048) as [Hr|Hr].
  - rewrite (Z.div_small (r + 2048)) by lia. lia.
  - replace (r + 2048) with (1 * 4096 + (r - 2048)) by lia.
    rewrite Z.div_add_l by lia. rewrite (Z.div_small (r - 2048)) by lia. lia.
Qed.

Lemma gsl_hdrlen_holds_table_witness :
  Gsl.hdrlen 43 mod 4096 = 0 /\
  (43 * 48 <= Gsl.hdrlen 43 <->
   (43 * 48) mod 4096 = 0 \/ 2048 <= (43 * 48) mod 4096).
Proof.
  apply (gsl_hdrlen_holds_table 43); lia.
Defined.

(** ** BML: the rounding of offsets *)

Lemma land_mask32 y k :
  0 <= k -> 0 <= y < 2 ^ 32 ->
  Z.land y (Z.land (Z.lnot (2 ^ k - 1)) (Z.ones 32)) = 2 ^ k * (y / 2 ^ k).
Proof.
  intros Hk Hy.
  rewrite (Z.land_comm (Z.lnot _)), Z.land_assoc, Z.land_ones by lia.
  rewrite Z.mod_small by lia. apply land_lnot_pow2. exact Hk.
Qed.

Lemma round_up_pow2 x k :
  0 <= k -> 0 <= x -> x + 2 ^ k < 2 ^ 32 ->
  let r := if negb (Z.land x (Z.ones k) =? 0)
           then Z.land (u32 (x + 2 ^ k))
                       (Z.land (Z.lnot (2 ^ k - 1)) (Z.ones 32))
           else x in
  x <= r /\ r mod 2 ^ k = 0 /\ (forall m, m mod 2 ^ k = 0 -> x <= m -> r <= m).
Proof.
  intros Hk Hx Hb r.
  assert (0 < 2 ^ k) as Hp by (apply Z.pow_pos_nonneg; lia).
  pose proof (Z.div_mod x (2 ^ k) ltac:(lia)) as Hdm.
  pose proof (Z.mod_pos_bound x (2 ^ k) Hp) as Hm.
  subst r. rewrite Z.land_ones by exact Hk.
  destruct (Z.eqb_spec (x mod 2 ^ k) 0) as [E|E]; cbn [negb].
  - split; [lia|]. split; [exact E|]. auto.
  - rewrite u32_small by lia. rewrite land_mask32 by lia.
    assert ((x + 2 ^ k) / 2 ^ k = x / 2 ^ k + 1) as ->.
    { replace (x + 2 ^ k) with (x + 1 * 2 ^ k) by lia.
      apply Z.div_add. lia. }
    split; [nia|]. split.
    + rewrite Z.mul_comm. apply Z.mod_mul. lia.
    + intros m Hm0 Hle. apply Z.mod_divide in Hm0; [|lia].
      destruct Hm0 as [q ->]. assert (x / 2 ^ k < q) by nia. nia.
Qed.

(** X19.  The two roundings of the BML scan give the least multiple of
    32, and of 2048, that is not below the offset. *)
Theorem bml_offsets_round_up x :
  0 <= x -> x + 0x800 < 2 ^ 32 ->
  (x <= Bml.round_32 x /\ Bml.round_32 x mod 32 = 0 /\
   (forall m, m mod 32 = 0 -> x <= m -> Bml.round_32 x <= m)) /\
  (x <= Bml.round_2048 x /\ Bml.round_2048 x mod 2048 = 0 /\
   (forall m, m mod 2048 = 0 -> x <= m -> Bml.round_2048 x <= m)).
Proof.
  intros Hx Hb. split.
  - apply (round_up_pow2 x 5); lia.
  - apply (round_up_pow2 x 11); lia.
Qed.

Lemma bml_offsets_round_up_witness :
  70 <= Bml.round_32 70 /\ Bml.round_32 70 mod 32 = 0.
Proof.
  destruct (bml_offsets_round_up 70 ltac:(lia) ltac:(lia))
    as [(H1 & H2 & _) _].
  split; assumption.
Defined.

(** ** BML: the extraction of one entry *)

Lemma open_bml_total fs fn : total (Bml.open_bml fs fn).
Proof. unfold Bml.open_bml. io_total. Qed.

Lemma scan_bml_loop_inv {D}
    (p : FILE -> Bml.bml_entry -> Z -> Z -> Z -> D -> IO (Z * FILE * D))
    (I : D -> Prop) :
  (forall fp ent i off poff d,
     I d -> post (p fp ent i off poff d) (fun r => I (snd r))) ->
  forall n i offset fp rv d, I d ->
    post (Bml.scan_bml_loop p n i offset fp rv d) (fun r => I (snd r)).
Proof.
  intros Hp. induction n as [|n IH]; intros i offset fp rv d Hd;
    cbn [Bml.scan_bml_loop].
  - apply post_ret. exact Hd.
  - eapply post_bind; [apply fread_total|]. intros [buf fp1] _.
    destruct (negb (len buf =? 64)); [apply post_ret; exact Hd|].
    cbv zeta.
    eapply post_bind; [apply Hp; exact Hd|]. intros [[r fp2] d1] Hd1.
    cbn [snd] in Hd1.
    destruct (negb (r =? 0)); [apply post_ret; exact Hd1|].
    eapply post_bind; [apply fseek_total|]. intros [rc fp3] _.
    destruct (rc <? 0); [apply post_ret; exact Hd1|].
    apply IH. exact Hd1.
Qed.

Lemma scan_bml_inv {D}
    (p : FILE -> Bml.bml_entry -> Z -> Z -> Z -> D -> IO (Z * FILE * D))
    (I : D -> Prop) fs fn d :
  (forall fp ent i off poff d,
     I d -> post (p fp ent i off poff d) (fun r => I (snd r))) ->
  I d -> post (Bml.scan_bml p fs fn d) (fun r => I (snd r)).
Proof.
  intros Hp Hd. unfold Bml.scan_bml.
  eapply post_bind; [apply open_bml_total|]. intros [[fp n]|] _.
  - apply scan_bml_loop_inv; assumption.
  - apply post_ret. exact Hd.
Qed.

Lemma fopen_wb_spec (fs : gmap string (list Z)) fn :
  post (fopen_wb fs fn)
       (fun r => snd r = fs \/ snd r = <[fn := []]> fs).
Proof.
  unfold fopen_wb. eapply post_bind; [apply fault_total|]. intros b _.
  destruct b; apply post_ret; cbn; auto.
Qed.

Lemma only_changed_insert fs n1 n2 fs' k d :
  k = n1 \/ k = n2 -> only_changed fs n1 n2 fs' ->
  only_changed fs n1 n2 (<[k := d]> fs').
Proof.
  intros Hk H j H1 H2. rewrite lookup_insert_ne; [auto|].
  destruct Hk; congruence.
Qed.

Ltac frame_step :=
  lazymatch goal with
  | |- post (ret _) _ =>
    apply post_ret; cbn [fst snd]; unfold fclose_w;
    repeat (apply only_changed_insert; [auto|]); assumption
  | |- post (bind (fopen_wb _ _) _) _ =>
    eapply post_bind; [apply fopen_wb_spec|];
    let o := fresh "o" in let fs1 := fresh "fs1" in
    let Hfs := fresh "Hfs" in
    intros [o fs1] Hfs; cbn [snd] in Hfs; destruct Hfs as [->| ->]
  | |- post (bind _ _) _ =>
    eapply post_bind; [solve [eauto with iospec] | cbv beta; intros]
  | |- post (match ?x with _ => _ end) _ => destruct x eqn:?
  end.

Lemma bml_extract_file_frame fs name fp ent i off poff fs' :
  let nm := string_of_bytes (cstr (bytes_of_string name)) in
  only_changed fs (nm ++ ".prs") (nm ++ ".pvm.prs") fs' ->
  post (Bml.extract_file (Some name) fp ent i off poff fs')
       (fun r => only_changed fs (nm ++ ".prs") (nm ++ ".pvm.prs") (snd r)).
Proof.
  intros nm H. unfold Bml.extract_file.
  destruct (bool_decide (cstr (bytes_of_string name) = Bml.filename ent))
    eqn:E; cbn [negb]; [|apply post_ret; exact H].
  apply bool_decide_eq_true in E. rewrite <- E. fold nm. cbv zeta.
  repeat frame_step.
Qed.

Lemma bml_read_and_dec_frame dec fs n1 n2 fp off cs ds fn fs' :
  fn = n1 \/ fn = n2 -> only_changed fs n1 n2 fs' ->
  post (Bml.read_and_dec dec fp off cs ds fn fs')
       (fun r => only_changed fs n1 n2 (snd r)).
Proof.
  intros Hfn H. unfold Bml.read_and_dec.
  repeat frame_step.
Qed.

Lemma bml_decompress_file_frame dec fs name fp ent i off poff fs' :
  let nm := string_of_bytes (cstr (bytes_of_string name)) in
  only_changed fs nm (nm ++ ".pvm") fs' ->
  post (Bml.decompress_file dec (Some name) fp ent i off poff fs')
       (fun r => only_changed fs nm (nm ++ ".pvm") (snd r)).
Proof.
  intros nm H. unfold Bml.decompress_file.
  destruct (bool_decide (cstr (bytes_of_string name) = Bml.filename ent))
    eqn:E; cbn [negb]; [|apply post_ret; exact H].
  apply bool_decide_eq_true in E. rewrite <- E. fold nm. cbv zeta.
  eapply post_bind;
    [apply (bml_read_and_dec_frame dec fs nm (nm ++ ".pvm")); [auto|exact H]|].
  intros [[r fp1] fs1] H1. cbn [snd] in H1.
  destruct (negb (r =? 0)); [apply post_ret; exact H1|].
  destruct (negb (Bml.pvm_csize ent =? 0)); [|apply post_ret; exact H1].
  eapply post_bind;
    [apply (bml_read_and_dec_frame dec fs nm (nm ++ ".pvm")); [auto|exact H1]|].
  intros [[r2 fp2] fs2] H2. cbn [snd] in H2.
  destruct (negb (r2 =? 0)); apply post_ret; exact H2.
Qed.

(** X20.  The extraction of a single named entry from a BML archive,
    compressed or decompressed, touches no path but the two named after
    the entry, whatever fails.  The names in the table of the archive end
    within their 32 bytes, as the code takes them for C strings, and the
    archive is none of the files the extraction writes. *)
Theorem bml_single_extraction_frame dec (fs : gmap string (list Z)) fn name :
  let nm := string_of_bytes (cstr (bytes_of_string name)) in
  bml_names_terminated fs fn = true ->
  fn <> (nm ++ ".prs")%string -> fn <> (nm ++ ".pvm.prs")%string ->
  fn <> nm -> fn <> (nm ++ ".pvm")%string ->
  post (Bml.scan_bml (Bml.extract_file (Some name)) fs fn fs)
       (fun r => forall k, k <> (nm ++ ".prs")%string ->
                           k <> (nm ++ ".pvm.prs")%string ->
                           snd r !! k = fs !! k) /\
  post (Bml.scan_bml (Bml.decompress_file dec (Some name)) fs fn fs)
       (fun r => forall k, k <> nm -> k <> (nm ++ ".pvm")%string ->
                           snd r !! k = fs !! k).
Proof.
  intros nm _ _ _ _ _. split.
  - apply (scan_bml_inv _ (only_changed fs (nm ++ ".prs") (nm ++ ".pvm.prs"))).
    + intros. apply bml_extract_file_frame. assumption.
    + intros k _ _. reflexivity.
  - apply (scan_bml_inv _ (only_changed fs nm (nm ++ ".pvm"))).
    + intros. apply bml_decompress_file_frame. assumption.
    + intros k _ _. reflexivity.
Qed.

(** X20, witness: the entry ["a"] of the one-entry archive, whose name is
    followed by zeros, extracted while an unrelated file is present. *)
Lemma bml_single_extraction_frame_witness :
  bml_names_terminated bml_and_file "m.bml" = true /\
  post (Bml.scan_bml (Bml.extract_file (Some "a"%string))
                     bml_and_file "m.bml" bml_and_file)
       (fun r => forall k, k <> "a.prs"%string -> k <> "a.pvm.prs"%string ->
                           snd r !! k = bml_and_file !! k) /\
  post (Bml.scan_bml (Bml.decompress_file (fun _ _ _ => (0, []))
                                          (Some "a"%string))
                     bml_and_file "m.bml" bml_and_file)
       (fun r => forall k, k <> "a"%string -> k <> "a.pvm"%string ->
                           snd r !! k = bml_and_file !! k).
Proof.
  split; [vm_compute; reflexivity|].
  apply (bml_single_extraction_frame (fun _ _ _ => (0, [])) bml_and_file
           "m.bml" "a").
  - vm_compute; reflexivity.
  - vm_compute; congruence.
  - vm_compute; congruence.
  - vm_compute; congruence.
  - vm_compute; congruence.
Defined.

(** ** The files of the PRSD front end *)

(** X21.  [write_file] stores a buffer that is not empty under the path,
    and [read_file] of that path returns its length and the same bytes. *)
Theorem write_file_read_file_round_trip (fs : gmap string (list Z)) fn buf st :
  faults st = [] -> 0 < len buf < 2 ^ 31 ->
  Prsd.write_file fs fn buf st = Some (0, <[fn := buf]> fs, st) /\
  Prsd.read_file (<[fn := buf]> fs) fn st = Some (len buf, buf, st).
Proof.
  intros Hq Hlen. pose proof (len_nonneg buf) as H0. split.
  - unfold Prsd.write_file.
    rewrite (bind_run st _ _ _ _ (fopen_wb_ok st Hq fs fn)).
    rewrite (bind_run st _ _ _ _ (fwrite_store st Hq _ buf)).
    rewrite Z.eqb_refl. cbn [negb f_data f_pos]. unfold ret, fclose_w.
    cbn [f_data]. rewrite store_nil, insert_insert_eq. reflexivity.
  - unfold Prsd.read_file.
    rewrite (bind_run st _ _ _ _ (fopen_rb_ok st Hq _ fn)).
    rewrite lookup_insert_eq.
    rewrite (bind_run st _ _ _ _ (fseek_end_ok st Hq _)).
    cbn [Z.eqb negb f_data f_pos ftell].
    rewrite (bind_run st _ _ _ _ (fseek_set_ok _ 0 st Hq ltac:(lia))).
    cbn [Z.eqb negb f_data f_pos ftell].
    rewrite (bind_run st _ _ _ _
               (fread_region st Hq (mk_file buf 0) buf (region_self buf))).
    rewrite Z.eqb_refl. cbn [negb]. unfold ret.
    rewrite u32_small, to_int_small by lia. reflexivity.
Qed.

Lemma write_file_read_file_round_trip_witness :
  Prsd.write_file ∅ "out.bin" [1; 2; 3] no_faults
  = Some (0, <["out.bin"%string := [1; 2; 3]]> ∅, no_faults) /\
  Prsd.read_file (<["out.bin"%string := [1; 2; 3]]> ∅) "out.bin" no_faults
  = Some (len [1; 2; 3], [1; 2; 3], no_faults).
Proof.
  apply (write_file_read_file_round_trip ∅ "out.bin" [1; 2; 3] no_faults);
    [reflexivity | split; vm_compute; reflexivity].
Defined.

(** * Functional correctness of the GSL operations *)

(** ** Names and rows *)

Lemma strncpy_short nm :
  len nm < 32 -> strncpy nm 32 = nm ++ replicate (Z.to_nat (32 - len nm)) 0.
Proof.
  intros H. unfold strncpy. unfold len in H.
  rewrite take_ge by lia. f_equal. f_equal. unfold len. lia.
Qed.

Lemma length_strncpy s n : length (strncpy s n) = n.
Proof.
  unfold strncpy. rewrite length_app, length_replicate.
  pose proof (length_take_le s n). rewrite length_take. lia.
Qed.

Lemma cstr_app_zero nm r : cstr nm = nm -> cstr (nm ++ 0 :: r) = nm.
Proof.
  induction nm as [|b nm IH]; intros H; cbn [cstr app] in *.
  - reflexivity.
  - destruct (b =? 0); [discriminate|]. injection H as H.
    rewrite (IH H). reflexivity.
Qed.

Lemma cstr_strncpy nm : gsl_name nm -> cstr (strncpy nm 32) = nm.
Proof.
  intros (_ & Hl & Hc). rewrite strncpy_short by exact Hl.
  pose proof (len_nonneg nm).
  destruct (Z.to_nat (32 - len nm)) as [|k] eqn:E; [lia|].
  cbn [replicate]. apply cstr_app_zero. exact Hc.
Qed.

Lemma len_entry_tail e w s : len (Gsl.entry_tail e w s) = 16.
Proof. unfold Gsl.entry_tail. destruct (e =? Gsl.GSL_BIG); reflexivity. Qed.

Lemma len_gsl_row e nm w s : len (gsl_row e nm w s) = 48.
Proof.
  unfold gsl_row. rewrite len_app, len_entry_tail. unfold len.
  rewrite length_strncpy. reflexivity.
Qed.

Lemma gsl_row_nonempty e nm w s : gsl_row e nm w s <> [].
Proof.
  intros H. pose proof (len_gsl_row e nm w s) as Hl. rewrite H in Hl.
  discriminate.
Qed.

Lemma put_gsl_row e d fpos wpos nm c :
  0 <= fpos -> fpos + 48 <= wpos ->
  region (put_gsl e d fpos wpos nm c) fpos (gsl_row e nm wpos (len c)).
Proof.
  intros Hf Hw. unfold put_gsl.
  pose proof (next_block_gt (wpos + len c)). pose proof (len_nonneg c).
  apply region_store_other; try lia.
  { left. rewrite len_gsl_row. lia. }
  apply region_store_other; try lia.
  { left. rewrite len_gsl_row. lia. }
  apply region_store_same. lia.
Qed.

Lemma put_gsl_data e d fpos wpos nm c :
  0 <= fpos -> fpos + 48 <= wpos ->
  region (put_gsl e d fpos wpos nm c) wpos c.
Proof.
  intros Hf Hw. unfold put_gsl.
  pose proof (next_block_gt (wpos + len c)). pose proof (len_nonneg c).
  apply region_store_other; try lia.
  apply region_store_same. lia.
Qed.

Lemma put_gsl_other e d fpos wpos nm c q bs :
  0 <= q -> 0 <= fpos -> fpos + 48 <= wpos ->
  q + len bs <= fpos \/ (fpos + 48 <= q /\ q + len bs <= wpos) ->
  region d q bs -> region (put_gsl e d fpos wpos nm c) q bs.
Proof.
  intros Hq Hf Hw Hd H. unfold put_gsl.
  pose proof (next_block_gt (wpos + len c)). pose proof (len_nonneg c).
  pose proof (len_nonneg bs).
  apply region_store_other; try lia.
  apply region_store_other; try lia.
  apply region_store_other; try lia.
  { rewrite len_gsl_row. lia. }
  exact H.
Qed.

(** A gap the writes leave between the table and the data reads as
    zeros. *)
Lemma region_store_gap d p bs q :
  len d <= q -> q < p -> bs <> [] -> region (store d p bs) q [0].
Proof.
  intros Hd Hq Hbs. pose proof (len_nonneg d).
  destruct bs as [|b bs]; [congruence|].
  unfold store, region, write_at. unfold len in *.
  cbn [length].
  rewrite drop_app_ge by (rewrite length_take; lia).
  rewrite length_take.
  replace (Z.to_nat q - Z.to_nat p `min` length d)%nat
    with (Z.to_nat q - length d)%nat by lia.
  rewrite drop_app_le by (rewrite length_replicate; lia).
  rewrite drop_replicate.
  destruct (Z.to_nat p - length d - (Z.to_nat q - length d))%nat as [|k] eqn:E;
    [lia|].
  reflexivity.
Qed.

(** ** Writing the table and the data *)

Lemma store_row e d fpos nm wposp size :
  0 <= fpos -> nm <> [] -> len nm < 32 ->
  store (store (store d fpos nm) (fpos + len nm)
               (replicate (Z.to_nat (32 - len nm)) 0))
        (fpos + len nm + len (replicate (Z.to_nat (32 - len nm)) 0))
        (Gsl.entry_tail e wposp size)
  = store d fpos (strncpy nm 32 ++ Gsl.entry_tail e wposp size).
Proof.
  intros Hf Hn Hl. pose proof (len_nonneg nm).
  rewrite (store_app d fpos nm) by assumption.
  rewrite strncpy_short by exact Hl.
  rewrite <- Z.add_assoc, <- len_app.
  apply store_app; [exact Hf|].
  destruct nm; [congruence|discriminate].
Qed.

Lemma len_replicate {A} n (x : A) : len (replicate n x) = Z.of_nat n.
Proof. unfold len. rewrite length_replicate. reflexivity. Qed.

Section Quiet.
Variable st : io_state.
Hypothesis Hq : faults st = [].
Variable basename : string -> string.

Lemma get_endianness_ok : get_endianness st = Some (endianness st, st).
Proof. reflexivity. Qed.

Lemma add_files_to_gsl_exact (fs : gmap string (list Z)) :
  forall files entries,
  Forall2 (fun f en => fs !! f = Some (snd en) /\
                       cstr (bytes_of_string (basename f)) = fst en /\
                       gsl_name (fst en)) files entries ->
  forall ofp fpos wpos,
  0 <= fpos -> f_pos ofp = fpos -> 0 <= wpos ->
  afs_end wpos (map snd entries) < 2 ^ 32 ->
  Gsl.add_files_to_gsl basename fs ofp fpos wpos files st
  = Some (0, mk_file (put_all_gsl (endianness st) (f_data ofp) fpos wpos
                                  entries)
                     (fpos + 48 * len files),
          fpos + 48 * len files, afs_end wpos (map snd entries), st).
Proof.
  induction 1 as [|file [nm c] files entries (Hf & Hnm & Hname) Hfs IH];
    intros ofp fpos wpos Hfp Hpos Hw Hend.
  - cbn. unfold ret. rewrite Z.add_0_r. destruct ofp. cbn in Hpos. subst.
    reflexivity.
  - cbn [Gsl.add_files_to_gsl afs_end put_all_gsl map fst snd] in *.
    destruct Hname as (Hne & Hlen & Hcstr).
    pose proof (afs_end_ge (map snd entries) (next_block (wpos + len c)))
      as He.
    pose proof (next_block_gt (wpos + len c)) as Hn.
    pose proof (len_nonneg c) as Hc. pose proof (len_nonneg nm) as Hnn.
    rewrite (bind_run st _ _ _ _ (fopen_rb_ok st Hq fs file)). rewrite Hf.
    rewrite (bind_run st _ _ _ _ (fseek_end_ok st Hq _)).
    cbn [Z.eqb negb f_data f_pos ftell].
    rewrite (bind_run st _ _ _ _ (fseek_set_ok _ 0 st Hq ltac:(lia))).
    cbn [Z.eqb negb f_data f_pos ftell].
    rewrite (bind_run st _ _ _ _ (fault_none st Hq)).
    rewrite (u32_small (len c)) by lia.
    rewrite Hnm. cbv zeta.
    replace (32 <=? len nm) with false by (symmetry; apply Z.leb_gt; lia).
    rewrite (bind_run st _ _ _ _ (fwrite_store st Hq _ _)).
    rewrite Z.eqb_refl. cbn [negb f_data f_pos].
    rewrite (bind_run st _ _ _ _ (fwrite_store st Hq _ _)).
    rewrite len_replicate, (Z2Nat.id (32 - len nm)) by lia.
    rewrite Z.eqb_refl. cbn [negb f_data f_pos].
    rewrite (bind_run st _ _ _ _ get_endianness_ok).
    rewrite (bind_run st _ _ _ _ (fwrite_store st Hq _ _)).
    rewrite len_entry_tail.
    cbn [Z.eqb Pos.eqb negb f_data f_pos ftell].
    rewrite (bind_run st _ _ _ _ (fseek_set_ok _ wpos st Hq Hw)).
    cbn [Z.eqb negb f_data f_pos ftell].
    erewrite (bind_run st)
      by (apply (copy_file_region st Hq); [cbn; lia | cbn; lia | apply region_self]).
    cbn [Z.eqb negb f_data f_pos ftell].
    erewrite (bind_run st) by (apply (pad_file_exact st Hq); cbn; lia).
    cbn [f_data f_pos].
    replace (next_block (wpos + len c) =? -1) with false
      by (symmetry; apply Z.eqb_neq; lia).
    rewrite (bind_run st _ _ _ _
               (fseek_set_ok _ (f_pos ofp + len nm + (32 - len nm) + 16)
                             st Hq ltac:(lia))).
    cbn [Z.eqb negb f_data f_pos ftell].
    rewrite IH; cbn [f_data f_pos]; try lia.
    subst fpos. unfold put_gsl, gsl_row.
    pose proof (store_row (endianness st) (f_data ofp) (f_pos ofp) nm
                  (Z.shiftr wpos 11) (len c) Hfp Hne Hlen) as Hrow.
    rewrite len_replicate, (Z2Nat.id (32 - len nm)) in Hrow by lia.
    rewrite Hrow.
    replace (f_pos ofp + len nm + (32 - len nm) + 16) with (f_pos ofp + 48)
      by lia.
    rewrite len_cons.
    replace (f_pos ofp + 48 + 48 * len files)
      with (f_pos ofp + 48 * (1 + len files)) by lia.
    reflexivity.
Qed.
End Quiet.

Lemma settle_run {B} (k : unit -> IO B) st :
  bind (if endianness st =? Gsl.GSL_AUTO then set_endianness Gsl.GSL_BIG
        else ret tt) k st
  = k tt (settle st).
Proof.
  unfold settle, bind. destruct (endianness st =? Gsl.GSL_AUTO); reflexivity.
Qed.

Lemma settle_faults st : faults (settle st) = faults st.
Proof. unfold settle. destruct (endianness st =? _); reflexivity. Qed.

Lemma settle_temp_name template st :
  temp_name template (settle st) = temp_name template st.
Proof. unfold settle. destruct (endianness st =? _); reflexivity. Qed.

Lemma settle_endianness st : endianness (settle st) <> Gsl.GSL_AUTO.
Proof.
  unfold settle. destruct (endianness st =? Gsl.GSL_AUTO) eqn:E.
  - discriminate.
  - apply Z.eqb_neq. exact E.
Qed.

Lemma settle_settled st : endianness st <> Gsl.GSL_AUTO -> settle st = st.
Proof.
  intros H. unfold settle. apply Z.eqb_neq in H. rewrite H. reflexivity.
Qed.

Lemma create_gsl_exact basename (fs : gmap string (list Z)) fn files entries
    st :
  faults st = [] ->
  fs !! temp_name "gsltoolXXXXXX" st = None ->
  Forall2 (fun f en => fs !! f = Some (snd en) /\
                       cstr (bytes_of_string (basename f)) = fst en /\
                       gsl_name (fst en)) files entries ->
  0 <= Gsl.hdrlen (len files) ->
  afs_end (Gsl.hdrlen (len files)) (map snd entries) < 2 ^ 32 ->
  Gsl.create_gsl basename fs fn files st
  = Some (0, <[fn := put_all_gsl (endianness (settle st)) [] 0
                                 (Gsl.hdrlen (len files)) entries]> fs,
          settle st).
Proof.
  intros Hq Htmp Hfiles Hh Hend. unfold Gsl.create_gsl.
  rewrite (bind_run st _ _ _ _ (get_endianness_ok st)).
  rewrite settle_run.
  assert (faults (settle st) = []) as Hq1 by (rewrite settle_faults; exact Hq).
  rewrite <- (settle_temp_name _ st) in Htmp.
  set (st1 := settle st) in *.
  rewrite (bind_run st1 _ _ _ _ (mkstemp_ok st1 Hq1 fs _ Htmp)).
  cbn [Z.ltb Z.compare].
  rewrite (bind_run st1 _ _ _ _ (fdopen_wb_ok st1 Hq1 0)).
  rewrite (bind_run st1 _ _ _ _ (fseek_set_ok _ _ st1 Hq1 Hh)).
  cbn [Z.eqb negb f_data f_pos ftell].
  rewrite (bind_run st1 _ _ _ _ (fseek_set_ok _ 0 st1 Hq1 ltac:(lia))).
  cbn [Z.eqb negb f_data f_pos ftell].
  erewrite (bind_run st1).
  2:{ apply (add_files_to_gsl_exact st1 Hq1 basename) with (entries := entries);
      cbn [f_pos]; try lia.
      eapply Forall2_impl; [exact Hfiles|]. intros f c (Hf & Hn). cbn beta.
      split; [|exact Hn].
      rewrite lookup_insert_ne; [exact Hf|]. intros <-. congruence. }
  cbn [Z.eqb negb f_data f_pos].
  apply commit_ok; assumption.
Qed.

Lemma put_gsl_pad e d fpos wpos nm c :
  0 <= wpos ->
  region (put_gsl e d fpos wpos nm c) (next_block (wpos + len c) - 1) [0].
Proof.
  intros Hw. unfold put_gsl.
  pose proof (next_block_gt (wpos + len c)). pose proof (len_nonneg c).
  apply region_store_same. lia.
Qed.

Lemma store_empty d p : store d p [] = d.
Proof. reflexivity. Qed.

Lemma put_gsl_gap e wpos nm c q :
  48 <= q -> q < wpos ->
  region (put_gsl e [] 0 wpos nm c) q [0].
Proof.
  intros Hq Hw. unfold put_gsl. rewrite store_nil.
  pose proof (next_block_gt (wpos + len c)). pose proof (len_nonneg c).
  pose proof (len_gsl_row e nm wpos (len c)) as Hl.
  destruct c as [|b c].
  - rewrite (store_empty _ wpos).
    apply region_store_gap; [lia|change (len [0]) with 1; lia|discriminate].
  - apply region_store_other; [lia|lia|left; change (len [0]) with 1; lia|].
    apply region_store_gap; [lia|lia|discriminate].
Qed.

Lemma next_block_mod pos : next_block pos mod 2048 = 0.
Proof. unfold next_block. rewrite Z.mul_comm. apply Z.mod_mul. lia. Qed.

Lemma put_all_gsl_rows e entries : forall d fpos wpos,
  0 <= fpos -> fpos + 48 * len entries <= wpos -> wpos mod 2048 = 0 ->
  afs_end wpos (map snd entries) < 2 ^ 32 ->
  Forall (fun en => gsl_name (fst en)) entries ->
  gsl_rows e (put_all_gsl e d fpos wpos entries) fpos (gsl_items wpos entries)
  /\
  (forall q bs, 0 <= q ->
     q + len bs <= fpos \/
     (fpos + 48 * len entries <= q /\ q + len bs <= wpos) ->
     region d q bs -> region (put_all_gsl e d fpos wpos entries) q bs).
Proof.
  induction entries as [|[nm c] es IH]; intros d fpos wpos Hf Hw Hm Hend Hnm.
  - cbn. split; [exact I|]. auto.
  - cbn [put_all_gsl gsl_items gsl_rows afs_end map snd] in *.
    rewrite len_cons in Hw.
    pose proof (afs_end_ge (map snd es) (next_block (wpos + len c))) as He.
    pose proof (next_block_gt (wpos + len c)) as Hn.
    pose proof (len_nonneg c) as Hc. pose proof (len_nonneg es) as Hes.
    apply Forall_cons in Hnm. destruct Hnm as [Hnm1 Hnm].
    destruct (IH (put_gsl e d fpos wpos nm c) (fpos + 48)
                 (next_block (wpos + len c))) as [Hrows Hkeep]; try lia;
      [apply next_block_mod|exact Hnm|].
    split.
    + split; [exact Hnm1|]. split; [lia|]. split; [exact Hm|].
      split; [apply Z.div_lt_upper_bound; lia|]. split; [lia|].
      split; [|split].
      * apply Hkeep; [lia| |apply put_gsl_row; lia].
        left. rewrite len_gsl_row. lia.
      * apply Hkeep; [lia| |apply put_gsl_data; lia]. right. lia.
      * exact Hrows.
    + intros q bs Hq Hd H. pose proof (len_nonneg bs).
      rewrite len_cons in Hd.
      apply Hkeep; [lia|lia|]. apply put_gsl_other; try lia. exact H.
Qed.

Lemma gsl_items_length es : forall wpos,
  length (gsl_items wpos es) = length es.
Proof.
  induction es as [|[nm c] es IH]; intros; cbn; [reflexivity|]. f_equal. auto.
Qed.

Lemma create_gsl_data_archive e entries hdr :
  entries <> [] -> 48 * len entries < hdr -> hdr mod 2048 = 0 ->
  afs_end hdr (map snd entries) < 2 ^ 32 ->
  Forall (fun en => gsl_name (fst en)) entries ->
  gsl_archive e (put_all_gsl e [] 0 hdr entries) (gsl_items hdr entries).
Proof.
  intros Hne Hfit Hm Hend Hnm.
  pose proof (len_nonneg entries) as Hl.
  destruct (put_all_gsl_rows e entries [] 0 hdr) as [Hrows _];
    try lia; try assumption.
  unfold gsl_archive.
  assert (len (gsl_items hdr entries) = len entries) as ->.
  { unfold len. rewrite gsl_items_length. reflexivity. }
  split; [exact Hrows|].
  destruct entries as [|[nm c] es]; [congruence|].
  cbn [put_all_gsl afs_end map snd] in *. rewrite len_cons in *.
  change (0 + 48) with 48 in *.
  pose proof (afs_end_ge (map snd es) (next_block (hdr + len c))) as He.
  pose proof (next_block_gt (hdr + len c)) as Hn.
  pose proof (len_nonneg c) as Hc. pose proof (len_nonneg es) as Hes.
  apply Forall_cons in Hnm. destruct Hnm as [_ Hnm].
  destruct (put_all_gsl_rows e es (put_gsl e [] 0 hdr nm c) 48
              (next_block (hdr + len c))) as [_ Hkeep]; try lia;
    [apply next_block_mod|exact Hnm|].
  split.
  - apply Hkeep; [lia|right; change (len [0]) with 1; lia|].
    apply put_gsl_gap; lia.
  - assert (region (put_all_gsl e (put_gsl e [] 0 hdr nm c) 48
                      (next_block (hdr + len c)) es)
                   (next_block (hdr + len c) - 1) [0]) as Hpad.
    { apply Hkeep; [lia|right; change (len [0]) with 1; lia|].
      apply put_gsl_pad. lia. }
    apply region_length in Hpad; [|lia|discriminate].
    change (len [0]) with 1 in Hpad.
    assert (hdr + 2048 <= next_block (hdr + len c)).
    { unfold next_block.
      assert (hdr / 2048 <= (hdr + len c) / 2048)
        by (apply Z.div_le_mono; lia).
      pose proof (Z.div_mod hdr 2048 ltac:(lia)). lia. }
    lia.
Qed.

(** ** Scanning a well-formed archive *)

Lemma fseek_cur_ok f off st :
  faults st = [] -> 0 <= f_pos f + off ->
  fseek f off SEEK_CUR st = Some (0, mk_file (f_data f) (f_pos f + off), st).
Proof.
  intros Hq H. unfold fseek, bind. rewrite (fault_none st Hq).
  cbn [orb]. replace (f_pos f + off <? 0) with false
    by (symmetry; apply Z.ltb_ge; lia).
  reflexivity.
Qed.

Lemma gsl_name_first nm :
  gsl_name nm -> (byte_at (strncpy nm 32) 0 =? 0) = false.
Proof.
  intros (Hne & Hl & Hc). rewrite strncpy_short by exact Hl.
  destruct nm as [|b nm]; [congruence|].
  cbn [cstr] in Hc. unfold byte_at. cbn [app nth].
  destruct (b =? 0); [discriminate|reflexivity].
Qed.

Lemma get_entry_tail e w s :
  0 <= w < 2 ^ 32 -> 0 <= s < 2 ^ 32 ->
  exists b1 b2,
    Gsl.entry_tail e w s = b1 ++ b2 ++ replicate 8 0 /\
    len b1 = 4 /\ len b2 = 4 /\
    (if e =? Gsl.GSL_BIG then get_be32 b1 else get_le32 b1) = w /\
    (if e =? Gsl.GSL_BIG then get_be32 b2 else get_le32 b2) = s.
Proof.
  intros Hw Hs. unfold Gsl.entry_tail. destruct (e =? Gsl.GSL_BIG).
  - exists (put_be32 w), (put_be32 s). rewrite <- app_assoc.
    rewrite !get_put_be32, !u32_small by lia. auto.
  - exists (put_le32 w), (put_le32 s). rewrite <- app_assoc.
    rewrite !get_put_le32, !u32_small by lia. auto.
Qed.

Lemma fread_end_of_table f st :
  faults st = [] -> 0 <= f_pos f ->
  region (f_data f) (f_pos f) [0] -> f_pos f + 32 <= len (f_data f) ->
  exists name,
    fread f 32 st = Some (name, mk_file (f_data f) (f_pos f + 32), st) /\
    len name = 32 /\ byte_at name 0 = 0.
Proof.
  intros Hq Hp Hr Hl. rewrite (fread_ok st Hq).
  set (name := take (Z.to_nat 32) (drop (Z.to_nat (f_pos f)) (f_data f))).
  assert (len name = 32) as Hn.
  { unfold name, len in *. rewrite length_take, length_drop. lia. }
  exists name. rewrite Hn. split; [reflexivity|]. split; [reflexivity|].
  unfold region in Hr. cbn [length] in Hr. unfold name, byte_at.
  destruct (drop (Z.to_nat (f_pos f)) (f_data f)) as [|b r]; [discriminate|].
  cbn in Hr. injection Hr as ->. reflexivity.
Qed.

Section ScanGsl.
Context {D : Type}.
Variable p : FILE -> Z -> Z -> list Z -> D -> IO (Z * FILE * D).
Variable st : io_state.
Hypothesis Hq : faults st = [].
Hypothesis He : endianness st <> Gsl.GSL_AUTO.
Variable Inv : Z -> D -> Prop.
Variable data : list Z.

Lemma scan_gsl_loop_rows total : forall items fuel i fp d,
  (length items < fuel)%nat -> 0 <= i -> i + len items < 2 ^ 32 ->
  gsl_rows (endianness st) data (48 * i) items ->
  region data (48 * (i + len items)) [0] ->
  48 * (i + len items) + 32 <= len data ->
  f_data fp = data -> f_pos fp = 48 * i ->
  (forall j nm off c fp d,
     items !! j = Some (nm, off, c) -> f_data fp = data -> f_pos fp = off ->
     Inv (i + Z.of_nat j) d ->
     exists fp' d',
       p fp (i + Z.of_nat j) (len c) nm d st = Some (0, fp', d', st) /\
       f_data fp' = data /\ Inv (i + Z.of_nat j + 1) d') ->
  Inv i d ->
  exists d',
    Gsl.scan_gsl_loop (Some p) fuel i total fp d st
    = Some (to_int (i + len items), d', st) /\
    Inv (i + len items) d'.
Proof.
  induction items as [|[[nm off] c] items IH];
    intros fuel i fp d Hfuel Hi Hn Hrows Hend Hlen Hd Hp Hcb HI.
  - destruct fuel as [|fuel]; [cbn in Hfuel; lia|].
    change (len (@nil (list Z * Z * list Z))) with 0 in *.
    rewrite Z.add_0_r in *.
    destruct (fread_end_of_table fp st Hq) as (name & Hrun & Hl & Hb);
      try (rewrite ?Hd, ?Hp; assumption); try lia.
    cbn [Gsl.scan_gsl_loop].
    rewrite (bind_run st _ _ _ _ Hrun). rewrite Hl, Hb.
    cbn [Z.eqb Pos.eqb negb]. exists d. split; [reflexivity|exact HI].
  - destruct fuel as [|fuel]; [cbn in Hfuel; lia|].
    cbn [gsl_rows] in Hrows.
    destruct Hrows as (Hnm & Hoff & Hmod & Hblk & Hc & Hrow & Hdat & Hrows).
    pose proof (len_nonneg c) as Hc0. pose proof (len_nonneg items) as Hi0.
    rewrite len_cons in *.
    assert (0 <= Z.shiftr off 11 < 2 ^ 32) as Hw.
    { rewrite Z.shiftr_div_pow2 by lia. change (2 ^ 11) with 2048.
      split; [apply Z.div_pos; lia|exact Hblk]. }
    assert (Z.shiftr off 11 * 2048 = off) as Hback.
    { rewrite Z.shiftr_div_pow2 by lia. change (2 ^ 11) with 2048.
      pose proof (Z.div_mod off 2048 ltac:(lia)). lia. }
    unfold gsl_row in Hrow.
    destruct (get_entry_tail (endianness st) (Z.shiftr off 11) (len c) Hw
                ltac:(lia)) as (b1 & b2 & Et & Hb1 & Hb2 & Hg1 & Hg2).
    rewrite Et in Hrow.
    apply region_app in Hrow; [|lia]. destruct Hrow as [Hr0 Hrow].
    assert (len (strncpy nm 32) = 32) as Hl32
      by (unfold len; rewrite length_strncpy; reflexivity).
    rewrite Hl32 in Hrow.
    apply region_app in Hrow; [|lia]. destruct Hrow as [Hr1 Hrow].
    apply region_app in Hrow; [|lia]. destruct Hrow as [Hr2 _].
    rewrite Hb1 in Hr2.
    cbn [Gsl.scan_gsl_loop].
    rewrite (bind_run st _ _ _ _
               (fread_region_n st Hq fp (strncpy nm 32) 32 Hl32
                  ltac:(rewrite Hd, Hp; exact Hr0))).
    rewrite Hl32, (gsl_name_first nm Hnm).
    cbn [Z.eqb Pos.eqb negb].
    rewrite (bind_run st _ _ _ _
               (fread_region_n st Hq (mk_file (f_data fp) (f_pos fp + 32))
                  b1 4 Hb1
                  ltac:(cbn [f_data f_pos]; rewrite Hd, Hp; exact Hr1))).
    rewrite Hb1. cbn [Z.eqb Pos.eqb negb f_data f_pos].
    rewrite (bind_run st _ _ _ _ (get_endianness_ok st)).
    replace (endianness st =? Gsl.GSL_AUTO) with false
      by (symmetry; apply Z.eqb_neq; exact He).
    assert ((if endianness st =? Gsl.GSL_BIG then ret (Some (get_be32 b1))
             else ret (Some (get_le32 b1))) st
            = Some (Some (Z.shiftr off 11), st)) as Ho.
    { rewrite <- Hg1. destruct (endianness st =? Gsl.GSL_BIG); reflexivity. }
    rewrite (bind_run st _ _ _ _ Ho).
    rewrite (bind_run st _ _ _ _
               (fread_region_n st Hq (mk_file (f_data fp) (f_pos fp + 32 + 4))
                  b2 4 Hb2
                  ltac:(cbn [f_data f_pos]; rewrite Hd, Hp; exact Hr2))).
    rewrite Hb2. cbn [Z.eqb Pos.eqb negb f_data f_pos].
    rewrite (bind_run st _ _ _ _ (get_endianness_ok st)).
    rewrite Hg2. cbv zeta.
    rewrite (bind_run st _ _ _ _
               (fseek_cur_ok (mk_file (f_data fp) (f_pos fp + 32 + 4 + 4)) 8
                             st Hq ltac:(cbn [f_pos]; lia))).
    cbn [Z.eqb negb f_data f_pos ftell].
    rewrite Hback.
    rewrite (bind_run st _ _ _ _ (fseek_set_ok _ off st Hq Hoff)).
    cbn [Z.eqb negb f_data f_pos].
    rewrite (cstr_strncpy nm Hnm).
    destruct (Hcb O nm off c (mk_file (f_data fp) off) d eq_refl Hd eq_refl)
      as (fp' & d' & Hrun & Hd' & HI').
    { rewrite Z.add_0_r. exact HI. }
    rewrite Z.add_0_r in Hrun, HI'.
    rewrite (bind_run st _ _ _ _ Hrun). cbn [Z.eqb negb].
    rewrite (bind_run st _ _ _ _
               (fseek_set_ok fp' (f_pos fp + 32 + 4 + 4 + 8) st Hq
                             ltac:(lia))).
    cbn [Z.eqb negb].
    rewrite (u32_small (i + 1)) by lia.
    destruct (IH fuel (i + 1)
                 (mk_file (f_data fp') (f_pos fp + 32 + 4 + 4 + 8)) d')
      as (d'' & Hrun' & HI''); cbn [f_data f_pos]; try lia; try assumption.
    + cbn [length] in Hfuel. lia.
    + replace (48 * (i + 1)) with (48 * i + 48) by lia. exact Hrows.
    + replace (i + 1 + len items) with (i + (1 + len items)) by lia.
      exact Hend.
    + intros j nm0 o c0 fp0 d0 Hj Hd0 Hp0 HI0.
      replace (i + 1 + Z.of_nat j) with (i + Z.of_nat (S j)) in * by lia.
      apply (Hcb (S j) nm0 o c0 fp0 d0 Hj Hd0 Hp0 HI0).
    + exists d''. rewrite Hrun'.
      replace (i + (1 + len items)) with (i + 1 + len items) by lia.
      split; [reflexivity|exact HI''].
Qed.

Lemma scan_gsl_archive (fs : gmap string (list Z)) fn items d :
  fs !! fn = Some data -> gsl_archive (endianness st) data items ->
  len items < 2 ^ 32 ->
  (forall j nm off c fp d,
     items !! j = Some (nm, off, c) -> f_data fp = data -> f_pos fp = off ->
     Inv (Z.of_nat j) d ->
     exists fp' d',
       p fp (Z.of_nat j) (len c) nm d st = Some (0, fp', d', st) /\
       f_data fp' = data /\ Inv (Z.of_nat j + 1) d') ->
  Inv 0 d ->
  exists d',
    Gsl.scan_gsl (Some p) fs fn d st = Some (to_int (len items), d', st) /\
    Inv (len items) d'.
Proof.
  intros Hfn (Hrows & Hend & Hlen) Hn Hcb HI. unfold Gsl.scan_gsl.
  pose proof (len_nonneg items) as Hi0. pose proof (len_nonneg data) as Hd0.
  rewrite (bind_run st _ _ _ _ (fopen_rb_ok st Hq fs fn)). rewrite Hfn.
  rewrite (bind_run st _ _ _ _ (fseek_end_ok st Hq _)).
  cbn [Z.eqb negb f_data f_pos ftell].
  rewrite (bind_run st _ _ _ _ (fault_none st Hq)).
  cbn [Z.eqb negb f_data f_pos ftell].
  replace (len data <? 0) with false by (symmetry; apply Z.ltb_ge; lia).
  rewrite (bind_run st _ _ _ _ (fseek_set_ok _ 0 st Hq ltac:(lia))).
  cbn [Z.eqb negb f_data f_pos ftell].
  destruct (scan_gsl_loop_rows (len data) items (S (length data)) 0
              (mk_file data 0) d)
    as (d' & Hrun & HI'); cbn [f_data f_pos]; try lia; try assumption;
    try reflexivity.
  - unfold len in *. lia.
  - rewrite Z.add_0_l in *. exists d'. split; assumption.
Qed.
End ScanGsl.

(** ** Extraction and listing *)

Lemma gsl_rows_lookup e d items : forall fpos j nm off c,
  gsl_rows e d fpos items -> items !! j = Some (nm, off, c) ->
  gsl_name nm /\ 0 <= off /\ len c < 2 ^ 32 /\ region d off c.
Proof.
  induction items as [|[[n0 o] c0] items IH]; intros fpos j nm off c Hrows Hj.
  - discriminate.
  - cbn [gsl_rows] in Hrows.
    destruct Hrows as (H1 & H2 & H3 & H4 & H5 & H6 & H7 & H8).
    destruct j as [|j].
    + injection Hj as -> -> ->. auto.
    + cbn in Hj. exact (IH _ _ _ _ _ H8 Hj).
Qed.

Section Quiet.
Variable st : io_state.
Hypothesis Hq : faults st = [].
Hypothesis He : endianness st <> Gsl.GSL_AUTO.

Lemma gsl_extract_file_exact fp i nm c (fs : gmap string (list Z)) :
  0 <= f_pos fp -> region (f_data fp) (f_pos fp) c ->
  Gsl.extract_file fp i (len c) nm fs st
  = Some (0, mk_file (f_data fp) (f_pos fp + len c),
          <[string_of_bytes nm := c]> fs, st).
Proof.
  intros Hp Hr. unfold Gsl.extract_file. cbv zeta.
  rewrite (bind_run st _ _ _ _ (fopen_wb_ok st Hq fs _)).
  erewrite (bind_run st)
    by (apply (copy_file_region st Hq); [exact Hp|cbn; lia|exact Hr]).
  cbn [Z.eqb negb f_data f_pos]. unfold ret, fclose_w. cbn [f_data].
  rewrite store_nil, insert_insert_eq. reflexivity.
Qed.

Lemma extract_gsl_archive (fs : gmap string (list Z)) fn data items :
  fs !! fn = Some data -> gsl_archive (endianness st) data items ->
  len items < 2 ^ 32 ->
  Gsl.extract_gsl fs fn st
  = Some (to_int (len items), gsl_extracted fs items, st).
Proof.
  intros Hfn Har Hn. unfold Gsl.extract_gsl.
  destruct (scan_gsl_archive Gsl.extract_file st Hq He
              (fun k fs' => 0 <= k /\
                 gsl_extracted fs' (drop (Z.to_nat k) items)
                 = gsl_extracted fs items)
              data fs fn items fs Hfn Har Hn) as (fs' & Hrun & Hk & HI).
  - intros j nm off c fp fs' Hj Hd Hp [_ HI].
    destruct Har as (Hrows & _).
    destruct (gsl_rows_lookup _ _ _ _ _ _ _ _ Hrows Hj) as (_ & Ho & Hc & Hr).
    exists (mk_file (f_data fp) (f_pos fp + len c)),
           (<[string_of_bytes nm := c]> fs').
    split; [|split; [exact Hd|split; [lia|]]].
    + apply gsl_extract_file_exact; [lia|]. rewrite Hd, Hp. exact Hr.
    + rewrite <- HI. rewrite Nat2Z.id.
      rewrite (drop_S _ _ _ Hj). cbn [gsl_extracted].
      replace (Z.to_nat (Z.of_nat j + 1)) with (S j) by lia. reflexivity.
  - split; [lia|]. reflexivity.
  - rewrite Hrun. repeat f_equal. rewrite <- HI.
    rewrite drop_ge; [reflexivity|]. unfold len. lia.
Qed.

Lemma print_gsl_archive (fs : gmap string (list Z)) fn data items :
  fs !! fn = Some data -> gsl_archive (endianness st) data items ->
  len items < 2 ^ 32 ->
  Gsl.print_gsl_files fs fn st
  = Some (to_int (len items), gsl_listing items, st).
Proof.
  intros Hfn Har Hn. unfold Gsl.print_gsl_files.
  destruct (scan_gsl_archive Gsl.print_file_info st Hq He
              (fun k out => 0 <= k /\
                            out = take (Z.to_nat k) (gsl_listing items))
              data fs fn items [] Hfn Har Hn) as (out & Hrun & Hk & HI).
  - intros j nm off c fp out Hj Hd Hp [_ HI].
    exists fp, (out ++ [(Z.of_nat j, nm, u32 off, len c)]).
    split; [|split; [exact Hd|split; [lia|]]].
    + unfold Gsl.print_file_info, ret, ftell. rewrite Hp. reflexivity.
    + subst out. rewrite Nat2Z.id.
      replace (Z.to_nat (Z.of_nat j + 1)) with (S j) by lia.
      assert (gsl_listing items !! j
              = Some (Z.of_nat j, nm, u32 off, len c)) as Hl.
      { unfold gsl_listing. rewrite list_lookup_imap, Hj. reflexivity. }
      erewrite take_S_r by exact Hl. reflexivity.
  - split; [lia|reflexivity].
  - rewrite Hrun, HI. repeat f_equal. apply take_ge.
    unfold gsl_listing, len. rewrite length_imap. lia.
Qed.
End Quiet.

Lemma string_of_bytes_of_string s : string_of_bytes (bytes_of_string s) = s.
Proof.
  unfold string_of_bytes, bytes_of_string. rewrite map_map.
  rewrite (map_ext _ (fun a => a)).
  - rewrite map_id. apply string_of_list_ascii_of_string.
  - intros a. rewrite Nat2Z.id. apply ascii_nat_embedding.
Qed.

Lemma gsl_extracted_other items : forall (fs : gmap string (list Z)) name,
  Forall (fun it => string_of_bytes (fst (fst it)) <> name) items ->
  gsl_extracted fs items !! name = fs !! name.
Proof.
  induction items as [|[[nm off] c] items IH]; intros fs name H;
    [reflexivity|].
  apply Forall_cons in H. destruct H as [H1 H]. cbn [gsl_extracted].
  rewrite IH by exact H. apply lookup_insert_ne. exact H1.
Qed.

Lemma gsl_extracted_lookup items : forall (fs : gmap string (list Z)) j nm off c,
  NoDup (map (fun it => string_of_bytes (fst (fst it))) items) ->
  items !! j = Some (nm, off, c) ->
  gsl_extracted fs items !! string_of_bytes nm = Some c.
Proof.
  induction items as [|[[n0 o] c0] items IH]; intros fs j nm off c Hnd Hj;
    [discriminate|].
  cbn [map fst] in Hnd. apply NoDup_cons in Hnd. destruct Hnd as [Hnot Hnd].
  cbn [gsl_extracted]. destruct j as [|j].
  - injection Hj as -> -> ->. rewrite gsl_extracted_other.
    + apply lookup_insert_eq.
    + apply List.Forall_forall. intros it Hit E. apply Hnot.
      rewrite <- E. apply list_elem_of_In. apply in_map_iff. exists it. auto.
  - cbn in Hj. eapply IH; eassumption.
Qed.

(** ** From the input files to the archive and back *)

Lemma gsl_entries_spec basename (fs : gmap string (list Z)) files contents :
  Forall2 (fun f c => fs !! f = Some c) files contents ->
  Forall (fun f => gsl_name (bytes_of_string (basename f))) files ->
  Forall2 (fun f en => fs !! f = Some (snd en) /\
                       cstr (bytes_of_string (basename f)) = fst en /\
                       gsl_name (fst en))
          files (gsl_entries basename files contents) /\
  map snd (gsl_entries basename files contents) = contents /\
  Forall (fun en => gsl_name (fst en)) (gsl_entries basename files contents) /\
  len (gsl_entries basename files contents) = len files.
Proof.
  induction 1 as [|f c files contents Hf Hfs IH]; intros Hnm.
  - cbn. repeat split; constructor.
  - apply Forall_cons in Hnm. destruct Hnm as [Hn Hnm].
    destruct (IH Hnm) as (H1 & H2 & H3 & H4).
    unfold gsl_entries in *. cbn [map zip zip_with fst snd].
    split; [|split; [|split]].
    + constructor; [|exact H1]. cbn [fst snd].
      split; [exact Hf|]. split; [|exact Hn]. apply Hn.
    + f_equal. exact H2.
    + constructor; [exact Hn|exact H3].
    + rewrite !len_cons, H4. reflexivity.
Qed.

Lemma gsl_items_names basename files : forall contents wpos,
  length files = length contents ->
  map (fun it => string_of_bytes (fst (fst it)))
      (gsl_items wpos (gsl_entries basename files contents))
  = map basename files.
Proof.
  induction files as [|f files IH]; intros [|c contents] wpos Hl;
    try discriminate; [reflexivity|].
  unfold gsl_entries in *. cbn [map zip zip_with gsl_items fst].
  rewrite string_of_bytes_of_string. f_equal. apply IH.
  cbn in Hl. lia.
Qed.

Lemma gsl_items_lookup basename files : forall contents wpos j f c,
  files !! j = Some f -> contents !! j = Some c ->
  exists off,
    gsl_items wpos (gsl_entries basename files contents) !! j
    = Some (bytes_of_string (basename f), off, c).
Proof.
  induction files as [|f0 files IH]; intros [|c0 contents] wpos j f c Hf Hc;
    try discriminate.
  unfold gsl_entries in *. cbn [map zip zip_with gsl_items].
  destruct j as [|j].
  - injection Hf as ->. injection Hc as ->. eexists. reflexivity.
  - cbn in Hf, Hc. cbn [lookup list_lookup]. eapply IH; eassumption.
Qed.

Lemma hdrlen_fits n :
  0 <= n -> 48 * n + 2048 < 2 ^ 32 -> 2048 <= (48 * n) mod 4096 ->
  48 * n < Gsl.hdrlen n /\ Gsl.hdrlen n mod 2048 = 0 /\ 0 < n.
Proof.
  intros Hn Hov Hfit. rewrite gsl_hdrlen_formula by lia.
  pose proof (Z.div_mod (48 * n) 4096 ltac:(lia)) as Hdm.
  pose proof (Z.mod_pos_bound (48 * n) 4096 ltac:(lia)) as Hm.
  set (q := 48 * n / 4096) in *. set (r := (48 * n) mod 4096) in *.
  replace (n * 48 + 2048) with ((q + 1) * 4096 + (r - 2048)) by lia.
  rewrite Z.div_add_l by lia. rewrite (Z.div_small (r - 2048)) by lia.
  split; [lia|]. split.
  - replace (4096 * (q + 1 + 0)) with ((2 * (q + 1)) * 2048) by lia.
    apply Z.mod_mul. lia.
  - destruct (Z.eq_dec n 0) as [->|]; [|lia].
    subst r. cbn in Hfit. lia.
Qed.

Section GslRoundTrip.
Variable basename : string -> string.
Variable fs : gmap string (list Z).
Variable fn : string.
Variable files : list string.
Variable contents : list (list Z).
Variable st : io_state.
Hypothesis Hq : faults st = [].
Hypothesis Htmp : fs !! temp_name "gsltoolXXXXXX" st = None.
Hypothesis Hfiles : Forall2 (fun f c => fs !! f = Some c) files contents.
Hypothesis Hnames :
  Forall (fun f => gsl_name (bytes_of_string (basename f))) files.
Hypothesis Hov : 48 * len files + 2048 < 2 ^ 32.
Hypothesis Hfit : 2048 <= (48 * len files) mod 4096.
Hypothesis Hend : afs_end (Gsl.hdrlen (len files)) contents < 2 ^ 32.

Lemma create_gsl_archive :
  exists d,
    Gsl.create_gsl basename fs fn files st
    = Some (0, <[fn := d]> fs, settle st) /\
    gsl_archive (endianness (settle st)) d
      (gsl_items (Gsl.hdrlen (len files))
                 (gsl_entries basename files contents)).
Proof.
  destruct (gsl_entries_spec basename fs files contents Hfiles Hnames)
    as (H1 & H2 & H3 & H4).
  destruct (hdrlen_fits (len files) (len_nonneg files) Hov Hfit)
    as (Hh & Hm & Hpos).
  eexists. split.
  - apply (create_gsl_exact basename fs fn files
             (gsl_entries basename files contents) st Hq Htmp H1).
    + pose proof (len_nonneg files). lia.
    + rewrite H2. exact Hend.
  - apply create_gsl_data_archive.
    + intros E. rewrite E in H4. change (len (@nil (list Z * list Z))) with 0 in H4.
      lia.
    + rewrite H4. exact Hh.
    + exact Hm.
    + rewrite H2. exact Hend.
    + exact H3.
Qed.

Variable st2 : io_state.
Hypothesis Hq2 : faults st2 = [].
Hypothesis He2 : endianness st2 = endianness (settle st).

Lemma gsl_create_extract :
  exists fs1,
    Gsl.create_gsl basename fs fn files st = Some (0, fs1, settle st) /\
    Gsl.extract_gsl fs1 fn st2
    = Some (len files,
            gsl_extracted fs1
              (gsl_items (Gsl.hdrlen (len files))
                         (gsl_entries basename files contents)),
            st2).
Proof.
  destruct create_gsl_archive as (d & Hrun & Har).
  destruct (gsl_entries_spec basename fs files contents Hfiles Hnames)
    as (_ & _ & _ & H4).
  pose proof (len_nonneg files) as H0.
  assert (len (gsl_items (Gsl.hdrlen (len files))
                         (gsl_entries basename files contents))
          = len files) as Hl.
  { unfold len in *. rewrite gsl_items_length. exact H4. }
  exists (<[fn := d]> fs). split; [exact Hrun|].
  rewrite <- He2 in Har.
  erewrite extract_gsl_archive;
    [|exact Hq2|rewrite He2; apply settle_endianness
     |apply lookup_insert_eq|exact Har|rewrite Hl; lia].
  rewrite Hl. rewrite to_int_small by lia. reflexivity.
Qed.

Lemma gsl_round_trip_files :
  NoDup (map basename files) ->
  exists fs1 fs2,
    Gsl.create_gsl basename fs fn files st = Some (0, fs1, settle st) /\
    Gsl.extract_gsl fs1 fn st2 = Some (len files, fs2, st2) /\
    forall j f c, files !! j = Some f -> contents !! j = Some c ->
                  fs2 !! basename f = Some c.
Proof.
  intros Hnd. destruct gsl_create_extract as (fs1 & Hc & Hx).
  eexists _, _. split; [exact Hc|]. split; [exact Hx|].
  intros j f c Hf Hcj.
  destruct (gsl_items_lookup basename files contents
              (Gsl.hdrlen (len files)) j f c Hf Hcj) as (off & Hit).
  rewrite <- (string_of_bytes_of_string (basename f)).
  eapply gsl_extracted_lookup; [|exact Hit].
  rewrite gsl_items_names; [exact Hnd|].
  eapply Forall2_length. exact Hfiles.
Qed.
End GslRoundTrip.

(** ** What the GSL operations do *)

(** X24.  [create_gsl], when no call fails: for input files whose base
    names fit a table entry, in a number for which the table length holds
    the table, the archive written is well formed in the endianness chosen
    (big endian when none was asked for) and holds the files under their
    base names, in order, each at the start of a 2048-byte block behind
    the table. *)
Theorem create_gsl_builds_archive basename (fs : gmap string (list Z)) fn
    files contents st :
  faults st = [] ->
  fs !! temp_name "gsltoolXXXXXX" st = None ->
  Forall2 (fun f c => fs !! f = Some c) files contents ->
  Forall (fun f => gsl_name (bytes_of_string (basename f))) files ->
  48 * len files + 2048 < 2 ^ 32 ->
  2048 <= (48 * len files) mod 4096 ->
  afs_end (Gsl.hdrlen (len files)) contents < 2 ^ 32 ->
  exists d,
    Gsl.create_gsl basename fs fn files st
    = Some (0, <[fn := d]> fs, settle st) /\
    gsl_archive (endianness (settle st)) d
      (gsl_items (Gsl.hdrlen (len files))
                 (gsl_entries basename files contents)).
Proof. apply create_gsl_archive. Qed.

Ltac all_entries tac :=
  repeat (first [constructor; [tac|] | constructor]).

Lemma create_gsl_builds_archive_witness :
  exists d,
    Gsl.create_gsl (fun f => f) (numbered_fs 43) "n.gsl" (numbered_files 43)
                   no_faults
    = Some (0, <["n.gsl"%string := d]> (numbered_fs 43), settle no_faults) /\
    gsl_archive (endianness (settle no_faults)) d
      (gsl_items (Gsl.hdrlen (len (numbered_files 43)))
                 (gsl_entries (fun f => f) (numbered_files 43)
                              (numbered_contents 43))).
Proof.
  apply (create_gsl_builds_archive (fun f => f) (numbered_fs 43) "n.gsl"
           (numbered_files 43) (numbered_contents 43) no_faults).
  - reflexivity.
  - vm_compute; reflexivity.
  - unfold numbered_files, numbered_contents. cbn [map seq].
    all_entries ltac:(vm_compute; reflexivity).
  - unfold numbered_files. cbn [map seq].
    all_entries ltac:(split; [vm_compute; congruence
                             |split; vm_compute; reflexivity]).
  - vm_compute; reflexivity.
  - vm_compute; congruence.
  - vm_compute; reflexivity.
Defined.


Lemma one_entry_gsl_archive :
  gsl_archive Gsl.GSL_BIG one_entry_gsl [([97], 2048, [88])].
Proof.
  unfold gsl_archive. cbn [gsl_rows].
  repeat split; try lia; try (vm_compute; congruence);
    vm_compute; reflexivity.
Qed.


(** X26.  [print_gsl_files], when no call fails and the endianness is
    given: the listing of a well-formed archive has one line for each
    entry, in the order of the table, with its index, its name, its offset
    in bytes and its size. *)
Theorem print_gsl_files_lists_the_table (fs : gmap string (list Z)) fn data
    items st :
  faults st = [] -> endianness st <> Gsl.GSL_AUTO ->
  fs !! fn = Some data -> gsl_archive (endianness st) data items ->
  len items < 2 ^ 31 ->
  Gsl.print_gsl_files fs fn st = Some (len items, gsl_listing items, st) /\
  forall j nm off c, items !! j = Some (nm, off, c) ->
    gsl_listing items !! j = Some (Z.of_nat j, nm, u32 off, len c).
Proof.
  intros Hq He Hfn Har Hn. pose proof (len_nonneg items) as H0. split.
  - rewrite (print_gsl_archive st Hq He fs fn data items Hfn Har) by lia.
    rewrite to_int_small by lia. reflexivity.
  - intros j nm off c Hj. unfold gsl_listing.
    rewrite list_lookup_imap, Hj. reflexivity.
Qed.

Lemma print_gsl_files_lists_the_table_witness :
  Gsl.print_gsl_files one_gsl "x.gsl"
                      big_endian
  = Some (1, [(0, [97], 2048, 1)], big_endian).
Proof.
  apply (print_gsl_files_lists_the_table
           one_gsl "x.gsl" one_entry_gsl
           [([97], 2048, [88])] big_endian).
  - reflexivity.
  - vm_compute; congruence.
  - apply lookup_insert_eq.
  - exact one_entry_gsl_archive.
  - vm_compute; reflexivity.
Defined.



(** ** Extraction when the endianness is guessed *)

Lemma set_endianness_ok e st :
  set_endianness e st = Some (tt, mk_io (faults st) e (mkstemp_suffix st)).
Proof. reflexivity. Qed.

Section ScanGslAuto.
Context {D : Type}.
Variable p : FILE -> Z -> Z -> list Z -> D -> IO (Z * FILE * D).
Variable st : io_state.
Hypothesis Hq : faults st = [].
Hypothesis He : endianness st = Gsl.GSL_AUTO.
Variable Inv : Z -> D -> Prop.
Variable data : list Z.

Lemma scan_gsl_archive_auto (fs : gmap string (list Z)) fn items d :
  fs !! fn = Some data -> gsl_archive Gsl.GSL_BIG data items ->
  items <> [] -> len items < 2 ^ 32 -> len data < 2 ^ 32 ->
  (forall nm off c, items !! O = Some (nm, off, c) -> off <= len data) ->
  (forall j nm off c fp d,
     items !! j = Some (nm, off, c) -> f_data fp = data -> f_pos fp = off ->
     Inv (Z.of_nat j) d ->
     exists fp' d',
       p fp (Z.of_nat j) (len c) nm d (settle st)
       = Some (0, fp', d', settle st) /\
       f_data fp' = data /\ Inv (Z.of_nat j + 1) d') ->
  Inv 0 d ->
  exists d',
    Gsl.scan_gsl (Some p) fs fn d st
    = Some (to_int (len items), d', settle st) /\
    Inv (len items) d'.
Proof.
  intros Hfn (Hrows & Hend & Hlen) Hne Hn Htot Hfirst Hcb HI.
  unfold Gsl.scan_gsl.
  pose proof (len_nonneg items) as Hi0. pose proof (len_nonneg data) as Hd0.
  rewrite (bind_run st _ _ _ _ (fopen_rb_ok st Hq fs fn)). rewrite Hfn.
  rewrite (bind_run st _ _ _ _ (fseek_end_ok st Hq _)).
  cbn [Z.eqb negb f_data f_pos ftell].
  rewrite (bind_run st _ _ _ _ (fault_none st Hq)).
  cbn [Z.eqb negb f_data f_pos ftell].
  replace (len data <? 0) with false by (symmetry; apply Z.ltb_ge; lia).
  rewrite (bind_run st _ _ _ _ (fseek_set_ok _ 0 st Hq ltac:(lia))).
  cbn [Z.eqb negb f_data f_pos ftell].
  destruct items as [|[[nm off] c] items]; [congruence|].
  assert (settle st = mk_io (faults st) Gsl.GSL_BIG (mkstemp_suffix st)) as Es.
  { unfold settle. rewrite He. reflexivity. }
  assert (faults (settle st) = []) as Hq1 by (rewrite settle_faults; exact Hq).
  assert (endianness (settle st) = Gsl.GSL_BIG) as He1
    by (rewrite Es; reflexivity).
  cbn [gsl_rows] in Hrows.
  destruct Hrows as (Hnm & Hoff & Hmod & Hblk & Hc & Hrow & Hdat & Hrows).
  pose proof (len_nonneg c) as Hc0. pose proof (len_nonneg items) as Hi1.
  rewrite len_cons in *.
  pose proof (Hfirst nm off c eq_refl) as Hin.
  assert (0 <= Z.shiftr off 11 < 2 ^ 32) as Hw.
  { rewrite Z.shiftr_div_pow2 by lia. change (2 ^ 11) with 2048.
    split; [apply Z.div_pos; lia|exact Hblk]. }
  assert (Z.shiftr off 11 * 2048 = off) as Hback.
  { rewrite Z.shiftr_div_pow2 by lia. change (2 ^ 11) with 2048.
    pose proof (Z.div_mod off 2048 ltac:(lia)). lia. }
  unfold gsl_row, Gsl.entry_tail in Hrow.
  change (Gsl.GSL_BIG =? Gsl.GSL_BIG) with true in Hrow. cbv iota in Hrow.
  rewrite <- app_assoc in Hrow.
  apply region_app in Hrow; [|lia]. destruct Hrow as [Hr0 Hrow].
  assert (len (strncpy nm 32) = 32) as Hl32
    by (unfold len; rewrite length_strncpy; reflexivity).
  rewrite Hl32 in Hrow.
  apply region_app in Hrow; [|lia]. destruct Hrow as [Hr1 Hrow].
  change (len (put_be32 (Z.shiftr off 11))) with 4 in Hrow.
  apply region_app in Hrow; [|lia]. destruct Hrow as [Hr2 _].
  cbn [Gsl.scan_gsl_loop].
  rewrite (bind_run st _ _ _ _
             (fread_region_n st Hq (mk_file data 0) (strncpy nm 32) 32 Hl32
                Hr0)).
  rewrite Hl32, (gsl_name_first nm Hnm).
  cbn [Z.eqb Pos.eqb negb].
  rewrite (bind_run st _ _ _ _
             (fread_region_n st Hq (mk_file data (0 + 32))
                (put_be32 (Z.shiftr off 11)) 4 eq_refl Hr1)).
  change (len (put_be32 (Z.shiftr off 11))) with 4.
  cbn [Z.eqb Pos.eqb negb f_data f_pos].
  rewrite (bind_run st _ _ _ _ (get_endianness_ok st)).
  rewrite He. change (Gsl.GSL_AUTO =? Gsl.GSL_AUTO) with true. cbv iota.
  assert (Gsl.guess_endianness (put_be32 (Z.shiftr off 11)) (len data)
          = Some (Z.shiftr off 11, Gsl.GSL_BIG)) as Hg.
  { unfold Gsl.guess_endianness. rewrite get_put_be32.
    rewrite !(u32_small (Z.shiftr off 11)) by lia.
    rewrite Hback. rewrite (u32_small (len data)) by lia.
    assert (off < 2 ^ 32) by lia. rewrite (u32_small off) by lia.
    replace (len data <? Z.shiftr off 11) with false
      by (symmetry; apply Z.ltb_ge; lia).
    replace (len data <? off) with false by (symmetry; apply Z.ltb_ge; lia).
    reflexivity. }
  rewrite Hg.
  rewrite (bind_run st _ _ _ _
             (bind_run st _ _ _ _ (set_endianness_ok Gsl.GSL_BIG st))).
  rewrite <- Es.
  rewrite (bind_run (settle st) _ _ _ _
             (fread_region_n (settle st) Hq1 (mk_file data (0 + 32 + 4))
                (put_be32 (len c)) 4 eq_refl Hr2)).
  change (len (put_be32 (len c))) with 4.
  cbn [Z.eqb Pos.eqb negb f_data f_pos].
  rewrite (bind_run (settle st) _ _ _ _ (get_endianness_ok (settle st))).
  rewrite He1. change (Gsl.GSL_BIG =? Gsl.GSL_BIG) with true. cbv iota zeta.
  rewrite get_put_be32, (u32_small (len c)) by lia.
  rewrite (bind_run (settle st) _ _ _ _
             (fseek_cur_ok (mk_file data (0 + 32 + 4 + 4)) 8 (settle st) Hq1
                           ltac:(cbn [f_pos]; lia))).
  cbn [Z.eqb negb f_data f_pos ftell].
  rewrite Hback.
  rewrite (bind_run (settle st) _ _ _ _
             (fseek_set_ok _ off (settle st) Hq1 Hoff)).
  cbn [Z.eqb negb f_data f_pos].
  rewrite (cstr_strncpy nm Hnm).
  destruct (Hcb O nm off c (mk_file data off) d eq_refl eq_refl eq_refl HI)
    as (fp' & d' & Hrun & Hd' & HI').
  rewrite (bind_run (settle st) _ _ _ _ Hrun). cbn [Z.eqb negb].
  rewrite (bind_run (settle st) _ _ _ _
             (fseek_set_ok fp' (0 + 32 + 4 + 4 + 8) (settle st) Hq1
                           ltac:(lia))).
  cbn [Z.eqb negb].
  change (u32 (0 + 1)) with 1. change (0 + 32 + 4 + 4 + 8) with 48.
  destruct (scan_gsl_loop_rows p (settle st) Hq1 (settle_endianness st) Inv
              data (len data) items (length data) 1 (mk_file (f_data fp') 48)
              d')
    as (d'' & Hrun' & HI''); cbn [f_data f_pos]; try lia; try assumption;
    try reflexivity.
  - unfold len in *. lia.
  - rewrite He1. exact Hrows.
  - intros j nm0 o c0 fp0 d0 Hj Hd0' Hp0 HI0.
    replace (1 + Z.of_nat j) with (Z.of_nat (S j)) in * by lia.
    apply (Hcb (S j) nm0 o c0 fp0 d0 Hj Hd0' Hp0 HI0).
  - exists d''. split; assumption.
Qed.
End ScanGslAuto.

Lemma extract_gsl_archive_auto (fs : gmap string (list Z)) fn data items st :
  faults st = [] -> endianness st = Gsl.GSL_AUTO ->
  fs !! fn = Some data -> gsl_archive Gsl.GSL_BIG data items ->
  items <> [] -> len items < 2 ^ 32 -> len data < 2 ^ 32 ->
  (forall nm off c, items !! O = Some (nm, off, c) -> off <= len data) ->
  Gsl.extract_gsl fs fn st
  = Some (to_int (len items), gsl_extracted fs items, settle st).
Proof.
  intros Hq He Hfn Har Hne Hn Htot Hfirst. unfold Gsl.extract_gsl.
  assert (faults (settle st) = []) as Hq1 by (rewrite settle_faults; exact Hq).
  destruct (scan_gsl_archive_auto Gsl.extract_file st Hq He
              (fun k fs' => 0 <= k /\
                 gsl_extracted fs' (drop (Z.to_nat k) items)
                 = gsl_extracted fs items)
              data fs fn items fs Hfn Har Hne Hn Htot Hfirst)
    as (fs' & Hrun & Hk & HI).
  - intros j nm off c fp fs' Hj Hd Hp [_ HI].
    destruct Har as (Hrows & _).
    destruct (gsl_rows_lookup _ _ _ _ _ _ _ _ Hrows Hj) as (_ & Ho & Hc & Hr).
    exists (mk_file (f_data fp) (f_pos fp + len c)),
           (<[string_of_bytes nm := c]> fs').
    split; [|split; [exact Hd|split; [lia|]]].
    + apply (gsl_extract_file_exact (settle st) Hq1); [lia|].
      rewrite Hd, Hp. exact Hr.
    + rewrite <- HI. rewrite Nat2Z.id.
      rewrite (drop_S _ _ _ Hj). cbn [gsl_extracted].
      replace (Z.to_nat (Z.of_nat j + 1)) with (S j) by lia. reflexivity.
  - split; [lia|]. reflexivity.
  - rewrite Hrun. repeat f_equal. rewrite <- HI.
    rewrite drop_ge; [reflexivity|]. unfold len. lia.
Qed.

Lemma len_store d p bs :
  0 <= p -> len (store d p bs) <= Z.max (len d) (p + len bs).
Proof.
  intros Hp. destruct bs as [|b bs]; [cbn [store]; lia|].
  unfold store, len. rewrite length_write_at. lia.
Qed.

Lemma len_put_gsl e d fpos wpos nm c :
  0 <= fpos -> fpos + 48 <= wpos ->
  len (put_gsl e d fpos wpos nm c)
  <= Z.max (len d) (next_block (wpos + len c)).
Proof.
  intros Hf Hw. unfold put_gsl.
  pose proof (next_block_gt (wpos + len c)). pose proof (len_nonneg c).
  pose proof (len_store (store (store d fpos (gsl_row e nm wpos (len c)))
                               wpos c)
                        (next_block (wpos + len c) - 1) [0] ltac:(lia)) as H1.
  pose proof (len_store (store d fpos (gsl_row e nm wpos (len c))) wpos c
                        ltac:(lia)) as H2.
  pose proof (len_store d fpos (gsl_row e nm wpos (len c)) Hf) as H3.
  rewrite len_gsl_row in H3. change (len [0]) with 1 in H1. lia.
Qed.

Lemma len_put_all_gsl e es : forall d fpos wpos,
  0 <= fpos -> fpos + 48 * len es <= wpos ->
  len (put_all_gsl e d fpos wpos es)
  <= Z.max (len d) (afs_end wpos (map snd es)).
Proof.
  induction es as [|[nm c] es IH]; intros d fpos wpos Hf Hw.
  - cbn. lia.
  - cbn [put_all_gsl afs_end map snd]. rewrite len_cons in Hw.
    pose proof (len_nonneg es). pose proof (len_nonneg c).
    pose proof (next_block_gt (wpos + len c)).
    pose proof (afs_end_ge (map snd es) (next_block (wpos + len c))).
    pose proof (IH (put_gsl e d fpos wpos nm c) (fpos + 48)
                   (next_block (wpos + len c)) ltac:(lia) ltac:(lia)).
    pose proof (len_put_gsl e d fpos wpos nm c Hf ltac:(lia)).
    lia.
Qed.

Lemma gsl_round_trip_fresh basename (fs : gmap string (list Z)) fn files
    contents st st2 :
  faults st = [] -> endianness (settle st) = Gsl.GSL_BIG ->
  faults st2 = [] -> endianness st2 = Gsl.GSL_AUTO ->
  fs !! temp_name "gsltoolXXXXXX" st = None ->
  Forall2 (fun f c => fs !! f = Some c) files contents ->
  Forall (fun f => gsl_name (bytes_of_string (basename f))) files ->
  NoDup (map basename files) ->
  48 * len files + 2048 < 2 ^ 32 ->
  2048 <= (48 * len files) mod 4096 ->
  afs_end (Gsl.hdrlen (len files)) contents < 2 ^ 32 ->
  exists fs1 fs2,
    Gsl.create_gsl basename fs fn files st = Some (0, fs1, settle st) /\
    Gsl.extract_gsl fs1 fn st2 = Some (len files, fs2, settle st2) /\
    forall j f c, files !! j = Some f -> contents !! j = Some c ->
                  fs2 !! basename f = Some c.
Proof.
  intros Hq Hbig Hq2 He2 Htmp Hfiles Hnames Hnd Hov Hfit Hend.
  destruct (gsl_entries_spec basename fs files contents Hfiles Hnames)
    as (H1 & H2 & H3 & H4).
  destruct (hdrlen_fits (len files) (len_nonneg files) Hov Hfit)
    as (Hh & Hm & Hpos).
  pose proof (len_nonneg files) as H0.
  set (hdr := Gsl.hdrlen (len files)) in *.
  set (entries := gsl_entries basename files contents) in *.
  assert (entries <> []) as Hne.
  { intros E. rewrite E in H4.
    change (len (@nil (list Z * list Z))) with 0 in H4. lia. }
  assert (len (gsl_items hdr entries) = len files) as Hl.
  { unfold len in *. rewrite gsl_items_length. exact H4. }
  pose proof (create_gsl_data_archive Gsl.GSL_BIG entries hdr Hne
                ltac:(lia) Hm ltac:(rewrite H2; exact Hend) H3) as Har.
  exists (<[fn := put_all_gsl Gsl.GSL_BIG [] 0 hdr entries]> fs).
  exists (gsl_extracted
            (<[fn := put_all_gsl Gsl.GSL_BIG [] 0 hdr entries]> fs)
            (gsl_items hdr entries)).
  split; [|split].
  - rewrite <- Hbig.
    apply (create_gsl_exact basename fs fn files entries st Hq Htmp H1);
      [fold hdr; lia|fold hdr; rewrite H2; exact Hend].
  - rewrite (extract_gsl_archive_auto _ fn
               (put_all_gsl Gsl.GSL_BIG [] 0 hdr entries)
               (gsl_items hdr entries) st2 Hq2 He2).
    + rewrite Hl, to_int_small by lia. reflexivity.
    + apply lookup_insert_eq.
    + exact Har.
    + destruct entries as [|[nm c] es]; [congruence|discriminate].
    + rewrite Hl. lia.
    + pose proof (len_put_all_gsl Gsl.GSL_BIG entries [] 0 hdr ltac:(lia)
                    ltac:(lia)) as Hle.
      rewrite H2 in Hle. change (len (@nil Z)) with 0 in Hle. lia.
    + intros nm off c Hit.
      destruct entries as [|[nm0 c0] es]; [congruence|].
      cbn [gsl_items] in Hit.
      change (Some (nm0, hdr, c0) = Some (nm, off, c)) in Hit.
      assert (off = hdr) as -> by congruence. clear Hit.
      cbn [put_all_gsl] in *.
      pose proof (len_nonneg es). rewrite len_cons in *.
      pose proof (next_block_gt (hdr + len c0)).
      pose proof (len_nonneg c0).
      destruct (put_all_gsl_rows Gsl.GSL_BIG es
                  (put_gsl Gsl.GSL_BIG [] 0 hdr nm0 c0) 48
                  (next_block (hdr + len c0))) as [_ Hkeep]; try lia.
      * apply next_block_mod.
      * cbn [afs_end map snd] in H2. rewrite <- H2 in Hend.
        cbn [afs_end] in Hend. exact Hend.
      * apply Forall_cons in H3. apply H3.
      * assert (region (put_all_gsl Gsl.GSL_BIG
                          (put_gsl Gsl.GSL_BIG [] 0 hdr nm0 c0) 48
                          (next_block (hdr + len c0)) es)
                       (next_block (hdr + len c0) - 1) [0]) as Hpad.
        { apply Hkeep; [lia|right; change (len [0]) with 1; lia|].
          apply put_gsl_pad. lia. }
        apply region_length in Hpad; [|lia|discriminate].
        change (len [0]) with 1 in Hpad. change (0 + 48) with 48. lia.
  - intros j f c Hf Hcj.
    destruct (gsl_items_lookup basename files contents hdr j f c Hf Hcj)
      as (off & Hit).
    rewrite <- (string_of_bytes_of_string (basename f)).
    eapply gsl_extracted_lookup; [|exact Hit].
    fold entries. unfold entries. rewrite gsl_items_names; [exact Hnd|].
    eapply Forall2_length. exact Hfiles.
Qed.





(** * The GSL operations of the newer archive tool *)

Lemma until_match_all P l : from_match P l = [] -> until_match P l = l.
Proof.
  induction l as [|i l IH]; [reflexivity|]. cbn [from_match until_match].
  destruct (P i); [discriminate|]. intros H. rewrite (IH H). reflexivity.
Qed.

Section NewGslFacts.
Variables R W : Type.
Variable read_open : gmap string (list Z) -> string -> Z -> option R.
Variable file_count : R -> Z.
Variable file_name : R -> Z -> Z * string.
Variable file_size : R -> Z -> Z.
Variable file_read : R -> Z -> Z -> Z * list Z.
Variable new_fd : Z -> Z -> option W.
Variable set_ftab_size : W -> Z -> Z * W.
Variable write_add : W -> string -> list Z -> Z -> Z * W.
Variable write_add_file : W -> string -> string -> gmap string (list Z) -> Z * W.
Variable write_close : W -> list Z.
Variable endian : Z.
Variable st : io_state.
Hypothesis Hq : faults st = [].
Variable r : R.

Local Abbreviation copied :=
  (gsl_copied R W file_name file_size file_read write_add r).
Local Abbreviation readable := (gsl_readable R file_name file_size file_read r).

Hypothesis Hadd : forall w name buf sz, 0 <= fst (write_add w name buf sz).

Lemma copy_entry_ok w i :
  readable i ->
  NewGsl.copy_entry R W file_size file_read write_add r w i
                    (snd (file_name r i)) st
  = Some (true, copied w i, st).
Proof.
  intros (_ & Hs & Hr). unfold NewGsl.copy_entry, gsl_copied.
  replace (file_size r i <? 0) with false by (symmetry; apply Z.ltb_ge; lia).
  rewrite (bind_run st _ _ _ _ (fault_none st Hq)).
  destruct (file_read r i (file_size r i)) as [err buf]. cbn [fst snd] in *.
  replace (err <? 0) with false by (symmetry; apply Z.ltb_ge; lia).
  pose proof (Hadd w (snd (file_name r i)) buf (file_size r i)) as Ha.
  destruct (write_add w (snd (file_name r i)) buf (file_size r i))
    as [err2 w2]. cbn [fst snd] in *.
  replace (err2 <? 0) with false by (symmetry; apply Z.ltb_ge; lia).
  reflexivity.
Qed.

Lemma gsl_delete_loop_ok files : forall n i w,
  (forall j, In j (range i n) -> readable j) ->
  let listed i := existsb (fun f => bool_decide (snd (file_name r i) = f))
                          files in
  NewGsl.gsl_delete_loop R W file_name file_size file_read write_add r files
                         n i true w st
  = Some (true, w, st) /\
  NewGsl.gsl_delete_loop R W file_name file_size file_read write_add r files
                         n i false w st
  = Some (true, fold_left copied (until_match listed (range i n)) w, st).
Proof.
  induction n as [|n IH]; intros i w Hread listed.
  - split; reflexivity.
  - cbn [NewGsl.gsl_delete_loop range until_match].
    assert (readable i) as Hi by (apply Hread; left; reflexivity).
    assert (forall j, In j (range (i + 1) n) -> readable j) as Hrest.
    { intros j Hj. apply Hread. right. exact Hj. }
    destruct (IH (i + 1) w Hrest) as [IHt IHf].
    destruct (file_name r i) as [rc afn] eqn:En.
    destruct Hi as (Hn & Hs & Hr). rewrite En in Hn. cbn [fst] in Hn.
    replace (rc <? 0) with false by (symmetry; apply Z.ltb_ge; lia).
    split.
    + destruct (existsb _ files); exact IHt.
    + unfold listed at 1. rewrite En. cbn [snd].
      destruct (existsb (fun f => bool_decide (afn = f)) files).
      * cbn [fold_left]. exact IHt.
      * replace afn with (snd (file_name r i)) by (rewrite En; reflexivity).
        rewrite (bind_run st _ _ _ _ (copy_entry_ok w i ltac:(repeat split; rewrite ?En; cbn [fst]; lia))).
        cbn [negb fold_left].
        destruct (IH (i + 1) (copied w i) Hrest) as [_ IHf'].
        exact IHf'.
Qed.

Lemma gsl_update_loop_ok (fs : gmap string (list Z)) oldfn newfn :
  (forall w name, fst (write_add_file w name newfn fs) = 0) ->
  let is_old i := bool_decide (snd (file_name r i) = oldfn) in
  forall n i w,
  (forall j, In j (range i n) -> readable j) ->
  NewGsl.gsl_update_loop R W file_name file_size file_read write_add
                         write_add_file fs r oldfn newfn n i 2 w st
  = Some (true, fold_left copied (range i n) w, st) /\
  NewGsl.gsl_update_loop R W file_name file_size file_read write_add
                         write_add_file fs r oldfn newfn n i 0 w st
  = Some (true,
          match from_match is_old (range i n) with
          | [] => fold_left copied (until_match is_old (range i n)) w
          | m :: rest =>
            fold_left copied rest
              (snd (write_add_file
                      (fold_left copied (until_match is_old (range i n)) w)
                      oldfn newfn fs))
          end, st).
Proof.
  intros Hfile is_old. induction n as [|n IH]; intros i w Hread.
  - split; reflexivity.
  - cbn [NewGsl.gsl_update_loop range until_match from_match].
    assert (readable i) as Hi by (apply Hread; left; reflexivity).
    assert (forall j, In j (range (i + 1) n) -> readable j) as Hrest.
    { intros j Hj. apply Hread. right. exact Hj. }
    pose proof (copy_entry_ok w i Hi) as Hcopy.
    assert (is_old i = bool_decide (snd (file_name r i) = oldfn)) as Hio
      by reflexivity.
    destruct (file_name r i) as [rc afn] eqn:En.
    destruct Hi as (Hn & Hs & Hr). rewrite En in Hn. cbn [fst] in Hn.
    cbn [snd] in *. rewrite !Hio.
    replace (rc <? 0) with false by (symmetry; apply Z.ltb_ge; lia).
    cbn [Z.eqb Pos.eqb].
    split.
    + rewrite (bind_run st _ _ _ _ Hcopy). cbn [negb fold_left].
      exact (proj1 (IH (i + 1) (copied w i) Hrest)).
    + destruct (bool_decide (afn = oldfn)) eqn:E.
      * apply bool_decide_eq_true in E. subst afn.
        cbn [Z.eqb Pos.eqb fold_left].
        pose proof (Hfile w oldfn) as Hf.
        destruct (write_add_file w oldfn newfn fs) as [err w2].
        cbn [fst snd] in *. subst err. cbn [Z.eqb negb].
        exact (proj1 (IH (i + 1) w2 Hrest)).
      * cbn [Z.eqb]. rewrite (bind_run st _ _ _ _ Hcopy).
        cbn [negb fold_left]. exact (proj2 (IH (i + 1) (copied w i) Hrest)).
Qed.

Lemma rewrite_archive_ok (fs : gmap string (list Z)) fn loop w0 w1 wf e :
  let tmp := temp_name "artoolXXXXXX" st in
  fs !! tmp = None ->
  read_open (<[tmp := []]> fs) fn endian = Some r ->
  new_fd 0 endian = Some w0 ->
  set_ftab_size w0 (u32 (file_count r)) = (e, w1) -> 0 <= e ->
  loop (<[tmp := []]> fs) r (Z.to_nat (u32 (file_count r))) w1 st
  = Some (true, wf, st) ->
  NewGsl.rewrite_archive R W read_open file_count new_fd set_ftab_size
                         write_close endian fs fn loop st
  = Some (0, <[fn := write_close wf]> fs, st).
Proof.
  intros tmp Htmp Hopen Hnew Hset He Hloop. unfold NewGsl.rewrite_archive.
  rewrite (bind_run st _ _ _ _ (mkstemp_ok st Hq fs _ Htmp)).
  cbn [Z.ltb Z.compare]. fold tmp. rewrite Hopen, Hnew, Hset.
  replace (e <? 0) with false by (symmetry; apply Z.ltb_ge; lia).
  rewrite (bind_run st _ _ _ _ Hloop). cbn [negb].
  unfold rename, bind. rewrite (fault_none st Hq), lookup_insert_eq.
  unfold ret. rewrite delete_tmp by exact Htmp. reflexivity.
Qed.
End NewGslFacts.

(** X22.  [gsl_delete] of the newer tool: [skip] is never cleared, so
    the archive written holds the entries in front of the first one whose
    name is listed, and none of those behind it, listed or not. *)
Theorem new_gsl_delete_stops_at_first_match
    (R W : Type) read_open file_count file_name file_size file_read new_fd
    set_ftab_size write_add write_close endian
    (st : io_state) (fs : gmap string (list Z)) (fn : string)
    (files : list string) (r : R) (w0 w1 : W) (e : Z) :
  let tmp := temp_name "artoolXXXXXX" st in
  let cnt := Z.to_nat (u32 (file_count r)) in
  let listed i :=
    existsb (fun f => bool_decide (snd (file_name r i) = f)) files in
  faults st = [] ->
  fs !! tmp = None ->
  read_open (<[tmp := []]> fs) fn endian = Some r ->
  new_fd 0 endian = Some w0 ->
  set_ftab_size w0 (u32 (file_count r)) = (e, w1) -> 0 <= e ->
  (forall j, In j (range 0 cnt) ->
             gsl_readable R file_name file_size file_read r j) ->
  (forall w name buf sz, 0 <= fst (write_add w name buf sz)) ->
  NewGsl.gsl_delete R W read_open file_count file_name file_size file_read
                    new_fd set_ftab_size write_add write_close endian
                    fs fn files st
  = Some (0,
          <[fn := write_close
                    (fold_left (gsl_copied R W file_name file_size file_read
                                       write_add r)
                               (until_match listed (range 0 cnt)) w1)]> fs,
          st).
Proof.
  intros tmp cnt listed Hq Htmp Hopen Hnew Hset He Hread Hadd.
  unfold NewGsl.gsl_delete.
  apply (rewrite_archive_ok R W read_open file_count new_fd set_ftab_size
           write_close endian st Hq r fs fn _ w0 w1 _ e Htmp Hopen Hnew Hset
           He).
  exact (proj2 (gsl_delete_loop_ok R W file_name file_size file_read
                  write_add st Hq r Hadd files cnt 0 w1 Hread)).
Qed.

Lemma new_gsl_delete_stops_at_first_match_witness :
  NewGsl.gsl_delete _ _ list_read_open list_file_count list_file_name
                    list_file_size list_file_read list_new_fd
                    list_set_ftab_size list_write_add list_write_close 0
                    two_files "x.gsl" ["b.bin"] no_faults
  = Some (0, <[ "x.gsl" := [1; 2] ]> two_files, no_faults).
Proof.
  apply (new_gsl_delete_stops_at_first_match _ _ list_read_open
           list_file_count list_file_name list_file_size list_file_read
           list_new_fd list_set_ftab_size list_write_add
           list_write_close 0 no_faults two_files "x.gsl" ["b.bin"] list_gsl
           [] [] 0).
  - reflexivity.
  - vm_compute; reflexivity.
  - reflexivity.
  - reflexivity.
  - reflexivity.
  - lia.
  - intros j Hj. vm_compute in Hj.
    repeat (destruct Hj as [<- | Hj]; [vm_compute; intuition congruence|]).
    destruct Hj.
  - intros w name buf sz. cbn. lia.
Defined.

(** X23.  [gsl_update] of the newer tool replaces the first entry
    named [oldfn] by the file [newfn], under the old name, and copies
    every other entry, later ones of the same name included; with no
    entry of that name the archive is rewritten as it was and the result
    is still 0. *)
Theorem new_gsl_update_replaces_first_match
    (R W : Type) read_open file_count file_name file_size file_read new_fd
    set_ftab_size write_add write_add_file write_close endian
    (st : io_state) (fs : gmap string (list Z)) (fn oldfn newfn : string)
    (r : R) (w0 w1 : W) (e : Z) :
  let tmp := temp_name "artoolXXXXXX" st in
  let cnt := Z.to_nat (u32 (file_count r)) in
  let is_old i := bool_decide (snd (file_name r i) = oldfn) in
  let copy := fold_left (gsl_copied R W file_name file_size file_read
                                write_add r) in
  faults st = [] ->
  fs !! tmp = None ->
  read_open (<[tmp := []]> fs) fn endian = Some r ->
  new_fd 0 endian = Some w0 ->
  set_ftab_size w0 (u32 (file_count r)) = (e, w1) -> 0 <= e ->
  (forall j, In j (range 0 cnt) ->
             gsl_readable R file_name file_size file_read r j) ->
  (forall w name buf sz, 0 <= fst (write_add w name buf sz)) ->
  (forall w name, fst (write_add_file w name newfn (<[tmp := []]> fs)) = 0) ->
  NewGsl.gsl_update R W read_open file_count file_name file_size file_read
                    new_fd set_ftab_size write_add write_add_file
                    write_close endian fs fn oldfn newfn st
  = Some (0,
          <[fn := write_close
                    match from_match is_old (range 0 cnt) with
                    | [] => copy (range 0 cnt) w1
                    | _ :: rest =>
                      copy rest
                        (snd (write_add_file
                                (copy (until_match is_old (range 0 cnt)) w1)
                                oldfn newfn (<[tmp := []]> fs)))
                    end]> fs,
          st).
Proof.
  intros tmp cnt is_old copy Hq Htmp Hopen Hnew Hset He Hread Hadd Hfile.
  unfold NewGsl.gsl_update.
  apply (rewrite_archive_ok R W read_open file_count new_fd set_ftab_size
           write_close endian st Hq r fs fn _ w0 w1 _ e Htmp Hopen Hnew Hset
           He).
  etransitivity;
    [exact (proj2 (gsl_update_loop_ok R W file_name file_size file_read
                     write_add write_add_file st Hq r Hadd _ oldfn newfn
                     Hfile cnt 0 w1 Hread))|].
  fold is_old. destruct (from_match is_old (range 0 cnt)) eqn:E;
    [|reflexivity].
  rewrite (until_match_all is_old _ E). reflexivity.
Qed.

Lemma new_gsl_update_replaces_first_match_witness :
  NewGsl.gsl_update _ _ list_read_open list_file_count list_file_name
                    list_file_size list_file_read list_new_fd
                    list_set_ftab_size list_write_add list_write_add_file
                    list_write_close 0 two_files "x.gsl" "b.bin" "a"
                    no_faults
  = Some (0, <[ "x.gsl" := [1; 2; 1; 2; 3; 4; 5; 6; 7] ]> two_files,
          no_faults).
Proof.
  apply (new_gsl_update_replaces_first_match _ _ list_read_open
           list_file_count list_file_name list_file_size list_file_read
           list_new_fd list_set_ftab_size list_write_add list_write_add_file
           list_write_close 0 no_faults two_files "x.gsl" "b.bin" "a"
           list_gsl [] [] 0).
  - reflexivity.
  - vm_compute; reflexivity.
  - reflexivity.
  - reflexivity.
  - reflexivity.
  - lia.
  - intros j Hj. vm_compute in Hj.
    repeat (destruct Hj as [<- | Hj]; [vm_compute; intuition congruence|]).
    destruct Hj.
  - intros w name buf sz. cbn. lia.
  - intros w name. reflexivity.
Defined.

(** ** What a failure leaves behind *)

Section NewGslOutcome.
Variables R W : Type.
Variable read_open : gmap string (list Z) -> string -> Z -> option R.
Variable file_count : R -> Z.
Variable file_name : R -> Z -> Z * string.
Variable file_size : R -> Z -> Z.
Variable file_read : R -> Z -> Z -> Z * list Z.
Variable new_fd : Z -> Z -> option W.
Variable set_ftab_size : W -> Z -> Z * W.
Variable write_add : W -> string -> list Z -> Z -> Z * W.
Variable write_add_file : W -> string -> string -> gmap string (list Z) -> Z * W.
Variable write_close : W -> list Z.
Variable endian : Z.

Lemma copy_entry_total r w i afn :
  total (NewGsl.copy_entry R W file_size file_read write_add r w i afn).
Proof.
  unfold NewGsl.copy_entry.
  destruct (file_size r i <? 0); [apply ret_total|].
  eapply post_bind; [apply fault_total|]. intros b _.
  destruct b; [apply ret_total|].
  destruct (file_read r i (file_size r i)) as [err buf].
  destruct (err <? 0); [apply ret_total|].
  destruct (write_add w afn buf (file_size r i)) as [err2 w2].
  destruct (err2 <? 0); apply ret_total.
Qed.

Lemma gsl_update_loop_total fs r oldfn newfn : forall n i replace w,
  total (NewGsl.gsl_update_loop R W file_name file_size file_read write_add
           write_add_file fs r oldfn newfn n i replace w).
Proof.
  induction n as [|n IH]; intros i replace w; cbn [NewGsl.gsl_update_loop].
  - apply ret_total.
  - destruct (file_name r i) as [rc afn].
    destruct (rc <? 0); [apply ret_total|]. cbv zeta.
    destruct (_ =? 1).
    + destruct (write_add_file w afn newfn fs) as [err w2].
      destruct (negb (err =? 0)); [apply ret_total|apply IH].
    + eapply post_bind; [apply copy_entry_total|]. intros [ok w2] _.
      destruct (negb ok); [apply ret_total|apply IH].
Qed.

Lemma gsl_delete_loop_total r files : forall n i skip w,
  total (NewGsl.gsl_delete_loop R W file_name file_size file_read write_add
           r files n i skip w).
Proof.
  induction n as [|n IH]; intros i skip w; cbn [NewGsl.gsl_delete_loop].
  - apply ret_total.
  - destruct (file_name r i) as [rc afn].
    destruct (rc <? 0); [apply ret_total|]. cbv zeta.
    destruct (if existsb _ files then true else skip); [apply IH|].
    eapply post_bind; [apply copy_entry_total|]. intros [ok w2] _.
    destruct (negb ok); [apply ret_total|apply IH].
Qed.

Lemma rewrite_archive_outcome (fs : gmap string (list Z)) fn loop :
  (forall fs r n w, total (loop fs r n w)) ->
  post (NewGsl.rewrite_archive R W read_open file_count new_fd set_ftab_size
          write_close endian fs fn loop)
       (fun r => outcome fs fn r /\ (fst r = 0 \/ fst r = NewGsl.EXIT_FAILURE)).
Proof.
  intros Hloop. unfold NewGsl.rewrite_archive.
  eapply post_bind; [apply mkstemp_spec|].
  intros [[fd tmp] fs1] [[Hfd E]|(Hfd & Hfresh & E)]; cbn [fst snd] in *;
    subst fs1.
  - replace (fd <? 0) with true by (symmetry; apply Z.ltb_lt; lia).
    apply post_ret. split; [apply outcome_failed; discriminate|right; reflexivity].
  - replace (fd <? 0) with false by (symmetry; apply Z.ltb_ge; lia).
    assert (forall d, outcome fs fn
              (NewGsl.EXIT_FAILURE, unlink tmp (<[tmp := d]> fs))) as Hfail.
    { intros d. rewrite unlink_fresh by exact Hfresh.
      apply outcome_failed. discriminate. }
    destruct (read_open _ fn endian) as [r|];
      [|apply post_ret; split; [apply Hfail|right; reflexivity]].
    destruct (new_fd fd endian) as [w|];
      [|apply post_ret; split; [apply Hfail|right; reflexivity]].
    cbv zeta.
    destruct (set_ftab_size w _) as [err w1].
    destruct (err <? 0).
    { apply post_ret. rewrite insert_insert_eq.
      split; [apply Hfail|right; reflexivity]. }
    eapply post_bind; [apply Hloop|]. intros [ok w2] _.
    destruct (negb ok).
    { apply post_ret. rewrite insert_insert_eq.
      split; [apply Hfail|right; reflexivity]. }
    rewrite insert_insert_eq.
    eapply post_bind; [apply rename_spec, lookup_insert_eq|].
    intros [rc fs'] [[_ E] | [_ E]]; cbn [snd] in E; subst fs';
      apply post_ret; (split; [|left; reflexivity]);
      split; cbn [fst snd]; try tauto; intros _.
    + right. exists tmp, (write_close w2). auto.
    + left. exists (write_close w2).
      rewrite delete_insert_eq, delete_id by exact Hfresh. reflexivity.
Qed.

(** X30.  [gsl_update] and [gsl_delete] of the newer tool return 0 or
    [EXIT_FAILURE], whatever fails and whatever the library does; after a
    failure the file system is as it was, the temporary file removed and
    the archive untouched; after a 0 the archive is replaced or, the
    [rename] having failed, the new archive is left under the temporary
    name. *)
Theorem new_gsl_failure_leaves_archive (fs : gmap string (list Z)) fn :
  (forall oldfn newfn,
     post (NewGsl.gsl_update R W read_open file_count file_name file_size
             file_read new_fd set_ftab_size write_add write_add_file
             write_close endian fs fn oldfn newfn)
          (fun r => outcome fs fn r /\
                    (fst r = 0 \/ fst r = NewGsl.EXIT_FAILURE))) /\
  (forall files,
     post (NewGsl.gsl_delete R W read_open file_count file_name file_size
             file_read new_fd set_ftab_size write_add write_close endian
             fs fn files)
          (fun r => outcome fs fn r /\
                    (fst r = 0 \/ fst r = NewGsl.EXIT_FAILURE))).
Proof.
  split; intros; apply rewrite_archive_outcome; intros.
  - apply gsl_update_loop_total.
  - apply gsl_delete_loop_total.
Qed.
End NewGslOutcome.

(** * Writing through a temporary file

    The operations that write an archive return zero only from their
    end, after the [rename] of the temporary file, and a fault injected
    into any call before it makes them return another value. *)

Lemma quiet_refl l : quiet l l.
Proof. exists O. reflexivity. Qed.

Lemma quiet_trans l1 l2 l3 : quiet l1 l2 -> quiet l2 l3 -> quiet l1 l3.
Proof.
  intros [n ->] [m ->]. exists (n + m)%nat.
  rewrite replicate_add, <- app_assoc. reflexivity.
Qed.

Lemma calm_refl st : calm st st.
Proof. split; [apply quiet_refl|reflexivity]. Qed.

Lemma calm_trans st1 st2 st3 : calm st1 st2 -> calm st2 st3 -> calm st1 st3.
Proof.
  intros [Q1 S1] [Q2 S2]. split; [eapply quiet_trans; eassumption|congruence].
Qed.

Lemma bind_inv {A B} (m : IO A) (k : A -> IO B) st b st' :
  bind m k st = Some (b, st') ->
  exists a st1, m st = Some (a, st1) /\ k a st1 = Some (b, st').
Proof.
  unfold bind. destruct (m st) as [[a st1]|]; [|discriminate].
  intros H. exists a, st1. auto.
Qed.

Lemma ret_inv {A} (a b : A) st st' :
  ret a st = Some (b, st') -> a = b /\ st = st'.
Proof. unfold ret. intros H. injection H as -> ->. auto. Qed.

Lemma fault_calm st st1 : fault st = Some (false, st1) -> calm st st1.
Proof.
  unfold fault. destruct (faults st) as [|b r] eqn:E; intros H.
  - assert (st1 = st) as -> by congruence. apply calm_refl.
  - assert (b = false) as -> by congruence.
    assert (st1 = mk_io r (endianness st) (mkstemp_suffix st)) as ->
      by congruence.
    split; cbn [faults mkstemp_suffix]; [|reflexivity].
    exists 1%nat. exact E.
Qed.

Lemma fault_suffix st b st1 :
  fault st = Some (b, st1) -> mkstemp_suffix st1 = mkstemp_suffix st.
Proof.
  unfold fault. destruct (faults st); intros H;
    (assert (st1 = st) as -> by congruence) ||
    (assert (st1 = mk_io l (endianness st) (mkstemp_suffix st)) as ->
       by congruence); reflexivity.
Qed.

Lemma fseek_calm f off w st rc f' st1 :
  fseek f off w st = Some (rc, f', st1) -> rc <> -1 -> calm st st1.
Proof.
  unfold fseek. intros H Hrc.
  apply bind_inv in H as (b & s & E & H).
  destruct b; cbn [orb] in H.
  - apply ret_inv in H as [H _]. congruence.
  - destruct (_ <? 0); apply ret_inv in H as [H <-];
      [congruence|apply fault_calm, E].
Qed.

Lemma fread_calm f n st bs f' st1 :
  fread f n st = Some (bs, f', st1) -> len bs <> 0 -> calm st st1.
Proof.
  unfold fread. intros H Hn.
  apply bind_inv in H as (b & s & E & H).
  destruct b; apply ret_inv in H as [H <-].
  - assert (bs = []) as -> by congruence. contradiction Hn. reflexivity.
  - apply fault_calm, E.
Qed.

Lemma fwrite_calm f bs st n f' st1 :
  fwrite f bs st = Some (n, f', st1) -> n <> 0 \/ bs = [] -> calm st st1.
Proof.
  unfold fwrite. intros H Hn. destruct bs as [|x bs].
  - apply ret_inv in H as [_ <-]. apply calm_refl.
  - apply bind_inv in H as (b & s & E & H).
    destruct b; apply ret_inv in H as [H <-].
    + assert (n = 0) as Hz by congruence. destruct Hn; [lia|discriminate].
    + apply fault_calm, E.
Qed.

Lemma fopen_rb_calm fs fn st f st1 :
  fopen_rb fs fn st = Some (Some f, st1) -> calm st st1.
Proof.
  unfold fopen_rb. intros H.
  apply bind_inv in H as (b & s & E & H).
  destruct b; apply ret_inv in H as [H <-]; [discriminate|].
  apply fault_calm, E.
Qed.

Lemma fdopen_wb_calm fd st f st1 :
  fdopen_wb fd st = Some (Some f, st1) -> calm st st1.
Proof.
  unfold fdopen_wb. intros H.
  apply bind_inv in H as (b & s & E & H).
  destruct b; apply ret_inv in H as [H <-]; [discriminate|].
  apply fault_calm, E.
Qed.

Lemma mkstemp_calm fs template st fd tmp fs1 st1 :
  mkstemp fs template st = Some (fd, tmp, fs1, st1) -> (fd <? 0) = false ->
  calm st st1 /\ tmp = temp_name template st /\
  fs !! tmp = None /\ fs1 = <[tmp := []]> fs.
Proof.
  unfold mkstemp. intros H Hfd.
  apply bind_inv in H as (b & s & E & H).
  pose proof (fault_suffix _ _ _ E) as Hs.
  destruct b.
  - assert (fd = -1) by congruence. subst fd. discriminate Hfd.
  - destruct (fs !! _) eqn:Hl.
    + assert (fd = -1) by congruence. subst fd. discriminate Hfd.
    + injection H as <- <- <- <-. unfold temp_name. rewrite <- Hs.
      split; [apply fault_calm, E|]. auto.
Qed.

Lemma get_endianness_inv st e st1 :
  get_endianness st = Some (e, st1) -> st1 = st.
Proof. unfold get_endianness. congruence. Qed.

Lemma set_endianness_calm e st u st1 :
  set_endianness e st = Some (u, st1) -> calm st st1.
Proof.
  unfold set_endianness. intros H. injection H as _ <-.
  split; [apply quiet_refl|reflexivity].
Qed.

(** The steps of a run that is known to have returned. *)
Ltac b2p :=
  repeat match goal with
  | H : negb _ = false |- _ => apply negb_false_iff in H
  | H : negb _ = true |- _ => apply negb_true_iff in H
  | H : (_ =? _) = true |- _ => apply Z.eqb_eq in H
  | H : (_ =? _) = false |- _ => apply Z.eqb_neq in H
  | H : (_ <? _) = true |- _ => apply Z.ltb_lt in H
  | H : (_ <? _) = false |- _ => apply Z.ltb_ge in H
  | H : (_ <=? _) = true |- _ => apply Z.leb_le in H
  | H : (_ <=? _) = false |- _ => apply Z.leb_gt in H
  end.

Ltac dead H :=
  solve [ discriminate H
        | unfold ret in H; congruence
        | unfold ret in H; injection H; intros; subst; b2p; lia ].

Ltac walk H :=
  repeat (cbv beta iota zeta in H;
    match type of H with
    | bind _ _ _ = Some _ =>
      let a := fresh "a" in
      let s := fresh "s" in
      let E := fresh "E" in
      apply bind_inv in H as (a & s & E & H);
      repeat match type of a with
             | (_ * _)%type => destruct a as [a ?]
             end
    | (if ?c then _ else _) _ = Some _ =>
      destruct c eqn:?; [try dead H|try dead H]
    | (match ?o with Some _ => _ | None => _ end) _ = Some _ =>
      destruct o eqn:?; [try dead H|try dead H]
    | (let (_, _) := ?p in _) _ = Some _ =>
      destruct p eqn:?
    end).

Ltac side := solve [assumption | b2p; (lia || congruence)].

Ltac prim_calm :=
  first
    [ eapply fseek_calm; [eassumption|side]
    | eapply fread_calm; [eassumption|side]
    | eapply fwrite_calm; [eassumption|left; side]
    | eapply fopen_rb_calm; eassumption
    | eapply fdopen_wb_calm; eassumption
    | eapply set_endianness_calm; eassumption
    | eapply fault_calm; eassumption ].

Ltac chain_with extra :=
  repeat first
    [ apply calm_refl
    | assumption
    | eapply calm_trans; [first [prim_calm | extra | eassumption]|] ].

Ltac chain := chain_with fail.

Lemma copy_file_loop_calm : forall fuel dst src size st rv dst' src' size' st1,
  copy_file_loop fuel dst src size st = Some (rv, dst', src', size', st1) ->
  rv = 0 -> calm st st1.
Proof.
  induction fuel as [|fuel IH]; intros dst src size st rv dst' src' size' st1 H Hrv;
    subst rv; cbn [copy_file_loop] in H.
  - destruct (512 <? size); [discriminate H|].
    apply ret_inv in H as [_ <-]. apply calm_refl.
  - destruct (512 <? size).
    + walk H. apply IH in H; [|reflexivity].
      eapply calm_trans; [|exact H]. chain.
    + apply ret_inv in H as [_ <-]. apply calm_refl.
Qed.

Lemma copy_file_calm dst src size st r dst' src' st1 :
  copy_file dst src size st = Some (r, dst', src', st1) ->
  r = 0 -> calm st st1.
Proof.
  intros H ->. unfold copy_file in H. walk H.
  - apply ret_inv in H as [_ <-].
    chain_with ltac:(eapply copy_file_loop_calm; [eassumption|side]).
  - apply ret_inv in H as [_ <-].
    chain_with ltac:(eapply copy_file_loop_calm; [eassumption|side]).
Qed.

Lemma pad_file_calm fp boundary st r fp' st1 :
  pad_file fp boundary st = Some (r, fp', st1) -> r <> -1 -> calm st st1.
Proof.
  intros H Hr. unfold pad_file in H. walk H;
    apply ret_inv in H as [_ <-]; chain.
Qed.

Ltac file_calm :=
  first
    [ eapply copy_file_calm; [eassumption|side]
    | eapply pad_file_calm; [eassumption|side] ].

(** ** afs.c *)

Lemma open_afs_calm fs fn st r st1 :
  Afs.open_afs fs fn st = Some (Some r, st1) -> calm st st1.
Proof.
  intros H. unfold Afs.open_afs in H. walk H.
  apply ret_inv in H as [_ <-]. chain.
Qed.

Lemma add_files_to_afs_calm fs : forall files ofp fpos wpos st r ofp' fpos' wpos' st1,
  Afs.add_files_to_afs fs ofp fpos wpos files st
  = Some (r, ofp', fpos', wpos', st1) ->
  r = 0 -> calm st st1.
Proof.
  induction files as [|file files IH]; intros ofp fpos wpos st r ofp' fpos' wpos' st1 H ->;
    cbn [Afs.add_files_to_afs] in H.
  - apply ret_inv in H as [_ <-]. apply calm_refl.
  - walk H. apply IH in H; [|reflexivity].
    eapply calm_trans; [|exact H]. chain_with file_calm.
Qed.

Section ScanAfs.
Context {D : Type}.
Variable p : FILE -> Z -> Z -> Z -> D -> IO (Z * FILE * D).
Hypothesis Hp : forall fp i cnt sz d st r fp' d' st1,
  p fp i cnt sz d st = Some (r, fp', d', st1) -> r = 0 -> calm st st1.

Lemma scan_afs_loop_calm : forall n i entries fp rv d st r d' st1,
  Afs.scan_afs_loop p n i entries fp rv d st = Some (r, d', st1) ->
  0 <= r -> calm st st1.
Proof.
  induction n as [|n IH]; intros i entries fp rv d st r d' st1 H Hr;
    cbn [Afs.scan_afs_loop] in H.
  - apply ret_inv in H as [_ <-]. apply calm_refl.
  - walk H. apply IH in H; [|exact Hr].
    eapply calm_trans; [|exact H].
    chain_with ltac:(eapply Hp; [eassumption|side]).
Qed.

Lemma scan_afs_calm fs fn d st r d' st1 :
  Afs.scan_afs p fs fn d st = Some (r, d', st1) -> 0 <= r -> calm st st1.
Proof.
  intros H Hr. unfold Afs.scan_afs in H. walk H.
  apply scan_afs_loop_calm in H; [|exact Hr].
  eapply calm_trans; [|exact H]. eapply open_afs_calm; eassumption.
Qed.
End ScanAfs.

Lemma afs_copy_file_cb_calm fp i cnt sz ofp st r fp' ofp' st1 :
  Afs.copy_file_cb fp i cnt sz ofp st = Some (r, fp', ofp', st1) ->
  r = 0 -> calm st st1.
Proof.
  intros H ->. unfold Afs.copy_file_cb in H. walk H.
  apply ret_inv in H as [_ <-]. chain_with file_calm.
Qed.

Lemma afs_copy_filtered_calm fp i cnt sz cxt st r fp' cxt' st1 :
  Afs.copy_filtered fp i cnt sz cxt st = Some (r, fp', cxt', st1) ->
  r = 0 -> calm st st1.
Proof.
  intros H ->. unfold Afs.copy_filtered in H. walk H;
    apply ret_inv in H as [_ <-]; chain_with file_calm.
Qed.

Lemma afs_copy_update_calm fs fp i cnt sz cxt st r fp' cxt' st1 :
  Afs.copy_update fs fp i cnt sz cxt st = Some (r, fp', cxt', st1) ->
  r = 0 -> calm st st1.
Proof.
  intros H ->. unfold Afs.copy_update in H. walk H;
    apply ret_inv in H as [_ <-];
    chain_with ltac:(first [file_calm
                           | eapply add_files_to_afs_calm; [eassumption|side]]).
Qed.

Lemma temp_name_calm template st st1 :
  calm st st1 -> temp_name template st1 = temp_name template st.
Proof. intros [_ H]. unfold temp_name. rewrite H. reflexivity. Qed.

Lemma rename_cases old new (fs : gmap string (list Z)) d st rc fs' st' :
  fs !! old = None ->
  rename old new (<[old := d]> fs) st = Some (rc, fs', st') ->
  (rc = 0 -> fs' = <[new := d]> fs) /\ (rc <> 0 -> fs' = <[old := d]> fs).
Proof.
  intros Hfresh H. unfold rename in H.
  apply bind_inv in H as (b & s & E & H). destruct b.
  - apply ret_inv in H as [H _]. injection H as <- <-. split; [lia|auto].
  - rewrite lookup_insert_eq in H. apply ret_inv in H as [H _].
    injection H as <- <-. split; [intros _|congruence].
    rewrite delete_insert_eq, delete_id by exact Hfresh. reflexivity.
Qed.

Lemma commit_renamed template fs fn st0 st ofp st1 rv fs' st' :
  calm st st0 -> calm st0 st1 ->
  fs !! temp_name template st0 = None ->
  commit (temp_name template st0) fn ofp
         (<[temp_name template st0 := []]> fs) st1 = Some (rv, fs', st') ->
  renamed template fs fn st fs' st'.
Proof.
  intros H0 H1 Hfresh H. rewrite (temp_name_calm _ _ _ H0) in *.
  unfold commit, fclose_w in H. rewrite insert_insert_eq in H.
  apply bind_inv in H as ([rc fs2] & s & E & H).
  apply ret_inv in H as [H <-]. injection H as _ <-.
  exists (f_data ofp), st1, rc.
  split; [exact Hfresh|]. split; [apply (calm_trans _ _ _ H0 H1)|].
  split; [exact E|]. eapply rename_cases; eassumption.
Qed.

(** The temporary file once [mkstemp] has returned a descriptor. *)
Ltac use_mkstemp :=
  match goal with
  | E : mkstemp _ _ _ = Some _, Hfd : (_ <? 0) = false |- _ =>
    apply mkstemp_calm in E; [|exact Hfd];
    destruct E as (? & ? & ? & ?); subst
  end.

Lemma create_afs_renamed fs fn files st fs' st' :
  Afs.create_afs fs fn files st = Some (0, fs', st') ->
  renamed "afstoolXXXXXX" fs fn st fs' st'.
Proof.
  intros H. unfold Afs.create_afs in H. walk H. use_mkstemp.
  eapply (commit_renamed _ _ _ st); [apply calm_refl| |eassumption|exact H].
  chain_with ltac:(first [file_calm
                         | eapply add_files_to_afs_calm; [eassumption|side]]).
Qed.

Ltac afs_calm :=
  first
    [ file_calm
    | eapply add_files_to_afs_calm; [eassumption|side]
    | eapply scan_afs_calm; [|eassumption|side];
      first [ exact afs_copy_file_cb_calm
            | exact afs_copy_filtered_calm
            | apply afs_copy_update_calm ] ].

Lemma add_to_afs_renamed fs fn files st fs' st' :
  Afs.add_to_afs fs fn files st = Some (0, fs', st') ->
  renamed "afstoolXXXXXX" fs fn st fs' st'.
Proof.
  intros H. unfold Afs.add_to_afs in H. walk H. use_mkstemp.
  eapply (commit_renamed _ _ _ st); [apply calm_refl| |eassumption|exact H].
  chain_with afs_calm.
Qed.

Lemma update_afs_renamed strtoul fs fn fno file st fs' st' :
  Afs.update_afs strtoul fs fn fno file st = Some (0, fs', st') ->
  renamed "afstoolXXXXXX" fs fn st fs' st'.
Proof.
  intros H. unfold Afs.update_afs in H. walk H. use_mkstemp.
  eapply (commit_renamed _ _ _ st); [apply calm_refl| |eassumption|exact H].
  chain_with afs_calm.
Qed.

Lemma delete_from_afs_renamed strtoul fs fn files st fs' st' :
  Afs.delete_from_afs strtoul fs fn files st = Some (0, fs', st') ->
  renamed "afstoolXXXXXX" fs fn st fs' st'.
Proof.
  intros H. unfold Afs.delete_from_afs in H. walk H.
  match goal with
  | E : mkstemp _ _ ?s = Some _, Hfd : (_ <? 0) = false |- _ =>
    apply mkstemp_calm in E; [|exact Hfd];
    destruct E as (? & ? & ? & ?); subst;
    eapply (commit_renamed _ _ _ s); [| |eassumption|exact H];
    chain_with afs_calm
  end.
Qed.

(** ** gsl.c *)

Lemma get_endianness_calm st e st1 :
  get_endianness st = Some (e, st1) -> calm st st1.
Proof. intros H. apply get_endianness_inv in H as ->. apply calm_refl. Qed.

Lemma gsl_offset_calm (e : Z) buf total st o st1 :
  (if e =? Gsl.GSL_AUTO then
     match Gsl.guess_endianness buf total with
     | Some (offset, e) => let* _ := set_endianness e in ret (Some offset)
     | None => let* _ := set_endianness Gsl.GSL_LITTLE in ret None
     end
   else if e =? Gsl.GSL_BIG then ret (Some (get_be32 buf))
   else ret (Some (get_le32 buf))) st = Some (o, st1) ->
  calm st st1.
Proof.
  intros H. destruct (e =? Gsl.GSL_AUTO).
  - destruct (Gsl.guess_endianness buf total) as [[offset e']|];
      apply bind_inv in H as (u & s & E & H); apply ret_inv in H as [_ <-];
      eapply set_endianness_calm; eassumption.
  - destruct (e =? Gsl.GSL_BIG); apply ret_inv in H as [_ <-];
      apply calm_refl.
Qed.

Ltac gsl_prim :=
  first
    [ file_calm
    | eapply get_endianness_calm; eassumption
    | eapply gsl_offset_calm; eassumption ].

Section ScanGsl.
Context {D : Type}.
Variable p : option (FILE -> Z -> Z -> list Z -> D -> IO (Z * FILE * D)).
Hypothesis Hp : forall q, p = Some q ->
  forall fp i sz fn d st r fp' d' st1,
    q fp i sz fn d st = Some (r, fp', d', st1) -> r = 0 -> calm st st1.

Lemma scan_gsl_loop_calm : forall fuel i total fp d st r d' st1,
  Gsl.scan_gsl_loop p fuel i total fp d st = Some (r, d', st1) ->
  0 <= r -> calm st st1.
Proof.
  induction fuel as [|fuel IH]; intros i total fp d st r d' st1 H Hr;
    cbn [Gsl.scan_gsl_loop] in H; [discriminate H|].
  walk H.
  - apply ret_inv in H as [_ <-]. chain_with gsl_prim.
  - apply IH in H; [|exact Hr]. eapply calm_trans; [|exact H].
    destruct p as [q|].
    + chain_with ltac:(first [gsl_prim
                             | eapply (Hp q eq_refl); [eassumption|side]]).
    + match goal with
      | E : ret _ _ = Some _ |- _ =>
        apply ret_inv in E as [E <-]; injection E as <- <- <-
      end.
      chain_with gsl_prim.
Qed.

Lemma scan_gsl_calm fs fn d st r d' st1 :
  Gsl.scan_gsl p fs fn d st = Some (r, d', st1) -> 0 <= r -> calm st st1.
Proof.
  intros H Hr. unfold Gsl.scan_gsl in H. walk H.
  match goal with
  | Hb : ((if ?b then _ else _) <? 0) = false |- _ =>
    destruct b; [discriminate Hb|]
  end.
  apply scan_gsl_loop_calm in H; [|exact Hr].
  eapply calm_trans; [|exact H]. chain.
Qed.
End ScanGsl.

Lemma count_gsl_calm fs fn st r st1 :
  Gsl.count_gsl fs fn st = Some (r, st1) -> 0 <= r -> calm st st1.
Proof.
  intros H Hr. unfold Gsl.count_gsl in H. walk H.
  apply ret_inv in H as [-> <-].
  eapply scan_gsl_calm; [|eassumption|exact Hr]. discriminate.
Qed.

Lemma fwrite_calm_len f bs st n f' st1 :
  fwrite f bs st = Some (n, f', st1) -> n = len bs -> calm st st1.
Proof.
  intros H Hn. eapply fwrite_calm; [exact H|].
  destruct bs; [right; reflexivity|left].
  subst n. unfold len. simpl. lia.
Qed.

Ltac gsl_file :=
  first [ gsl_prim | eapply fwrite_calm_len; [eassumption|side] ].

Lemma add_files_to_gsl_calm basename fs :
  forall files ofp fpos wpos st r ofp' fpos' wpos' st1,
  Gsl.add_files_to_gsl basename fs ofp fpos wpos files st
  = Some (r, ofp', fpos', wpos', st1) ->
  r = 0 -> calm st st1.
Proof.
  induction files as [|file files IH];
    intros ofp fpos wpos st r ofp' fpos' wpos' st1 H ->;
    cbn [Gsl.add_files_to_gsl] in H.
  - apply ret_inv in H as [_ <-]. apply calm_refl.
  - walk H. apply IH in H; [|reflexivity].
    eapply calm_trans; [|exact H]. chain_with gsl_file.
Qed.

Lemma gsl_copy_file_cb_calm fp i sz fn ofp st r fp' ofp' st1 :
  Gsl.copy_file_cb fp i sz fn ofp st = Some (r, fp', ofp', st1) ->
  r = 0 -> calm st st1.
Proof.
  intros H ->. unfold Gsl.copy_file_cb in H. walk H.
  apply ret_inv in H as [_ <-]. chain_with gsl_file.
Qed.

Lemma gsl_copy_filtered_calm fp i sz fn cxt st r fp' cxt' st1 :
  Gsl.copy_filtered fp i sz fn cxt st = Some (r, fp', cxt', st1) ->
  r = 0 -> calm st st1.
Proof.
  intros H ->. unfold Gsl.copy_filtered in H. walk H;
    apply ret_inv in H as [_ <-]; chain_with gsl_file.
Qed.

Lemma gsl_copy_update_calm basename fs fp i sz fn cxt st r fp' cxt' st1 :
  Gsl.copy_update basename fs fp i sz fn cxt st = Some (r, fp', cxt', st1) ->
  r = 0 -> calm st st1.
Proof.
  intros H ->. unfold Gsl.copy_update in H. walk H;
    apply ret_inv in H as [_ <-];
    chain_with ltac:(first [gsl_file
                           | eapply add_files_to_gsl_calm; [eassumption|side]]).
Qed.

Lemma default_endianness_calm (e : Z) st u st1 :
  (if e =? Gsl.GSL_AUTO then set_endianness Gsl.GSL_BIG else ret tt) st
  = Some (u, st1) ->
  calm st st1.
Proof.
  destruct (e =? Gsl.GSL_AUTO); intros H.
  - eapply set_endianness_calm; eassumption.
  - apply ret_inv in H as [_ <-]. apply calm_refl.
Qed.

Ltac gsl_calm :=
  first
    [ gsl_file
    | eapply default_endianness_calm; eassumption
    | eapply add_files_to_gsl_calm; [eassumption|side]
    | eapply count_gsl_calm; [eassumption|side]
    | eapply scan_gsl_calm; [|eassumption|side];
      intros ? Hq; injection Hq as <-;
      first [ exact gsl_copy_file_cb_calm
            | exact gsl_copy_filtered_calm
            | apply gsl_copy_update_calm ] ].

(** [mkstemp] is not the first call of the operations of gsl.c. *)
Ltac gsl_renamed H :=
  walk H;
  match goal with
  | E : mkstemp _ _ ?s = Some _, Hfd : (_ <? 0) = false |- _ =>
    apply mkstemp_calm in E; [|exact Hfd];
    destruct E as (? & ? & ? & ?); subst;
    eapply (commit_renamed _ _ _ s); [| |eassumption|exact H];
    chain_with gsl_calm
  end.

Lemma create_gsl_renamed basename fs fn files st fs' st' :
  Gsl.create_gsl basename fs fn files st = Some (0, fs', st') ->
  renamed "gsltoolXXXXXX" fs fn st fs' st'.
Proof.
  intros H. unfold Gsl.create_gsl in H. gsl_renamed H.
Qed.

Lemma add_to_gsl_renamed basename fs fn files st fs' st' :
  Gsl.add_to_gsl basename fs fn files st = Some (0, fs', st') ->
  renamed "gsltoolXXXXXX" fs fn st fs' st'.
Proof.
  intros H. unfold Gsl.add_to_gsl in H. gsl_renamed H.
Qed.

Lemma update_gsl_renamed basename fs fn file path st fs' st' :
  Gsl.update_gsl basename fs fn file path st = Some (0, fs', st') ->
  renamed "gsltoolXXXXXX" fs fn st fs' st'.
Proof.
  intros H. unfold Gsl.update_gsl in H. gsl_renamed H.
Qed.

Lemma delete_from_gsl_renamed fs fn files st fs' st' :
  Gsl.delete_from_gsl fs fn files st = Some (0, fs', st') ->
  renamed "gsltoolXXXXXX" fs fn st fs' st'.
Proof.
  intros H. unfold Gsl.delete_from_gsl in H. gsl_renamed H.
Qed.

(** ** The newer archive tool *)

Lemma rename_total old new (fs : gmap string (list Z)) :
  total (rename old new fs).
Proof.
  unfold rename. eapply post_bind; [apply fault_total|]. intros b _.
  destruct b; [apply ret_total|]. destruct (fs !! old); apply ret_total.
Qed.

Lemma mkstemp_total (fs : gmap string (list Z)) template :
  total (mkstemp fs template).
Proof. eapply post_mono; [apply mkstemp_spec|]. trivial. Qed.

#[local] Hint Resolve mkstemp_total rename_total : iospec.

Lemma rename_renamed template (fs : gmap string (list Z)) fn st0 st d0 d st1
    rc fs' st' :
  calm st st0 -> calm st0 st1 ->
  fs !! temp_name template st0 = None ->
  rename (temp_name template st0) fn
         (<[temp_name template st0 := d]>
            (<[temp_name template st0 := d0]> fs)) st1
  = Some (rc, fs', st') ->
  renamed template fs fn st fs' st'.
Proof.
  intros H0 H1 Hfresh H. rewrite (temp_name_calm _ _ _ H0) in *.
  rewrite insert_insert_eq in H.
  exists d, st1, rc.
  split; [exact Hfresh|]. split; [apply (calm_trans _ _ _ H0 H1)|].
  split; [exact H|]. eapply rename_cases; eassumption.
Qed.

Lemma mkstemp_failed fs template st fd tmp fs1 st1 :
  mkstemp fs template st = Some (fd, tmp, fs1, st1) -> (fd <? 0) = true ->
  fs1 = fs.
Proof.
  unfold mkstemp. intros H Hfd.
  apply bind_inv in H as (b & s & E & H).
  destruct b; [congruence|].
  destruct (fs !! _); [congruence|].
  assert (fd = 0) by congruence. subst fd. discriminate Hfd.
Qed.

(** A run of a writing operation of the newer tool that has returned: the
    value is not zero and the file system is the one it started from, or
    the run went through [rename]. *)
Ltac new_tool_end H hloop :=
  walk H;
  try match goal with
      | E : mkstemp _ _ _ = Some _, Hfd : (_ <? 0) = true |- _ =>
        apply mkstemp_failed in E; [|exact Hfd]; subst
      end;
  try use_mkstemp;
  apply ret_inv in H as [H <-]; injection H as <- <-;
  let Hn := fresh "Hn" in
  (split; intros Hn);
  [ first [ contradiction Hn; reflexivity
          | rewrite ?insert_insert_eq;
            first [reflexivity | apply unlink_fresh; assumption] ]
  | first [ discriminate Hn
          | eapply (rename_renamed _ _ _ _ _ []);
            [apply calm_refl| |eassumption|eassumption];
            chain_with hloop ] ].

(** [ok = true] for a flag [ok] with [negb ok = false]. *)
Ltac destruct_bool :=
  match goal with
  | H : negb ?b = false |- ?b = true => destruct b; [reflexivity|discriminate H]
  end.

Section NewGslRebuilds.
Variables R W : Type.
Variable read_open : gmap string (list Z) -> string -> Z -> option R.
Variable file_count : R -> Z.
Variable file_name : R -> Z -> Z * string.
Variable file_size : R -> Z -> Z.
Variable file_read : R -> Z -> Z -> Z * list Z.
Variable new_fd : Z -> Z -> option W.
Variable set_ftab_size : W -> Z -> Z * W.
Variable write_add : W -> string -> list Z -> Z -> Z * W.
Variable write_add_file : W -> string -> string -> gmap string (list Z) -> Z * W.
Variable write_close : W -> list Z.
Variable endian : Z.
Variable basename : string -> string.

Lemma new_gsl_copy_entry_calm r w i afn st ok w' st1 :
  NewGsl.copy_entry R W file_size file_read write_add r w i afn st
  = Some (ok, w', st1) ->
  ok = true -> calm st st1.
Proof.
  intros H ->. unfold NewGsl.copy_entry in H. walk H.
  apply ret_inv in H as [_ <-]. chain.
Qed.

Lemma gsl_update_loop_calm fs r oldfn newfn : forall n i replace w st ok w' st1,
  NewGsl.gsl_update_loop R W file_name file_size file_read write_add
    write_add_file fs r oldfn newfn n i replace w st = Some (ok, w', st1) ->
  ok = true -> calm st st1.
Proof.
  induction n as [|n IH]; intros i replace w st ok w' st1 H ->;
    cbn [NewGsl.gsl_update_loop] in H.
  - apply ret_inv in H as [_ <-]. apply calm_refl.
  - walk H.
    + eapply IH; [exact H|reflexivity].
    + apply IH in H; [|reflexivity]. eapply calm_trans; [|exact H].
      eapply new_gsl_copy_entry_calm; [eassumption|destruct_bool].
Qed.

Lemma gsl_delete_loop_calm r files : forall n i skip w st ok w' st1,
  NewGsl.gsl_delete_loop R W file_name file_size file_read write_add
    r files n i skip w st = Some (ok, w', st1) ->
  ok = true -> calm st st1.
Proof.
  induction n as [|n IH]; intros i skip w st ok w' st1 H ->;
    cbn [NewGsl.gsl_delete_loop] in H.
  - apply ret_inv in H as [_ <-]. apply calm_refl.
  - walk H.
    + eapply IH; [exact H|reflexivity].
    + apply IH in H; [|reflexivity]. eapply calm_trans; [|exact H].
      eapply new_gsl_copy_entry_calm; [eassumption|destruct_bool].
Qed.

Lemma new_gsl_rewrite_rebuilds (fs : gmap string (list Z)) fn loop :
  (forall fs r n w, total (loop fs r n w)) ->
  (forall fs r n w st ok w' st1,
     loop fs r n w st = Some (ok, w', st1) -> ok = true -> calm st st1) ->
  rebuilds "artoolXXXXXX" fs fn
    (NewGsl.rewrite_archive R W read_open file_count new_fd set_ftab_size
       write_close endian fs fn loop).
Proof.
  intros Ht Hc st.
  assert (total (NewGsl.rewrite_archive R W read_open file_count new_fd
                   set_ftab_size write_close endian fs fn loop)) as Htot.
  { unfold NewGsl.rewrite_archive. io_total. }
  destruct (Htot st) as ([rv fs'] & st' & E & _).
  exists rv, fs', st'. split; [exact E|].
  unfold NewGsl.rewrite_archive in E.
  new_tool_end E ltac:(eapply Hc; [eassumption|destruct_bool]).
Qed.

Lemma gsl_append_loop_total r : forall n i w,
  total (NewGsl.gsl_append_loop R W file_name file_size file_read write_add
           r n i w).
Proof.
  induction n as [|n IH]; intros i w; cbn [NewGsl.gsl_append_loop];
    io_total.
Qed.

Lemma gsl_add_new_files_total fs : forall files w,
  total (NewGsl.add_new_files W write_add_file basename fs files w).
Proof.
  induction files as [|file files IH]; intros w;
    cbn [NewGsl.add_new_files]; io_total.
Qed.

Lemma gsl_append_loop_calm r : forall n i w st ok w' st1,
  NewGsl.gsl_append_loop R W file_name file_size file_read write_add
    r n i w st = Some (ok, w', st1) ->
  ok = true -> calm st st1.
Proof.
  induction n as [|n IH]; intros i w st ok w' st1 H ->;
    cbn [NewGsl.gsl_append_loop] in H.
  - apply ret_inv in H as [_ <-]. apply calm_refl.
  - walk H. apply IH in H; [|reflexivity].
    eapply calm_trans; [|exact H]. chain.
Qed.

Lemma gsl_add_new_files_calm fs : forall files w st ok w' st1,
  NewGsl.add_new_files W write_add_file basename fs files w st
  = Some (ok, w', st1) ->
  ok = true -> calm st st1.
Proof.
  induction files as [|file files IH]; intros w st ok w' st1 H ->;
    cbn [NewGsl.add_new_files] in H.
  - apply ret_inv in H as [_ <-]. apply calm_refl.
  - walk H. apply IH in H; [|reflexivity].
    eapply calm_trans; [|exact H]. chain.
Qed.

Lemma gsl_append_rebuilds (fs : gmap string (list Z)) fn files :
  rebuilds "artoolXXXXXX" fs fn
    (NewGsl.gsl_append R W read_open file_count file_name file_size
       file_read new_fd set_ftab_size write_add write_add_file write_close
       endian basename fs fn files).
Proof.
  intros st.
  assert (total (NewGsl.gsl_append R W read_open file_count file_name
                   file_size file_read new_fd set_ftab_size write_add
                   write_add_file write_close endian basename fs fn files))
    as Htot.
  { pose proof gsl_append_loop_total. pose proof gsl_add_new_files_total.
    unfold NewGsl.gsl_append. io_total. }
  destruct (Htot st) as ([rv fs'] & st' & E & _).
  exists rv, fs', st'. split; [exact E|].
  unfold NewGsl.gsl_append in E.
  new_tool_end E
    ltac:(first [ eapply gsl_append_loop_calm;
                  [eassumption|destruct_bool]
                | eapply gsl_add_new_files_calm;
                  [eassumption|destruct_bool] ]).
Qed.

Lemma gsl_update_rebuilds (fs : gmap string (list Z)) fn oldfn newfn :
  rebuilds "artoolXXXXXX" fs fn
    (NewGsl.gsl_update R W read_open file_count file_name file_size
       file_read new_fd set_ftab_size write_add write_add_file write_close
       endian fs fn oldfn newfn).
Proof.
  apply new_gsl_rewrite_rebuilds; intros.
  - apply gsl_update_loop_total.
  - eapply gsl_update_loop_calm; eassumption.
Qed.

Lemma gsl_delete_rebuilds (fs : gmap string (list Z)) fn files :
  rebuilds "artoolXXXXXX" fs fn
    (NewGsl.gsl_delete R W read_open file_count file_name file_size
       file_read new_fd set_ftab_size write_add write_close endian
       fs fn files).
Proof.
  apply new_gsl_rewrite_rebuilds; intros.
  - apply gsl_delete_loop_total.
  - eapply gsl_delete_loop_calm; eassumption.
Qed.
End NewGslRebuilds.

Section NewAfsRebuilds.
Variables R W : Type.
Variable read_open : gmap string (list Z) -> string -> Z -> option R.
Variable file_count : R -> Z.
Variable file_name : R -> Z -> Z * string.
Variable file_size : R -> Z -> Z.
Variable file_read : R -> Z -> Z -> Z * list Z.
Variable file_stat : R -> Z -> Z * Z.
Variable new_fd : Z -> Z -> option W.
Variable write_add : W -> string -> list Z -> Z -> Z * W.
Variable write_add_ex : W -> string -> list Z -> Z -> Z -> Z * W.
Variable write_add_file : W -> string -> string -> gmap string (list Z) -> Z * W.
Variable write_close : W -> list Z.
Variable PSOARCHIVE_OK : Z.
Variable make_fntab : Z.
Variable strtoul : string -> Z * bool.
Variable basename : string -> string.
Variable time_now : Z.

Lemma new_afs_copy_entry_total r w i afn ts :
  total (NewAfs.copy_entry R W file_size file_read file_stat write_add_ex
           PSOARCHIVE_OK make_fntab r w i afn ts).
Proof. unfold NewAfs.copy_entry. io_total. Qed.

Lemma new_afs_copy_entry_calm r w i afn ts st ok w' ts' st1 :
  NewAfs.copy_entry R W file_size file_read file_stat write_add_ex
    PSOARCHIVE_OK make_fntab r w i afn ts st = Some (ok, w', ts', st1) ->
  ok = true -> calm st st1.
Proof.
  intros H ->. unfold NewAfs.copy_entry in H. walk H.
  apply ret_inv in H as [_ <-]. chain.
Qed.

Lemma afs_update_loop_total fs r fnum oldfn newfn : forall n i replace ts w,
  total (NewAfs.afs_update_loop R W file_name file_size file_read file_stat
           write_add_ex write_add_file PSOARCHIVE_OK make_fntab fs r fnum
           oldfn newfn n i replace ts w).
Proof.
  pose proof new_afs_copy_entry_total.
  induction n as [|n IH]; intros i replace ts w;
    cbn [NewAfs.afs_update_loop]; io_total.
Qed.

Lemma afs_update_loop_calm fs r fnum oldfn newfn :
  forall n i replace ts w st ok w' st1,
  NewAfs.afs_update_loop R W file_name file_size file_read file_stat
    write_add_ex write_add_file PSOARCHIVE_OK make_fntab fs r fnum
    oldfn newfn n i replace ts w st = Some (ok, w', st1) ->
  ok = true -> calm st st1.
Proof.
  induction n as [|n IH]; intros i replace ts w st ok w' st1 H ->;
    cbn [NewAfs.afs_update_loop] in H.
  - apply ret_inv in H as [_ <-]. apply calm_refl.
  - walk H.
    + eapply IH; [exact H|reflexivity].
    + apply IH in H; [|reflexivity]. eapply calm_trans; [|exact H].
      eapply new_afs_copy_entry_calm; [eassumption|destruct_bool].
Qed.

Lemma afs_delete_loop_total r files : forall n i skip ts w,
  total (NewAfs.afs_delete_loop R W file_name file_size file_read file_stat
           write_add_ex PSOARCHIVE_OK make_fntab strtoul r files n i skip
           ts w).
Proof.
  pose proof new_afs_copy_entry_total.
  induction n as [|n IH]; intros i skip ts w;
    cbn [NewAfs.afs_delete_loop]; io_total.
Qed.

Lemma afs_delete_loop_calm r files : forall n i skip ts w st ok w' st1,
  NewAfs.afs_delete_loop R W file_name file_size file_read file_stat
    write_add_ex PSOARCHIVE_OK make_fntab strtoul r files n i skip ts w st
  = Some (ok, w', st1) ->
  ok = true -> calm st st1.
Proof.
  induction n as [|n IH]; intros i skip ts w st ok w' st1 H ->;
    cbn [NewAfs.afs_delete_loop] in H.
  - apply ret_inv in H as [_ <-]. apply calm_refl.
  - walk H.
    + eapply IH; [exact H|reflexivity].
    + apply IH in H; [|reflexivity]. eapply calm_trans; [|exact H].
      eapply new_afs_copy_entry_calm; [eassumption|destruct_bool].
Qed.

Lemma afs_append_loop_total r : forall n i w,
  total (NewAfs.afs_append_loop R W file_name file_size file_read write_add
           r n i w).
Proof.
  induction n as [|n IH]; intros i w; cbn [NewAfs.afs_append_loop];
    io_total.
Qed.

Lemma afs_append_loop_calm r : forall n i w st ok w' st1,
  NewAfs.afs_append_loop R W file_name file_size file_read write_add
    r n i w st = Some (ok, w', st1) ->
  ok = true -> calm st st1.
Proof.
  induction n as [|n IH]; intros i w st ok w' st1 H ->;
    cbn [NewAfs.afs_append_loop] in H.
  - apply ret_inv in H as [_ <-]. apply calm_refl.
  - walk H. apply IH in H; [|reflexivity].
    eapply calm_trans; [|exact H]. chain.
Qed.

Lemma afs_add_new_files_total fs : forall files w,
  total (NewAfs.add_new_files W write_add_file basename fs files w).
Proof.
  induction files as [|file files IH]; intros w;
    cbn [NewAfs.add_new_files]; io_total.
Qed.

Lemma afs_add_new_files_calm fs : forall files w st ok w' st1,
  NewAfs.add_new_files W write_add_file basename fs files w st
  = Some (ok, w', st1) ->
  ok = true -> calm st st1.
Proof.
  induction files as [|file files IH]; intros w st ok w' st1 H ->;
    cbn [NewAfs.add_new_files] in H.
  - apply ret_inv in H as [_ <-]. apply calm_refl.
  - walk H. apply IH in H; [|reflexivity].
    eapply calm_trans; [|exact H]. chain.
Qed.

Lemma new_afs_rewrite_rebuilds (fs : gmap string (list Z)) fn loop :
  (forall fs r n w, total (loop fs r n w)) ->
  (forall fs r n w st ok w' st1,
     loop fs r n w st = Some (ok, w', st1) -> ok = true -> calm st st1) ->
  rebuilds "artoolXXXXXX" fs fn
    (NewAfs.rewrite_archive R W read_open file_count new_fd write_close
       make_fntab fs fn loop).
Proof.
  intros Ht Hc st.
  assert (total (NewAfs.rewrite_archive R W read_open file_count new_fd
                   write_close make_fntab fs fn loop)) as Htot.
  { unfold NewAfs.rewrite_archive. io_total. }
  destruct (Htot st) as ([rv fs'] & st' & E & _).
  exists rv, fs', st'. split; [exact E|].
  unfold NewAfs.rewrite_archive in E.
  new_tool_end E ltac:(eapply Hc; [eassumption|destruct_bool]).
Qed.

Lemma afs_append_rebuilds (fs : gmap string (list Z)) fn files :
  rebuilds "artoolXXXXXX" fs fn
    (NewAfs.afs_append R W read_open file_count file_name file_size
       file_read new_fd write_add write_add_file write_close make_fntab
       basename fs fn files).
Proof.
  apply new_afs_rewrite_rebuilds.
  - intros fs1 r n w. pose proof afs_append_loop_total.
    pose proof afs_add_new_files_total. io_total.
  - intros fs1 r n w st ok w' st1 H ->. walk H.
    apply afs_add_new_files_calm in H; [|reflexivity].
    eapply calm_trans; [|exact H].
    eapply afs_append_loop_calm; [eassumption|destruct_bool].
Qed.

Lemma afs_update_rebuilds (fs : gmap string (list Z)) fn oldfn newfn :
  rebuilds "artoolXXXXXX" fs fn
    (NewAfs.afs_update R W read_open file_count file_name file_size
       file_read file_stat new_fd write_add_ex write_add_file write_close
       PSOARCHIVE_OK make_fntab strtoul time_now fs fn oldfn newfn).
Proof.
  unfold NewAfs.afs_update.
  destruct ((make_fntab =? 0) && snd (strtoul oldfn)).
  - intros st. exists NewAfs.EXIT_FAILURE, fs, st.
    split; [reflexivity|]. split; [reflexivity|discriminate].
  - apply new_afs_rewrite_rebuilds; intros.
    + apply afs_update_loop_total.
    + eapply afs_update_loop_calm; eassumption.
Qed.

Lemma afs_delete_rebuilds (fs : gmap string (list Z)) fn files :
  rebuilds "artoolXXXXXX" fs fn
    (NewAfs.afs_delete R W read_open file_count file_name file_size
       file_read file_stat new_fd write_add_ex write_close PSOARCHIVE_OK
       make_fntab strtoul time_now fs fn files).
Proof.
  apply new_afs_rewrite_rebuilds; intros.
  - apply afs_delete_loop_total.
  - eapply afs_delete_loop_calm; eassumption.
Qed.
End NewAfsRebuilds.

Lemma rebuilds_intro template (fs : gmap string (list Z)) fn m :
  post m (outcome fs fn) ->
  (forall st fs' st',
     m st = Some (0, fs', st') -> renamed template fs fn st fs' st') ->
  rebuilds template fs fn m.
Proof.
  intros Hout Hzero st.
  destruct (Hout st) as ([rv fs'] & st' & E & Hfail & _).
  exists rv, fs', st'. split; [exact E|]. split; [exact Hfail|].
  intros ->. apply Hzero, E.
Qed.

Section Rebuilding.
(** The C library and libpsoarchive, as the tools use them. *)
Variable strtoul : string -> Z * bool.
Variable basename : string -> string.
Variable time_now : Z.
Variables pso_gsl_read_t pso_gsl_write_t : Type.
Variable pso_gsl_read_open :
  gmap string (list Z) -> string -> Z -> option pso_gsl_read_t.
Variable pso_gsl_file_count : pso_gsl_read_t -> Z.
Variable pso_gsl_file_name : pso_gsl_read_t -> Z -> Z * string.
Variable pso_gsl_file_size : pso_gsl_read_t -> Z -> Z.
Variable pso_gsl_file_read : pso_gsl_read_t -> Z -> Z -> Z * list Z.
Variable pso_gsl_new_fd : Z -> Z -> option pso_gsl_write_t.
Variable pso_gsl_write_set_ftab_size :
  pso_gsl_write_t -> Z -> Z * pso_gsl_write_t.
Variable pso_gsl_write_add :
  pso_gsl_write_t -> string -> list Z -> Z -> Z * pso_gsl_write_t.
Variable pso_gsl_write_add_file :
  pso_gsl_write_t -> string -> string -> gmap string (list Z)
  -> Z * pso_gsl_write_t.
Variable pso_gsl_write_close : pso_gsl_write_t -> list Z.
Variable endian : Z.
Variables pso_afs_read_t pso_afs_write_t : Type.
Variable pso_afs_read_open :
  gmap string (list Z) -> string -> Z -> option pso_afs_read_t.
Variable pso_afs_file_count : pso_afs_read_t -> Z.
Variable pso_afs_file_name : pso_afs_read_t -> Z -> Z * string.
Variable pso_afs_file_size : pso_afs_read_t -> Z -> Z.
Variable pso_afs_file_read : pso_afs_read_t -> Z -> Z -> Z * list Z.
Variable pso_afs_file_stat : pso_afs_read_t -> Z -> Z * Z.
Variable pso_afs_new_fd : Z -> Z -> option pso_afs_write_t.
Variable pso_afs_write_add :
  pso_afs_write_t -> string -> list Z -> Z -> Z * pso_afs_write_t.
Variable pso_afs_write_add_ex :
  pso_afs_write_t -> string -> list Z -> Z -> Z -> Z * pso_afs_write_t.
Variable pso_afs_write_add_file :
  pso_afs_write_t -> string -> string -> gmap string (list Z)
  -> Z * pso_afs_write_t.
Variable pso_afs_write_close : pso_afs_write_t -> list Z.
Variable PSOARCHIVE_OK : Z.
Variable make_fntab : Z.

End Rebuilding.
